(** * Cedar double-array trie: a shallow embedding of [cedar.go]

    The Go code mutates one [Cedar] value through pointers.  The embedding
    threads that value through a small state-and-panic monad: an index
    outside a slice is a runtime panic, the explicit [panic] at the end of
    [follow] is a panic of its own kind, and every loop whose bound is not
    visible in the source is given fuel.  Go's [int] is 64 bits wide; the
    arithmetic below writes the wrap-around out. *)

From Stdlib Require Import ZArith Lia Bool List.
From Stdlib.Strings Require Import Byte.
From stdpp Require Import base numbers list.
From stdpp Require gmap.

Open Scope Z_scope.

(** ** Machine integers *)

Module Int.
Definition wrap (x : Z) : Z := (x + 2 ^ 63) mod 2 ^ 64 - 2 ^ 63.
Definition neg (x : Z) : Z := wrap (- x).
Definition add (x y : Z) : Z := wrap (x + y).
Definition sub (x y : Z) : Z := wrap (x - y).
Definition shl8 (x : Z) : Z := wrap (Z.shiftl x 8).
Definition shr8 (x : Z) : Z := Z.shiftr x 8.
Definition xor (x y : Z) : Z := Z.lxor x y.
Definition inrange (x : Z) : Prop := - 2 ^ 63 <= x < 2 ^ 63.
End Int.

(** [ValueLimit = int(^uint(0) >> 1)] *)
Definition ValueLimit : Z := 2 ^ 63 - 1.

(** [int(label)] for a byte *)
Definition b2z (b : byte) : Z := Z.of_N (Byte.to_N b).

(** ** Data *)

Record node := mkNode { Value : Z; Check : Z }.

Definition base (n : node) : Z := Int.neg (Int.add (Value n) 1).

Record ninfo := mkNinfo { Sibling : byte; Child : byte; End_ : bool }.

Record block := mkBlock {
  Prev : Z; Next : Z; Num : Z; bReject : Z; Trial : Z; Ehead : Z }.

Definition zeroNode : node := mkNode 0 0.
Definition zeroNinfo : ninfo := mkNinfo x00 x00 false.
Definition zeroBlock : block := mkBlock 0 0 0 0 0 0.

(** [(b *block) init()] *)
Definition init (b : block) : block :=
  mkBlock (Prev b) (Next b) 256 257 (Trial b) (Ehead b).

Record Cedar := mkCedar {
  Array : list node;
  Ninfos : list ninfo;
  Blocks : list block;
  Reject : list Z;
  vkey : Z;
  BheadF : Z;
  BheadC : Z;
  BheadO : Z;
  Capacity : Z;
  Size : Z;
  Ordered : bool;
  MaxTrial : Z }.

(** Field updates. *)
Definition withArray (a : list node) (s : Cedar) : Cedar :=
  mkCedar a (Ninfos s) (Blocks s) (Reject s) (vkey s) (BheadF s) (BheadC s)
    (BheadO s) (Capacity s) (Size s) (Ordered s) (MaxTrial s).
Definition withNinfos (a : list ninfo) (s : Cedar) : Cedar :=
  mkCedar (Array s) a (Blocks s) (Reject s) (vkey s) (BheadF s) (BheadC s)
    (BheadO s) (Capacity s) (Size s) (Ordered s) (MaxTrial s).
Definition withBlocks (a : list block) (s : Cedar) : Cedar :=
  mkCedar (Array s) (Ninfos s) a (Reject s) (vkey s) (BheadF s) (BheadC s)
    (BheadO s) (Capacity s) (Size s) (Ordered s) (MaxTrial s).
Definition withReject (a : list Z) (s : Cedar) : Cedar :=
  mkCedar (Array s) (Ninfos s) (Blocks s) a (vkey s) (BheadF s) (BheadC s)
    (BheadO s) (Capacity s) (Size s) (Ordered s) (MaxTrial s).
Definition withBheadF (h : Z) (s : Cedar) : Cedar :=
  mkCedar (Array s) (Ninfos s) (Blocks s) (Reject s) (vkey s) h (BheadC s)
    (BheadO s) (Capacity s) (Size s) (Ordered s) (MaxTrial s).
Definition withBheadC (h : Z) (s : Cedar) : Cedar :=
  mkCedar (Array s) (Ninfos s) (Blocks s) (Reject s) (vkey s) (BheadF s) h
    (BheadO s) (Capacity s) (Size s) (Ordered s) (MaxTrial s).
Definition withBheadO (h : Z) (s : Cedar) : Cedar :=
  mkCedar (Array s) (Ninfos s) (Blocks s) (Reject s) (vkey s) (BheadF s)
    (BheadC s) h (Capacity s) (Size s) (Ordered s) (MaxTrial s).
Definition withCapacity (c : Z) (s : Cedar) : Cedar :=
  mkCedar (Array s) (Ninfos s) (Blocks s) (Reject s) (vkey s) (BheadF s)
    (BheadC s) (BheadO s) c (Size s) (Ordered s) (MaxTrial s).
Definition withSize (n : Z) (s : Cedar) : Cedar :=
  mkCedar (Array s) (Ninfos s) (Blocks s) (Reject s) (vkey s) (BheadF s)
    (BheadC s) (BheadO s) (Capacity s) n (Ordered s) (MaxTrial s).
Definition withOrdered (o : bool) (s : Cedar) : Cedar :=
  mkCedar (Array s) (Ninfos s) (Blocks s) (Reject s) (vkey s) (BheadF s)
    (BheadC s) (BheadO s) (Capacity s) (Size s) o (MaxTrial s).

(** ** Slices indexed by an [int] *)

Definition idx {A : Type} (l : list A) (i : Z) : option A :=
  if i <? 0 then None else l !! Z.to_nat i.

Definition upd {A : Type} (l : list A) (i : Z) (x : A) : list A :=
  <[Z.to_nat i := x]> l.

(** [make([]T, n)] followed by [copy(new, old)] *)
Definition grow {A : Type} (zero : A) (n : Z) (old : list A) : list A :=
  let fresh := replicate (Z.to_nat n) zero in
  take (length fresh) old ++ drop (length old) fresh.

(** ** The monad: state, panics and fuel *)

Inductive panic := IndexOutOfRange | LenOutOfRange | InternalError.

Inductive outcome (A : Type) :=
| Ok (a : A) (s : Cedar)
| Panic (p : panic)
| OutOfFuel.
Arguments Ok {A} a s.
Arguments Panic {A} p.
Arguments OutOfFuel {A}.

Definition M (A : Type) : Type := Cedar -> outcome A.

Definition ret {A} (a : A) : M A := fun s => Ok a s.
Definition bind {A B} (m : M A) (k : A -> M B) : M B :=
  fun s => match m s with
           | Ok a s' => k a s'
           | Panic p => Panic p
           | OutOfFuel => OutOfFuel
           end.
Definition throw {A} (p : panic) : M A := fun _ => Panic p.
Definition diverge {A} : M A := fun _ => OutOfFuel.
Definition gets {A} (f : Cedar -> A) : M A := fun s => Ok (f s) s.
Definition modify (f : Cedar -> Cedar) : M unit := fun s => Ok tt (f s).

Notation "x <- m ;; k" := (bind m (fun x => k))
  (at level 100, m at next level, right associativity).
Notation "m ;;; k" := (bind m (fun _ => k))
  (at level 100, right associativity).

Definition when (c : bool) (m : M unit) : M unit := if c then m else ret tt.

(** Element reads and writes; each checks the index as Go does. *)
Definition rdNode (i : Z) : M node :=
  fun s => match idx (Array s) i with
           | Some n => Ok n s
           | None => Panic IndexOutOfRange
           end.
Definition wrNode (i : Z) (n : node) : M unit :=
  _ <- rdNode i ;; modify (fun s => withArray (upd (Array s) i n) s).
Definition rdValue (i : Z) : M Z := n <- rdNode i ;; ret (Value n).
Definition rdCheck (i : Z) : M Z := n <- rdNode i ;; ret (Check n).
Definition rdBase (i : Z) : M Z := n <- rdNode i ;; ret (base n).
Definition wrValue (i v : Z) : M unit :=
  n <- rdNode i ;; wrNode i (mkNode v (Check n)).
Definition wrCheck (i v : Z) : M unit :=
  n <- rdNode i ;; wrNode i (mkNode (Value n) v).

Definition rdNinfo (i : Z) : M ninfo :=
  fun s => match idx (Ninfos s) i with
           | Some n => Ok n s
           | None => Panic IndexOutOfRange
           end.
Definition wrNinfo (i : Z) (n : ninfo) : M unit :=
  _ <- rdNinfo i ;; modify (fun s => withNinfos (upd (Ninfos s) i n) s).
Definition rdSibling (i : Z) : M byte := n <- rdNinfo i ;; ret (Sibling n).
Definition rdChild (i : Z) : M byte := n <- rdNinfo i ;; ret (Child n).
Definition wrSibling (i : Z) (b : byte) : M unit :=
  n <- rdNinfo i ;; wrNinfo i (mkNinfo b (Child n) (End_ n)).
Definition wrChild (i : Z) (b : byte) : M unit :=
  n <- rdNinfo i ;; wrNinfo i (mkNinfo (Sibling n) b (End_ n)).

Definition rdBlock (i : Z) : M block :=
  fun s => match idx (Blocks s) i with
           | Some b => Ok b s
           | None => Panic IndexOutOfRange
           end.
Definition wrBlock (i : Z) (b : block) : M unit :=
  _ <- rdBlock i ;; modify (fun s => withBlocks (upd (Blocks s) i b) s).
Definition wrPrev (i v : Z) : M unit :=
  b <- rdBlock i ;;
  wrBlock i (mkBlock v (Next b) (Num b) (bReject b) (Trial b) (Ehead b)).
Definition wrNext (i v : Z) : M unit :=
  b <- rdBlock i ;;
  wrBlock i (mkBlock (Prev b) v (Num b) (bReject b) (Trial b) (Ehead b)).
Definition wrNum (i v : Z) : M unit :=
  b <- rdBlock i ;;
  wrBlock i (mkBlock (Prev b) (Next b) v (bReject b) (Trial b) (Ehead b)).
Definition wrBReject (i v : Z) : M unit :=
  b <- rdBlock i ;;
  wrBlock i (mkBlock (Prev b) (Next b) (Num b) v (Trial b) (Ehead b)).
Definition wrTrial (i v : Z) : M unit :=
  b <- rdBlock i ;;
  wrBlock i (mkBlock (Prev b) (Next b) (Num b) (bReject b) v (Ehead b)).
Definition wrEhead (i v : Z) : M unit :=
  b <- rdBlock i ;;
  wrBlock i (mkBlock (Prev b) (Next b) (Num b) (bReject b) (Trial b) v).

Definition rdReject (i : Z) : M Z :=
  fun s => match idx (Reject s) i with
           | Some r => Ok r s
           | None => Panic IndexOutOfRange
           end.
Definition wrReject (i v : Z) : M unit :=
  _ <- rdReject i ;; modify (fun s => withReject (upd (Reject s) i v) s).

(** [headIn *int], [headOut *int]: a pointer to one of the three ring heads. *)
Inductive headptr := HeadF | HeadC | HeadO.

Definition headOf (h : headptr) (s : Cedar) : Z :=
  match h with HeadF => BheadF s | HeadC => BheadC s | HeadO => BheadO s end.
Definition rdHead (h : headptr) : M Z := gets (headOf h).
Definition wrHead (h : headptr) (v : Z) : M unit :=
  modify (match h with
          | HeadF => withBheadF v
          | HeadC => withBheadC v
          | HeadO => withBheadO v
          end).

(** [c *byte]: a pointer to the [Child] or the [Sibling] field of a node info. *)
Inductive byteptr := ChildOf (i : Z) | SiblingOf (i : Z).

Definition addrChild (i : Z) : M byteptr := _ <- rdNinfo i ;; ret (ChildOf i).
Definition addrSibling (i : Z) : M byteptr :=
  _ <- rdNinfo i ;; ret (SiblingOf i).
Definition deref (p : byteptr) : M byte :=
  match p with ChildOf i => rdChild i | SiblingOf i => rdSibling i end.
Definition store (p : byteptr) (b : byte) : M unit :=
  match p with ChildOf i => wrChild i b | SiblingOf i => wrSibling i b end.

(** [key[pos]], [child[i]] *)
Definition at_ (l : list byte) (i : Z) : M byte :=
  fun s => match idx l i with
           | Some b => Ok b s
           | None => Panic IndexOutOfRange
           end.

Definition len {A} (l : list A) : Z := Z.of_nat (length l).

Definition rdPrev (i : Z) : M Z := b <- rdBlock i ;; ret (Prev b).
Definition rdNext (i : Z) : M Z := b <- rdBlock i ;; ret (Next b).
Definition rdNum (i : Z) : M Z := b <- rdBlock i ;; ret (Num b).
Definition rdBReject (i : Z) : M Z := b <- rdBlock i ;; ret (bReject b).
Definition rdTrial (i : Z) : M Z := b <- rdBlock i ;; ret (Trial b).
Definition rdEhead (i : Z) : M Z := b <- rdBlock i ;; ret (Ehead b).

(** [for i := lo; ...; i++] with a known number of rounds *)
Fixpoint forZ (n : nat) (i : Z) (body : Z -> M unit) : M unit :=
  match n with
  | O => ret tt
  | S n' => body i ;;; forZ n' (Int.add i 1) body
  end.

(** ** [New] *)

Definition setValue (l : list node) (i v : Z) : list node :=
  match idx l i with Some n => upd l i (mkNode v (Check n)) | None => l end.
Definition setCheck (l : list node) (i v : Z) : list node :=
  match idx l i with Some n => upd l i (mkNode (Value n) v) | None => l end.

Definition New : Cedar :=
  let a0 := replicate 256 zeroNode in
  let a1 := upd a0 0 (mkNode (-2) 0) in
  let a2 := foldl (fun a i => upd a i (mkNode (- (i - 1)) (- (i + 1))))
                  a1 (seqZ 1 255) in
  let a3 := setValue a2 1 (-255) in
  let a4 := setCheck a3 255 (-1) in
  let b0 := init (mkBlock 0 0 0 0 0 1) in
  mkCedar a4 (replicate 256 zeroNinfo) [b0]
          ((fun i => i + 1) <$> seqZ 0 257)
          1 0 0 0 256 256 true 1.

(** ** Block rings *)

Definition popBlock (bi : Z) (headIn : headptr) (last : bool) : M unit :=
  if last then wrHead headIn 0
  else
    _ <- rdBlock bi ;;
    p <- rdPrev bi ;; n <- rdNext bi ;; wrNext p n ;;;
    n <- rdNext bi ;; p <- rdPrev bi ;; wrPrev n p ;;;
    h <- rdHead headIn ;;
    if bi =? h then n <- rdNext bi ;; wrHead headIn n else ret tt.

Definition pushBlock (bi : Z) (headOut : headptr) (empty : bool) : M unit :=
  _ <- rdBlock bi ;;
  if empty then
    wrHead headOut bi ;;; wrPrev bi bi ;;; wrNext bi bi
  else
    h <- rdHead headOut ;;
    _ <- rdBlock h ;;
    t <- rdPrev h ;; wrPrev bi t ;;;
    h' <- rdHead headOut ;; wrNext bi h' ;;;
    t' <- rdPrev h ;;
    wrHead headOut bi ;;; wrPrev h bi ;;; wrNext t' bi.

Definition transferBlock (bi : Z) (headIn headOut : headptr) : M unit :=
  nx <- rdNext bi ;;
  popBlock bi headIn (bi =? nx) ;;;
  h <- rdHead headOut ;;
  empty <- (if h =? 0 then n <- rdNum bi ;; ret (negb (n =? 0))
            else ret false) ;;
  pushBlock bi headOut empty.

(** [make] panics on a negative length. *)
Definition makeLen (n : Z) : M unit :=
  if n <? 0 then throw LenOutOfRange else ret tt.

Definition addBlock : M Z :=
  sz <- gets Size ;; cap <- gets Capacity ;;
  (if sz =? cap then
     modify (fun s => withCapacity (Int.add (Capacity s) (Capacity s)) s) ;;;
     c <- gets Capacity ;;
     makeLen c ;;;
     modify (fun s => withArray (grow zeroNode c (Array s)) s) ;;;
     c <- gets Capacity ;;
     makeLen c ;;;
     modify (fun s => withNinfos (grow zeroNinfo c (Ninfos s)) s) ;;;
     c <- gets Capacity ;;
     makeLen (Int.shr8 c) ;;;
     modify (fun s => withBlocks (grow zeroBlock (Int.shr8 c) (Blocks s)) s)
   else ret tt) ;;;
  sz <- gets Size ;;
  b <- rdBlock (Int.shr8 sz) ;; wrBlock (Int.shr8 sz) (init b) ;;;
  sz <- gets Size ;;
  wrEhead (Int.shr8 sz) sz ;;;
  sz <- gets Size ;;
  wrNode sz (mkNode (Int.neg (Int.add sz 255)) (Int.neg (Int.add sz 1))) ;;;
  sz <- gets Size ;;
  forZ (Z.to_nat (Int.add sz 255 - Int.add sz 1)) (Int.add sz 1)
       (fun i => wrNode i (mkNode (Int.neg (Int.sub i 1))
                                  (Int.neg (Int.add i 1)))) ;;;
  sz <- gets Size ;;
  wrNode (Int.add sz 255) (mkNode (Int.neg (Int.add sz 254)) (Int.neg sz)) ;;;
  sz <- gets Size ;; ho <- gets BheadO ;;
  pushBlock (Int.shr8 sz) HeadO (ho =? 0) ;;;
  modify (fun s => withSize (Int.add (Size s) 256) s) ;;;
  sz <- gets Size ;;
  ret (Int.sub (Int.shr8 sz) 1).

Definition findPlace : M Z :=
  hc <- gets BheadC ;;
  if negb (hc =? 0) then rdEhead hc
  else
    ho <- gets BheadO ;;
    if negb (ho =? 0) then rdEhead ho
    else bi <- addBlock ;; ret (Int.shl8 bi).

(** ** Free slots *)

Definition popEnode (base from : Z) (label : byte) : M Z :=
  e <- (if base <? 0 then findPlace
        else ret (Int.xor base (b2z label))) ;;
  let bi := Int.shr8 e in
  _ <- rdNode e ;;
  _ <- rdBlock bi ;;
  num <- rdNum bi ;; wrNum bi (Int.sub num 1) ;;;
  num <- rdNum bi ;;
  (if num =? 0 then
     when (negb (bi =? 0)) (transferBlock bi HeadC HeadF)
   else
     v <- rdValue e ;; c <- rdCheck e ;; wrCheck (Int.neg v) c ;;;
     c <- rdCheck e ;; v <- rdValue e ;; wrValue (Int.neg c) v ;;;
     eh <- rdEhead bi ;;
     (if e =? eh then c <- rdCheck e ;; wrEhead bi (Int.neg c)
      else ret tt) ;;;
     num <- rdNum bi ;; tr <- rdTrial bi ;; mt <- gets MaxTrial ;;
     when (negb (bi =? 0) && (num =? 1) && negb (tr =? mt))
          (transferBlock bi HeadO HeadC)) ;;;
  wrValue e ValueLimit ;;;
  wrCheck e from ;;;
  when (base <? 0)
       (wrValue from (Int.sub (Int.neg (Int.xor e (b2z label))) 1)) ;;;
  ret e.

Definition pushEnode (e : Z) : M unit :=
  let bi := Int.shr8 e in
  _ <- rdBlock bi ;;
  num <- rdNum bi ;; wrNum bi (Int.add num 1) ;;;
  num <- rdNum bi ;;
  (if num =? 1 then
     wrEhead bi e ;;;
     wrNode e (mkNode (Int.neg e) (Int.neg e)) ;;;
     when (negb (bi =? 0)) (transferBlock bi HeadF HeadC)
   else
     prev <- rdEhead bi ;;
     c <- rdCheck prev ;;
     let next := Int.neg c in
     wrNode e (mkNode (Int.neg prev) (Int.neg next)) ;;;
     wrCheck prev (Int.neg e) ;;;
     wrValue next (Int.neg e) ;;;
     num <- rdNum bi ;; tr <- rdTrial bi ;; mt <- gets MaxTrial ;;
     when ((num =? 2) || (tr =? mt))
          (when (negb (bi =? 0)) (transferBlock bi HeadC HeadO)) ;;;
     wrTrial bi 0) ;;;
  r <- rdBReject bi ;; num <- rdNum bi ;; g <- rdReject num ;;
  when (r <? g) (num <- rdNum bi ;; g <- rdReject num ;; wrBReject bi g) ;;;
  wrNinfo e zeroNinfo.

(** ** Sibling chains *)

Fixpoint pushSibling_walk (fuel : nat) (base : Z) (label : byte)
    (c : byteptr) : M byteptr :=
  match fuel with
  | O => diverge
  | S f =>
    o <- gets Ordered ;;
    cv <- deref c ;;
    if o && negb (b2z cv =? 0) && (b2z cv <? b2z label) then
      c' <- addrSibling (Int.xor base (b2z cv)) ;;
      pushSibling_walk f base label c'
    else ret c
  end.

Definition pushSibling (fuel : nat) (from base : Z) (label : byte)
    (hasChild : bool) : M unit :=
  c <- addrChild from ;;
  cv <- deref c ;;
  o <- gets Ordered ;;
  let keepOrder := if o then b2z cv <? b2z label else b2z cv =? 0 in
  c <- (if hasChild && keepOrder then
          cv <- deref c ;;
          c1 <- addrSibling (Int.xor base (b2z cv)) ;;
          pushSibling_walk fuel base label c1
        else ret c) ;;
  cv <- deref c ;;
  wrSibling (Int.xor base (b2z label)) cv ;;;
  store c label.

Fixpoint popSibling_walk (fuel : nat) (base : Z) (label : byte)
    (c : byteptr) : M byteptr :=
  match fuel with
  | O => diverge
  | S f =>
    cv <- deref c ;;
    if negb (Byte.eqb cv label) then
      c' <- addrSibling (Int.xor base (b2z cv)) ;;
      popSibling_walk f base label c'
    else ret c
  end.

Definition popSibling (fuel : nat) (from base : Z) (label : byte) : M unit :=
  c <- addrChild from ;;
  c <- popSibling_walk fuel base label c ;;
  cv <- deref c ;;
  sb <- rdSibling (Int.xor base (b2z cv)) ;;
  store c sb.

Fixpoint consult_loop (fuel : nat) (baseN baseP : Z) (cN cP : byte)
    : M bool :=
  match fuel with
  | O => diverge
  | S f =>
    if negb (b2z cN =? 0) && negb (b2z cP =? 0) then
      cN' <- rdSibling (Int.xor baseN (b2z cN)) ;;
      cP' <- rdSibling (Int.xor baseP (b2z cP)) ;;
      consult_loop f baseN baseP cN' cP'
    else ret (negb (b2z cP =? 0))
  end.

Definition consult (fuel : nat) (baseN baseP : Z) (cN cP : byte) : M bool :=
  cN' <- rdSibling (Int.xor baseN (b2z cN)) ;;
  cP' <- rdSibling (Int.xor baseP (b2z cP)) ;;
  consult_loop fuel baseN baseP cN' cP'.

(** The loop [for c != 0 && c <= label] of [setChild]. *)
Fixpoint setChild_upto (fuel : nat) (base : Z) (label c : byte)
    (child : list byte) : M (byte * list byte) :=
  match fuel with
  | O => diverge
  | S f =>
    if negb (b2z c =? 0) && (b2z c <=? b2z label) then
      c' <- rdSibling (Int.xor base (b2z c)) ;;
      setChild_upto f base label c' (child ++ [c])
    else ret (c, child)
  end.

(** The loop [for c != 0] of [setChild]. *)
Fixpoint setChild_rest (fuel : nat) (base : Z) (c : byte)
    (child : list byte) : M (list byte) :=
  match fuel with
  | O => diverge
  | S f =>
    if negb (b2z c =? 0) then
      c' <- rdSibling (Int.xor base (b2z c)) ;;
      setChild_rest f base c' (child ++ [c])
    else ret child
  end.

Definition setChild (fuel : nat) (base : Z) (c label : byte) (flag : bool)
    : M (list byte) :=
  p <- (if b2z c =? 0 then
          c' <- rdSibling (Int.xor base (b2z c)) ;; ret (c', [c])
        else ret (c, [])) ;;
  o <- gets Ordered ;;
  p <- (if o then setChild_upto fuel base label (fst p) (snd p)
        else ret p) ;;
  let child := if flag then snd p ++ [label] else snd p in
  setChild_rest fuel base (fst p) child.

(** ** Placement *)

(** The inner loop of [listEhead]:
    [for i := 0; da.Array[base^int(child[i])].Check < 0; i++]. *)
Fixpoint listEhead_fits (n : nat) (base : Z) (child : list byte) (i : Z)
    : M bool :=
  match n with
  | O => throw IndexOutOfRange
  | S n' =>
    ci <- at_ child i ;;
    ck <- rdCheck (Int.xor base (b2z ci)) ;;
    if ck <? 0 then
      if i =? len child - 1 then ret true
      else listEhead_fits n' base child (i + 1)
    else ret false
  end.

Fixpoint listEhead_loop (fuel : nat) (bi : Z) (child : list byte) (e : Z)
    : M Z :=
  match fuel with
  | O => diverge
  | S f =>
    c0 <- at_ child 0 ;;
    let base := Int.xor e (b2z c0) in
    ok <- listEhead_fits (length child) base child 0 ;;
    if ok then wrEhead bi e ;;; ret e
    else
      ck <- rdCheck e ;;
      let e' := Int.neg ck in
      eh <- rdEhead bi ;;
      if e' =? eh then ret 0 else listEhead_loop f bi child e'
  end.

Definition listEhead (fuel : nat) (bi : Z) (child : list byte) : M Z :=
  e <- rdEhead bi ;; listEhead_loop fuel bi child e.

Fixpoint listBi_loop (fuel : nat) (bi bz : Z) (child : list byte) : M Z :=
  match fuel with
  | O => diverge
  | S f =>
    let nc := len child in
    b <- rdBlock bi ;;
    e <- (if (nc <=? Num b) && (nc <? bReject b) then listEhead f bi child
          else ret 0) ;;
    if 0 <? e then ret e
    else
      wrBReject bi nc ;;;
      r <- rdBReject bi ;; num <- rdNum bi ;; g <- rdReject num ;;
      when (r <? g) (num <- rdNum bi ;; r <- rdBReject bi ;;
                     wrReject num r) ;;;
      biN <- rdNext bi ;;
      tr <- rdTrial bi ;; wrTrial bi (Int.add tr 1) ;;;
      tr <- rdTrial bi ;; mt <- gets MaxTrial ;;
      when (tr =? mt) (transferBlock bi HeadO HeadC) ;;;
      if bi =? bz then ret 0 else listBi_loop f biN bz child
  end.

Definition listBi (fuel : nat) (bi : Z) (child : list byte) : M Z :=
  ho <- gets BheadO ;;
  bz <- rdPrev ho ;;
  listBi_loop fuel bi bz child.

Definition findPlaces (fuel : nat) (child : list byte) : M Z :=
  bi <- gets BheadO ;;
  e <- (if negb (bi =? 0) then listBi fuel bi child else ret 0) ;;
  if negb (bi =? 0) && (0 <? e) then ret e
  else bi' <- addBlock ;; ret (Int.shl8 bi').

(** ** Relocation *)

(** The loop [for c != 0] of [list] that fixes the [Check] of the moved
    node's children. *)
Fixpoint list_rewire (fuel : nat) (to : Z) (c : byte) : M unit :=
  match fuel with
  | O => diverge
  | S f =>
    if negb (b2z c =? 0) then
      b <- rdBase to ;; wrCheck (Int.xor b (b2z c)) to ;;;
      b <- rdBase to ;; c' <- rdSibling (Int.xor b (b2z c)) ;;
      list_rewire f to c'
    else ret tt
  end.

Fixpoint list_loop (n : nat) (fuel : nat) (i : Z)
    (base from nbase fromN toPn : Z) (labelN : byte) (children : list byte)
    (flag : bool) : M unit :=
  match n with
  | O => ret tt
  | S n' =>
    ci <- at_ children i ;;
    to <- popEnode base from ci ;;
    let newTo := Int.xor nbase (b2z ci) in
    (if i =? len children - 1 then wrSibling to x00
     else c1 <- at_ children (i + 1) ;; wrSibling to c1) ;;;
    if flag && (newTo =? toPn) then
      list_loop n' fuel (i + 1) base from nbase fromN toPn labelN
                children flag
    else
      _ <- rdNode to ;;
      _ <- rdNode newTo ;;
      v <- rdValue newTo ;; wrValue to v ;;;
      v <- rdValue to ;;
      (if (v <? 0) && negb (b2z ci =? 0) then
         c <- rdChild newTo ;;
         wrChild to c ;;;
         b <- rdBase to ;; wrCheck (Int.xor b (b2z c)) to ;;;
         b <- rdBase to ;; c' <- rdSibling (Int.xor b (b2z c)) ;;
         list_rewire fuel to c'
       else ret tt) ;;;
      let fromN' := if negb flag && (newTo =? fromN) then to else fromN in
      (if negb flag && (newTo =? toPn) then
         pushSibling fuel fromN' (Int.xor toPn (b2z labelN)) labelN true ;;;
         wrChild newTo x00 ;;;
         wrValue newTo ValueLimit ;;;
         wrCheck newTo fromN'
       else pushEnode newTo) ;;;
      list_loop n' fuel (i + 1) base from nbase fromN' toPn labelN
                children flag
  end.

(** [list] of the source (the name [list] is Rocq's list type). *)
Definition list_ (fuel : nat) (base from nbase fromN toPn : Z) (labelN : byte)
    (children : list byte) (flag : bool) : M (Z * byte * Z) :=
  list_loop (length children) fuel 0 base from nbase fromN toPn labelN
            children flag ;;;
  ret (base, labelN, toPn).

(** The first half of [resolve]: find the incumbent parent, consult the two
    sibling chains and collect the labels of the chain to move. *)
Definition resolve_choose (fuel : nat) (fromN baseN : Z) (labelN : byte)
    : M (bool * list byte * Z * Z) :=
  let toPn := Int.xor baseN (b2z labelN) in
  fromP <- rdCheck toPn ;;
  baseP <- rdBase fromP ;;
  cN <- rdChild fromN ;; cP <- rdChild fromP ;;
  flag <- consult fuel baseN baseP cN cP ;;
  children <- (if flag : bool then
                 cN <- rdChild fromN ;; setChild fuel baseN cN labelN true
               else
                 cP <- rdChild fromP ;; setChild fuel baseP cP xff false) ;;
  ret (flag, children, fromP, baseP).

Definition resolve (fuel : nat) (fromN baseN : Z) (labelN : byte) : M Z :=
  let toPn := Int.xor baseN (b2z labelN) in
  p <- resolve_choose fuel fromN baseN labelN ;;
  let '(flag, children, fromP, baseP) := p in
  e <- (if len children =? 1 then findPlace
        else findPlaces fuel children) ;;
  c0 <- at_ children 0 ;;
  let base := Int.xor e (b2z c0) in
  let from := if flag : bool then fromN else fromP in
  let nbase := if flag then baseN else baseP in
  when (flag && Byte.eqb c0 labelN) (wrChild from labelN) ;;;
  wrValue from (Int.sub (Int.neg base) 1) ;;;
  r <- list_ fuel base from nbase fromN toPn labelN children flag ;;
  let '(base', labelN', toPn') := r in
  if flag then ret (Int.xor base' (b2z labelN')) else ret toPn'.

(** ** [follow] and [getV] *)

Definition follow (fuel : nat) (from : Z) (label : byte) : M Z :=
  base <- rdBase from ;;
  let to := Int.xor base (b2z label) in
  caseA <- (if base <? 0 then ret true
            else ck <- rdCheck to ;; ret (ck <? 0)) ;;
  if caseA : bool then
    hasChild <- (if 0 <=? base then
                   c <- rdChild from ;;
                   ck <- rdCheck (Int.xor base (b2z c)) ;;
                   ret (ck =? from)
                 else ret false) ;;
    to <- popEnode base from label ;;
    pushSibling fuel from (Int.xor to (b2z label)) label hasChild ;;;
    ret to
  else
    ck <- rdCheck to ;;
    if negb (ck =? from) then resolve fuel from base label
    else
      ck <- rdCheck to ;;
      if ck =? from then ret to
      else throw InternalError.

Fixpoint getV_loop (n : nat) (fuel : nat) (key : list byte) (from pos : Z)
    : M Z :=
  match n with
  | O => ret from
  | S n' =>
    value <- rdValue from ;;
    (if (0 <=? value) && negb (value =? ValueLimit) then
       to <- follow fuel from x00 ;;
       wrValue to value
     else ret tt) ;;;
    k <- at_ key pos ;;
    from' <- follow fuel from k ;;
    getV_loop n' fuel key from' (Int.add pos 1)
  end.

Definition getV (fuel : nat) (key : list byte) (from pos : Z) : M Z :=
  from' <- getV_loop (Z.to_nat (len key - pos)) fuel key from pos ;;
  v <- rdValue from' ;;
  if v <? 0 then follow fuel from' x00 else ret from'.

(** [get] returns [&da.Array[to].Value]; the pointer is the slot index, and
    [storeAt] is a write through it. *)
Definition get (fuel : nat) (key : list byte) (from pos : Z) : M Z :=
  to <- getV fuel key from pos ;;
  _ <- rdNode to ;;
  ret to.

Definition storeAt (to v : Z) : M unit := wrValue to v.

(** * Notions used to state the properties *)

(** ** Reachable states

    A state is reached from [New] by calls [getV key 0 0], each optionally
    followed by a write of a value [0 <= v < ValueLimit] through the pointer
    that [get] returns (what an insertion or an update does).  The list
    records the calls made so far, each key with the slot that was returned,
    latest first. *)

Inductive history : list (list byte * Z) -> Cedar -> Prop :=
| hist_New : history [] New
| hist_getV h s fuel key to s' :
    history h s ->
    getV fuel key 0 0 s = Ok to s' ->
    history ((key, to) :: h) s'
| hist_put h s fuel key to s1 v s' :
    history h s ->
    get fuel key 0 0 s = Ok to s1 ->
    0 <= v < ValueLimit ->
    storeAt to v s1 = Ok tt s' ->
    history ((key, to) :: h) s'.

Definition reachable (s : Cedar) : Prop := exists h, history h s.

(** ** Slots *)

Definition isFree (s : Cedar) (e : Z) : Prop :=
  exists n, idx (Array s) e = Some n /\ Check n < 0.

Definition occupied (s : Cedar) (e : Z) : Prop :=
  exists n, idx (Array s) e = Some n /\ 0 <= Check n.

(** ** The path of a key, read off the arrays

    [edge s from label] is the slot reached from the branching node [from]
    under [label], when that edge is present; [walk] follows the bytes of a
    key, and [terminal] is the slot that holds the key's value. *)

Definition edge (s : Cedar) (from : Z) (label : byte) : option Z :=
  match idx (Array s) from with
  | Some n =>
    if (Value n <? 0) && (0 <=? base n) then
      match idx (Array s) (Int.xor (base n) (b2z label)) with
      | Some t =>
        if Check t =? from then Some (Int.xor (base n) (b2z label)) else None
      | None => None
      end
    else None
  | None => None
  end.

Fixpoint walk (s : Cedar) (key : list byte) (from : Z) : option Z :=
  match key with
  | [] => Some from
  | k :: r =>
    match edge s from k with
    | Some to => walk s r to
    | None => None
    end
  end.

Definition terminal (s : Cedar) (key : list byte) : option Z :=
  match walk s key 0 with
  | Some from =>
    match idx (Array s) from with
    | Some n => if Value n <? 0 then edge s from x00 else Some from
    | None => None
    end
  | None => None
  end.

(** ** Sibling chains

    [rest_from s base c l]: following [Sibling] from label [c] under [base]
    until label 0 lists the labels [l].  [chain_from s base c l]: the chain
    whose head label is [c] (the head counts even when it is 0, the label of
    a terminal child). *)

Inductive rest_from (s : Cedar) (base : Z) : byte -> list byte -> Prop :=
| rest_nil c : b2z c = 0 -> rest_from s base c []
| rest_cons c n l :
    b2z c <> 0 ->
    idx (Ninfos s) (Int.xor base (b2z c)) = Some n ->
    rest_from s base (Sibling n) l ->
    rest_from s base c (c :: l).

Definition chain_from (s : Cedar) (base : Z) (c : byte) (l : list byte)
    : Prop :=
  exists n l', idx (Ninfos s) (Int.xor base (b2z c)) = Some n /\
               rest_from s base (Sibling n) l' /\ l = c :: l'.

(** Where [setChild] puts the pending label among the labels after the
    head: before the first label greater than it when the trie is ordered. *)
Fixpoint insertLabel (label : byte) (l : list byte) : list byte :=
  match l with
  | [] => [label]
  | c :: r =>
    if b2z c <=? b2z label then c :: insertLabel label r else label :: l
  end.

Definition withLabel (ordered : bool) (label : byte) (l : list byte)
    : list byte :=
  let h := match l with
           | c :: _ => if b2z c =? 0 then [c] else []
           | [] => []
           end in
  let r := drop (length h) l in
  if ordered then h ++ insertLabel label r else h ++ label :: r.

(** ** Cyclic doubly linked rings

    The free slots of a block and the blocks of a class are kept in rings
    linked through indices.  [seg a l z]: starting at [a], the successor
    links run through [l] and end at [z], and the predecessor links agree.
    [cyc r]: the ring visits exactly the members of [r], in that order, and
    closes. *)

Section Ring.
Variables nxt prv : Z -> Z.

Fixpoint seg (a : Z) (l : list Z) (z : Z) : Prop :=
  match l with
  | [] => nxt a = z /\ prv z = a
  | b :: l' => nxt a = b /\ prv b = a /\ seg b l' z
  end.

Definition cyc (r : list Z) : Prop :=
  NoDup r /\ match r with [] => True | h :: t => seg h t h end.
End Ring.

(** [r] without its member [x]. *)
Definition without (x : Z) (r : list Z) : list Z :=
  List.filter (fun y => negb (y =? x)) r.

(** ** Reading a state

    Total accessors (an index outside the slice reads a zero element; the
    predicates [vb] and [vn] say that an index is inside), the successor
    and predecessor links of the two kinds of ring, and the states that the
    elementary writes produce. *)

Definition blk (s : Cedar) (b : Z) : block :=
  match idx (Blocks s) b with Some x => x | None => zeroBlock end.
Definition nod (s : Cedar) (e : Z) : node :=
  match idx (Array s) e with Some x => x | None => zeroNode end.

Definition vb (s : Cedar) (b : Z) : Prop := 0 <= b < len (Blocks s).
Definition vn (s : Cedar) (e : Z) : Prop := 0 <= e < len (Array s).

Definition nxtB (s : Cedar) (b : Z) : Z := Next (blk s b).
Definition prvB (s : Cedar) (b : Z) : Z := Prev (blk s b).
Definition nxtS (s : Cedar) (e : Z) : Z := Int.neg (Check (nod s e)).
Definition prvS (s : Cedar) (e : Z) : Z := Int.neg (Value (nod s e)).

Definition sBlock (i : Z) (b : block) (s : Cedar) : Cedar :=
  withBlocks (upd (Blocks s) i b) s.
Definition sPrev (i v : Z) (s : Cedar) : Cedar :=
  let b := blk s i in
  sBlock i (mkBlock v (Next b) (Num b) (bReject b) (Trial b) (Ehead b)) s.
Definition sNext (i v : Z) (s : Cedar) : Cedar :=
  let b := blk s i in
  sBlock i (mkBlock (Prev b) v (Num b) (bReject b) (Trial b) (Ehead b)) s.
Definition sNum (i v : Z) (s : Cedar) : Cedar :=
  let b := blk s i in
  sBlock i (mkBlock (Prev b) (Next b) v (bReject b) (Trial b) (Ehead b)) s.
Definition sBReject (i v : Z) (s : Cedar) : Cedar :=
  let b := blk s i in
  sBlock i (mkBlock (Prev b) (Next b) (Num b) v (Trial b) (Ehead b)) s.
Definition sTrial (i v : Z) (s : Cedar) : Cedar :=
  let b := blk s i in
  sBlock i (mkBlock (Prev b) (Next b) (Num b) (bReject b) v (Ehead b)) s.
Definition sEhead (i v : Z) (s : Cedar) : Cedar :=
  let b := blk s i in
  sBlock i (mkBlock (Prev b) (Next b) (Num b) (bReject b) (Trial b) v) s.
Definition sHead (h : headptr) (v : Z) (s : Cedar) : Cedar :=
  match h with
  | HeadF => withBheadF v s
  | HeadC => withBheadC v s
  | HeadO => withBheadO v s
  end.
Definition sNode (i : Z) (n : node) (s : Cedar) : Cedar :=
  withArray (upd (Array s) i n) s.
Definition sValue (i v : Z) (s : Cedar) : Cedar :=
  sNode i (mkNode v (Check (nod s i))) s.
Definition sCheck (i v : Z) (s : Cedar) : Cedar :=
  sNode i (mkNode (Value (nod s i)) v) s.

(** ** The three rings of blocks

    [R h] lists the blocks of the ring headed by [h], head first.  The
    Closed and the Open ring are cyclic over their members.  The Full ring
    is closed through block 0: [transferBlock] never passes [empty] when the
    block is full, so the first full block is linked to [Blocks[0]], which
    from then on is the ring's sentinel. *)

Definition head_eqb (h h' : headptr) : bool :=
  match h, h' with
  | HeadF, HeadF | HeadC, HeadC | HeadO, HeadO => true
  | _, _ => false
  end.

Definition cycleOf (h : headptr) (r : list Z) : list Z :=
  match h with HeadF => r ++ [0] | _ => r end.

Definition members (R : headptr -> list Z) : list Z :=
  R HeadF ++ R HeadC ++ R HeadO.

Record block_rings (s : Cedar) (R : headptr -> list Z) : Prop := {
  br_nodup : NoDup (0 :: members R);
  br_valid : forall b, b = 0 \/ b ∈ members R -> vb s b;
  br_head : forall h, headOf h s = hd 0 (R h);
  br_cyc : forall h, cyc (nxtB s) (prvB s) (cycleOf h (R h)) }.

(** The rings after block [bi] went from ring [hIn] to the head of ring
    [hOut]. *)
Definition moved (bi : Z) (hIn hOut : headptr) (R : headptr -> list Z)
    : headptr -> list Z :=
  fun h => if head_eqb h hIn then without bi (R h)
           else if head_eqb h hOut then bi :: R h
           else R h.

(** Only [Prev], [Next] and the ring heads differ between two states. *)
Record links_only (s s' : Cedar) : Prop := {
  lo_array : Array s' = Array s;
  lo_ninfos : Ninfos s' = Ninfos s;
  lo_reject : Reject s' = Reject s;
  lo_vkey : vkey s' = vkey s;
  lo_capacity : Capacity s' = Capacity s;
  lo_size : Size s' = Size s;
  lo_ordered : Ordered s' = Ordered s;
  lo_maxtrial : MaxTrial s' = MaxTrial s;
  lo_len : len (Blocks s') = len (Blocks s);
  lo_num : forall b, Num (blk s' b) = Num (blk s b);
  lo_breject : forall b, bReject (blk s' b) = bReject (blk s b);
  lo_trial : forall b, Trial (blk s' b) = Trial (blk s b);
  lo_ehead : forall b, Ehead (blk s' b) = Ehead (blk s b) }.

(** The number of blocks in use. *)
Definition nblocks (s : Cedar) : Z := Int.shr8 (Size s).

(** The rings as the claim describes them: every block from 1 on is in
    exactly one ring, each ring is cyclic over its own members, its head is
    0 exactly when it is empty, and the blocks of the Full ring are full. *)
Definition rings_as_stated (s : Cedar) : Prop :=
  exists R : headptr -> list Z,
    NoDup (members R) /\
    (forall b, b ∈ members R <-> 1 <= b < nblocks s) /\
    (forall h, headOf h s = hd 0 (R h)) /\
    (forall h, cyc (nxtB s) (prvB s) (R h)) /\
    (forall b, b ∈ R HeadF -> Num (blk s b) = 0).

Definition sNinfo (i : Z) (n : ninfo) (s : Cedar) : Cedar :=
  withNinfos (upd (Ninfos s) i n) s.
Definition sReject (i v : Z) (s : Cedar) : Cedar :=
  withReject (upd (Reject s) i v) s.

(** The rings of blocks are untouched between two states. *)
Definition same_links (s s' : Cedar) : Prop :=
  len (Blocks s') = len (Blocks s) /\
  (forall b, nxtB s' b = nxtB s b /\ prvB s' b = prvB s b) /\
  (forall h, headOf h s' = headOf h s).

(** ** The free ring of a block

    The free slots of block [b] form the ring [r]: linked both ways through
    the negated [Check] (successor) and [Value] (predecessor), exactly the
    slots of the block whose [Check] is negative, counted by [Num] and
    entered at [Ehead].  Block 0 starts with [Num = 256] and 255 free slots,
    slot 0 being the root: its count stays one ahead. *)

Definition free_ring (s : Cedar) (b : Z) (r : list Z) : Prop :=
  cyc (nxtS s) (prvS s) r /\
  (forall e, e ∈ r -> vn s e /\ 0 < e /\ Int.shr8 e = b) /\
  (forall e, vn s e -> Int.shr8 e = b -> (Check (nod s e) < 0 <-> e ∈ r)) /\
  Num (blk s b) = Z.of_nat (length r) + (if b =? 0 then 1 else 0) /\
  (r <> [] -> Ehead (blk s b) ∈ r).

Definition free_rings (s : Cedar) (F : Z -> list Z) : Prop :=
  forall b, vb s b -> free_ring s b (F b).

(** The same with [Num] the length of the ring for every block, as the
    claim has it. *)
Definition free_ring_as_stated (s : Cedar) (b : Z) (r : list Z) : Prop :=
  cyc (nxtS s) (prvS s) r /\
  (forall e, e ∈ r -> vn s e /\ Int.shr8 e = b) /\
  (forall e, vn s e -> Int.shr8 e = b -> (Check (nod s e) < 0 <-> e ∈ r)) /\
  Num (blk s b) = Z.of_nat (length r) /\
  (0 < Num (blk s b) -> Ehead (blk s b) ∈ r).

Definition free_rings_as_stated (s : Cedar) : Prop :=
  forall b, 0 <= b < nblocks s -> exists r, free_ring_as_stated s b r.

(** The slots of block [b] with a negative [Check]. *)
Definition free_slots (s : Cedar) (b : Z) : list Z :=
  List.filter (fun e => Check (nod s e) <? 0) (seqZ (b * 256) 256).

(** What the three fields that the free rings are read from look like from
    one state to another: untouched. *)
Definition same_slots (s s' : Cedar) : Prop :=
  Array s' = Array s /\ len (Blocks s') = len (Blocks s) /\
  forall b, Num (blk s' b) = Num (blk s b) /\
            Ehead (blk s' b) = Ehead (blk s b).

(** ** Concrete runs *)

(** An insertion: [get], then a write through the returned pointer. *)
Definition put (fuel : nat) (key : list byte) (v : Z) : M Z :=
  to <- get fuel key 0 0 ;; storeAt to v ;;; ret to.

Definition stateOf {A} (o : outcome A) : Cedar :=
  match o with Ok _ s => s | _ => New end.

Definition key_ab : list byte := ["a"; "b"]%byte.
Definition key_abc : list byte := ["a"; "b"; "c"]%byte.

(** [New], then "ab" := 10. *)
Definition state_ab : Cedar :=
  Eval vm_compute in stateOf (put 8 key_ab 10 New).
(** ... then "abc" := 11. *)
Definition state_abc : Cedar :=
  Eval vm_compute in stateOf (put 8 key_abc 11 state_ab).
(** [New], then [getV "ab"] and [getV "abc"] with no value written. *)
Definition state_ab_bare : Cedar :=
  Eval vm_compute in stateOf (getV 8 key_ab 0 0 New).
Definition state_abc_bare : Cedar :=
  Eval vm_compute in stateOf (getV 8 key_abc 0 0 state_ab_bare).

(** ... then [getV "ab"] once more. *)
Definition state_ab_again_bare : Cedar :=
  Eval vm_compute in stateOf (getV 8 key_ab 0 0 state_abc_bare).
(** [state_abc], then [follow 256 0x01]. *)
Definition state_abc_follow : Cedar :=
  Eval vm_compute in stateOf (follow 8 256 x01 state_abc).

(** A key of 256 bytes leaves block 1 with one free slot, in the Closed
    ring; one byte more fills it. *)
Definition key_x256 : list byte := replicate 256 "x"%byte.
Definition key_x257 : list byte := replicate 257 "x"%byte.
Definition state_closed : Cedar :=
  Eval vm_compute in stateOf (getV 8 key_x256 0 0 New).
Definition state_full : Cedar :=
  Eval vm_compute in stateOf (getV 8 key_x257 0 0 New).

(** Several keys in a row, none with a value written. *)
Fixpoint getVs (fuel : nat) (keys : list (list byte)) : M unit :=
  match keys with
  | [] => ret tt
  | k :: ks => getV fuel k 0 0 ;;; getVs fuel ks
  end.

(** Keys with a zero byte inside: "a", "a\0b", "a\0c", "b", "ba", "bd",
    "bb". *)
Definition keys_nul : list (list byte) :=
  [ ["a"]; ["a"; x00; "b"]; ["a"; x00; "c"]; ["b"]; ["b"; "a"]; ["b"; "d"];
    ["b"; "b"] ]%byte.
Definition state_nul : Cedar :=
  Eval vm_compute in stateOf (getVs 8 keys_nul New).

(** ** The claims about [follow] and a repeated [getV], as stated *)

(** After [follow], the returned slot is occupied, its [Check] is [from],
    and it is [base(from) XOR label] in the post-state. *)
Definition follow_links_to_from : Prop :=
  forall h s from label fuel to s',
    history h s -> occupied s from ->
    follow fuel from label s = Ok to s' ->
    (exists n, idx (Array s') to = Some n /\ 0 <= Check n /\ Check n = from)
    /\ (exists nf, idx (Array s') from = Some nf /\
                   to = Int.xor (base nf) (b2z label)).

(** A repeated [getV] returns the slot of the earlier call. *)
Definition getV_again_same_slot : Prop :=
  forall h s key t0 fuel to s',
    history h s -> (key, t0) ∈ h ->
    getV fuel key 0 0 s = Ok to s' -> to = t0.

(** A repeated [getV] leaves the structure unchanged. *)
Definition getV_again_unchanged : Prop :=
  forall h s key t0 fuel to s',
    history h s -> (key, t0) ∈ h ->
    getV fuel key 0 0 s = Ok to s' ->
    Array s' = Array s /\ Ninfos s' = Ninfos s /\ Blocks s' = Blocks s /\
    Reject s' = Reject s /\ Size s' = Size s /\ Capacity s' = Capacity s /\
    BheadF s' = BheadF s /\ BheadC s' = BheadC s /\ BheadO s' = BheadO s.

(** * Reasoning about the monad *)

Lemma bind_Ok {A B} (m : M A) (k : A -> M B) s b s' :
  bind m k s = Ok b s' <-> exists a s1, m s = Ok a s1 /\ k a s1 = Ok b s'.
Proof.
  unfold bind. destruct (m s) as [a s1| |]; split.
  - intros H. exists a, s1. auto.
  - intros (a' & s2 & E & H). inversion E. subst. exact H.
  - discriminate.
  - intros (a' & s2 & E & _). discriminate.
  - discriminate.
  - intros (a' & s2 & E & _). discriminate.
Qed.

Lemma bind_eval {A B} (m : M A) (k : A -> M B) s a s1 :
  m s = Ok a s1 -> bind m k s = k a s1.
Proof. intros H. unfold bind. rewrite H. reflexivity. Qed.

(** ** The explicit panic of [follow] is raised nowhere else *)

Definition safe {A} (m : M A) : Prop := forall s, m s <> Panic InternalError.

Lemma safe_ret {A} (a : A) : safe (ret a).
Proof. intros s. discriminate. Qed.

Lemma safe_bind {A B} (m : M A) (k : A -> M B) :
  safe m -> (forall a, safe (k a)) -> safe (bind m k).
Proof.
  intros Hm Hk s. unfold bind. specialize (Hm s).
  destruct (m s) as [a s1|p|]; [apply Hk | | discriminate].
  intros E. apply Hm. inversion E. reflexivity.
Qed.

Lemma safe_gets {A} (f : Cedar -> A) : safe (gets f).
Proof. intros s. discriminate. Qed.

Lemma safe_modify f : safe (modify f).
Proof. intros s. discriminate. Qed.

Lemma safe_diverge {A} : safe (@diverge A).
Proof. intros s. discriminate. Qed.

Lemma safe_throw_index {A} : safe (@throw A IndexOutOfRange).
Proof. intros s. discriminate. Qed.

Lemma safe_throw_len {A} : safe (@throw A LenOutOfRange).
Proof. intros s. discriminate. Qed.

Lemma safe_rdNode i : safe (rdNode i).
Proof. intros s. unfold rdNode. destruct (idx _ _); discriminate. Qed.

Lemma safe_rdNinfo i : safe (rdNinfo i).
Proof. intros s. unfold rdNinfo. destruct (idx _ _); discriminate. Qed.

Lemma safe_rdBlock i : safe (rdBlock i).
Proof. intros s. unfold rdBlock. destruct (idx _ _); discriminate. Qed.

Lemma safe_rdReject i : safe (rdReject i).
Proof. intros s. unfold rdReject. destruct (idx _ _); discriminate. Qed.

Lemma safe_at l i : safe (at_ l i).
Proof. intros s. unfold at_. destruct (idx _ _); discriminate. Qed.

Lemma safe_when c m : safe m -> safe (when c m).
Proof. intros H. destruct c; [exact H | apply safe_ret]. Qed.

Create HintDb safe.
#[export] Hint Resolve safe_ret safe_gets safe_modify safe_diverge
  safe_throw_index safe_throw_len safe_rdNode safe_rdNinfo safe_rdBlock
  safe_rdReject safe_at : safe.

(** Peel one layer of a monadic term. *)
Ltac safe_step :=
  match goal with
  | |- safe (bind _ _) => apply safe_bind; [ | intros ? ]
  | |- safe (when _ _) => apply safe_when
  | |- safe (if ?c then _ else _) => destruct c
  | |- safe (match ?p with ChildOf _ => _ | SiblingOf _ => _ end) =>
      destruct p
  | |- safe (let '(_, _) := ?r in _) => destruct r
  | |- safe (match ?h with HeadF => _ | HeadC => _ | HeadO => _ end) =>
      destruct h
  | |- safe _ => solve [ auto with safe ]
  end.
Ltac safe_go := repeat safe_step.

Lemma safe_wrNode i n : safe (wrNode i n).
Proof. unfold wrNode. safe_go. Qed.
Lemma safe_rdValue i : safe (rdValue i).
Proof. unfold rdValue. safe_go. Qed.
Lemma safe_rdCheck i : safe (rdCheck i).
Proof. unfold rdCheck. safe_go. Qed.
Lemma safe_rdBase i : safe (rdBase i).
Proof. unfold rdBase. safe_go. Qed.
#[export] Hint Resolve safe_wrNode safe_rdValue safe_rdCheck safe_rdBase
  : safe.
Lemma safe_wrValue i v : safe (wrValue i v).
Proof. unfold wrValue. safe_go. Qed.
Lemma safe_wrCheck i v : safe (wrCheck i v).
Proof. unfold wrCheck. safe_go. Qed.
Lemma safe_wrNinfo i n : safe (wrNinfo i n).
Proof. unfold wrNinfo. safe_go. Qed.
Lemma safe_rdSibling i : safe (rdSibling i).
Proof. unfold rdSibling. safe_go. Qed.
Lemma safe_rdChild i : safe (rdChild i).
Proof. unfold rdChild. safe_go. Qed.
#[export] Hint Resolve safe_wrValue safe_wrCheck safe_wrNinfo safe_rdSibling
  safe_rdChild : safe.
Lemma safe_wrSibling i b : safe (wrSibling i b).
Proof. unfold wrSibling. safe_go. Qed.
Lemma safe_wrChild i b : safe (wrChild i b).
Proof. unfold wrChild. safe_go. Qed.
Lemma safe_wrBlock i b : safe (wrBlock i b).
Proof. unfold wrBlock. safe_go. Qed.
#[export] Hint Resolve safe_wrSibling safe_wrChild safe_wrBlock : safe.
Lemma safe_wrPrev i v : safe (wrPrev i v).
Proof. unfold wrPrev. safe_go. Qed.
Lemma safe_wrNext i v : safe (wrNext i v).
Proof. unfold wrNext. safe_go. Qed.
Lemma safe_wrNum i v : safe (wrNum i v).
Proof. unfold wrNum. safe_go. Qed.
Lemma safe_wrBReject i v : safe (wrBReject i v).
Proof. unfold wrBReject. safe_go. Qed.
Lemma safe_wrTrial i v : safe (wrTrial i v).
Proof. unfold wrTrial. safe_go. Qed.
Lemma safe_wrEhead i v : safe (wrEhead i v).
Proof. unfold wrEhead. safe_go. Qed.
Lemma safe_wrReject i v : safe (wrReject i v).
Proof. unfold wrReject. safe_go. Qed.
Lemma safe_rdPrev i : safe (rdPrev i).
Proof. unfold rdPrev. safe_go. Qed.
Lemma safe_rdNext i : safe (rdNext i).
Proof. unfold rdNext. safe_go. Qed.
Lemma safe_rdNum i : safe (rdNum i).
Proof. unfold rdNum. safe_go. Qed.
Lemma safe_rdBReject i : safe (rdBReject i).
Proof. unfold rdBReject. safe_go. Qed.
Lemma safe_rdTrial i : safe (rdTrial i).
Proof. unfold rdTrial. safe_go. Qed.
Lemma safe_rdEhead i : safe (rdEhead i).
Proof. unfold rdEhead. safe_go. Qed.
Lemma safe_rdHead h : safe (rdHead h).
Proof. unfold rdHead. safe_go. Qed.
Lemma safe_wrHead h v : safe (wrHead h v).
Proof. unfold wrHead. safe_go. Qed.
#[export] Hint Resolve safe_wrPrev safe_wrNext safe_wrNum safe_wrBReject
  safe_wrTrial safe_wrEhead safe_wrReject safe_rdPrev safe_rdNext safe_rdNum
  safe_rdBReject safe_rdTrial safe_rdEhead safe_rdHead safe_wrHead : safe.
Lemma safe_addrChild i : safe (addrChild i).
Proof. unfold addrChild. safe_go. Qed.
Lemma safe_addrSibling i : safe (addrSibling i).
Proof. unfold addrSibling. safe_go. Qed.
Lemma safe_deref p : safe (deref p).
Proof. unfold deref. safe_go. Qed.
Lemma safe_store p b : safe (store p b).
Proof. unfold store. safe_go. Qed.
Lemma safe_makeLen n : safe (makeLen n).
Proof. unfold makeLen. safe_go. Qed.
#[export] Hint Resolve safe_addrChild safe_addrSibling safe_deref safe_store
  safe_makeLen : safe.

Lemma safe_forZ n : forall i body, (forall j, safe (body j)) ->
  safe (forZ n i body).
Proof.
  induction n as [|n IH]; intros i body Hb; simpl.
  - apply safe_ret.
  - apply safe_bind; [apply Hb | intros _; apply IH, Hb].
Qed.

Lemma safe_popBlock bi h last : safe (popBlock bi h last).
Proof. unfold popBlock. safe_go. Qed.
Lemma safe_pushBlock bi h e : safe (pushBlock bi h e).
Proof. unfold pushBlock. safe_go. Qed.
#[export] Hint Resolve safe_popBlock safe_pushBlock : safe.
Lemma safe_transferBlock bi h1 h2 : safe (transferBlock bi h1 h2).
Proof. unfold transferBlock. safe_go. Qed.
#[export] Hint Resolve safe_transferBlock : safe.
Lemma safe_addBlock : safe addBlock.
Proof.
  unfold addBlock. safe_go.
  apply safe_forZ. intros j. safe_go.
Qed.
#[export] Hint Resolve safe_addBlock : safe.
Lemma safe_findPlace : safe findPlace.
Proof. unfold findPlace. safe_go. Qed.
#[export] Hint Resolve safe_findPlace : safe.
Lemma safe_popEnode b f l : safe (popEnode b f l).
Proof. unfold popEnode. safe_go. Qed.
Lemma safe_pushEnode e : safe (pushEnode e).
Proof. unfold pushEnode. safe_go. Qed.
#[export] Hint Resolve safe_popEnode safe_pushEnode : safe.

Lemma safe_pushSibling_walk fuel : forall base label c,
  safe (pushSibling_walk fuel base label c).
Proof.
  induction fuel as [|f IH]; intros base label c; simpl; safe_go; try apply IH.
Qed.
#[export] Hint Resolve safe_pushSibling_walk : safe.
Lemma safe_pushSibling fuel from base label hc :
  safe (pushSibling fuel from base label hc).
Proof. unfold pushSibling. safe_go. Qed.
#[export] Hint Resolve safe_pushSibling : safe.

Lemma safe_consult_loop fuel : forall baseN baseP cN cP,
  safe (consult_loop fuel baseN baseP cN cP).
Proof.
  induction fuel as [|f IH]; intros; simpl; safe_go; try apply IH.
Qed.
#[export] Hint Resolve safe_consult_loop : safe.
Lemma safe_consult fuel baseN baseP cN cP :
  safe (consult fuel baseN baseP cN cP).
Proof. unfold consult. safe_go. Qed.

Lemma safe_setChild_upto fuel : forall base label c child,
  safe (setChild_upto fuel base label c child).
Proof. induction fuel as [|f IH]; intros; simpl; safe_go; try apply IH. Qed.
Lemma safe_setChild_rest fuel : forall base c child,
  safe (setChild_rest fuel base c child).
Proof. induction fuel as [|f IH]; intros; simpl; safe_go; try apply IH. Qed.
#[export] Hint Resolve safe_consult safe_setChild_upto safe_setChild_rest
  : safe.
Lemma safe_setChild fuel base c label flag :
  safe (setChild fuel base c label flag).
Proof. unfold setChild. safe_go. Qed.
#[export] Hint Resolve safe_setChild : safe.

Lemma safe_listEhead_fits n : forall base child i,
  safe (listEhead_fits n base child i).
Proof. induction n as [|n IH]; intros; simpl; safe_go; try apply IH. Qed.
#[export] Hint Resolve safe_listEhead_fits : safe.
Lemma safe_listEhead_loop fuel : forall bi child e,
  safe (listEhead_loop fuel bi child e).
Proof. induction fuel as [|f IH]; intros; simpl; safe_go; try apply IH. Qed.
#[export] Hint Resolve safe_listEhead_loop : safe.
Lemma safe_listEhead fuel bi child : safe (listEhead fuel bi child).
Proof. unfold listEhead. safe_go. Qed.
#[export] Hint Resolve safe_listEhead : safe.
Lemma safe_listBi_loop fuel : forall bi bz child,
  safe (listBi_loop fuel bi bz child).
Proof. induction fuel as [|f IH]; intros; simpl; safe_go; try apply IH. Qed.
#[export] Hint Resolve safe_listBi_loop : safe.
Lemma safe_listBi fuel bi child : safe (listBi fuel bi child).
Proof. unfold listBi. safe_go. Qed.
#[export] Hint Resolve safe_listBi : safe.
Lemma safe_findPlaces fuel child : safe (findPlaces fuel child).
Proof. unfold findPlaces. safe_go. Qed.
#[export] Hint Resolve safe_findPlaces : safe.

Lemma safe_list_rewire fuel : forall to c, safe (list_rewire fuel to c).
Proof. induction fuel as [|f IH]; intros; simpl; safe_go; try apply IH. Qed.
#[export] Hint Resolve safe_list_rewire : safe.
Lemma safe_list_loop n : forall fuel i base from nbase fromN toPn labelN
    children flag,
  safe (list_loop n fuel i base from nbase fromN toPn labelN children flag).
Proof.
  induction n as [|n IH]; intros; simpl; safe_go; try apply IH.
Qed.
#[export] Hint Resolve safe_list_loop : safe.
Lemma safe_list fuel base from nbase fromN toPn labelN children flag :
  safe (list_ fuel base from nbase fromN toPn labelN children flag).
Proof. unfold list_. safe_go. Qed.
#[export] Hint Resolve safe_list : safe.
Lemma safe_resolve_choose fuel fromN baseN labelN :
  safe (resolve_choose fuel fromN baseN labelN).
Proof. unfold resolve_choose. safe_go. Qed.
#[export] Hint Resolve safe_resolve_choose : safe.
Lemma safe_resolve fuel fromN baseN labelN :
  safe (resolve fuel fromN baseN labelN).
Proof. unfold resolve. safe_go. Qed.

Lemma rdCheck_eval to s :
  rdCheck to s = match idx (Array s) to with
                 | Some n => Ok (Check n) s
                 | None => Panic IndexOutOfRange
                 end.
Proof.
  unfold rdCheck, bind, rdNode, ret. destruct (idx _ _); reflexivity.
Qed.

(** C10: the explicit [panic] that ends [follow] is unreachable.  Whatever
    the state, the fuel and the arguments, [follow] never ends in that panic:
    once the allocation branch and the conflict branch are passed, the slot's
    [Check] is [from] and the third branch returns. *)
Theorem follow_internal_panic_unreachable
    (fuel : nat) (from : Z) (label : byte) (s : Cedar) :
  follow fuel from label s <> Panic InternalError.
Proof.
  revert s. change (safe (follow fuel from label)).
  unfold follow.
  apply safe_bind; [auto with safe|]. intros b.
  apply safe_bind; [safe_go|]. intros caseA.
  destruct caseA; [safe_go|].
  intros s. unfold bind at 1. rewrite rdCheck_eval.
  destruct (idx (Array s) (Int.xor b (b2z label))) as [n|] eqn:E;
    [|discriminate].
  destruct (Check n =? from) eqn:Hck; simpl.
  - unfold bind. rewrite rdCheck_eval, E, Hck. discriminate.
  - apply safe_resolve.
Qed.

(** * Lookup of an existing key *)

Lemma wrap_small x : - 2 ^ 63 <= x < 2 ^ 63 -> Int.wrap x = x.
Proof.
  intros H. unfold Int.wrap.
  rewrite Z.mod_small; lia.
Qed.

Lemma idx_Some_range {A} (l : list A) i x :
  idx l i = Some x -> 0 <= i < len l.
Proof.
  unfold idx, len. destruct (i <? 0) eqn:E; [discriminate|].
  intros H. apply lookup_lt_Some in H. lia.
Qed.

Lemma idx_app_r {A} (pre r : list A) :
  idx (pre ++ r) (len pre) = head r.
Proof.
  unfold idx, len.
  destruct (Z.ltb_spec (Z.of_nat (length pre)) 0) as [E|E]; [lia|].
  rewrite Nat2Z.id, lookup_app_r by lia.
  rewrite Nat.sub_diag. destruct r; reflexivity.
Qed.

Lemma rdValue_eval i s :
  rdValue i s = match idx (Array s) i with
                | Some n => Ok (Value n) s
                | None => Panic IndexOutOfRange
                end.
Proof.
  unfold rdValue, bind, rdNode, ret. destruct (idx _ _); reflexivity.
Qed.

Lemma rdBase_eval i s :
  rdBase i s = match idx (Array s) i with
               | Some n => Ok (base n) s
               | None => Panic IndexOutOfRange
               end.
Proof.
  unfold rdBase, bind, rdNode, ret. destruct (idx _ _); reflexivity.
Qed.

(** An edge that is present is reused: [follow] returns its target and
    changes nothing. *)
Lemma follow_edge s from label to fuel :
  edge s from label = Some to -> follow fuel from label s = Ok to s.
Proof.
  unfold edge. intros H.
  destruct (idx (Array s) from) as [n|] eqn:En; [|discriminate].
  destruct ((Value n <? 0) && (0 <=? base n)) eqn:Hb; [|discriminate].
  destruct (idx (Array s) (Int.xor (base n) (b2z label))) as [t|] eqn:Et;
    [|discriminate].
  destruct (Check t =? from) eqn:Hc; [|discriminate].
  inversion H; subst to; clear H.
  apply andb_true_iff in Hb. destruct Hb as [_ Hb].
  assert (Hf : 0 <= from) by (apply idx_Some_range in En; lia).
  assert (Hck : Check t = from) by lia.
  unfold follow.
  rewrite (bind_eval _ _ s (base n) s) by (rewrite rdBase_eval, En; auto).
  replace (base n <? 0) with false by lia.
  rewrite (bind_eval _ _ s false s).
  2:{ rewrite (bind_eval _ _ s (Check t) s)
        by (rewrite rdCheck_eval, Et; auto).
      unfold ret. f_equal. lia. }
  rewrite (bind_eval _ _ s (Check t) s) by (rewrite rdCheck_eval, Et; auto).
  rewrite Hc. simpl.
  rewrite (bind_eval _ _ s (Check t) s) by (rewrite rdCheck_eval, Et; auto).
  rewrite Hc. reflexivity.
Qed.

Lemma edge_branching s from label to :
  edge s from label = Some to ->
  exists n, idx (Array s) from = Some n /\ Value n < 0.
Proof.
  unfold edge. destruct (idx (Array s) from) as [n|]; [|discriminate].
  destruct (Value n <? 0) eqn:E; [|discriminate].
  intros _. exists n. split; [reflexivity|lia].
Qed.

Lemma getV_loop_walk s fuel r : forall pre from to,
  len (pre ++ r) < 2 ^ 62 ->
  walk s r from = Some to ->
  getV_loop (length r) fuel (pre ++ r) from (len pre) s = Ok to s.
Proof.
  induction r as [|k r IH]; intros pre from to Hlen Hw; simpl in *.
  - inversion Hw. reflexivity.
  - destruct (edge s from k) as [t|] eqn:He; [|discriminate].
    destruct (edge_branching _ _ _ _ He) as (n & En & Hn).
    rewrite (bind_eval _ _ s (Value n) s) by (rewrite rdValue_eval, En; auto).
    replace (0 <=? Value n) with false by lia. simpl.
    unfold bind at 1. unfold ret at 1.
    rewrite (bind_eval _ _ s k s).
    2:{ unfold at_. rewrite idx_app_r. reflexivity. }
    rewrite (bind_eval _ _ s t s) by (apply follow_edge; exact He).
    assert (Hpre : Int.add (len pre) 1 = len (pre ++ [k])).
    { unfold Int.add, len in *. rewrite length_app in *. simpl in *.
      rewrite wrap_small; lia. }
    rewrite Hpre.
    replace (pre ++ k :: r) with ((pre ++ [k]) ++ r)
      by (rewrite <- app_assoc; reflexivity).
    apply IH; [|exact Hw].
    rewrite <- app_assoc. exact Hlen.
Qed.

(** C9 (amended): when the path of [key] and its terminal slot are present
    in a state, [getV key 0 0] returns that terminal slot and leaves the
    whole state unchanged, whatever the fuel; calling it again therefore
    returns the same slot and changes nothing. *)
Theorem getV_existing_key_is_read_only
    (s : Cedar) (key : list byte) (to : Z) (fuel : nat)
    (Hlen : len key < 2 ^ 62)
    (Hpath : terminal s key = Some to) :
  getV fuel key 0 0 s = Ok to s /\
  forall fuel', bind (getV fuel key 0 0) (fun _ => getV fuel' key 0 0) s
                = Ok to s.
Proof.
  assert (G : forall f, getV f key 0 0 s = Ok to s).
  { intros f. unfold terminal in Hpath.
    destruct (walk s key 0) as [from|] eqn:Hw; [|discriminate].
    destruct (idx (Array s) from) as [n|] eqn:En; [|discriminate].
    unfold getV. rewrite Z.sub_0_r. unfold len. rewrite Nat2Z.id.
    rewrite (bind_eval _ _ s from s).
    2:{ apply (getV_loop_walk s f key [] 0 from); assumption. }
    rewrite (bind_eval _ _ s (Value n) s) by (rewrite rdValue_eval, En; auto).
    destruct (Value n <? 0).
    - apply follow_edge. exact Hpath.
    - inversion Hpath. reflexivity. }
  split; [apply G|].
  intros f'. rewrite (bind_eval _ _ s to s) by apply G. apply G.
Qed.

(** ** The runs used as concrete inputs *)

Lemma put_ab : exists s1,
  get 8 key_ab 0 0 New = Ok 256 s1 /\ storeAt 256 10 s1 = Ok tt state_ab.
Proof. eexists. split; vm_compute; reflexivity. Qed.

Lemma put_abc : exists s1,
  get 8 key_abc 0 0 state_ab = Ok 354 s1 /\
  storeAt 354 11 s1 = Ok tt state_abc.
Proof. eexists. split; vm_compute; reflexivity. Qed.

Lemma history_state_ab : history [(key_ab, 256)] state_ab.
Proof.
  destruct put_ab as (s1 & Hg & Hs).
  eapply hist_put; [apply hist_New | exact Hg | | exact Hs].
  unfold ValueLimit. lia.
Qed.

Lemma history_state_abc :
  history [(key_abc, 354); (key_ab, 256)] state_abc.
Proof.
  destruct put_abc as (s1 & Hg & Hs).
  eapply hist_put; [apply history_state_ab | exact Hg | | exact Hs].
  unfold ValueLimit. lia.
Qed.

Lemma history_state_abc_bare :
  history [(key_abc, 257); (key_ab, 256)] state_abc_bare.
Proof.
  eapply hist_getV with (fuel := 8%nat) (s := state_ab_bare).
  - eapply hist_getV with (fuel := 8%nat); [apply hist_New|].
    vm_compute. reflexivity.
  - vm_compute. reflexivity.
Qed.

(** C9, witness: in the state reached by "ab" := 10 the key "ab" has its
    path and terminal slot 256. *)
Lemma getV_existing_key_is_read_only_witness :
  getV 8 key_ab 0 0 state_ab = Ok 256 state_ab /\
  forall fuel', bind (getV 8 key_ab 0 0) (fun _ => getV fuel' key_ab 0 0)
                     state_ab = Ok 256 state_ab.
Proof.
  apply (getV_existing_key_is_read_only state_ab key_ab 256 8).
  - vm_compute. reflexivity.
  - vm_compute. reflexivity.
Defined.

(** C9, counterexample.  After "ab" := 10 and "abc" := 11 the terminal of
    "ab" has moved from slot 256 to the 0-labelled child 257, so a repeated
    [getV "ab"] returns another slot; and when no value was written after
    [getV "ab"] and [getV "abc"], the repeated [getV "ab"] allocates slot 354
    and so changes the arrays. *)
Lemma getV_again_counterexample :
  ~ getV_again_same_slot /\ ~ getV_again_unchanged.
Proof.
  split; intros H.
  - assert (E : getV 8 key_ab 0 0 state_abc = Ok 257 state_abc)
      by (vm_compute; reflexivity).
    specialize (H _ _ key_ab 256 8%nat 257 state_abc history_state_abc).
    specialize (H ltac:(right; left) E). discriminate H.
  - assert (E : getV 8 key_ab 0 0 state_abc_bare
                 = Ok 354 state_ab_again_bare)
      by (vm_compute; reflexivity).
    specialize (H _ _ key_ab 256 8%nat 354 state_ab_again_bare
                  history_state_abc_bare).
    specialize (H ltac:(right; left) E).
    destruct H as (HA & _).
    apply (f_equal (fun a => idx a 354)) in HA.
    vm_compute in HA. discriminate HA.
Qed.

(** C1, counterexample.  After "ab" := 10 and "abc" := 11, slot 256 is the
    node of "ab" and [follow 256 0x01] runs into its own slot: [resolve]
    moves the node to slot 258 and returns slot 256, now the new child, whose
    [Check] is 258 and not the [from] that was passed. *)
Lemma follow_links_to_from_counterexample : ~ follow_links_to_from.
Proof.
  intros H.
  assert (E : follow 8 256 x01 state_abc = Ok 256 state_abc_follow)
    by (vm_compute; reflexivity).
  assert (O : occupied state_abc 256).
  { eexists. split; [vm_compute; reflexivity|]. simpl. lia. }
  destruct (H _ _ _ _ _ _ _ history_state_abc O E) as ((n & Hn & _ & Hc) & _).
  vm_compute in Hn. inversion Hn; subst n. simpl in Hc. discriminate Hc.
Qed.

(** * Sibling chains: [consult] and [setChild] *)

Lemma rdSibling_eval i s :
  rdSibling i s = match idx (Ninfos s) i with
                  | Some n => Ok (Sibling n) s
                  | None => Panic IndexOutOfRange
                  end.
Proof.
  unfold rdSibling, bind, rdNinfo, ret. destruct (idx _ _); reflexivity.
Qed.




Lemma setChild_rest_spec s base l : forall c acc fuel,
  rest_from s base c l -> (length l < fuel)%nat ->
  setChild_rest fuel base c acc s = Ok (acc ++ l) s.
Proof.
  induction l as [|a l IH]; intros c acc fuel Hr Hf.
  - inversion Hr as [c' Hc|]; subst.
    destruct fuel as [|f]; [lia|]. simpl. rewrite Hc. simpl.
    rewrite app_nil_r. reflexivity.
  - inversion Hr as [|c' n l' Hc Hn Hr']; subst.
    destruct fuel as [|f]; [simpl in Hf; lia|]. simpl.
    apply Z.eqb_neq in Hc. rewrite Hc. simpl.
    rewrite (bind_eval _ _ s (Sibling n) s)
      by (rewrite rdSibling_eval, Hn; reflexivity).
    rewrite (IH _ _ f Hr') by (simpl in Hf; lia).
    rewrite <- app_assoc. reflexivity.
Qed.

Lemma setChild_upto_spec s base label l : forall c acc fuel,
  rest_from s base c l -> (length l < fuel)%nat ->
  exists c' pre l2,
    setChild_upto fuel base label c acc s = Ok (c', acc ++ pre) s /\
    rest_from s base c' l2 /\ l = pre ++ l2 /\
    insertLabel label l = pre ++ label :: l2.
Proof.
  induction l as [|a l IH]; intros c acc fuel Hr Hf.
  - inversion Hr as [c' Hc|]; subst.
    destruct fuel as [|f]; [lia|]. simpl. rewrite Hc. simpl.
    exists c, [], []. rewrite app_nil_r. auto.
  - inversion Hr as [|c' n l' Hc Hn Hr']; subst.
    destruct fuel as [|f]; [simpl in Hf; lia|]. simpl.
    pose proof Hc as Hc0. apply Z.eqb_neq in Hc0. rewrite Hc0. simpl.
    destruct (b2z a <=? b2z label) eqn:Hle.
    + rewrite (bind_eval _ _ s (Sibling n) s)
        by (rewrite rdSibling_eval, Hn; reflexivity).
      destruct (IH (Sibling n) (acc ++ [a]) f Hr' ltac:(simpl in Hf; lia))
        as (c' & pre & l2 & E & R & El & Ei).
      exists c', (a :: pre), l2. rewrite E.
      rewrite <- app_assoc. simpl. subst l. rewrite Ei. auto.
    + exists a, [], (a :: l). rewrite app_nil_r. auto.
Qed.

Lemma setChild_spec s fuel base c label flag l :
  chain_from s base c l -> (length l < fuel)%nat ->
  setChild fuel base c label flag s
  = Ok (if flag then withLabel (Ordered s) label l else l) s.
Proof.
  intros (n & l' & Hn & Hr & ->) Hf. unfold setChild.
  set (h := if b2z c =? 0 then [c] else []).
  set (r := if b2z c =? 0 then l' else c :: l').
  set (c1 := if b2z c =? 0 then Sibling n else c).
  assert (Hr1 : rest_from s base c1 r).
  { subst c1 r. destruct (b2z c =? 0) eqn:E; [exact Hr|].
    apply Z.eqb_neq in E. eapply rest_cons; eauto. }
  assert (Hlen : (length r < fuel)%nat).
  { subst r. destruct (b2z c =? 0); simpl in *; lia. }
  assert (Hl : c :: l' = h ++ r).
  { subst h r. destruct (b2z c =? 0); reflexivity. }
  assert (Hw : forall o, withLabel o label (c :: l')
                         = if o then h ++ insertLabel label r
                           else h ++ label :: r).
  { intros o. unfold withLabel. subst h r.
    destruct (b2z c =? 0); reflexivity. }
  rewrite (bind_eval _ _ s (c1, h) s).
  2:{ subst c1 h. destruct (b2z c =? 0); [|reflexivity].
      rewrite (bind_eval _ _ s (Sibling n) s)
        by (rewrite rdSibling_eval, Hn; reflexivity).
      reflexivity. }
  unfold gets. unfold bind at 1. simpl fst. simpl snd.
  rewrite Hw, Hl.
  destruct (Ordered s).
  - destruct (setChild_upto_spec s base label r c1 h fuel Hr1 Hlen)
      as (c' & pre & l2 & E & R & El & Ei).
    rewrite (bind_eval _ _ s _ s E). simpl fst. simpl snd.
    assert (Hl2 : (length l2 < fuel)%nat).
    { pose proof (f_equal length El) as HL. rewrite length_app in HL. lia. }
    rewrite (setChild_rest_spec s base l2 c' _ fuel R Hl2).
    destruct flag.
    + rewrite Ei, <- !app_assoc. reflexivity.
    + rewrite El, <- !app_assoc. reflexivity.
  - unfold bind at 1. unfold ret at 1. simpl fst. simpl snd.
    rewrite (setChild_rest_spec s base r c1 _ fuel Hr1 Hlen).
    destruct flag.
    + rewrite <- app_assoc. reflexivity.
    + reflexivity.
Qed.




(** * Rings *)

Section RingBasics.
Variables nxt prv : Z -> Z.

Lemma seg_app a l1 b l2 z :
  seg nxt prv a (l1 ++ b :: l2) z <->
  seg nxt prv a l1 b /\ seg nxt prv b l2 z.
Proof.
  revert a. induction l1 as [|c l1 IH]; intros a; simpl.
  - tauto.
  - rewrite IH. tauto.
Qed.

Lemma seg_last a l z : seg nxt prv a l z -> prv z ∈ a :: l.
Proof.
  revert a. induction l as [|b l IH]; intros a; simpl.
  - intros [_ ->]. left.
  - intros (_ & _ & H). right. apply IH. exact H.
Qed.

End RingBasics.

Section RingFacts.
Variables nxt prv nxt' prv' : Z -> Z.

Lemma seg_ext a l z :
  nxt' a = nxt a ->
  (forall y, y ∈ l -> nxt' y = nxt y /\ prv' y = prv y) ->
  prv' z = prv z ->
  seg nxt prv a l z -> seg nxt' prv' a l z.
Proof.
  revert a. induction l as [|b l IH]; intros a Ha Hl Hz; simpl.
  - intros [H1 H2]. split; congruence.
  - intros (H1 & H2 & H3).
    destruct (Hl b ltac:(left)) as [Hb1 Hb2].
    split; [congruence|]. split; [congruence|].
    apply IH; auto. intros y Hy. apply Hl. right. exact Hy.
Qed.

(** The closing link of a segment is redirected to [z]. *)
Lemma seg_redirect l : forall a x z,
  seg nxt prv a l x ->
  NoDup (a :: l) ->
  nxt' (prv x) = z ->
  prv' z = prv x ->
  (forall y, y ∈ a :: l -> y <> prv x -> nxt' y = nxt y) ->
  (forall y, y ∈ l -> prv' y = prv y) ->
  seg nxt' prv' a l z.
Proof.
  induction l as [|b l IH]; intros a x z Hs Hnd Hn Hp Hnx Hpv; simpl in *.
  - destruct Hs as [H1 H2]. rewrite H2 in *. auto.
  - destruct Hs as (H1 & H2 & H3).
    pose proof (seg_last nxt prv _ _ _ H3) as Hlast.
    apply NoDup_cons in Hnd. destruct Hnd as [Ha Hnd].
    split; [|split].
    + rewrite Hnx; [exact H1|left|]. intros E. apply Ha. rewrite E.
      exact Hlast.
    + rewrite Hpv; [exact H2|left].
    + eapply IH; eauto.
      * intros y Hy. apply Hnx. right. exact Hy.
      * intros y Hy. apply Hpv. right. exact Hy.
Qed.

(** A segment is entered from a new node [x] instead of [p]. *)
Lemma seg_restart m : forall p x z,
  seg nxt prv p m z ->
  NoDup (m ++ [z]) ->
  nxt' x = nxt p ->
  prv' (nxt p) = x ->
  (forall y, y ∈ m -> nxt' y = nxt y) ->
  (forall y, y ∈ m ++ [z] -> y <> nxt p -> prv' y = prv y) ->
  seg nxt' prv' x m z.
Proof.
  intros p x z Hs Hnd Hn Hp Hnx Hpv. destruct m as [|b m]; simpl in *.
  - destruct Hs as [H1 H2]. rewrite H1 in *. auto.
  - destruct Hs as (H1 & H2 & H3). rewrite H1 in *.
    apply NoDup_cons in Hnd. destruct Hnd as [Hb Hnd].
    split; [exact Hn|]. split; [exact Hp|].
    apply seg_ext; auto.
    + apply Hnx. left.
    + intros y Hy. split.
      * apply Hnx. right. exact Hy.
      * apply Hpv.
        -- right. apply elem_of_app. left. exact Hy.
        -- intros ->. apply Hb. apply elem_of_app. left. exact Hy.
    + apply Hpv.
      * right. apply elem_of_app. right. left.
      * intros ->. apply Hb. apply elem_of_app. right. left.
Qed.
End RingFacts.

Lemma cyc_rotate nxt prv l1 l2 :
  cyc nxt prv (l1 ++ l2) -> cyc nxt prv (l2 ++ l1).
Proof.
  intros [Hnd Hs]. split.
  - apply NoDup_app. apply NoDup_app in Hnd.
    destruct Hnd as (H1 & H2 & H3). split; [exact H3|]. split; [|exact H1].
    intros x Hx Hx'. exact (H2 x Hx' Hx).
  - destruct l2 as [|x t2]; [rewrite app_nil_r in Hs; exact Hs|].
    destruct l1 as [|h t1]; [rewrite app_nil_r; exact Hs|].
    simpl in *. apply seg_app in Hs. destruct Hs as [Ha Hb].
    apply seg_app. split; assumption.
Qed.

Lemma cyc_ext nxt prv nxt' prv' r :
  (forall y, y ∈ r -> nxt' y = nxt y /\ prv' y = prv y) ->
  cyc nxt prv r -> cyc nxt' prv' r.
Proof.
  intros H [Hnd Hs]. split; [exact Hnd|].
  destruct r as [|h t]; [exact I|].
  apply (seg_ext nxt prv); auto.
  - apply H. left.
  - intros y Hy. apply H. right. exact Hy.
  - apply H. left.
Qed.

Lemma cyc_single nxt prv x : nxt x = x -> prv x = x -> cyc nxt prv [x].
Proof.
  intros H1 H2. split; [apply NoDup_singleton|]. simpl. auto.
Qed.

(** In a ring the links of a member point to members. *)
Lemma cyc_nxt_in nxt prv r x : cyc nxt prv r -> x ∈ r -> nxt x ∈ r.
Proof.
  intros Hc Hx. apply list_elem_of_split in Hx.
  destruct Hx as (l1 & l2 & ->).
  apply (cyc_rotate _ _ l1 (x :: l2)) in Hc. simpl in Hc.
  destruct Hc as [_ Hs].
  assert (H : nxt x ∈ x :: l2 ++ l1).
  { destruct (l2 ++ l1) as [|b m]; simpl in Hs.
    - destruct Hs as [-> _]. left.
    - destruct Hs as (-> & _). right. left. }
  rewrite elem_of_app, elem_of_cons.
  rewrite elem_of_cons, elem_of_app in H. tauto.
Qed.

Lemma cyc_prv_in nxt prv r x : cyc nxt prv r -> x ∈ r -> prv x ∈ r.
Proof.
  intros Hc Hx. apply list_elem_of_split in Hx.
  destruct Hx as (l1 & l2 & ->).
  apply (cyc_rotate _ _ l1 (x :: l2)) in Hc. simpl in Hc.
  destruct Hc as [_ Hs]. apply seg_last in Hs.
  rewrite elem_of_app, elem_of_cons.
  rewrite elem_of_cons, elem_of_app in Hs. tauto.
Qed.

(** Unlinking a member [x] of a ring of at least two. *)
Lemma cyc_unlink nxt prv nxt' prv' l1 x l2 :
  cyc nxt prv (l1 ++ x :: l2) ->
  l1 ++ l2 <> [] ->
  nxt' (prv x) = nxt x ->
  prv' (nxt x) = prv x ->
  (forall y, y ∈ l1 ++ l2 -> y <> prv x -> nxt' y = nxt y) ->
  (forall y, y ∈ l1 ++ l2 -> y <> nxt x -> prv' y = prv y) ->
  cyc nxt' prv' (l1 ++ l2).
Proof.
  intros Hc Hne Hn Hp Hnx Hpv.
  apply (cyc_rotate _ _ l1 (x :: l2)) in Hc. simpl in Hc.
  apply (cyc_rotate _ _ l2 l1).
  destruct Hc as [Hnd Hs].
  apply NoDup_cons in Hnd. destruct Hnd as [Hx Hnd].
  split; [exact Hnd|].
  assert (Hin : forall y, y ∈ l2 ++ l1 -> y ∈ l1 ++ l2).
  { intros y. rewrite !elem_of_app. tauto. }
  destruct (l2 ++ l1) as [|n m] eqn:Em.
  { exfalso. apply Hne. apply app_eq_nil in Em. destruct Em as [-> ->].
    reflexivity. }
  simpl in Hs. destruct Hs as (H1 & H2 & H3).
  apply (seg_redirect nxt prv nxt' prv' m n x n); auto.
  - congruence.
  - congruence.
  - intros y Hy. apply Hpv; [apply Hin; right; exact Hy|].
    rewrite H1. intros ->. apply NoDup_cons in Hnd. tauto.
Qed.

(** Linking a new node [x] in after the member [p]. *)
Lemma cyc_insert_after nxt prv nxt' prv' l1 p l2 x :
  cyc nxt prv (l1 ++ p :: l2) ->
  x ∉ l1 ++ p :: l2 ->
  nxt' x = nxt p ->
  prv' x = p ->
  nxt' p = x ->
  prv' (nxt p) = x ->
  (forall y, y ∈ l1 ++ l2 -> nxt' y = nxt y) ->
  (forall y, y ∈ l1 ++ p :: l2 -> y <> nxt p -> prv' y = prv y) ->
  cyc nxt' prv' (l1 ++ p :: x :: l2).
Proof.
  intros Hc Hx Hnx Hpx Hnp Hpn Hn Hp.
  apply (cyc_rotate _ _ l1 (p :: l2)) in Hc. simpl in Hc.
  apply (cyc_rotate _ _ (p :: x :: l2) l1). simpl.
  destruct Hc as [Hnd Hs].
  assert (Hx' : x ∉ p :: l2 ++ l1).
  { intros H. apply Hx. rewrite elem_of_app, elem_of_cons.
    rewrite elem_of_cons, elem_of_app in H. tauto. }
  split.
  - apply NoDup_cons in Hnd. destruct Hnd as [Hp1 Hnd].
    apply NoDup_cons. split.
    + rewrite elem_of_cons. intros [->|H]; [apply Hx'; left|tauto].
    + apply NoDup_cons. split; [|exact Hnd].
      intros H. apply Hx'. right. exact H.
  - split; [exact Hnp|]. split; [exact Hpx|].
    apply (seg_restart nxt prv nxt' prv' (l2 ++ l1) p x p); auto.
    + apply NoDup_app. apply NoDup_cons in Hnd. destruct Hnd as [Hp1 Hnd].
      split; [exact Hnd|]. split; [|apply NoDup_singleton].
      intros y Hy Hy'. apply list_elem_of_singleton in Hy'. subst y. tauto.
    + intros y Hy. apply Hn. rewrite elem_of_app in *. tauto.
    + intros y Hy. apply Hp.
      rewrite elem_of_app, elem_of_cons.
      rewrite elem_of_app, list_elem_of_singleton, elem_of_app in Hy. tauto.
Qed.

Lemma without_notin x r : x ∉ r -> without x r = r.
Proof.
  induction r as [|a r IH]; intros H; simpl; [reflexivity|].
  rewrite not_elem_of_cons in H. destruct H as [Ha Hr].
  destruct (Z.eqb_spec a x); [congruence|]. simpl.
  rewrite IH; auto.
Qed.

Lemma without_split l1 x l2 :
  NoDup (l1 ++ x :: l2) -> without x (l1 ++ x :: l2) = l1 ++ l2.
Proof.
  intros Hnd. apply NoDup_app in Hnd. destruct Hnd as (H1 & H2 & H3).
  apply NoDup_cons in H3. destruct H3 as [Hx H3].
  unfold without. rewrite List.filter_app. simpl.
  rewrite Z.eqb_refl. simpl.
  fold (without x l1). fold (without x l2).
  rewrite !without_notin; auto.
  intros H. apply (H2 x H). left.
Qed.

(** * Elementary reads and writes *)

Lemma idx_lookup {A} (l : list A) i :
  0 <= i < len l -> exists x, idx l i = Some x.
Proof.
  intros H. unfold idx, len in *.
  destruct (Z.ltb_spec i 0); [lia|].
  apply lookup_lt_is_Some. lia.
Qed.

Lemma idx_upd {A} (l : list A) i j x :
  0 <= i < len l ->
  idx (upd l i x) j = if j =? i then Some x else idx l j.
Proof.
  intros H. unfold idx, upd, len in *.
  destruct (Z.eqb_spec j i) as [->|Hne].
  - destruct (Z.ltb_spec i 0); [lia|].
    apply list_lookup_insert_eq. lia.
  - destruct (Z.ltb_spec j 0); [reflexivity|].
    apply list_lookup_insert_ne. lia.
Qed.

Lemma len_upd {A} (l : list A) i x : len (upd l i x) = len l.
Proof. unfold len, upd. rewrite length_insert. reflexivity. Qed.

Lemma idx_blk s i : vb s i -> idx (Blocks s) i = Some (blk s i).
Proof.
  intros H. unfold blk. destruct (idx_lookup (Blocks s) i H) as [x ->].
  reflexivity.
Qed.

Lemma idx_nod s i : vn s i -> idx (Array s) i = Some (nod s i).
Proof.
  intros H. unfold nod. destruct (idx_lookup (Array s) i H) as [x ->].
  reflexivity.
Qed.

Lemma idx_vn s i n : idx (Array s) i = Some n -> vn s i /\ nod s i = n.
Proof.
  intros H. split; [apply (idx_Some_range _ _ _ H)|].
  unfold nod. rewrite H. reflexivity.
Qed.

Lemma idx_vb s i b : idx (Blocks s) i = Some b -> vb s i /\ blk s i = b.
Proof.
  intros H. split; [apply (idx_Some_range _ _ _ H)|].
  unfold blk. rewrite H. reflexivity.
Qed.

(** Blocks *)

Lemma blk_sBlock s i b j :
  vb s i -> blk (sBlock i b s) j = if j =? i then b else blk s j.
Proof.
  intros H. unfold blk, sBlock. simpl. rewrite idx_upd by exact H.
  destruct (j =? i); reflexivity.
Qed.

Lemma vb_sBlock s i b j : vb (sBlock i b s) j <-> vb s j.
Proof. unfold vb, sBlock. simpl. rewrite len_upd. tauto. Qed.

Lemma rdBlock_ok s i : vb s i -> rdBlock i s = Ok (blk s i) s.
Proof. intros H. unfold rdBlock. rewrite idx_blk by exact H. reflexivity. Qed.

Lemma wrBlock_ok s i b : vb s i -> wrBlock i b s = Ok tt (sBlock i b s).
Proof.
  intros H. unfold wrBlock.
  rewrite (bind_eval _ _ s _ s (rdBlock_ok s i H)). reflexivity.
Qed.

Lemma rdPrev_ok s i : vb s i -> rdPrev i s = Ok (prvB s i) s.
Proof.
  intros H. unfold rdPrev.
  rewrite (bind_eval _ _ s _ s (rdBlock_ok s i H)). reflexivity.
Qed.
Lemma rdNext_ok s i : vb s i -> rdNext i s = Ok (nxtB s i) s.
Proof.
  intros H. unfold rdNext.
  rewrite (bind_eval _ _ s _ s (rdBlock_ok s i H)). reflexivity.
Qed.
Lemma rdNum_ok s i : vb s i -> rdNum i s = Ok (Num (blk s i)) s.
Proof.
  intros H. unfold rdNum.
  rewrite (bind_eval _ _ s _ s (rdBlock_ok s i H)). reflexivity.
Qed.
Lemma rdTrial_ok s i : vb s i -> rdTrial i s = Ok (Trial (blk s i)) s.
Proof.
  intros H. unfold rdTrial.
  rewrite (bind_eval _ _ s _ s (rdBlock_ok s i H)). reflexivity.
Qed.
Lemma rdEhead_ok s i : vb s i -> rdEhead i s = Ok (Ehead (blk s i)) s.
Proof.
  intros H. unfold rdEhead.
  rewrite (bind_eval _ _ s _ s (rdBlock_ok s i H)). reflexivity.
Qed.
Lemma rdBReject_ok s i : vb s i -> rdBReject i s = Ok (bReject (blk s i)) s.
Proof.
  intros H. unfold rdBReject.
  rewrite (bind_eval _ _ s _ s (rdBlock_ok s i H)). reflexivity.
Qed.

Lemma wrPrev_ok s i v : vb s i -> wrPrev i v s = Ok tt (sPrev i v s).
Proof.
  intros H. unfold wrPrev.
  rewrite (bind_eval _ _ s _ s (rdBlock_ok s i H)).
  apply wrBlock_ok. exact H.
Qed.
Lemma wrNext_ok s i v : vb s i -> wrNext i v s = Ok tt (sNext i v s).
Proof.
  intros H. unfold wrNext.
  rewrite (bind_eval _ _ s _ s (rdBlock_ok s i H)).
  apply wrBlock_ok. exact H.
Qed.
Lemma wrNum_ok s i v : vb s i -> wrNum i v s = Ok tt (sNum i v s).
Proof.
  intros H. unfold wrNum.
  rewrite (bind_eval _ _ s _ s (rdBlock_ok s i H)).
  apply wrBlock_ok. exact H.
Qed.
Lemma wrTrial_ok s i v : vb s i -> wrTrial i v s = Ok tt (sTrial i v s).
Proof.
  intros H. unfold wrTrial.
  rewrite (bind_eval _ _ s _ s (rdBlock_ok s i H)).
  apply wrBlock_ok. exact H.
Qed.
Lemma wrEhead_ok s i v : vb s i -> wrEhead i v s = Ok tt (sEhead i v s).
Proof.
  intros H. unfold wrEhead.
  rewrite (bind_eval _ _ s _ s (rdBlock_ok s i H)).
  apply wrBlock_ok. exact H.
Qed.
Lemma wrBReject_ok s i v :
  vb s i -> wrBReject i v s = Ok tt (sBReject i v s).
Proof.
  intros H. unfold wrBReject.
  rewrite (bind_eval _ _ s _ s (rdBlock_ok s i H)).
  apply wrBlock_ok. exact H.
Qed.

Lemma rdHead_ok s h : rdHead h s = Ok (headOf h s) s.
Proof. reflexivity. Qed.
Lemma wrHead_ok s h v : wrHead h v s = Ok tt (sHead h v s).
Proof. destruct h; reflexivity. Qed.

(** What the block writes change. *)
Lemma blk_sPrev s i v j :
  vb s i ->
  blk (sPrev i v s) j
  = if j =? i then mkBlock v (Next (blk s i)) (Num (blk s i))
                     (bReject (blk s i)) (Trial (blk s i)) (Ehead (blk s i))
    else blk s j.
Proof. intros H. unfold sPrev. apply blk_sBlock. exact H. Qed.
Lemma blk_sNext s i v j :
  vb s i ->
  blk (sNext i v s) j
  = if j =? i then mkBlock (Prev (blk s i)) v (Num (blk s i))
                     (bReject (blk s i)) (Trial (blk s i)) (Ehead (blk s i))
    else blk s j.
Proof. intros H. unfold sNext. apply blk_sBlock. exact H. Qed.
Lemma blk_sNum s i v j :
  vb s i ->
  blk (sNum i v s) j
  = if j =? i then mkBlock (Prev (blk s i)) (Next (blk s i)) v
                     (bReject (blk s i)) (Trial (blk s i)) (Ehead (blk s i))
    else blk s j.
Proof. intros H. unfold sNum. apply blk_sBlock. exact H. Qed.
Lemma blk_sTrial s i v j :
  vb s i ->
  blk (sTrial i v s) j
  = if j =? i then mkBlock (Prev (blk s i)) (Next (blk s i)) (Num (blk s i))
                     (bReject (blk s i)) v (Ehead (blk s i))
    else blk s j.
Proof. intros H. unfold sTrial. apply blk_sBlock. exact H. Qed.
Lemma blk_sEhead s i v j :
  vb s i ->
  blk (sEhead i v s) j
  = if j =? i then mkBlock (Prev (blk s i)) (Next (blk s i)) (Num (blk s i))
                     (bReject (blk s i)) (Trial (blk s i)) v
    else blk s j.
Proof. intros H. unfold sEhead. apply blk_sBlock. exact H. Qed.
Lemma blk_sBReject s i v j :
  vb s i ->
  blk (sBReject i v s) j
  = if j =? i then mkBlock (Prev (blk s i)) (Next (blk s i)) (Num (blk s i))
                     v (Trial (blk s i)) (Ehead (blk s i))
    else blk s j.
Proof. intros H. unfold sBReject. apply blk_sBlock. exact H. Qed.
Lemma blk_sHead s h v j : blk (sHead h v s) j = blk s j.
Proof. destruct h; reflexivity. Qed.
Lemma blk_sNode s i n j : blk (sNode i n s) j = blk s j.
Proof. reflexivity. Qed.

Lemma vb_sPrev s i v j : vb (sPrev i v s) j <-> vb s j.
Proof. apply vb_sBlock. Qed.
Lemma vb_sNext s i v j : vb (sNext i v s) j <-> vb s j.
Proof. apply vb_sBlock. Qed.
Lemma vb_sNum s i v j : vb (sNum i v s) j <-> vb s j.
Proof. apply vb_sBlock. Qed.
Lemma vb_sTrial s i v j : vb (sTrial i v s) j <-> vb s j.
Proof. apply vb_sBlock. Qed.
Lemma vb_sEhead s i v j : vb (sEhead i v s) j <-> vb s j.
Proof. apply vb_sBlock. Qed.
Lemma vb_sBReject s i v j : vb (sBReject i v s) j <-> vb s j.
Proof. apply vb_sBlock. Qed.
Lemma vb_sHead s h v j : vb (sHead h v s) j <-> vb s j.
Proof. destruct h; unfold vb; simpl; tauto. Qed.
Lemma vb_sNode s i n j : vb (sNode i n s) j <-> vb s j.
Proof. unfold vb; simpl; tauto. Qed.

Lemma headOf_sBlock s i b h : headOf h (sBlock i b s) = headOf h s.
Proof. destruct h; reflexivity. Qed.
Lemma headOf_sHead s h v h' :
  headOf h' (sHead h v s)
  = if match h, h' with
       | HeadF, HeadF | HeadC, HeadC | HeadO, HeadO => true
       | _, _ => false
       end then v else headOf h' s.
Proof. destruct h, h'; reflexivity. Qed.

(** Slots *)

Lemma nod_sNode s i n j :
  vn s i -> nod (sNode i n s) j = if j =? i then n else nod s j.
Proof.
  intros H. unfold nod, sNode. simpl. rewrite idx_upd by exact H.
  destruct (j =? i); reflexivity.
Qed.
Lemma vn_sNode s i n j : vn (sNode i n s) j <-> vn s j.
Proof. unfold vn, sNode. simpl. rewrite len_upd. tauto. Qed.
Lemma nod_sBlock s i b j : nod (sBlock i b s) j = nod s j.
Proof. reflexivity. Qed.
Lemma vn_sBlock s i b j : vn (sBlock i b s) j <-> vn s j.
Proof. unfold vn; simpl; tauto. Qed.
Lemma nod_sHead s h v j : nod (sHead h v s) j = nod s j.
Proof. destruct h; reflexivity. Qed.
Lemma vn_sHead s h v j : vn (sHead h v s) j <-> vn s j.
Proof. destruct h; unfold vn; simpl; tauto. Qed.

Lemma rdNode_ok s i : vn s i -> rdNode i s = Ok (nod s i) s.
Proof. intros H. unfold rdNode. rewrite idx_nod by exact H. reflexivity. Qed.
Lemma wrNode_ok s i n : vn s i -> wrNode i n s = Ok tt (sNode i n s).
Proof.
  intros H. unfold wrNode.
  rewrite (bind_eval _ _ s _ s (rdNode_ok s i H)). reflexivity.
Qed.
Lemma rdValue_ok s i : vn s i -> rdValue i s = Ok (Value (nod s i)) s.
Proof.
  intros H. unfold rdValue.
  rewrite (bind_eval _ _ s _ s (rdNode_ok s i H)). reflexivity.
Qed.
Lemma rdCheck_ok s i : vn s i -> rdCheck i s = Ok (Check (nod s i)) s.
Proof.
  intros H. unfold rdCheck.
  rewrite (bind_eval _ _ s _ s (rdNode_ok s i H)). reflexivity.
Qed.
Lemma wrValue_ok s i v : vn s i -> wrValue i v s = Ok tt (sValue i v s).
Proof.
  intros H. unfold wrValue.
  rewrite (bind_eval _ _ s _ s (rdNode_ok s i H)).
  apply wrNode_ok. exact H.
Qed.
Lemma wrCheck_ok s i v : vn s i -> wrCheck i v s = Ok tt (sCheck i v s).
Proof.
  intros H. unfold wrCheck.
  rewrite (bind_eval _ _ s _ s (rdNode_ok s i H)).
  apply wrNode_ok. exact H.
Qed.

(** A read or a write that returns was given an index inside the slice. *)
Lemma rdBlock_inv s i b s' : rdBlock i s = Ok b s' -> vb s i.
Proof.
  unfold rdBlock. destruct (idx (Blocks s) i) eqn:E; [|discriminate].
  intros _. apply (idx_Some_range _ _ _ E).
Qed.
Lemma rdNode_inv s i n s' : rdNode i s = Ok n s' -> vn s i.
Proof.
  unfold rdNode. destruct (idx (Array s) i) eqn:E; [|discriminate].
  intros _. apply (idx_Some_range _ _ _ E).
Qed.

(** * The rings of blocks *)

Lemma links_only_refl s : links_only s s.
Proof. constructor; auto. Qed.

Lemma links_only_trans s1 s2 s3 :
  links_only s1 s2 -> links_only s2 s3 -> links_only s1 s3.
Proof.
  intros [] []. constructor; intros; etransitivity; eauto.
Qed.

Lemma links_only_vb s s' b : links_only s s' -> vb s' b <-> vb s b.
Proof. intros H. unfold vb. rewrite (lo_len _ _ H). tauto. Qed.

Lemma links_only_sPrev s i v : vb s i -> links_only s (sPrev i v s).
Proof.
  intros H. constructor; try reflexivity.
  - unfold sPrev, sBlock. simpl. apply len_upd.
  - intros b. rewrite blk_sPrev by exact H.
    destruct (Z.eqb_spec b i); subst; reflexivity.
  - intros b. rewrite blk_sPrev by exact H.
    destruct (Z.eqb_spec b i); subst; reflexivity.
  - intros b. rewrite blk_sPrev by exact H.
    destruct (Z.eqb_spec b i); subst; reflexivity.
  - intros b. rewrite blk_sPrev by exact H.
    destruct (Z.eqb_spec b i); subst; reflexivity.
Qed.

Lemma links_only_sNext s i v : vb s i -> links_only s (sNext i v s).
Proof.
  intros H. constructor; try reflexivity.
  - unfold sNext, sBlock. simpl. apply len_upd.
  - intros b. rewrite blk_sNext by exact H.
    destruct (Z.eqb_spec b i); subst; reflexivity.
  - intros b. rewrite blk_sNext by exact H.
    destruct (Z.eqb_spec b i); subst; reflexivity.
  - intros b. rewrite blk_sNext by exact H.
    destruct (Z.eqb_spec b i); subst; reflexivity.
  - intros b. rewrite blk_sNext by exact H.
    destruct (Z.eqb_spec b i); subst; reflexivity.
Qed.

Lemma links_only_sHead s h v : links_only s (sHead h v s).
Proof. destruct h; constructor; reflexivity. Qed.

Lemma nxtB_sNext s i v j :
  vb s i -> nxtB (sNext i v s) j = if j =? i then v else nxtB s j.
Proof.
  intros H. unfold nxtB. rewrite blk_sNext by exact H.
  destruct (j =? i); reflexivity.
Qed.
Lemma prvB_sNext s i v j : vb s i -> prvB (sNext i v s) j = prvB s j.
Proof.
  intros H. unfold prvB. rewrite blk_sNext by exact H.
  destruct (Z.eqb_spec j i); subst; reflexivity.
Qed.
Lemma prvB_sPrev s i v j :
  vb s i -> prvB (sPrev i v s) j = if j =? i then v else prvB s j.
Proof.
  intros H. unfold prvB. rewrite blk_sPrev by exact H.
  destruct (j =? i); reflexivity.
Qed.
Lemma nxtB_sPrev s i v j : vb s i -> nxtB (sPrev i v s) j = nxtB s j.
Proof.
  intros H. unfold nxtB. rewrite blk_sPrev by exact H.
  destruct (Z.eqb_spec j i); subst; reflexivity.
Qed.
Lemma nxtB_sHead s h v j : nxtB (sHead h v s) j = nxtB s j.
Proof. unfold nxtB. rewrite blk_sHead. reflexivity. Qed.
Lemma prvB_sHead s h v j : prvB (sHead h v s) j = prvB s j.
Proof. unfold prvB. rewrite blk_sHead. reflexivity. Qed.

Section RingShape.
Variables nxt prv : Z -> Z.

Lemma seg_close a l z : seg nxt prv a l z -> nxt (prv z) = z.
Proof.
  revert a. induction l as [|b l IH]; intros a; simpl.
  - intros [H1 H2]. congruence.
  - intros (_ & _ & H). apply (IH b H).
Qed.

Lemma seg_last_split a l z :
  seg nxt prv a l z -> exists l1, a :: l = l1 ++ [prv z].
Proof.
  revert a. induction l as [|b l IH]; intros a; simpl.
  - intros [_ ->]. exists []. reflexivity.
  - intros (_ & _ & H). destruct (IH b H) as [l1 E].
    exists (a :: l1). simpl. rewrite E. reflexivity.
Qed.

(** A member is its own successor only in a ring of one. *)
Lemma cyc_nxt_self l1 x l2 :
  cyc nxt prv (l1 ++ x :: l2) -> (nxt x = x <-> l1 ++ l2 = []).
Proof.
  intros Hc. apply (cyc_rotate _ _ l1 (x :: l2)) in Hc. simpl in Hc.
  destruct Hc as [Hnd Hs].
  assert (E : l1 ++ l2 = [] <-> l2 ++ l1 = []).
  { split; intros H; apply app_eq_nil in H; destruct H as [-> ->];
      reflexivity. }
  rewrite E. destruct (l2 ++ l1) as [|n m]; simpl in Hs.
  - destruct Hs as [H _]. tauto.
  - destruct Hs as (H & _). apply NoDup_cons in Hnd.
    destruct Hnd as [Hx _]. split; [|discriminate].
    intros H'. exfalso. apply Hx. rewrite <- H, H'. left.
Qed.

Lemma cyc_prv_self l1 x l2 :
  cyc nxt prv (l1 ++ x :: l2) -> l1 ++ l2 <> [] -> prv x <> x.
Proof.
  intros Hc Hne E.
  pose proof (proj1 (cyc_nxt_self l1 x l2 Hc)) as H.
  apply Hne, H.
  apply (cyc_rotate _ _ l1 (x :: l2)) in Hc. simpl in Hc.
  destruct Hc as [_ Hs]. apply seg_close in Hs. congruence.
Qed.

(** The successor of the head is the head of what remains. *)
Lemma cyc_nxt_head x r : cyc nxt prv (x :: r) -> r <> [] -> nxt x = hd 0 r.
Proof.
  intros [_ Hs] Hne. destruct r as [|n m]; [congruence|].
  simpl in Hs. simpl. tauto.
Qed.
End RingShape.

Lemma hd_without_ne bi a r : a <> bi -> hd 0 (without bi (a :: r)) = a.
Proof.
  intros H. unfold without. simpl.
  destruct (Z.eqb_spec a bi); [congruence|]. reflexivity.
Qed.

Lemma without_head bi r : bi ∉ r -> without bi (bi :: r) = r.
Proof.
  intros H. unfold without. simpl. rewrite Z.eqb_refl. simpl.
  apply without_notin. exact H.
Qed.

Lemma elem_of_without x y r : x ∈ without y r <-> x ∈ r /\ x <> y.
Proof.
  induction r as [|a r IH]; simpl.
  - split; [intros H; inversion H|intros [H _]; inversion H].
  - destruct (Z.eqb_spec a y) as [->|Hne]; simpl.
    + rewrite IH, elem_of_cons. split; [tauto|].
      intros [[->|H] H']; tauto.
    + rewrite !elem_of_cons, IH. split; [|tauto].
      intros [->|H]; tauto.
Qed.

Lemma NoDup_without x r : NoDup r -> NoDup (without x r).
Proof.
  induction r as [|a r IH]; simpl; intros H; [exact H|].
  apply NoDup_cons in H. destruct H as [Ha H].
  destruct (Z.eqb_spec a x); simpl; [apply IH, H|].
  apply NoDup_cons. split; [|apply IH, H].
  intros H'. apply Ha. apply elem_of_without in H'. tauto.
Qed.

Ltac vb_tac :=
  repeat first
    [ rewrite vb_sNext | rewrite vb_sPrev | rewrite vb_sHead
    | rewrite vb_sNum | rewrite vb_sTrial | rewrite vb_sEhead
    | rewrite vb_sBReject | rewrite vb_sNode
    | match goal with
      | H : forall j, vb ?t j <-> _ |- vb ?t _ => apply H
      end ];
  auto.
(** Run the next elementary step of a monadic term. *)
Ltac run L := erewrite bind_eval; [ | apply L; vb_tac ].

Lemma cycleOf_split h l1 bi l2 :
  cycleOf h (l1 ++ bi :: l2) = l1 ++ bi :: cycleOf h l2.
Proof. destruct h; simpl; try reflexivity. rewrite <- app_assoc. reflexivity. Qed.

Lemma cycleOf_app h l1 l2 : cycleOf h (l1 ++ l2) = l1 ++ cycleOf h l2.
Proof. destruct h; simpl; try reflexivity. rewrite <- app_assoc. reflexivity. Qed.

Lemma cycleOf_in h r x : x ∈ r -> x ∈ cycleOf h r.
Proof. destruct h; simpl; auto. intros H. apply elem_of_app. auto. Qed.

Lemma cyc_cycleOf_NoDup nxt prv h r :
  cyc nxt prv (cycleOf h r) -> NoDup r.
Proof.
  intros [H _]. destruct h; simpl in H; auto.
  apply NoDup_app in H. tauto.
Qed.

Lemma popBlock_cycle s h r bi :
  cyc (nxtB s) (prvB s) (cycleOf h r) ->
  (forall b, b ∈ cycleOf h r -> vb s b) ->
  headOf h s = hd 0 r ->
  bi ∈ r -> 0 ∉ r ->
  exists s', popBlock bi h (bi =? nxtB s bi) s = Ok tt s' /\
    cyc (nxtB s') (prvB s') (cycleOf h (without bi r)) /\
    headOf h s' = hd 0 (without bi r) /\
    (forall h', head_eqb h' h = false -> headOf h' s' = headOf h' s) /\
    (forall y, y ∉ cycleOf h r -> blk s' y = blk s y) /\
    links_only s s'.
Proof.
  intros Hc Hv Hh Hbi H0.
  pose proof (cyc_cycleOf_NoDup _ _ _ _ Hc) as Hnd.
  destruct (list_elem_of_split _ _ Hbi) as (l1 & l2 & ->).
  rewrite without_split by exact Hnd.
  rewrite cycleOf_split in Hc, Hv. rewrite cycleOf_app.
  set (L2 := cycleOf h l2) in *.
  destruct (list_eq_dec (l1 ++ L2) []) as [Hemp|Hne].
  - (* the ring has one member *)
    pose proof (proj2 (cyc_nxt_self _ _ _ _ _ Hc) Hemp) as Hself.
    rewrite Hself, Z.eqb_refl. simpl.
    apply app_eq_nil in Hemp. destruct Hemp as [-> HL].
    assert (l2 = []) as ->.
    { subst L2. destruct h, l2; simpl in HL; congruence. }
    exists (sHead h 0 s). split; [apply wrHead_ok|].
    rewrite HL. split; [split; [constructor|exact I]|].
    split; [rewrite headOf_sHead; destruct h; reflexivity|].
    split; [intros h' E; rewrite headOf_sHead; destruct h, h';
            try discriminate; reflexivity|].
    split; [intros y _; apply blk_sHead|apply links_only_sHead].
  - (* unlink *)
    assert (Hns : nxtB s bi <> bi).
    { intros E. apply Hne. apply (cyc_nxt_self _ _ _ _ _ Hc). exact E. }
    assert (Hps : prvB s bi <> bi) by (apply (cyc_prv_self _ _ _ _ _ Hc Hne)).
    apply Z.eqb_neq in Hns as Hns'. rewrite Z.eqb_sym in Hns'.
    rewrite Hns'. simpl.
    assert (Hbv : vb s bi) by (apply Hv; apply elem_of_app; right; left).
    assert (Hbin : bi ∈ l1 ++ bi :: L2)
      by (apply elem_of_app; right; left).
    assert (Hnv : vb s (nxtB s bi))
      by (apply Hv; apply (cyc_nxt_in _ _ _ _ Hc Hbin)).
    assert (Hpv : vb s (prvB s bi))
      by (apply Hv; apply (cyc_prv_in _ _ _ _ Hc Hbin)).
    set (p := prvB s bi) in *. set (n := nxtB s bi) in *.
    set (s1 := sNext p n s).
    assert (V1 : forall j, vb s1 j <-> vb s j) by (intros; apply vb_sNext).
    set (s2 := sPrev n p s1).
    assert (V2 : forall j, vb s2 j <-> vb s j)
      by (intros; unfold s2; rewrite vb_sPrev; apply V1).
    assert (E1n : nxtB s1 bi = n).
    { unfold s1. rewrite nxtB_sNext by exact Hpv.
      destruct (Z.eqb_spec bi p); [congruence|reflexivity]. }
    assert (E1p : prvB s1 bi = p).
    { unfold s1. rewrite prvB_sNext by exact Hpv. reflexivity. }
    assert (E2n : nxtB s2 bi = n).
    { unfold s2. rewrite nxtB_sPrev by vb_tac. exact E1n. }
    assert (Eh2 : forall h', headOf h' s2 = headOf h' s).
    { intros h'. unfold s2, s1, sPrev, sNext. rewrite !headOf_sBlock.
      reflexivity. }
    set (s3 := if bi =? headOf h s then sHead h n s2 else s2).
    exists s3. split.
    { unfold popBlock.
      run rdBlock_ok. run rdPrev_ok. run rdNext_ok.
      fold p n. run wrNext_ok. fold s1.
      run rdNext_ok. run rdPrev_ok.
      rewrite E1n, E1p. run wrPrev_ok. fold s2.
      run rdHead_ok.
      rewrite Eh2. unfold s3. destruct (bi =? headOf h s).
      - run rdNext_ok. rewrite E2n.
        apply wrHead_ok.
      - reflexivity. }
    assert (Hn3 : forall y, nxtB s3 y = if y =? p then n else nxtB s y).
    { intros y. subst s3.
      assert (E : nxtB s2 y = if y =? p then n else nxtB s y).
      { unfold s2. rewrite nxtB_sPrev by vb_tac.
        unfold s1. apply nxtB_sNext. exact Hpv. }
      destruct (bi =? headOf h s); [rewrite nxtB_sHead|]; exact E. }
    assert (Hp3 : forall y, prvB s3 y = if y =? n then p else prvB s y).
    { intros y. subst s3.
      assert (E : prvB s2 y = if y =? n then p else prvB s y).
      { unfold s2. rewrite prvB_sPrev by vb_tac.
        unfold s1. rewrite prvB_sNext by exact Hpv. reflexivity. }
      destruct (bi =? headOf h s); [rewrite prvB_sHead|]; exact E. }
    split.
    { apply (cyc_unlink (nxtB s) (prvB s) _ _ l1 bi L2 Hc Hne).
      - rewrite Hn3. fold p. rewrite Z.eqb_refl. reflexivity.
      - rewrite Hp3. fold n. rewrite Z.eqb_refl. reflexivity.
      - intros y _ Hy. rewrite Hn3. fold p in Hy.
        destruct (Z.eqb_spec y p); [congruence|reflexivity].
      - intros y _ Hy. rewrite Hp3. fold n in Hy.
        destruct (Z.eqb_spec y n); [congruence|reflexivity]. }
    assert (Hlo : links_only s s3).
    { subst s3. assert (links_only s s2).
      { unfold s2. eapply links_only_trans;
          [apply links_only_sNext; exact Hpv|].
        apply links_only_sPrev. vb_tac. }
      destruct (bi =? headOf h s); [|assumption].
      eapply links_only_trans; [eassumption|apply links_only_sHead]. }
    split.
    { (* the head *)
      subst s3. rewrite Hh.
      pose proof (Eh2 h) as Eh2'. rewrite Hh in Eh2'.
      destruct l1 as [|a l1]; simpl.
      - rewrite Z.eqb_refl. rewrite headOf_sHead.
        replace (head_eqb h h) with true by (destruct h; reflexivity).
        simpl in Hc. subst n.
        rewrite (cyc_nxt_head _ _ _ _ Hc) by (simpl in Hne; exact Hne).
        subst L2. destruct h, l2; reflexivity.
      - assert (a <> bi).
        { intros ->. simpl in Hnd. apply NoDup_cons in Hnd.
          destruct Hnd as [Hnd _]. apply Hnd. apply elem_of_app.
          right. left. }
        destruct (Z.eqb_spec bi a); [congruence|].
        simpl in Eh2'. exact Eh2'. }
    split.
    { intros h' E. subst s3.
      pose proof (Eh2 h') as E2.
      destruct (bi =? headOf h s); [|exact E2].
      rewrite headOf_sHead.
      replace (match h with HeadF => match h' with HeadF => true | _ => false end
                       | HeadC => match h' with HeadC => true | _ => false end
                       | HeadO => match h' with HeadO => true | _ => false end
               end) with false by (destruct h, h'; try discriminate; reflexivity).
      exact E2. }
    split; [|exact Hlo].
    intros y Hy. rewrite cycleOf_split in Hy. fold L2 in Hy.
    assert (Hyp : y <> p).
    { intros ->. apply Hy. apply (cyc_prv_in _ _ _ _ Hc Hbin). }
    assert (Hyn : y <> n).
    { intros ->. apply Hy. apply (cyc_nxt_in _ _ _ _ Hc Hbin). }
    subst s3.
    assert (E2 : blk s2 y = blk s y).
    { unfold s2. rewrite blk_sPrev by vb_tac.
      destruct (Z.eqb_spec y n); [congruence|].
      unfold s1. rewrite blk_sNext by exact Hpv.
      destruct (Z.eqb_spec y p); [congruence|reflexivity]. }
    destruct (bi =? headOf h s); [rewrite blk_sHead|]; exact E2.
Qed.

Definition emptyFlag (h : headptr) (r : list Z) : bool :=
  match h, r with
  | HeadF, _ => false
  | _, [] => true
  | _, _ => false
  end.

Lemma head_eqb_refl h : head_eqb h h = true.
Proof. destruct h; reflexivity. Qed.

Lemma headOf_sHead' s h v h' :
  headOf h' (sHead h v s) = if head_eqb h' h then v else headOf h' s.
Proof. destruct h, h'; reflexivity. Qed.

Lemma pushBlock_cycle s h r bi :
  cyc (nxtB s) (prvB s) (cycleOf h r) ->
  (forall b, b ∈ cycleOf h r -> vb s b) ->
  headOf h s = hd 0 r ->
  vb s bi -> bi ∉ cycleOf h r ->
  exists s', pushBlock bi h (emptyFlag h r) s = Ok tt s' /\
    cyc (nxtB s') (prvB s') (cycleOf h (bi :: r)) /\
    headOf h s' = bi /\
    (forall h', head_eqb h' h = false -> headOf h' s' = headOf h' s) /\
    (forall y, y ∉ bi :: cycleOf h r -> blk s' y = blk s y) /\
    links_only s s'.
Proof.
  intros Hc Hv Hh Hbv Hbi.
  destruct (cycleOf h r) as [|hd0 m] eqn:Ecy.
  - (* an empty Closed or Open ring *)
    assert (r = []) as -> by (destruct h, r; simpl in Ecy; congruence).
    assert (Ee : emptyFlag h [] = true) by (destruct h; simpl in *; congruence).
    rewrite Ee.
    set (s1 := sHead h bi s).
    set (s2 := sPrev bi bi s1).
    set (s3 := sNext bi bi s2).
    assert (V1 : forall j, vb s1 j <-> vb s j) by (intros; apply vb_sHead).
    assert (V2 : forall j, vb s2 j <-> vb s j)
      by (intros; unfold s2; rewrite vb_sPrev; apply V1).
    exists s3. split.
    { unfold pushBlock. run rdBlock_ok. run wrHead_ok. fold s1.
      run wrPrev_ok. fold s2. apply wrNext_ok. vb_tac. }
    assert (En : nxtB s3 bi = bi).
    { unfold s3. rewrite nxtB_sNext by vb_tac. rewrite Z.eqb_refl.
      reflexivity. }
    assert (Ep : prvB s3 bi = bi).
    { unfold s3. rewrite prvB_sNext by vb_tac. unfold s2.
      rewrite prvB_sPrev by vb_tac. rewrite Z.eqb_refl. reflexivity. }
    split.
    { replace (cycleOf h [bi]) with [bi]
        by (destruct h; simpl in *; congruence).
      apply cyc_single; assumption. }
    split.
    { unfold s3, s2, sNext, sPrev. rewrite !headOf_sBlock. unfold s1.
      rewrite headOf_sHead', head_eqb_refl. reflexivity. }
    split.
    { intros h' E. unfold s3, s2, sNext, sPrev. rewrite !headOf_sBlock.
      unfold s1. rewrite headOf_sHead', E. reflexivity. }
    split.
    { intros y Hy. apply not_elem_of_cons in Hy. destruct Hy as [Hy _].
      unfold s3. rewrite blk_sNext by vb_tac.
      destruct (Z.eqb_spec y bi); [congruence|].
      unfold s2. rewrite blk_sPrev by vb_tac.
      destruct (Z.eqb_spec y bi); [congruence|].
      unfold s1. apply blk_sHead. }
    unfold s3. eapply links_only_trans; [|apply links_only_sNext; vb_tac].
    unfold s2. eapply links_only_trans; [|apply links_only_sPrev; vb_tac].
    apply links_only_sHead.
  - (* linked in before the head *)
    assert (Ee : emptyFlag h r = false).
    { destruct h, r; simpl in *; congruence. }
    rewrite Ee.
    assert (Ehd : headOf h s = hd0).
    { rewrite Hh. clear Hh. destruct h, r; simpl in *; congruence. }
    pose proof Hc as [Hnd Hs].
    destruct (seg_last_split _ _ _ _ _ Hs) as [l1 El].
    pose proof (seg_close _ _ _ _ _ Hs) as Hcl.
    set (t := prvB s hd0) in *.
    assert (Hhv : vb s hd0) by (apply Hv; left).
    assert (Htin : t ∈ hd0 :: m)
      by (rewrite El; apply elem_of_app; right; left).
    assert (Htv : vb s t) by (apply Hv; exact Htin).
    assert (Hbh : bi <> hd0) by (intros ->; apply Hbi; left).
    assert (Hbt : bi <> t) by (intros ->; apply Hbi; exact Htin).
    set (s1 := sPrev bi t s).
    set (s2 := sNext bi hd0 s1).
    set (s3 := sHead h bi s2).
    set (s4 := sPrev hd0 bi s3).
    set (s5 := sNext t bi s4).
    assert (V1 : forall j, vb s1 j <-> vb s j) by (intros; apply vb_sPrev).
    assert (V2 : forall j, vb s2 j <-> vb s j)
      by (intros; unfold s2; rewrite vb_sNext; apply V1).
    assert (V3 : forall j, vb s3 j <-> vb s j)
      by (intros; unfold s3; rewrite vb_sHead; apply V2).
    assert (V4 : forall j, vb s4 j <-> vb s j)
      by (intros; unfold s4; rewrite vb_sPrev; apply V3).
    assert (H1 : forall h', headOf h' s2 = headOf h' s).
    { intros h'. unfold s2, s1, sNext, sPrev. rewrite !headOf_sBlock.
      reflexivity. }
    assert (P2 : prvB s2 hd0 = t).
    { unfold s2. rewrite prvB_sNext by vb_tac. unfold s1.
      rewrite prvB_sPrev by vb_tac.
      destruct (Z.eqb_spec hd0 bi); [congruence|reflexivity]. }
    exists s5. split.
    { unfold pushBlock. run rdBlock_ok. run rdHead_ok. rewrite Ehd.
      run rdBlock_ok. run rdPrev_ok. fold t. run wrPrev_ok. fold s1.
      run rdHead_ok.
      replace (headOf h s1) with hd0
        by (unfold s1, sPrev; rewrite headOf_sBlock; congruence).
      run wrNext_ok. fold s2. run rdPrev_ok. rewrite P2.
      run wrHead_ok. fold s3. run wrPrev_ok. fold s4.
      apply wrNext_ok. vb_tac. }
    assert (Hn5 : forall y, nxtB s5 y
              = if y =? t then bi else if y =? bi then hd0 else nxtB s y).
    { intros y. unfold s5. rewrite nxtB_sNext by vb_tac.
      destruct (y =? t); [reflexivity|].
      unfold s4. rewrite nxtB_sPrev by vb_tac. unfold s3.
      rewrite nxtB_sHead. unfold s2. rewrite nxtB_sNext by vb_tac.
      destruct (y =? bi); [reflexivity|].
      unfold s1. apply nxtB_sPrev. exact Hbv. }
    assert (Hp5 : forall y, prvB s5 y
              = if y =? hd0 then bi else if y =? bi then t else prvB s y).
    { intros y. unfold s5. rewrite prvB_sNext by vb_tac.
      unfold s4. rewrite prvB_sPrev by vb_tac.
      destruct (y =? hd0); [reflexivity|].
      unfold s3. rewrite prvB_sHead. unfold s2.
      rewrite prvB_sNext by vb_tac. unfold s1.
      apply prvB_sPrev. exact Hbv. }
    split.
    { replace (cycleOf h (bi :: r)) with (bi :: hd0 :: m)
        by (rewrite <- Ecy; destruct h; reflexivity).
      apply (cyc_rotate _ _ (hd0 :: m) [bi]).
      rewrite El, <- app_assoc. simpl.
      rewrite El in Hc, Hbi.
      apply (cyc_insert_after (nxtB s) (prvB s) _ _ l1 t [] bi Hc Hbi).
      - rewrite Hn5. destruct (Z.eqb_spec bi t); [congruence|].
        rewrite Z.eqb_refl. symmetry. exact Hcl.
      - rewrite Hp5. destruct (Z.eqb_spec bi hd0); [congruence|].
        rewrite Z.eqb_refl. reflexivity.
      - rewrite Hn5, Z.eqb_refl. reflexivity.
      - rewrite Hcl, Hp5, Z.eqb_refl. reflexivity.
      - intros y Hy. rewrite app_nil_r in Hy. rewrite Hn5.
        destruct (Z.eqb_spec y t) as [->|_].
        + exfalso. destruct Hc as [Hnd' _]. apply NoDup_app in Hnd'.
          destruct Hnd' as (_ & Hd & _). apply (Hd t Hy). left.
        + destruct (Z.eqb_spec y bi) as [->|_]; [|reflexivity].
          exfalso. apply Hbi. apply elem_of_app. left. exact Hy.
      - intros y Hy Hne. rewrite Hcl in Hne. rewrite Hp5.
        destruct (Z.eqb_spec y hd0); [congruence|].
        destruct (Z.eqb_spec y bi) as [->|_]; [|reflexivity].
        exfalso. apply Hbi. exact Hy. }
    split.
    { unfold s5, s4, sNext, sPrev. rewrite !headOf_sBlock. unfold s3.
      rewrite headOf_sHead', head_eqb_refl. reflexivity. }
    split.
    { intros h' E. unfold s5, s4, sNext, sPrev. rewrite !headOf_sBlock.
      unfold s3. rewrite headOf_sHead', E. apply H1. }
    split.
    { intros y Hy. apply not_elem_of_cons in Hy. destruct Hy as [Hyb Hy].
      assert (y <> t) by (intros ->; apply Hy; exact Htin).
      assert (y <> hd0) by (intros ->; apply Hy; left).
      unfold s5. rewrite blk_sNext by vb_tac.
      destruct (Z.eqb_spec y t); [congruence|].
      unfold s4. rewrite blk_sPrev by vb_tac.
      destruct (Z.eqb_spec y hd0); [congruence|].
      unfold s3. rewrite blk_sHead. unfold s2.
      rewrite blk_sNext by vb_tac.
      destruct (Z.eqb_spec y bi); [congruence|].
      unfold s1. rewrite blk_sPrev by vb_tac.
      destruct (Z.eqb_spec y bi); [congruence|reflexivity]. }
    unfold s5. eapply links_only_trans; [|apply links_only_sNext; vb_tac].
    unfold s4. eapply links_only_trans; [|apply links_only_sPrev; vb_tac].
    unfold s3. eapply links_only_trans; [|apply links_only_sHead].
    unfold s2. eapply links_only_trans; [|apply links_only_sNext; vb_tac].
    apply links_only_sPrev. exact Hbv.
Qed.

Lemma in_members R h x : x ∈ R h -> x ∈ members R.
Proof.
  unfold members. rewrite !elem_of_app. destruct h; tauto.
Qed.

Lemma members_in R x : x ∈ members R -> exists h, x ∈ R h.
Proof.
  unfold members. rewrite !elem_of_app.
  intros [H|[H|H]]; eauto.
Qed.

Lemma ring_no_zero R h : NoDup (0 :: members R) -> 0 ∉ R h.
Proof.
  intros H Hin. apply NoDup_cons in H. destruct H as [H _].
  apply H. eapply in_members. exact Hin.
Qed.

Lemma rings_disjoint R h h' x :
  NoDup (0 :: members R) -> head_eqb h h' = false ->
  x ∈ R h -> x ∉ R h'.
Proof.
  intros H E Hx Hx'. apply NoDup_cons in H. destruct H as [_ H].
  unfold members in H. apply NoDup_app in H. destruct H as (H1 & H2 & H3).
  apply NoDup_app in H3. destruct H3 as (H3 & H4 & H5).
  destruct h, h'; try discriminate.
  - apply (H2 x Hx). apply elem_of_app. auto.
  - apply (H2 x Hx). apply elem_of_app. auto.
  - apply (H2 x Hx'). apply elem_of_app. auto.
  - apply (H4 x Hx Hx').
  - apply (H2 x Hx'). apply elem_of_app. auto.
  - apply (H4 x Hx' Hx).
Qed.

Lemma cycleOf_elem h r x : x ∈ cycleOf h r -> x ∈ r \/ (h = HeadF /\ x = 0).
Proof.
  destruct h; simpl; auto.
  rewrite elem_of_app, list_elem_of_singleton. tauto.
Qed.

Lemma cycles_disjoint R h h' x :
  NoDup (0 :: members R) -> head_eqb h h' = false ->
  x ∈ cycleOf h (R h) -> x ∉ cycleOf h' (R h').
Proof.
  intros H E Hx Hx'.
  apply cycleOf_elem in Hx. apply cycleOf_elem in Hx'.
  destruct Hx as [Hx|[Eh Ex]], Hx' as [Hx'|[Eh' Ex']].
  - apply (rings_disjoint R h h' x H E Hx Hx').
  - subst x. apply (ring_no_zero R h H Hx).
  - subst x. apply (ring_no_zero R h' H Hx').
  - subst h h'. discriminate.
Qed.

Lemma moved_elem R bi hIn hOut h x :
  head_eqb hIn hOut = false ->
  (x ∈ moved bi hIn hOut R h <->
   (x ∈ R h /\ (head_eqb h hIn = true -> x <> bi)) \/
   (x = bi /\ head_eqb h hOut = true)).
Proof.
  intros E. unfold moved.
  destruct (head_eqb h hIn) eqn:E1.
  - rewrite elem_of_without.
    assert (head_eqb h hOut = false)
      by (destruct h, hIn, hOut; try discriminate; reflexivity).
    split; [intros [? ?]; left; auto|].
    intros [[? H1]|[_ ?]]; [auto|congruence].
  - destruct (head_eqb h hOut) eqn:E2.
    + rewrite elem_of_cons. split.
      * intros [->|?]; [right; auto|left; split; [auto|discriminate]].
      * intros [[? _]|[? _]]; auto.
    + split; [intros ?; left; split; [auto|discriminate]|].
      intros [[? _]|[_ ?]]; [auto|discriminate].
Qed.

Lemma members_moved R bi hIn hOut x :
  head_eqb hIn hOut = false -> bi ∈ R hIn ->
  (x ∈ members (moved bi hIn hOut R) <-> x ∈ members R).
Proof.
  intros E Hbi. split.
  - intros H. apply members_in in H. destruct H as [h H].
    apply moved_elem in H; [|exact E].
    destruct H as [[H _]|[-> _]]; eapply in_members; eauto.
  - intros H. apply members_in in H. destruct H as [h H].
    destruct (Z.eq_dec x bi) as [->|Hne].
    + apply (in_members _ hOut). apply moved_elem; [exact E|].
      right. split; [reflexivity|apply head_eqb_refl].
    + apply (in_members _ h). apply moved_elem; [exact E|].
      left. split; [exact H|]. intros _. exact Hne.
Qed.

Lemma head_eqb_eq h h' : head_eqb h h' = true <-> h = h'.
Proof. destruct h, h'; simpl; split; congruence. Qed.

Lemma head_eqb_sym h h' : head_eqb h h' = head_eqb h' h.
Proof. destruct h, h'; reflexivity. Qed.

Lemma NoDup_members R :
  NoDup (members R) <->
  (forall h, NoDup (R h)) /\
  (forall h h' x, head_eqb h h' = false -> x ∈ R h -> x ∉ R h').
Proof.
  unfold members. rewrite !NoDup_app. split.
  - intros (H1 & H2 & H3 & H4 & H5). split; [intros []; assumption|].
    intros h h' x E Hx Hx'.
    destruct h, h'; try discriminate.
    + apply (H2 x Hx). apply elem_of_app. auto.
    + apply (H2 x Hx). apply elem_of_app. auto.
    + apply (H2 x Hx'). apply elem_of_app. auto.
    + apply (H4 x Hx Hx').
    + apply (H2 x Hx'). apply elem_of_app. auto.
    + apply (H4 x Hx' Hx).
  - intros [H1 H2]. split; [apply H1|]. split.
    + intros x Hx Hx'. apply elem_of_app in Hx'. destruct Hx' as [Hx'|Hx'].
      * apply (H2 HeadF HeadC x eq_refl Hx Hx').
      * apply (H2 HeadF HeadO x eq_refl Hx Hx').
    + split; [apply H1|]. split; [|apply H1].
      intros x Hx Hx'. apply (H2 HeadC HeadO x eq_refl Hx Hx').
Qed.

Lemma NoDup_moved R bi hIn hOut :
  head_eqb hIn hOut = false -> bi ∈ R hIn ->
  NoDup (0 :: members R) -> NoDup (0 :: members (moved bi hIn hOut R)).
Proof.
  intros E Hbi H.
  apply NoDup_cons in H. destruct H as [H0 H].
  apply NoDup_cons. split.
  { rewrite members_moved by assumption. exact H0. }
  apply NoDup_members in H. destruct H as [H1 H2].
  apply NoDup_members. split.
  - intros h. unfold moved. destruct (head_eqb h hIn) eqn:E1.
    + apply NoDup_without, H1.
    + destruct (head_eqb h hOut) eqn:E2; [|apply H1].
      apply NoDup_cons. split; [|apply H1].
      intros Hin. apply (H2 hIn h bi); auto.
      rewrite head_eqb_sym. exact E1.
  - intros h h' x Eh Hx Hx'.
    apply moved_elem in Hx; [|exact E]. apply moved_elem in Hx'; [|exact E].
    assert (Hown : forall k, bi ∈ R k -> head_eqb k hIn = true).
    { intros k Hk. destruct (head_eqb k hIn) eqn:Ek; [reflexivity|].
      exfalso. apply (H2 k hIn bi Ek Hk Hbi). }
    destruct Hx as [[Hx Hn]|[-> Ho]], Hx' as [[Hx' Hn']|[Ex' Ho']].
    + apply (H2 h h' x Eh Hx Hx').
    + subst x. apply Hn; [apply Hown; exact Hx|reflexivity].
    + apply Hn'; [apply Hown; exact Hx'|reflexivity].
    + apply head_eqb_eq in Ho, Ho'. subst h h'.
      rewrite head_eqb_refl in Eh. discriminate.
Qed.

Lemma cyc_frame s s' r :
  (forall y, y ∈ r -> blk s' y = blk s y) ->
  cyc (nxtB s) (prvB s) r -> cyc (nxtB s') (prvB s') r.
Proof.
  intros H. apply cyc_ext. intros y Hy. unfold nxtB, prvB.
  rewrite (H y Hy). auto.
Qed.

Lemma hd_ring_nonzero R h :
  NoDup (0 :: members R) -> (hd 0 (R h) = 0 <-> R h = []).
Proof.
  intros H. destruct (R h) as [|a r] eqn:E; simpl; [tauto|].
  split; [|discriminate]. intros ->. exfalso.
  apply (ring_no_zero R h H). rewrite E. left.
Qed.

(** [transferBlock] moves one member of a ring to the head of another ring
    and leaves the three rings well formed. *)
Lemma transferBlock_rings s R hIn hOut bi :
  block_rings s R ->
  head_eqb hIn hOut = false ->
  bi ∈ R hIn ->
  (Num (blk s bi) = 0 <-> hOut = HeadF) ->
  exists s', transferBlock bi hIn hOut s = Ok tt s' /\
             block_rings s' (moved bi hIn hOut R) /\
             links_only s s'.
Proof.
  intros [Hnd Hv Hh Hc] E Hbi Hnum.
  assert (Hvc : forall h b, b ∈ cycleOf h (R h) -> vb s b).
  { intros h b Hb. apply Hv. apply cycleOf_elem in Hb.
    destruct Hb as [Hb|[_ ->]]; [right; eapply in_members; eauto|left;
      reflexivity]. }
  assert (Hbv : vb s bi) by (apply Hv; right; eapply in_members; eauto).
  destruct (popBlock_cycle s hIn (R hIn) bi (Hc hIn) (Hvc hIn) (Hh hIn) Hbi
              (ring_no_zero R hIn Hnd))
    as (s1 & Hpop & Hc1 & Hh1 & Hho1 & Hfr1 & Hlo1).
  assert (E' : head_eqb hOut hIn = false)
    by (rewrite head_eqb_sym; exact E).
  assert (Hbo : bi ∉ cycleOf hOut (R hOut)).
  { apply (cycles_disjoint R hIn hOut bi Hnd E).
    apply cycleOf_in. exact Hbi. }
  assert (Hco : cyc (nxtB s1) (prvB s1) (cycleOf hOut (R hOut))).
  { apply (cyc_frame s); [|apply Hc].
    intros y Hy. apply Hfr1.
    apply (cycles_disjoint R hOut hIn y Hnd E' Hy). }
  destruct (pushBlock_cycle s1 hOut (R hOut) bi Hco)
    as (s2 & Hpush & Hc2 & Hh2 & Hho2 & Hfr2 & Hlo2).
  { intros b Hb. apply (links_only_vb _ _ _ Hlo1). eapply Hvc; eauto. }
  { rewrite (Hho1 hOut E'). apply Hh. }
  { apply (links_only_vb _ _ _ Hlo1). exact Hbv. }
  { exact Hbo. }
  exists s2. split.
  { unfold transferBlock. run rdNext_ok.
    rewrite (bind_eval _ _ s tt s1 Hpop).
    run rdHead_ok. rewrite (Hho1 hOut E'), (Hh hOut).
    rewrite (bind_eval _ _ s1 (emptyFlag hOut (R hOut)) s1); [exact Hpush|].
    destruct (Z.eqb_spec (hd 0 (R hOut)) 0) as [E0|E0].
    - apply (hd_ring_nonzero R hOut Hnd) in E0.
      run rdNum_ok; [|apply (links_only_vb _ _ _ Hlo1); exact Hbv].
      rewrite (lo_num _ _ Hlo1). rewrite E0. unfold ret. f_equal.
      destruct hOut; simpl.
      + rewrite (proj2 Hnum eq_refl). reflexivity.
      + destruct (Z.eqb_spec (Num (blk s bi)) 0) as [Ez|]; [|reflexivity].
        apply Hnum in Ez. discriminate.
      + destruct (Z.eqb_spec (Num (blk s bi)) 0) as [Ez|]; [|reflexivity].
        apply Hnum in Ez. discriminate.
    - unfold ret. f_equal.
      destruct (R hOut) eqn:Er; [simpl in E0; congruence|].
      destruct hOut; reflexivity. }
  split; [|eapply links_only_trans; eauto].
  constructor.
  - apply NoDup_moved; assumption.
  - intros b Hb. apply (links_only_vb _ _ _ Hlo2).
    apply (links_only_vb _ _ _ Hlo1). apply Hv.
    destruct Hb as [->|Hb]; [left; reflexivity|right].
    apply (members_moved R bi hIn hOut b E Hbi). exact Hb.
  - intros h. unfold moved. destruct (head_eqb h hIn) eqn:E1.
    + apply head_eqb_eq in E1. subst h.
      rewrite (Hho2 hIn E). exact Hh1.
    + destruct (head_eqb h hOut) eqn:E2.
      * apply head_eqb_eq in E2. subst h. exact Hh2.
      * rewrite (Hho2 h E2), (Hho1 h E1). apply Hh.
  - intros h. unfold moved. destruct (head_eqb h hIn) eqn:E1.
    + apply head_eqb_eq in E1. subst h.
      apply (cyc_frame s1); [|exact Hc1].
      intros y Hy. apply Hfr2. apply not_elem_of_cons.
      assert (Hy' : y ∈ cycleOf hIn (R hIn) /\ y <> bi).
      { apply cycleOf_elem in Hy. destruct Hy as [Hy|[-> ->]].
        - apply elem_of_without in Hy. destruct Hy as [Hy Hne].
          split; [apply cycleOf_in; exact Hy|exact Hne].
        - split; [simpl; apply elem_of_app; right; left|].
          intros <-. apply (ring_no_zero R HeadF Hnd Hbi). }
      destruct Hy' as [Hy1 Hy2]. split; [exact Hy2|].
      apply (cycles_disjoint R hIn hOut y Hnd E Hy1).
    + destruct (head_eqb h hOut) eqn:E2.
      * apply head_eqb_eq in E2. subst h. exact Hc2.
      * apply (cyc_frame s1).
        { intros y Hy. apply Hfr2. apply not_elem_of_cons. split.
          - intros ->. apply (cycles_disjoint R hIn h bi Hnd); auto.
            + rewrite head_eqb_sym. exact E1.
            + apply cycleOf_in. exact Hbi.
          - apply (cycles_disjoint R h hOut y Hnd E2 Hy). }
        apply (cyc_frame s); [|apply Hc].
        intros y Hy. apply Hfr1.
        apply (cycles_disjoint R h hIn y Hnd E1 Hy).
Qed.

Lemma history_state_full : exists to, history [(key_x257, to)] state_full.
Proof.
  eexists. eapply hist_getV with (fuel := 8%nat); [apply hist_New|].
  vm_compute. reflexivity.
Qed.

(** C3, counterexample.  After one key of 257 bytes block 1 is full and is
    the head of the Full ring, and that ring is closed through block 0
    ([Blocks[1].Next = 0], [Blocks[0].Next = 1]): it is not cyclic over its
    members. *)
Lemma rings_as_stated_counterexample :
  ~ (forall h s, history h s -> rings_as_stated s).
Proof.
  intros H. destruct history_state_full as [to Hs].
  destruct (H _ _ Hs) as (R & Hnd & Hcov & Hh & Hc & _).
  specialize (Hh HeadF). specialize (Hc HeadF).
  change (headOf HeadF state_full) with 1 in Hh.
  destruct (R HeadF) as [|a r] eqn:E; simpl in Hh; [discriminate|].
  subst a.
  assert (Hr : r = []).
  { destruct r as [|b r]; [reflexivity|]. exfalso.
    assert (Hb : b ∈ members R).
    { apply (in_members R HeadF). rewrite E. right. left. }
    apply Hcov in Hb. change (nblocks state_full) with 2 in Hb.
    assert (b = 1) by lia. subst b.
    destruct Hc as [Hc _]. apply NoDup_cons in Hc. destruct Hc as [Hc _].
    apply Hc. left. }
  subst r. destruct Hc as [_ [Hc _]]. vm_compute in Hc. discriminate Hc.
Qed.

(** * Inversion of the elementary steps *)

Lemma ret_inv {A} (a b : A) s s' : ret a s = Ok b s' -> b = a /\ s' = s.
Proof. unfold ret. intros H. inversion H; subst; auto. Qed.

Lemma when_inv c m s u s' :
  when c m s = Ok u s' -> (c = true /\ m s = Ok u s') \/ (c = false /\ s' = s).
Proof.
  destruct c; simpl; [auto|]. intros H. apply ret_inv in H. tauto.
Qed.

Lemma rdBlock_inv' s i b s' :
  rdBlock i s = Ok b s' -> vb s i /\ b = blk s i /\ s' = s.
Proof.
  intros H. pose proof (rdBlock_inv _ _ _ _ H) as Hv.
  rewrite (rdBlock_ok s i Hv) in H. inversion H; subst; auto.
Qed.
Lemma rdNum_inv s i v s' :
  rdNum i s = Ok v s' -> vb s i /\ v = Num (blk s i) /\ s' = s.
Proof.
  unfold rdNum. intros H. apply bind_Ok in H.
  destruct H as (b & s1 & H1 & H2). apply rdBlock_inv' in H1.
  destruct H1 as (Hv & -> & ->). apply ret_inv in H2. tauto.
Qed.
Lemma rdTrial_inv s i v s' :
  rdTrial i s = Ok v s' -> vb s i /\ v = Trial (blk s i) /\ s' = s.
Proof.
  unfold rdTrial. intros H. apply bind_Ok in H.
  destruct H as (b & s1 & H1 & H2). apply rdBlock_inv' in H1.
  destruct H1 as (Hv & -> & ->). apply ret_inv in H2. tauto.
Qed.
Lemma rdEhead_inv s i v s' :
  rdEhead i s = Ok v s' -> vb s i /\ v = Ehead (blk s i) /\ s' = s.
Proof.
  unfold rdEhead. intros H. apply bind_Ok in H.
  destruct H as (b & s1 & H1 & H2). apply rdBlock_inv' in H1.
  destruct H1 as (Hv & -> & ->). apply ret_inv in H2. tauto.
Qed.
Lemma rdBReject_inv s i v s' :
  rdBReject i s = Ok v s' -> vb s i /\ v = bReject (blk s i) /\ s' = s.
Proof.
  unfold rdBReject. intros H. apply bind_Ok in H.
  destruct H as (b & s1 & H1 & H2). apply rdBlock_inv' in H1.
  destruct H1 as (Hv & -> & ->). apply ret_inv in H2. tauto.
Qed.
Lemma rdNext_inv s i v s' :
  rdNext i s = Ok v s' -> vb s i /\ v = nxtB s i /\ s' = s.
Proof.
  unfold rdNext. intros H. apply bind_Ok in H.
  destruct H as (b & s1 & H1 & H2). apply rdBlock_inv' in H1.
  destruct H1 as (Hv & -> & ->). apply ret_inv in H2. tauto.
Qed.
Lemma rdPrev_inv s i v s' :
  rdPrev i s = Ok v s' -> vb s i /\ v = prvB s i /\ s' = s.
Proof.
  unfold rdPrev. intros H. apply bind_Ok in H.
  destruct H as (b & s1 & H1 & H2). apply rdBlock_inv' in H1.
  destruct H1 as (Hv & -> & ->). apply ret_inv in H2. tauto.
Qed.
Lemma wrBlock_inv s i b u s' :
  wrBlock i b s = Ok u s' -> vb s i /\ s' = sBlock i b s.
Proof.
  unfold wrBlock. intros H. apply bind_Ok in H.
  destruct H as (b' & s1 & H1 & H2). apply rdBlock_inv' in H1.
  destruct H1 as (Hv & -> & ->). inversion H2; subst; auto.
Qed.
Lemma wrNum_inv s i v u s' :
  wrNum i v s = Ok u s' -> vb s i /\ s' = sNum i v s.
Proof.
  intros H. assert (Hv : vb s i).
  { unfold wrNum in H. apply bind_Ok in H.
    destruct H as (b' & s1 & H1 & _). apply rdBlock_inv' in H1. tauto. }
  rewrite (wrNum_ok s i v Hv) in H. inversion H; subst; auto.
Qed.
Lemma wrTrial_inv s i v u s' :
  wrTrial i v s = Ok u s' -> vb s i /\ s' = sTrial i v s.
Proof.
  intros H. assert (Hv : vb s i).
  { unfold wrTrial in H. apply bind_Ok in H.
    destruct H as (b' & s1 & H1 & _). apply rdBlock_inv' in H1. tauto. }
  rewrite (wrTrial_ok s i v Hv) in H. inversion H; subst; auto.
Qed.
Lemma wrEhead_inv s i v u s' :
  wrEhead i v s = Ok u s' -> vb s i /\ s' = sEhead i v s.
Proof.
  intros H. assert (Hv : vb s i).
  { unfold wrEhead in H. apply bind_Ok in H.
    destruct H as (b' & s1 & H1 & _). apply rdBlock_inv' in H1. tauto. }
  rewrite (wrEhead_ok s i v Hv) in H. inversion H; subst; auto.
Qed.
Lemma wrBReject_inv s i v u s' :
  wrBReject i v s = Ok u s' -> vb s i /\ s' = sBReject i v s.
Proof.
  intros H. assert (Hv : vb s i).
  { unfold wrBReject in H. apply bind_Ok in H.
    destruct H as (b' & s1 & H1 & _). apply rdBlock_inv' in H1. tauto. }
  rewrite (wrBReject_ok s i v Hv) in H. inversion H; subst; auto.
Qed.

Lemma rdNode_inv' s i n s' :
  rdNode i s = Ok n s' -> vn s i /\ n = nod s i /\ s' = s.
Proof.
  intros H. pose proof (rdNode_inv _ _ _ _ H) as Hv.
  rewrite (rdNode_ok s i Hv) in H. inversion H; subst; auto.
Qed.
Lemma rdValue_inv s i v s' :
  rdValue i s = Ok v s' -> vn s i /\ v = Value (nod s i) /\ s' = s.
Proof.
  unfold rdValue. intros H. apply bind_Ok in H.
  destruct H as (b & s1 & H1 & H2). apply rdNode_inv' in H1.
  destruct H1 as (Hv & -> & ->). apply ret_inv in H2. tauto.
Qed.
Lemma rdCheck_inv s i v s' :
  rdCheck i s = Ok v s' -> vn s i /\ v = Check (nod s i) /\ s' = s.
Proof.
  unfold rdCheck. intros H. apply bind_Ok in H.
  destruct H as (b & s1 & H1 & H2). apply rdNode_inv' in H1.
  destruct H1 as (Hv & -> & ->). apply ret_inv in H2. tauto.
Qed.
Lemma rdBase_inv s i v s' :
  rdBase i s = Ok v s' -> vn s i /\ v = base (nod s i) /\ s' = s.
Proof.
  unfold rdBase. intros H. apply bind_Ok in H.
  destruct H as (b & s1 & H1 & H2). apply rdNode_inv' in H1.
  destruct H1 as (Hv & -> & ->). apply ret_inv in H2. tauto.
Qed.
Lemma wrNode_inv s i n u s' :
  wrNode i n s = Ok u s' -> vn s i /\ s' = sNode i n s.
Proof.
  unfold wrNode. intros H. apply bind_Ok in H.
  destruct H as (b' & s1 & H1 & H2). apply rdNode_inv' in H1.
  destruct H1 as (Hv & -> & ->). inversion H2; subst; auto.
Qed.
Lemma wrValue_inv s i v u s' :
  wrValue i v s = Ok u s' -> vn s i /\ s' = sValue i v s.
Proof.
  intros H. assert (Hv : vn s i).
  { unfold wrValue in H. apply bind_Ok in H.
    destruct H as (b' & s1 & H1 & _). apply rdNode_inv' in H1. tauto. }
  rewrite (wrValue_ok s i v Hv) in H. inversion H; subst; auto.
Qed.
Lemma wrCheck_inv s i v u s' :
  wrCheck i v s = Ok u s' -> vn s i /\ s' = sCheck i v s.
Proof.
  intros H. assert (Hv : vn s i).
  { unfold wrCheck in H. apply bind_Ok in H.
    destruct H as (b' & s1 & H1 & _). apply rdNode_inv' in H1. tauto. }
  rewrite (wrCheck_ok s i v Hv) in H. inversion H; subst; auto.
Qed.

Lemma gets_inv {A} (f : Cedar -> A) s a s' :
  gets f s = Ok a s' -> a = f s /\ s' = s.
Proof. unfold gets. intros H. inversion H; subst; auto. Qed.

Lemma modify_inv f s u s' : modify f s = Ok u s' -> s' = f s.
Proof. unfold modify. intros H. inversion H; subst; auto. Qed.

(** Split a sequence into its first step and the rest. *)
Ltac bind_inv H a s1 H1 :=
  apply bind_Ok in H; destruct H as (a & s1 & H1 & H).

(** * Frames *)

Lemma same_links_refl s : same_links s s.
Proof. repeat split; reflexivity. Qed.

Lemma same_links_trans s1 s2 s3 :
  same_links s1 s2 -> same_links s2 s3 -> same_links s1 s3.
Proof.
  intros (L1 & B1 & H1) (L2 & B2 & H2). split; [congruence|]. split.
  - intros b. destruct (B1 b), (B2 b). split; congruence.
  - intros h. rewrite H2. apply H1.
Qed.

Lemma block_rings_frame s s' R :
  same_links s s' -> block_rings s R -> block_rings s' R.
Proof.
  intros (L & B & H) [Hnd Hv Hh Hc]. constructor.
  - exact Hnd.
  - intros b Hb. unfold vb. rewrite L. apply Hv. exact Hb.
  - intros h. rewrite H. apply Hh.
  - intros h. apply (cyc_ext (nxtB s) (prvB s)); [|apply Hc].
    intros y _. apply B.
Qed.

Lemma same_links_sNum s i v : vb s i -> same_links s (sNum i v s).
Proof.
  intros H. split; [apply len_upd|]. split; [|intros []; reflexivity].
  intros b. unfold nxtB, prvB. rewrite blk_sNum by exact H.
  destruct (Z.eqb_spec b i); subst; auto.
Qed.
Lemma same_links_sTrial s i v : vb s i -> same_links s (sTrial i v s).
Proof.
  intros H. split; [apply len_upd|]. split; [|intros []; reflexivity].
  intros b. unfold nxtB, prvB. rewrite blk_sTrial by exact H.
  destruct (Z.eqb_spec b i); subst; auto.
Qed.
Lemma same_links_sEhead s i v : vb s i -> same_links s (sEhead i v s).
Proof.
  intros H. split; [apply len_upd|]. split; [|intros []; reflexivity].
  intros b. unfold nxtB, prvB. rewrite blk_sEhead by exact H.
  destruct (Z.eqb_spec b i); subst; auto.
Qed.
Lemma same_links_sBReject s i v : vb s i -> same_links s (sBReject i v s).
Proof.
  intros H. split; [apply len_upd|]. split; [|intros []; reflexivity].
  intros b. unfold nxtB, prvB. rewrite blk_sBReject by exact H.
  destruct (Z.eqb_spec b i); subst; auto.
Qed.
Lemma same_links_sNode s i n : same_links s (sNode i n s).
Proof. repeat split; intros []; reflexivity. Qed.
Lemma same_links_sValue s i v : same_links s (sValue i v s).
Proof. apply same_links_sNode. Qed.
Lemma same_links_sCheck s i v : same_links s (sCheck i v s).
Proof. apply same_links_sNode. Qed.
Lemma same_links_sNinfo s i n : same_links s (sNinfo i n s).
Proof. repeat split; intros []; reflexivity. Qed.
Lemma same_links_sReject s i v : same_links s (sReject i v s).
Proof. repeat split; intros []; reflexivity. Qed.

Lemma wrNinfo_inv s i n u s' :
  wrNinfo i n s = Ok u s' -> s' = sNinfo i n s.
Proof.
  unfold wrNinfo. intros H. bind_inv H a s1 H1.
  unfold rdNinfo in H1. destruct (idx (Ninfos s) i); [|discriminate].
  inversion H1; subst. inversion H. reflexivity.
Qed.

Lemma rdReject_inv s i v s' : rdReject i s = Ok v s' -> s' = s.
Proof.
  unfold rdReject. destruct (idx (Reject s) i); [|discriminate].
  intros H. inversion H. reflexivity.
Qed.

Lemma blk_sNinfo s i n b : blk (sNinfo i n s) b = blk s b.
Proof. reflexivity. Qed.
Lemma nod_sNinfo s i n b : nod (sNinfo i n s) b = nod s b.
Proof. reflexivity. Qed.

Lemma vn_sValue s i v j : vn (sValue i v s) j <-> vn s j.
Proof. apply vn_sNode. Qed.
Lemma vn_sCheck s i v j : vn (sCheck i v s) j <-> vn s j.
Proof. apply vn_sNode. Qed.
Lemma vn_sNum s i v j : vn (sNum i v s) j <-> vn s j.
Proof. apply vn_sBlock. Qed.
Lemma vn_sEhead s i v j : vn (sEhead i v s) j <-> vn s j.
Proof. apply vn_sBlock. Qed.
Lemma vn_sTrial s i v j : vn (sTrial i v s) j <-> vn s j.
Proof. apply vn_sBlock. Qed.
Lemma vn_sBReject s i v j : vn (sBReject i v s) j <-> vn s j.
Proof. apply vn_sBlock. Qed.
Lemma vn_sNinfo s i n j : vn (sNinfo i n s) j <-> vn s j.
Proof. unfold vn; simpl; tauto. Qed.
Lemma vb_sNinfo s i n j : vb (sNinfo i n s) j <-> vb s j.
Proof. unfold vb; simpl; tauto. Qed.
Lemma vb_sValue s i v j : vb (sValue i v s) j <-> vb s j.
Proof. apply vb_sNode. Qed.
Lemma vb_sCheck s i v j : vb (sCheck i v s) j <-> vb s j.
Proof. apply vb_sNode. Qed.

Ltac vn_norm H :=
  repeat first [ rewrite vn_sValue in H | rewrite vn_sCheck in H
               | rewrite vn_sNode in H | rewrite vn_sNum in H
               | rewrite vn_sEhead in H | rewrite vn_sTrial in H
               | rewrite vn_sBReject in H | rewrite vn_sNinfo in H ].

(** ** What [pushEnode] does, step by step *)

(** The slot is linked into the free ring of its block. *)
Definition push_slot (e : Z) (s s2 : Cedar) : Prop :=
  let bi := Int.shr8 e in
  let n1 := Int.add (Num (blk s bi)) 1 in
  vb s bi /\ vn s e /\
  ((n1 = 1 /\
    s2 = sNode e (mkNode (Int.neg e) (Int.neg e)) (sEhead bi e (sNum bi n1 s)))
   \/
   (n1 <> 1 /\
    let prev := Ehead (blk s bi) in
    let next := Int.neg (Check (nod s prev)) in
    vn s prev /\ vn s next /\
    s2 = sValue next (Int.neg e)
           (sCheck prev (Int.neg e)
              (sNode e (mkNode (Int.neg prev) (Int.neg next))
                 (sNum bi n1 s))))).

(** The block changes its ring when its new count asks for it. *)
Definition push_class (e : Z) (s2 s3 : Cedar) : Prop :=
  let bi := Int.shr8 e in
  let n1 := Num (blk s2 bi) in
  (n1 = 1 /\
   ((bi <> 0 /\ transferBlock bi HeadF HeadC s2 = Ok tt s3) \/
    (bi = 0 /\ s3 = s2)))
  \/
  (n1 <> 1 /\ exists s3',
     ((((n1 =? 2) || (Trial (blk s2 bi) =? MaxTrial s2)) = true /\ bi <> 0 /\
       transferBlock bi HeadC HeadO s2 = Ok tt s3') \/
      ((((n1 =? 2) || (Trial (blk s2 bi) =? MaxTrial s2)) = false \/ bi = 0)
       /\ s3' = s2)) /\
     vb s3' bi /\ s3 = sTrial bi 0 s3').

(** The reject bound of the block and the node info of the slot. *)
Definition push_tail (e : Z) (s3 s' : Cedar) : Prop :=
  let bi := Int.shr8 e in
  vb s3 bi /\
  exists s4, (s4 = s3 \/ exists g, s4 = sBReject bi g s3) /\
             s' = sNinfo e zeroNinfo s4.

Lemma pushEnode_inv e s s' :
  pushEnode e s = Ok tt s' ->
  exists s2 s3, push_slot e s s2 /\ push_class e s2 s3 /\ push_tail e s3 s'.
Proof.
  unfold pushEnode. intros H.
  set (bi := Int.shr8 e) in *.
  bind_inv H b0 s0 H0. apply rdBlock_inv' in H0. destruct H0 as (Hv & _ & ->).
  bind_inv H n0 s0 H0. apply rdNum_inv in H0. destruct H0 as (_ & -> & ->).
  bind_inv H u s1 H1. apply wrNum_inv in H1. destruct H1 as (_ & ->).
  set (n1 := Int.add (Num (blk s bi)) 1) in *.
  set (s1 := sNum bi n1 s) in *.
  assert (V1 : forall j, vb s1 j <-> vb s j) by (intros; apply vb_sNum).
  assert (VN1 : forall j, vn s1 j <-> vn s j) by (intros; apply vn_sNum).
  assert (N1 : Num (blk s1 bi) = n1).
  { unfold s1. rewrite blk_sNum by exact Hv. rewrite Z.eqb_refl.
    reflexivity. }
  bind_inv H n0 s0 H0. apply rdNum_inv in H0. destruct H0 as (_ & -> & ->).
  rewrite N1 in H.
  bind_inv H u2 s3 Hmid. destruct u2.
  assert (Hmid' : exists s2, push_slot e s s2 /\ push_class e s2 s3).
  { destruct (Z.eqb_spec n1 1) as [E1|E1].
    - bind_inv Hmid u3 sa Ha. apply wrEhead_inv in Ha.
      destruct Ha as (_ & ->).
      bind_inv Hmid u4 sb Hb. apply wrNode_inv in Hb.
      destruct Hb as (Hve & ->). vn_norm Hve. apply VN1 in Hve.
      set (s2 := sNode e _ _) in *.
      assert (N2 : Num (blk s2 bi) = n1).
      { unfold s2. rewrite blk_sNode. rewrite blk_sEhead by vb_tac.
        rewrite Z.eqb_refl. simpl. exact N1. }
      exists s2. split.
      + unfold push_slot. fold bi n1. split; [exact Hv|].
        split; [exact Hve|]. left. split; [exact E1|reflexivity].
      + unfold push_class. fold bi. rewrite N2. left. split; [exact E1|].
        apply when_inv in Hmid. destruct Hmid as [[Hc Ht]|[Hc ->]].
        * left. split; [|exact Ht]. apply negb_true_iff, Z.eqb_neq in Hc.
          exact Hc.
        * right. split; [|reflexivity].
          apply negb_false_iff, Z.eqb_eq in Hc. exact Hc.
    - bind_inv Hmid prev sa Ha. apply rdEhead_inv in Ha.
      destruct Ha as (_ & -> & ->).
      bind_inv Hmid c sa Ha. apply rdCheck_inv in Ha.
      destruct Ha as (Hvp & -> & ->).
      bind_inv Hmid u3 sa Ha. apply wrNode_inv in Ha.
      destruct Ha as (Hve & ->).
      bind_inv Hmid u4 sb Hb. apply wrCheck_inv in Hb.
      destruct Hb as (_ & ->).
      bind_inv Hmid u5 sc Hc. apply wrValue_inv in Hc.
      destruct Hc as (Hvn & ->).
      vn_norm Hvn. apply VN1 in Hve, Hvp, Hvn.
      replace (Ehead (blk s1 bi)) with (Ehead (blk s bi)) in *
        by (unfold s1; rewrite blk_sNum by exact Hv; rewrite Z.eqb_refl;
            reflexivity).
      replace (nod s1 (Ehead (blk s bi))) with (nod s (Ehead (blk s bi)))
        in * by reflexivity.
      set (prev := Ehead (blk s bi)) in *.
      set (next := Int.neg (Check (nod s prev))) in *.
      set (s2 := sValue next _ _) in *.
      assert (B2 : forall j, blk s2 j = blk s1 j) by reflexivity.
      assert (V2 : forall j, vb s2 j <-> vb s j)
        by (intros; unfold vb; simpl; apply V1).
      bind_inv Hmid n0 sa Ha. apply rdNum_inv in Ha.
      destruct Ha as (_ & -> & ->).
      bind_inv Hmid tr sa Ha. apply rdTrial_inv in Ha.
      destruct Ha as (_ & -> & ->).
      bind_inv Hmid mt sa Ha. apply gets_inv in Ha. destruct Ha as (-> & ->).
      bind_inv Hmid u6 s3' Ht. destruct u6.
      apply wrTrial_inv in Hmid. destruct Hmid as (Hv3 & ->).
      exists s2. split.
      + unfold push_slot. fold bi n1. split; [exact Hv|].
        split; [exact Hve|]. right. split; [exact E1|].
        fold prev next. split; [exact Hvp|]. split; [exact Hvn|reflexivity].
      + unfold push_class. fold bi. rewrite (B2 bi), N1. right.
        split; [exact E1|]. exists s3'. split; [|split; [exact Hv3|reflexivity]].
        rewrite (B2 bi), N1 in Ht.
        apply when_inv in Ht. destruct Ht as [[Hc Ht]|[Hc ->]].
        * apply when_inv in Ht. destruct Ht as [[Hc' Ht]|[Hc' ->]].
          -- left. split; [exact Hc|]. split; [|exact Ht].
             apply negb_true_iff, Z.eqb_neq in Hc'. exact Hc'.
          -- right. split; [|reflexivity]. right.
             apply negb_false_iff, Z.eqb_eq in Hc'. exact Hc'.
        * right. split; [|reflexivity]. left. exact Hc. }
  destruct Hmid' as (s2 & Hs2 & Hs3).
  exists s2, s3. split; [exact Hs2|]. split; [exact Hs3|].
  unfold push_tail. fold bi.
  bind_inv H r sa Ha. apply rdBReject_inv in Ha. destruct Ha as (Hv3 & -> & ->).
  split; [exact Hv3|].
  bind_inv H n0 sa Ha. apply rdNum_inv in Ha. destruct Ha as (_ & -> & ->).
  bind_inv H g sa Ha. apply rdReject_inv in Ha. subst sa.
  bind_inv H u7 s4 H4. apply wrNinfo_inv in H. subst s'.
  exists s4. split; [|reflexivity].
  apply when_inv in H4. destruct H4 as [[_ H4]|[_ ->]]; [|left; reflexivity].
  bind_inv H4 n0 sa Ha. apply rdNum_inv in Ha. destruct Ha as (_ & -> & ->).
  bind_inv H4 g' sa Ha. apply rdReject_inv in Ha. subst sa.
  apply wrBReject_inv in H4. destruct H4 as (_ & ->).
  right. eexists. reflexivity.
Qed.

(** ** [pushEnode] on a block of the Closed ring *)



Lemma push_slot_frame e s s2 :
  push_slot e s s2 ->
  same_links s s2 /\ MaxTrial s2 = MaxTrial s /\
  Num (blk s2 (Int.shr8 e)) = Int.add (Num (blk s (Int.shr8 e))) 1 /\
  Trial (blk s2 (Int.shr8 e)) = Trial (blk s (Int.shr8 e)).
Proof.
  unfold push_slot. intros (Hv & _ & [[_ ->]|[_ (_ & _ & ->)]]).
  - split.
    + eapply same_links_trans; [|apply same_links_sNode].
      eapply same_links_trans; [apply same_links_sNum; exact Hv|].
      apply same_links_sEhead. vb_tac.
    + split; [reflexivity|].
      rewrite !blk_sNode. rewrite !blk_sEhead by vb_tac.
      rewrite Z.eqb_refl. simpl. rewrite !blk_sNum by exact Hv.
      rewrite Z.eqb_refl. simpl. auto.
  - split.
    + eapply same_links_trans; [|apply same_links_sValue].
      eapply same_links_trans; [|apply same_links_sCheck].
      eapply same_links_trans; [|apply same_links_sNode].
      apply same_links_sNum; exact Hv.
    + split; [reflexivity|].
      unfold sValue, sCheck. rewrite !blk_sNode.
      rewrite !blk_sNum by exact Hv. rewrite Z.eqb_refl. simpl. auto.
Qed.

Lemma push_tail_frame e s3 s' :
  push_tail e s3 s' ->
  same_links s3 s' /\
  Num (blk s' (Int.shr8 e)) = Num (blk s3 (Int.shr8 e)) /\
  Trial (blk s' (Int.shr8 e)) = Trial (blk s3 (Int.shr8 e)).
Proof.
  unfold push_tail. intros (Hv & s4 & [->|[g ->]] & ->).
  - split; [apply same_links_sNinfo|]. rewrite blk_sNinfo. auto.
  - split.
    + eapply same_links_trans; [apply same_links_sBReject; exact Hv|].
      apply same_links_sNinfo.
    + rewrite blk_sNinfo. rewrite blk_sBReject by exact Hv.
      rewrite Z.eqb_refl. simpl. auto.
Qed.



(** * The free rings of the blocks *)

Lemma getVs_reachable fuel keys : forall s s',
  reachable s -> getVs fuel keys s = Ok tt s' -> reachable s'.
Proof.
  induction keys as [|k ks IH]; intros s s' Hr H; simpl in H.
  - apply ret_inv in H. destruct H as [_ ->]. exact Hr.
  - bind_inv H to s1 H1. destruct Hr as [h Hh].
    apply (IH s1 s'); [|exact H].
    exists ((k, to) :: h). eapply hist_getV; eassumption.
Qed.

Lemma reachable_state_nul : reachable state_nul.
Proof.
  apply (getVs_reachable 8 keys_nul New); [exists []; apply hist_New|].
  vm_compute. reflexivity.
Qed.

Lemma shr8_block e b : Int.shr8 e = b <-> b * 256 <= e < b * 256 + 256.
Proof.
  unfold Int.shr8. rewrite Z.shiftr_div_pow2 by lia.
  change (2 ^ 8) with 256.
  pose proof (Z.div_mod e 256 ltac:(lia)).
  pose proof (Z.mod_pos_bound e 256 ltac:(lia)).
  split; intros; [subst b; lia|].
  assert (e / 256 < b + 1) by (apply Z.div_lt_upper_bound; lia).
  assert (b <= e / 256) by (apply Z.div_le_lower_bound; lia).
  lia.
Qed.

Lemma elem_of_free_slots s b e :
  e ∈ free_slots s b <-> Check (nod s e) < 0 /\ Int.shr8 e = b.
Proof.
  unfold free_slots. rewrite list_elem_of_In, List.filter_In.
  rewrite <- list_elem_of_In, elem_of_seqZ, Z.ltb_lt, (shr8_block e b).
  tauto.
Qed.

(** A list without repetition of free slots of a block is no longer than
    the list of all of them. *)
Lemma ring_le_free_slots s b r :
  NoDup r ->
  (forall e, e ∈ r -> Check (nod s e) < 0 /\ Int.shr8 e = b) ->
  (length r <= length (free_slots s b))%nat.
Proof.
  intros Hnd H. apply submseteq_length, NoDup_submseteq; [exact Hnd|].
  intros e He. apply elem_of_free_slots. apply H. exact He.
Qed.

Lemma free_ring_count s b r :
  free_ring s b r ->
  (length r <= length (free_slots s b))%nat.
Proof.
  intros ([Hnd _] & Hm & Hf & _). apply ring_le_free_slots; [exact Hnd|].
  intros e He. destruct (Hm e He) as (Hv & _ & Hb).
  split; [|exact Hb]. apply Hf; assumption.
Qed.

(** C2, at the failing inputs.  In [New] block 0 has [Num = 256] and 255
    free slots, slot 0 being the root: [Num] is not the number of free
    slots.  And even with the count of block 0 taken one ahead, seven calls
    of [getV] on keys of which two have a zero byte inside leave block 1
    with [Num = 250] and 249 free slots: no family of rings fits the
    state. *)
Lemma free_rings_as_stated_counterexample :
  ~ free_rings_as_stated New /\
  ~ (forall s, reachable s -> exists F, free_rings s F).
Proof.
  split.
  - intros H. destruct (H 0 ltac:(vm_compute; split; [discriminate|reflexivity]))
      as (r & [Hnd _] & Hm & Hf & Hn & _).
    assert (Hle : (length r <= length (free_slots New 0))%nat).
    { apply ring_le_free_slots; [exact Hnd|].
      intros e He. destruct (Hm e He) as (Hv & Hb).
      split; [|exact Hb]. apply Hf; assumption. }
    change (Num (blk New 0)) with 256 in Hn.
    change (length (free_slots New 0)) with 255%nat in Hle. lia.
  - intros H. destruct (H _ reachable_state_nul) as [F HF].
    assert (Hv : vb state_nul 1) by (vm_compute; split; [discriminate|reflexivity]).
    pose proof (free_ring_count _ _ _ (HF 1 Hv)) as Hle.
    destruct (HF 1 Hv) as (_ & _ & _ & Hn & _).
    change (Num (blk state_nul 1)) with 250 in Hn.
    change (length (free_slots state_nul 1)) with 249%nat in Hle.
    simpl in Hn. lia.
Qed.

(** ** What a run leaves alone *)

Definition keeps {A} (P : Cedar -> Cedar -> Prop) (m : M A) : Prop :=
  forall s a s', m s = Ok a s' -> P s s'.

Section Keeps.
Variable P : Cedar -> Cedar -> Prop.
Hypothesis P_refl : forall s, P s s.
Hypothesis P_trans : forall s1 s2 s3, P s1 s2 -> P s2 s3 -> P s1 s3.

Lemma keeps_ret {A} (a : A) : keeps P (ret a).
Proof. intros s b s' H. apply ret_inv in H. destruct H as [_ ->]. auto. Qed.

Lemma keeps_gets {A} (f : Cedar -> A) : keeps P (gets f).
Proof. intros s b s' H. apply gets_inv in H. destruct H as [_ ->]. auto. Qed.

Lemma keeps_bind {A B} (m : M A) (k : A -> M B) :
  keeps P m -> (forall a, keeps P (k a)) -> keeps P (bind m k).
Proof.
  intros Hm Hk s b s' H. bind_inv H a s1 H1.
  eapply P_trans; [eapply Hm; eassumption|eapply Hk; eassumption].
Qed.

Lemma keeps_when c (m : M unit) : keeps P m -> keeps P (when c m).
Proof.
  intros Hm s u s' H. apply when_inv in H.
  destruct H as [[_ H]|[_ ->]]; [eapply Hm; eassumption|auto].
Qed.

Lemma keeps_rdBlock i : keeps P (rdBlock i).
Proof. intros s b s' H. apply rdBlock_inv' in H. destruct H as (_ & _ & ->). auto. Qed.
Lemma keeps_rdNum i : keeps P (rdNum i).
Proof. intros s b s' H. apply rdNum_inv in H. destruct H as (_ & _ & ->). auto. Qed.
Lemma keeps_rdNext i : keeps P (rdNext i).
Proof. intros s b s' H. apply rdNext_inv in H. destruct H as (_ & _ & ->). auto. Qed.
Lemma keeps_rdPrev i : keeps P (rdPrev i).
Proof. intros s b s' H. apply rdPrev_inv in H. destruct H as (_ & _ & ->). auto. Qed.
Lemma keeps_rdEhead i : keeps P (rdEhead i).
Proof. intros s b s' H. apply rdEhead_inv in H. destruct H as (_ & _ & ->). auto. Qed.
Lemma keeps_rdTrial i : keeps P (rdTrial i).
Proof. intros s b s' H. apply rdTrial_inv in H. destruct H as (_ & _ & ->). auto. Qed.
Lemma keeps_rdHead h : keeps P (rdHead h).
Proof. apply keeps_gets. Qed.
Lemma keeps_rdNode i : keeps P (rdNode i).
Proof. intros s b s' H. apply rdNode_inv' in H. destruct H as (_ & _ & ->). auto. Qed.
Lemma keeps_rdValue i : keeps P (rdValue i).
Proof. intros s b s' H. apply rdValue_inv in H. destruct H as (_ & _ & ->). auto. Qed.
Lemma keeps_rdCheck i : keeps P (rdCheck i).
Proof. intros s b s' H. apply rdCheck_inv in H. destruct H as (_ & _ & ->). auto. Qed.
Lemma keeps_rdBase i : keeps P (rdBase i).
Proof. intros s b s' H. apply rdBase_inv in H. destruct H as (_ & _ & ->). auto. Qed.
End Keeps.

Lemma wrPrev_inv s i v u s' :
  wrPrev i v s = Ok u s' -> vb s i /\ s' = sPrev i v s.
Proof.
  intros H. assert (Hv : vb s i).
  { unfold wrPrev in H. apply bind_Ok in H.
    destruct H as (b' & s1 & H1 & _). apply rdBlock_inv' in H1. tauto. }
  rewrite (wrPrev_ok s i v Hv) in H. inversion H; subst; auto.
Qed.
Lemma wrNext_inv s i v u s' :
  wrNext i v s = Ok u s' -> vb s i /\ s' = sNext i v s.
Proof.
  intros H. assert (Hv : vb s i).
  { unfold wrNext in H. apply bind_Ok in H.
    destruct H as (b' & s1 & H1 & _). apply rdBlock_inv' in H1. tauto. }
  rewrite (wrNext_ok s i v Hv) in H. inversion H; subst; auto.
Qed.
Lemma wrHead_inv s h v u s' : wrHead h v s = Ok u s' -> s' = sHead h v s.
Proof. rewrite wrHead_ok. intros H. inversion H; subst; auto. Qed.

Lemma keeps_links_wrPrev i v : keeps links_only (wrPrev i v).
Proof.
  intros s u s' H. apply wrPrev_inv in H. destruct H as [Hv ->].
  apply links_only_sPrev. exact Hv.
Qed.
Lemma keeps_links_wrNext i v : keeps links_only (wrNext i v).
Proof.
  intros s u s' H. apply wrNext_inv in H. destruct H as [Hv ->].
  apply links_only_sNext. exact Hv.
Qed.
Lemma keeps_links_wrHead h v : keeps links_only (wrHead h v).
Proof.
  intros s u s' H. apply wrHead_inv in H. subst s'. apply links_only_sHead.
Qed.

Ltac keeps_links :=
  repeat first
    [ apply keeps_links_wrPrev | apply keeps_links_wrNext
    | apply keeps_links_wrHead
    | apply (keeps_ret links_only links_only_refl)
    | apply (keeps_gets links_only links_only_refl)
    | apply (keeps_rdBlock links_only links_only_refl)
    | apply (keeps_rdNum links_only links_only_refl)
    | apply (keeps_rdNext links_only links_only_refl)
    | apply (keeps_rdPrev links_only links_only_refl)
    | apply (keeps_rdHead links_only links_only_refl)
    | apply (keeps_when links_only links_only_refl)
    | apply (keeps_bind links_only links_only_trans); [|intros]
    | match goal with |- keeps _ (if ?c then _ else _) => destruct c end ].

Lemma popBlock_links_only bi h last : keeps links_only (popBlock bi h last).
Proof. unfold popBlock. keeps_links. Qed.

Lemma pushBlock_links_only bi h empty : keeps links_only (pushBlock bi h empty).
Proof. unfold pushBlock. keeps_links. Qed.

Lemma transferBlock_links_only bi hIn hOut :
  keeps links_only (transferBlock bi hIn hOut).
Proof.
  unfold transferBlock. keeps_links. apply popBlock_links_only.
Qed.

(** ** Frames for the free rings *)

Lemma neg_small x : - 2 ^ 63 < x < 2 ^ 63 -> Int.neg x = - x.
Proof. intros H. unfold Int.neg. apply wrap_small. lia. Qed.

Lemma neg_neg x : - 2 ^ 63 < x < 2 ^ 63 -> Int.neg (Int.neg x) = x.
Proof. intros H. rewrite (neg_small x H). rewrite neg_small; lia. Qed.

Lemma same_slots_refl s : same_slots s s.
Proof. repeat split; reflexivity. Qed.

Lemma same_slots_trans s1 s2 s3 :
  same_slots s1 s2 -> same_slots s2 s3 -> same_slots s1 s3.
Proof.
  intros (A1 & L1 & B1) (A2 & L2 & B2).
  split; [congruence|]. split; [congruence|].
  intros b. destruct (B1 b), (B2 b). split; congruence.
Qed.

Lemma links_only_same_slots s s' : links_only s s' -> same_slots s s'.
Proof.
  intros H. split; [apply (lo_array _ _ H)|]. split; [apply (lo_len _ _ H)|].
  intros b. split; [apply (lo_num _ _ H)|apply (lo_ehead _ _ H)].
Qed.

Lemma same_slots_sTrial s i v : vb s i -> same_slots s (sTrial i v s).
Proof.
  intros H. split; [reflexivity|]. split; [apply len_upd|].
  intros b. rewrite blk_sTrial by exact H.
  destruct (Z.eqb_spec b i); subst; auto.
Qed.
Lemma same_slots_sBReject s i v : vb s i -> same_slots s (sBReject i v s).
Proof.
  intros H. split; [reflexivity|]. split; [apply len_upd|].
  intros b. rewrite blk_sBReject by exact H.
  destruct (Z.eqb_spec b i); subst; auto.
Qed.
Lemma same_slots_sNinfo s i n : same_slots s (sNinfo i n s).
Proof. repeat split; reflexivity. Qed.

Lemma same_slots_nod s s' e : same_slots s s' -> nod s' e = nod s e.
Proof. intros (A & _). unfold nod. rewrite A. reflexivity. Qed.
Lemma same_slots_vn s s' e : same_slots s s' -> vn s' e <-> vn s e.
Proof. intros (A & _). unfold vn. rewrite A. tauto. Qed.
Lemma same_slots_vb s s' b : same_slots s s' -> vb s' b <-> vb s b.
Proof. intros (_ & L & _). unfold vb. rewrite L. tauto. Qed.

(** The free ring of a block is read from the [Check] of the slots of the
    block, the [Value] of its free slots, the length of [Array], and the
    [Num] and [Ehead] of the block. *)
Lemma free_ring_ext s s' b r :
  free_ring s b r ->
  len (Array s) <= len (Array s') ->
  (forall e, Int.shr8 e = b ->
             Check (nod s' e) = Check (nod s e) /\
             (Check (nod s e) < 0 -> Value (nod s' e) = Value (nod s e))) ->
  Num (blk s' b) = Num (blk s b) ->
  Ehead (blk s' b) = Ehead (blk s b) ->
  free_ring s' b r.
Proof.
  intros (Hc & Hm & Hf & Hn & He) HL HA HN HE.
  assert (Hvn : forall e, vn s e -> vn s' e)
    by (intros e; unfold vn; lia).
  split; [|split; [|split; [|split]]].
  - apply (cyc_ext (nxtS s) (prvS s)); [|exact Hc].
    intros y Hy. destruct (Hm y Hy) as (Hv & _ & Hb).
    destruct (HA y Hb) as [H1 H2].
    unfold nxtS, prvS. rewrite H1, H2; [auto|].
    apply (Hf y Hv Hb). exact Hy.
  - intros e H. destruct (Hm e H) as (Hv & Hp & Hb).
    split; [apply Hvn; exact Hv|auto].
  - intros e Hv Hb. destruct (HA e Hb) as [H1 _]. rewrite H1.
    destruct (Z.lt_ge_cases e (len (Array s))) as [Hlt|Hge].
    + apply Hf; [|exact Hb]. unfold vn in *. lia.
    + assert (Hout : ~ vn s e) by (unfold vn; lia).
      unfold nod. unfold idx. destruct (Z.ltb_spec e 0); [unfold vn in Hv; lia|].
      rewrite (proj2 (lookup_ge_None _ _)) by (unfold len in Hge; lia).
      simpl. split; [lia|]. intros Hin. destruct (Hm e Hin) as (Hv' & _).
      contradiction.
  - rewrite HN. exact Hn.
  - rewrite HE. exact He.
Qed.

Lemma free_ring_same_slots s s' b r :
  same_slots s s' -> free_ring s b r -> free_ring s' b r.
Proof.
  intros (A & L & B) H. destruct (B b) as [BN BE].
  apply (free_ring_ext s s' b r H); auto.
  - rewrite A. reflexivity.
  - intros e _. unfold nod. rewrite A. auto.
Qed.

Lemma free_rings_same_slots s s' F :
  same_slots s s' -> free_rings s F -> free_rings s' F.
Proof.
  intros H HF b Hb. apply (free_ring_same_slots s s'); [exact H|].
  apply HF. apply (same_slots_vb s s' b H). exact Hb.
Qed.

Lemma push_class_same_slots e s2 s3 :
  push_class e s2 s3 -> same_slots s2 s3.
Proof.
  unfold push_class.
  intros [[_ [[_ H]|[_ ->]]]|[_ (s3' & Hc & Hv & ->)]].
  - apply links_only_same_slots.
    eapply transferBlock_links_only; eassumption.
  - apply same_slots_refl.
  - eapply same_slots_trans; [|apply same_slots_sTrial; exact Hv].
    destruct Hc as [(_ & _ & H)|(_ & ->)].
    + apply links_only_same_slots.
      eapply transferBlock_links_only; eassumption.
    + apply same_slots_refl.
Qed.

Lemma push_tail_same_slots e s3 s' : push_tail e s3 s' -> same_slots s3 s'.
Proof.
  unfold push_tail. intros (Hv & s4 & [->|[g ->]] & ->).
  - apply same_slots_sNinfo.
  - eapply same_slots_trans; [apply same_slots_sBReject; exact Hv|].
    apply same_slots_sNinfo.
Qed.

Lemma nod_sValue s i v j :
  vn s i ->
  nod (sValue i v s) j = if j =? i then mkNode v (Check (nod s i)) else nod s j.
Proof. intros H. unfold sValue. apply nod_sNode. exact H. Qed.
Lemma nod_sCheck s i v j :
  vn s i ->
  nod (sCheck i v s) j = if j =? i then mkNode (Value (nod s i)) v else nod s j.
Proof. intros H. unfold sCheck. apply nod_sNode. exact H. Qed.
Lemma nod_sNum s i v j : nod (sNum i v s) j = nod s j.
Proof. reflexivity. Qed.
Lemma nod_sEhead s i v j : nod (sEhead i v s) j = nod s j.
Proof. reflexivity. Qed.
Lemma nod_sTrial s i v j : nod (sTrial i v s) j = nod s j.
Proof. reflexivity. Qed.
Lemma blk_sValue s i v j : blk (sValue i v s) j = blk s j.
Proof. reflexivity. Qed.
Lemma blk_sCheck s i v j : blk (sCheck i v s) j = blk s j.
Proof. reflexivity. Qed.

Lemma len_Array_sNode s i n : len (Array (sNode i n s)) = len (Array s).
Proof. unfold sNode. simpl. apply len_upd. Qed.
Lemma len_Array_sValue s i v : len (Array (sValue i v s)) = len (Array s).
Proof. apply len_Array_sNode. Qed.
Lemma len_Array_sCheck s i v : len (Array (sCheck i v s)) = len (Array s).
Proof. apply len_Array_sNode. Qed.

Lemma length_free_slots s b : (length (free_slots s b) <= 256)%nat.
Proof.
  unfold free_slots.
  etransitivity; [apply List.filter_length_le|].
  rewrite length_seqZ. reflexivity.
Qed.

Lemma free_ring_length s b r : free_ring s b r -> (length r <= 256)%nat.
Proof.
  intros H. etransitivity; [eapply free_ring_count; exact H|].
  apply length_free_slots.
Qed.

Lemma free_ring_notin s b r e :
  free_ring s b r -> vn s e -> Int.shr8 e = b ->
  0 <= Check (nod s e) -> e ∉ r.
Proof.
  intros (_ & _ & Hf & _) Hv Hb Hc He. apply (Hf e Hv Hb) in He. lia.
Qed.

(** The new slot is linked in after [Ehead]. *)
Lemma push_slot_free_rings e s s2 F :
  free_rings s F ->
  len (Array s) < 2 ^ 62 ->
  0 < e -> 0 <= Check (nod s e) ->
  (Int.shr8 e = 0 -> F 0 <> []) ->
  push_slot e s s2 ->
  exists r',
    free_rings s2 (fun b => if b =? Int.shr8 e then r' else F b) /\
    (forall x, x ∈ r' <-> x = e \/ x ∈ F (Int.shr8 e)).
Proof.
  intros HF HL He Hocc H0 Hps.
  unfold push_slot in Hps. set (b := Int.shr8 e) in *.
  destruct Hps as (Hvb & Hve & Hps).
  pose proof (HF b Hvb) as Hb.
  pose proof (free_ring_length _ _ _ Hb) as Hlen.
  pose proof (free_ring_notin _ _ _ e Hb Hve eq_refl Hocc) as Hnotin.
  destruct Hb as (Hc & Hm & Hf & Hn & Hh).
  assert (Hn1 : Int.add (Num (blk s b)) 1 = Num (blk s b) + 1).
  { assert (0 <= Num (blk s b) <= 257)
      by (rewrite Hn; destruct (b =? 0); lia).
    unfold Int.add. apply wrap_small. lia. }
  rewrite Hn1 in Hps.
  assert (Hnege : Int.neg e = - e).
  { apply neg_small. unfold vn in Hve. lia. }
  (* the other blocks *)
  assert (Hother : forall s2',
    len (Array s2') = len (Array s) ->
    len (Blocks s2') = len (Blocks s) ->
    (forall j, Int.shr8 j <> b -> nod s2' j = nod s j) ->
    (forall b', b' <> b -> blk s2' b' = blk s b') ->
    forall r', free_ring s2' b r' ->
    free_rings s2' (fun b' => if b' =? b then r' else F b')).
  { intros s2' HLa HLb Hnod Hblk r' Hr' b' Hvb'.
    destruct (Z.eqb_spec b' b) as [->|Hne]; [exact Hr'|].
    apply (free_ring_ext s s2' b' (F b')).
    - apply HF. unfold vb in *. rewrite <- HLb. exact Hvb'.
    - rewrite HLa. reflexivity.
    - intros j Hj. rewrite Hnod by congruence. auto.
    - rewrite (Hblk b' Hne). reflexivity.
    - rewrite (Hblk b' Hne). reflexivity. }
  destruct Hps as [[E1 ->]|[E1 (Hvp & Hvn & ->)]].
  - (* the ring was empty *)
    assert (Er : F b = []).
    { destruct (F b); [reflexivity|]. simpl in Hn. destruct (b =? 0); lia. }
    assert (Eb : b <> 0).
    { intros E. rewrite Er in Hn. simpl in Hn.
      destruct (Z.eqb_spec b 0); [lia|contradiction]. }
    exists [e]. split.
    + apply Hother.
      * rewrite len_Array_sNode. reflexivity.
      * change (len (Blocks (sEhead b e (sNum b (Num (blk s b) + 1) s)))
                = len (Blocks s)).
        unfold sEhead, sNum, sBlock. simpl. rewrite !len_upd. reflexivity.
      * intros j Hj. rewrite nod_sNode by (vn_norm Hve; exact Hve).
        destruct (Z.eqb_spec j e); [subst j; contradiction|]. reflexivity.
      * intros b' Hb'. rewrite blk_sNode.
        rewrite blk_sEhead by (apply vb_sNum; exact Hvb).
        destruct (Z.eqb_spec b' b); [contradiction|].
        rewrite blk_sNum by exact Hvb.
        destruct (Z.eqb_spec b' b); [contradiction|]. reflexivity.
      * assert (Hnod : forall j,
          nod (sNode e (mkNode (Int.neg e) (Int.neg e))
                 (sEhead b e (sNum b (Num (blk s b) + 1) s))) j
          = if j =? e then mkNode (Int.neg e) (Int.neg e) else nod s j).
        { intros j. rewrite nod_sNode; [reflexivity|exact Hve]. }
        split; [|split; [|split; [|split]]].
        -- apply cyc_single; unfold nxtS, prvS; rewrite Hnod, Z.eqb_refl;
             simpl; apply neg_neg; unfold vn in Hve; lia.
        -- intros x Hx. apply list_elem_of_singleton in Hx. subst x.
           split; [|auto]. apply (proj2 (vn_sNode _ _ _ _)). exact Hve.
        -- intros j Hvj Hbj. rewrite Hnod. rewrite list_elem_of_singleton.
           destruct (Z.eqb_spec j e) as [->|Hne].
           ++ simpl. rewrite Hnege. split; [auto|lia].
           ++ apply (proj1 (vn_sNode _ _ _ _)) in Hvj. rewrite (Hf j Hvj Hbj), Er.
              split; [intros H; inversion H|contradiction].
        -- rewrite blk_sNode. rewrite blk_sEhead by (apply vb_sNum; exact Hvb).
           rewrite Z.eqb_refl. simpl. rewrite blk_sNum by exact Hvb.
           rewrite Z.eqb_refl. simpl.
           destruct (Z.eqb_spec b 0); [contradiction|]. rewrite Er in Hn.
           simpl in Hn. lia.
        -- intros _. rewrite blk_sNode.
           rewrite blk_sEhead by (apply vb_sNum; exact Hvb).
           rewrite Z.eqb_refl. simpl. left.
    + intros x. rewrite Er, list_elem_of_singleton.
      split; [auto|]. intros [H|H]; [exact H|inversion H].
  - (* the ring had a member *)
    assert (Hne : F b <> []).
    { intros Er. rewrite Er in Hn. simpl in Hn.
      destruct (Z.eqb_spec b 0) as [E|E]; [|lia].
      apply (H0 E). rewrite <- E. exact Er. }
    set (prev := Ehead (blk s b)) in *.
    set (next := Int.neg (Check (nod s prev))) in *.
    pose proof (Hh Hne) as Hprev.
    assert (Hnext : next ∈ F b).
    { apply (cyc_nxt_in (nxtS s) (prvS s) _ prev Hc Hprev). }
    destruct (Hm prev Hprev) as (_ & Hp0 & Hpb).
    destruct (Hm next Hnext) as (_ & Hn0 & Hnb).
    assert (Hpe : prev <> e) by (intros E; apply Hnotin; rewrite <- E; exact Hprev).
    assert (Hnxe : next <> e) by (intros E; apply Hnotin; rewrite <- E; exact Hnext).
    assert (Hnegp : Int.neg (Int.neg prev) = prev)
      by (apply neg_neg; unfold vn in Hvp; lia).
    assert (Hnegn : Int.neg (Int.neg next) = next)
      by (apply neg_neg; unfold vn in Hvn; lia).
    assert (Hnegn' : Int.neg next = - next)
      by (apply neg_small; unfold vn in Hvn; lia).
    assert (Hnege' : Int.neg (Int.neg e) = e)
      by (apply neg_neg; unfold vn in Hve; lia).
    set (s1 := sNum b (Num (blk s b) + 1) s).
    set (sA := sNode e (mkNode (Int.neg prev) (Int.neg next)) s1).
    set (sB := sCheck prev (Int.neg e) sA).
    set (s2 := sValue next (Int.neg e) sB).
    assert (NA : forall j, nod sA j
                 = if j =? e then mkNode (Int.neg prev) (Int.neg next)
                   else nod s j).
    { intros j. unfold sA. rewrite nod_sNode; [reflexivity|exact Hve]. }
    assert (NB : forall j, nod sB j
                 = if j =? prev then mkNode (Value (nod s prev)) (Int.neg e)
                   else nod sA j).
    { intros j. unfold sB. rewrite nod_sCheck by (apply (proj2 (vn_sNode _ _ _ _)); exact Hvp).
      rewrite (NA prev). destruct (Z.eqb_spec prev e); [contradiction|].
      reflexivity. }
    assert (N2 : forall j, nod s2 j
                 = if j =? next then mkNode (Int.neg e) (Check (nod sB next))
                   else nod sB j).
    { intros j. unfold s2. rewrite nod_sValue; [reflexivity|].
      apply (proj2 (vn_sCheck _ _ _ _)), (proj2 (vn_sNode _ _ _ _)). exact Hvn. }
    assert (Hck : forall j, Check (nod s2 j)
                 = if j =? prev then Int.neg e
                   else if j =? e then Int.neg next else Check (nod s j)).
    { intros j. rewrite N2. destruct (Z.eqb_spec j next) as [Ej|Hjn]; cbn [Check Value].
      - rewrite Ej, NB. destruct (Z.eqb_spec next prev); [reflexivity|].
        rewrite NA. destruct (Z.eqb_spec next e); [contradiction|reflexivity].
      - rewrite NB. destruct (Z.eqb_spec j prev); [reflexivity|].
        rewrite NA. destruct (Z.eqb_spec j e); reflexivity. }
    assert (Hvl : forall j, Value (nod s2 j)
                 = if j =? next then Int.neg e
                   else if j =? e then Int.neg prev else Value (nod s j)).
    { intros j. rewrite N2. destruct (Z.eqb_spec j next) as [Ej|Hjn]; cbn [Check Value].
      - reflexivity.
      - rewrite NB. destruct (Z.eqb_spec j prev) as [Ej|Hjp]; cbn [Check Value].
        + rewrite Ej. destruct (Z.eqb_spec prev e); [contradiction|reflexivity].
        + rewrite NA. destruct (Z.eqb_spec j e); reflexivity. }
    assert (Hvn2 : forall j, vn s2 j <-> vn s j).
    { intros j. unfold s2, sB, sA, s1.
      rewrite vn_sValue, vn_sCheck, vn_sNode, vn_sNum. tauto. }
    assert (Hblk2 : forall j, blk s2 j = blk s1 j) by reflexivity.
    apply list_elem_of_split in Hprev. destruct Hprev as (l1 & l2 & El).
    exists (l1 ++ prev :: e :: l2). split.
    + apply Hother.
      * unfold s2, sB, sA, s1.
        rewrite len_Array_sValue, len_Array_sCheck, len_Array_sNode.
        reflexivity.
      * unfold s2, sB, sA, s1.
        change (len (Blocks (sNum b (Num (blk s b) + 1) s)) = len (Blocks s)).
        apply len_upd.
      * intros j Hj. unfold nod at 1. fold (nod s2 j).
        rewrite N2. destruct (Z.eqb_spec j next); [subst j; contradiction|].
        rewrite NB. destruct (Z.eqb_spec j prev); [subst j; contradiction|].
        rewrite NA. destruct (Z.eqb_spec j e); [subst j; contradiction|].
        reflexivity.
      * intros b' Hb'. rewrite Hblk2. unfold s1.
        rewrite blk_sNum by exact Hvb.
        destruct (Z.eqb_spec b' b); [contradiction|reflexivity].
      * split; [|split; [|split; [|split]]].
        -- rewrite El in Hc, Hnotin.
           apply (cyc_insert_after (nxtS s) (prvS s)); auto.
           ++ unfold nxtS. rewrite Hck.
              destruct (Z.eqb_spec e prev); [congruence|].
              rewrite Z.eqb_refl. exact Hnegn.
           ++ unfold prvS. rewrite Hvl.
              destruct (Z.eqb_spec e next); [congruence|].
              rewrite Z.eqb_refl. exact Hnegp.
           ++ unfold nxtS. rewrite Hck, Z.eqb_refl. exact Hnege'.
           ++ fold next. unfold prvS. rewrite Hvl, Z.eqb_refl. exact Hnege'.
           ++ intros y Hy. unfold nxtS. rewrite Hck.
              destruct (Z.eqb_spec y prev) as [->|_].
              { exfalso. destruct Hc as [Hnd _].
                apply NoDup_app in Hnd. destruct Hnd as (_ & Hd & Hnd).
                apply NoDup_cons in Hnd. destruct Hnd as [Hd2 _].
                apply elem_of_app in Hy. destruct Hy as [Hy|Hy].
                - apply (Hd prev Hy). left.
                - contradiction. }
              destruct (Z.eqb_spec y e) as [->|_]; [|reflexivity].
              exfalso. apply Hnotin. rewrite elem_of_app, elem_of_cons.
              rewrite elem_of_app in Hy. tauto.
           ++ intros y Hy Hyn. fold next in Hyn. unfold prvS. rewrite Hvl.
              destruct (Z.eqb_spec y next); [contradiction|].
              destruct (Z.eqb_spec y e) as [->|_]; [contradiction|].
              reflexivity.
        -- intros x Hx.
           assert (Hx' : x = e \/ x ∈ F b).
           { rewrite El. rewrite !elem_of_app, !elem_of_cons in *. tauto. }
           destruct Hx' as [->|Hx'].
           ++ split; [apply (proj2 (Hvn2 _)); exact Hve|auto].
           ++ destruct (Hm x Hx') as (Hv & Hx0 & Hxb).
              split; [apply (proj2 (Hvn2 _)); exact Hv|auto].
        -- intros j Hvj Hbj. apply (proj1 (Hvn2 j)) in Hvj. rewrite Hck.
           assert (Hin : j ∈ l1 ++ prev :: e :: l2 <-> j = e \/ j ∈ F b).
           { rewrite El. rewrite !elem_of_app, !elem_of_cons. tauto. }
           rewrite Hin.
           destruct (Z.eqb_spec j prev) as [->|Hjp].
           { split; [|lia]. intros _. right. rewrite El.
             apply elem_of_app. right. left. }
           destruct (Z.eqb_spec j e) as [->|Hje].
           { split; [auto|lia]. }
           rewrite (Hf j Hvj Hbj). tauto.
        -- rewrite Hblk2. unfold s1. rewrite blk_sNum by exact Hvb.
           rewrite Z.eqb_refl. simpl. rewrite Hn, El.
           rewrite !length_app. simpl. lia.
        -- intros _. rewrite Hblk2. unfold s1. rewrite blk_sNum by exact Hvb.
           rewrite Z.eqb_refl. simpl. fold prev.
           apply elem_of_app. right. left.
    + intros x. rewrite El. rewrite !elem_of_app, !elem_of_cons. tauto.
Qed.

Lemma pushEnode_free_rings e s s' F :
  free_rings s F ->
  len (Array s) < 2 ^ 62 ->
  0 < e -> 0 <= Check (nod s e) ->
  (Int.shr8 e = 0 -> F 0 <> []) ->
  pushEnode e s = Ok tt s' ->
  exists r',
    free_rings s' (fun b => if b =? Int.shr8 e then r' else F b) /\
    (forall x, x ∈ r' <-> x = e \/ x ∈ F (Int.shr8 e)).
Proof.
  intros HF HL He Hocc H0 Hrun.
  apply pushEnode_inv in Hrun. destruct Hrun as (s2 & s3 & H2 & H3 & H4).
  destruct (push_slot_free_rings e s s2 F HF HL He Hocc H0 H2)
    as (r' & HF2 & Hr').
  exists r'. split; [|exact Hr'].
  apply (free_rings_same_slots s3 s'); [eapply push_tail_same_slots; eassumption|].
  apply (free_rings_same_slots s2 s3); [eapply push_class_same_slots; eassumption|].
  exact HF2.
Qed.

(** ** What [popEnode] does, step by step *)

(** [popEnode] once the slot [e] is chosen. *)
Definition popEnode_at (base from : Z) (label : byte) (e : Z) : M Z :=
  let bi := Int.shr8 e in
  _ <- rdNode e ;;
  _ <- rdBlock bi ;;
  num <- rdNum bi ;; wrNum bi (Int.sub num 1) ;;;
  num <- rdNum bi ;;
  (if num =? 0 then
     when (negb (bi =? 0)) (transferBlock bi HeadC HeadF)
   else
     v <- rdValue e ;; c <- rdCheck e ;; wrCheck (Int.neg v) c ;;;
     c <- rdCheck e ;; v <- rdValue e ;; wrValue (Int.neg c) v ;;;
     eh <- rdEhead bi ;;
     (if e =? eh then c <- rdCheck e ;; wrEhead bi (Int.neg c)
      else ret tt) ;;;
     num <- rdNum bi ;; tr <- rdTrial bi ;; mt <- gets MaxTrial ;;
     when (negb (bi =? 0) && (num =? 1) && negb (tr =? mt))
          (transferBlock bi HeadO HeadC)) ;;;
  wrValue e ValueLimit ;;;
  wrCheck e from ;;;
  when (base <? 0)
       (wrValue from (Int.sub (Int.neg (Int.xor e (b2z label))) 1)) ;;;
  ret e.

Lemma popEnode_eq base from label :
  popEnode base from label
  = (e <- (if base <? 0 then findPlace
           else ret (Int.xor base (b2z label))) ;;
     popEnode_at base from label e).
Proof. reflexivity. Qed.

(** The slot is unlinked from the free ring of its block. *)
Definition pop_slot (e : Z) (s s2 : Cedar) : Prop :=
  let bi := Int.shr8 e in
  let n1 := Int.sub (Num (blk s bi)) 1 in
  let s1 := sNum bi n1 s in
  vn s e /\ vb s bi /\
  ((n1 = 0 /\ s2 = s1) \/
   (n1 <> 0 /\
    let prev := Int.neg (Value (nod s e)) in
    let sa := sCheck prev (Check (nod s e)) s1 in
    let next := Int.neg (Check (nod sa e)) in
    let sb := sValue next (Value (nod sa e)) sa in
    vn s prev /\ vn s next /\
    s2 = if e =? Ehead (blk s bi)
         then sEhead bi (Int.neg (Check (nod sb e))) sb else sb)).

(** The slot is taken, and the parent gets its base when it had none. *)
Definition pop_tail (base from : Z) (label : byte) (e : Z) (s3 s' : Cedar)
    : Prop :=
  let s4 := sCheck e from (sValue e ValueLimit s3) in
  vn s3 e /\
  (((base <? 0) = true /\ vn s3 from /\
    s' = sValue from (Int.sub (Int.neg (Int.xor e (b2z label))) 1) s4) \/
   ((base <? 0) = false /\ s' = s4)).

Lemma popEnode_at_inv base from label e s r s' :
  popEnode_at base from label e s = Ok r s' ->
  r = e /\
  exists s2 s3, pop_slot e s s2 /\ links_only s2 s3 /\
                pop_tail base from label e s3 s'.
Proof.
  unfold popEnode_at. intros H.
  set (bi := Int.shr8 e) in *.
  bind_inv H n0 s0 H0. apply rdNode_inv' in H0. destruct H0 as (Hve & _ & ->).
  bind_inv H b0 s0 H0. apply rdBlock_inv' in H0. destruct H0 as (Hv & _ & ->).
  bind_inv H n1 s0 H0. apply rdNum_inv in H0. destruct H0 as (_ & -> & ->).
  bind_inv H u s1 H1. apply wrNum_inv in H1. destruct H1 as (_ & ->).
  set (n1 := Int.sub (Num (blk s bi)) 1) in *.
  set (s1 := sNum bi n1 s) in *.
  assert (V1 : forall j, vb s1 j <-> vb s j) by (intros; apply vb_sNum).
  assert (VN1 : forall j, vn s1 j <-> vn s j) by (intros; apply vn_sNum).
  assert (N1 : Num (blk s1 bi) = n1).
  { unfold s1. rewrite blk_sNum by exact Hv. rewrite Z.eqb_refl.
    reflexivity. }
  bind_inv H n2 s0 H0. apply rdNum_inv in H0. destruct H0 as (_ & -> & ->).
  rewrite N1 in H.
  bind_inv H u2 s3 Hmid. destruct u2.
  assert (Hmid' : exists s2, pop_slot e s s2 /\ links_only s2 s3).
  { destruct (Z.eqb_spec n1 0) as [E1|E1].
    - exists s1. split.
      + unfold pop_slot. fold bi n1 s1. split; [exact Hve|].
        split; [exact Hv|]. left. split; [exact E1|reflexivity].
      + apply when_inv in Hmid. destruct Hmid as [[_ Ht]|[_ ->]].
        * eapply transferBlock_links_only; eassumption.
        * apply links_only_refl.
    - bind_inv Hmid v sx Hx. apply rdValue_inv in Hx.
      destruct Hx as (_ & -> & ->).
      bind_inv Hmid c sx Hx. apply rdCheck_inv in Hx.
      destruct Hx as (_ & -> & ->).
      bind_inv Hmid u3 sa Ha. apply wrCheck_inv in Ha.
      destruct Ha as (Hvp & ->).
      bind_inv Hmid c sx Hx. apply rdCheck_inv in Hx.
      destruct Hx as (_ & -> & ->).
      bind_inv Hmid v sx Hx. apply rdValue_inv in Hx.
      destruct Hx as (_ & -> & ->).
      bind_inv Hmid u4 sb Hb. apply wrValue_inv in Hb.
      destruct Hb as (Hvn & ->).
      bind_inv Hmid eh sx Hx. apply rdEhead_inv in Hx.
      destruct Hx as (_ & -> & ->).
      bind_inv Hmid u5 s2 H2. destruct u5.
      replace (nod s1 e) with (nod s e) in * by reflexivity.
      set (prev := Int.neg (Value (nod s e))) in *.
      set (sa := sCheck prev (Check (nod s e)) s1) in *.
      set (next := Int.neg (Check (nod sa e))) in *.
      set (sb := sValue next (Value (nod sa e)) sa) in *.
      replace (Ehead (blk sb bi)) with (Ehead (blk s bi)) in H2.
      2:{ change (blk sb bi) with (blk s1 bi). unfold s1.
          rewrite blk_sNum by exact Hv. rewrite Z.eqb_refl. reflexivity. }
      exists s2. split.
      + unfold pop_slot. fold bi n1 s1. split; [exact Hve|].
        split; [exact Hv|]. right. split; [exact E1|].
        fold prev sa next sb.
        split; [apply (proj1 (VN1 _)); exact Hvp|].
        split.
        { apply (proj1 (VN1 _)). apply (proj1 (vn_sCheck _ _ _ _) Hvn). }
        destruct (e =? Ehead (blk s bi)).
        * bind_inv H2 c sx Hx. apply rdCheck_inv in Hx.
          destruct Hx as (_ & -> & ->).
          apply wrEhead_inv in H2. destruct H2 as (_ & ->). reflexivity.
        * apply ret_inv in H2. destruct H2 as [_ ->]. reflexivity.
      + bind_inv Hmid nn sx Hx. apply rdNum_inv in Hx.
        destruct Hx as (_ & -> & ->).
        bind_inv Hmid tr sx Hx. apply rdTrial_inv in Hx.
        destruct Hx as (_ & -> & ->).
        bind_inv Hmid mt sx Hx. apply gets_inv in Hx. destruct Hx as (-> & ->).
        apply when_inv in Hmid. destruct Hmid as [[_ Ht]|[_ ->]].
        * eapply transferBlock_links_only; eassumption.
        * apply links_only_refl. }
  destruct Hmid' as (s2 & Hs2 & Hlo).
  bind_inv H u6 s4 H4. apply wrValue_inv in H4. destruct H4 as (Hve3 & ->).
  bind_inv H u7 s5 H5. apply wrCheck_inv in H5. destruct H5 as (_ & ->).
  bind_inv H u8 s6 H6. apply ret_inv in H. destruct H as [-> ->].
  split; [reflexivity|]. exists s2, s3. split; [exact Hs2|].
  split; [exact Hlo|].
  unfold pop_tail. split; [exact Hve3|].
  apply when_inv in H6. destruct H6 as [[Hb H6]|[Hb ->]].
  - left. split; [exact Hb|]. apply wrValue_inv in H6.
    destruct H6 as (Hvf & ->). split; [|reflexivity].
    apply (proj1 (vn_sCheck _ _ _ _)), (proj1 (vn_sValue _ _ _ _)) in Hvf.
    exact Hvf.
  - right. split; [exact Hb|reflexivity].
Qed.

(** ** More on rings *)

Lemma seg_nxt_prv nxt prv l : forall a z,
  seg nxt prv a l z -> nxt (prv z) = z.
Proof.
  induction l as [|b l IH]; intros a z; simpl.
  - intros [H1 H2]. congruence.
  - intros (_ & _ & H). eapply IH. exact H.
Qed.

Lemma cyc_at nxt prv r x :
  cyc nxt prv r -> x ∈ r ->
  exists l1 l2, r = l1 ++ x :: l2 /\ NoDup (x :: l2 ++ l1) /\
                seg nxt prv x (l2 ++ l1) x.
Proof.
  intros Hc Hx. apply list_elem_of_split in Hx.
  destruct Hx as (l1 & l2 & ->). exists l1, l2. split; [reflexivity|].
  apply (cyc_rotate _ _ l1 (x :: l2)) in Hc. exact Hc.
Qed.

Lemma cyc_nxt_prv nxt prv r x : cyc nxt prv r -> x ∈ r -> nxt (prv x) = x.
Proof.
  intros Hc Hx. destruct (cyc_at _ _ _ _ Hc Hx) as (l1 & l2 & _ & _ & Hs).
  eapply seg_nxt_prv. exact Hs.
Qed.

Lemma cyc_prv_nxt nxt prv r x : cyc nxt prv r -> x ∈ r -> prv (nxt x) = x.
Proof.
  intros Hc Hx. destruct (cyc_at _ _ _ _ Hc Hx) as (l1 & l2 & _ & _ & Hs).
  destruct (l2 ++ l1) as [|y m]; simpl in Hs.
  - destruct Hs as [H1 H2]. congruence.
  - destruct Hs as (H1 & H2 & _). congruence.
Qed.

(** In a ring of one the member is linked to itself; in a longer ring no
    member is. *)
Lemma cyc_self nxt prv x : cyc nxt prv [x] -> nxt x = x /\ prv x = x.
Proof. intros [_ H]. exact H. Qed.

Lemma cyc_nxt_ne nxt prv l1 x l2 :
  cyc nxt prv (l1 ++ x :: l2) -> l1 ++ l2 <> [] -> nxt x <> x.
Proof.
  intros Hc Hne.
  apply (cyc_rotate _ _ l1 (x :: l2)) in Hc. simpl in Hc.
  destruct Hc as [Hnd Hs]. apply NoDup_cons in Hnd. destruct Hnd as [Hx _].
  destruct (l2 ++ l1) as [|y m] eqn:E.
  - apply app_eq_nil in E. destruct E as [-> ->]. contradiction.
  - simpl in Hs. destruct Hs as (H1 & _). rewrite H1. intros ->.
    apply Hx. left.
Qed.

Lemma cyc_prv_ne nxt prv l1 x l2 :
  cyc nxt prv (l1 ++ x :: l2) -> l1 ++ l2 <> [] -> prv x <> x.
Proof.
  intros Hc Hne E.
  apply (cyc_nxt_ne _ _ _ _ _ Hc Hne).
  rewrite <- E at 1. eapply cyc_nxt_prv; [exact Hc|].
  apply elem_of_app. right. left.
Qed.


(** The state after the unlinking, read slot by slot. *)
Lemma pop_slot_nodes e s s2 :
  pop_slot e s s2 ->
  vn s e /\ vb s (Int.shr8 e) /\
  len (Array s2) = len (Array s) /\ len (Blocks s2) = len (Blocks s) /\
  (forall b', b' <> Int.shr8 e -> blk s2 b' = blk s b') /\
  Num (blk s2 (Int.shr8 e)) = Int.sub (Num (blk s (Int.shr8 e))) 1 /\
  ((Int.sub (Num (blk s (Int.shr8 e))) 1 = 0 /\
    (forall j, nod s2 j = nod s j)) \/
   (Int.sub (Num (blk s (Int.shr8 e))) 1 <> 0 /\
    (forall j, Check (nod s2 j)
               = if j =? prvS s e then Check (nod s e) else Check (nod s j)) /\
    (forall j, Value (nod s2 j)
               = if j =? nxtS s e then Value (nod s e) else Value (nod s j)) /\
    Ehead (blk s2 (Int.shr8 e))
    = (if e =? Ehead (blk s (Int.shr8 e)) then nxtS s e
       else Ehead (blk s (Int.shr8 e))) /\
    vn s (prvS s e) /\ vn s (nxtS s e))).
Proof.
  unfold pop_slot. set (b := Int.shr8 e).
  set (n1 := Int.sub (Num (blk s b)) 1). set (s1 := sNum b n1 s).
  intros (Hve & Hvb & H). split; [exact Hve|]. split; [exact Hvb|].
  assert (B1 : forall b', blk s1 b'
                 = if b' =? b
                   then mkBlock (Prev (blk s b)) (Next (blk s b)) n1
                          (bReject (blk s b)) (Trial (blk s b))
                          (Ehead (blk s b))
                   else blk s b').
  { intros b'. unfold s1. apply blk_sNum. exact Hvb. }
  assert (L1 : len (Blocks s1) = len (Blocks s)).
  { unfold s1, sNum, sBlock. simpl. apply len_upd. }
  destruct H as [[E1 ->]|[E1 H]].
  - split; [reflexivity|]. split; [exact L1|]. split.
    { intros b' Hb'. rewrite B1. destruct (Z.eqb_spec b' b); [contradiction|].
      reflexivity. }
    split; [rewrite B1, Z.eqb_refl; reflexivity|].
    left. split; [exact E1|]. reflexivity.
  - cbv zeta in H. fold (prvS s e) in H.
    set (prev := prvS s e) in *.
    set (sa := sCheck prev (Check (nod s e)) s1) in *.
    destruct H as (Hvp & Hvn & ->).
    assert (NA : forall j, nod sa j
                 = if j =? prev
                   then mkNode (Value (nod s prev)) (Check (nod s e))
                   else nod s j).
    { intros j. unfold sa. rewrite nod_sCheck; [reflexivity|].
      apply (proj2 (vn_sNum _ _ _ _)). exact Hvp. }
    assert (EA : Check (nod sa e) = Check (nod s e) /\
                 Value (nod sa e) = Value (nod s e)).
    { rewrite NA. destruct (Z.eqb_spec e prev) as [E|E]; [|auto].
      cbn [Check Value]. rewrite <- E. auto. }
    destruct EA as [EA1 EA2]. rewrite EA1, EA2 in *.
    fold (nxtS s e) in *. set (next := nxtS s e) in *.
    set (sb := sValue next (Value (nod s e)) sa) in *.
    assert (NB : forall j, nod sb j
                 = if j =? next
                   then mkNode (Value (nod s e)) (Check (nod sa next))
                   else nod sa j).
    { intros j. unfold sb. rewrite nod_sValue; [reflexivity|].
      apply (proj2 (vn_sCheck _ _ _ _)), (proj2 (vn_sNum _ _ _ _)).
      exact Hvn. }
    assert (CB : forall j, Check (nod sb j)
                 = if j =? prev then Check (nod s e) else Check (nod s j)).
    { intros j. rewrite NB. destruct (Z.eqb_spec j next) as [Ej|Ej];
        cbn [Check Value].
      - rewrite Ej, NA. destruct (next =? prev); reflexivity.
      - rewrite NA. destruct (j =? prev); reflexivity. }
    assert (VB : forall j, Value (nod sb j)
                 = if j =? next then Value (nod s e) else Value (nod s j)).
    { intros j. rewrite NB. destruct (Z.eqb_spec j next) as [Ej|Ej];
        cbn [Check Value]; [reflexivity|].
      rewrite NA. destruct (Z.eqb_spec j prev) as [Ep|Ep]; [|reflexivity].
      cbn [Value]. rewrite Ep. reflexivity. }
    assert (Lb : len (Array sb) = len (Array s)).
    { unfold sb, sa. rewrite len_Array_sValue, len_Array_sCheck. reflexivity. }
    assert (Bb : forall b', blk sb b' = blk s1 b') by reflexivity.
    assert (Vbb : vb sb b).
    { unfold vb. change (Blocks sb) with (Blocks s1). rewrite L1. exact Hvb. }
    assert (CE : Check (nod sb e) = Check (nod s e)).
    { rewrite CB. destruct (e =? prev); reflexivity. }
    rewrite CE. fold (nxtS s e). fold next.
    destruct (Z.eqb_spec e (Ehead (blk s b))) as [Eh|Eh].
    + split; [exact Lb|]. split.
      { unfold sEhead, sBlock. simpl. rewrite len_upd. exact L1. }
      split.
      { intros b' Hb'. rewrite blk_sEhead by exact Vbb.
        destruct (Z.eqb_spec b' b); [contradiction|].
        rewrite Bb, B1. destruct (Z.eqb_spec b' b); [contradiction|].
        reflexivity. }
      split.
      { rewrite blk_sEhead by exact Vbb. rewrite Z.eqb_refl. cbn [Num].
        rewrite Bb, B1, Z.eqb_refl. reflexivity. }
      right. split; [exact E1|]. split; [exact CB|]. split; [exact VB|].
      split; [|auto].
      rewrite blk_sEhead by exact Vbb. rewrite Z.eqb_refl. reflexivity.
    + split; [exact Lb|]. split; [exact L1|]. split.
      { intros b' Hb'. rewrite Bb, B1.
        destruct (Z.eqb_spec b' b); [contradiction|reflexivity]. }
      split; [rewrite Bb, B1, Z.eqb_refl; reflexivity|].
      right. split; [exact E1|]. split; [exact CB|]. split; [exact VB|].
      split; [|auto]. rewrite Bb, B1, Z.eqb_refl. reflexivity.
Qed.

(** Unlinking a free slot and taking it. *)
Lemma pop_slot_free_rings e from s s2 s' F :
  free_rings s F ->
  len (Array s) < 2 ^ 62 ->
  e ∈ F (Int.shr8 e) ->
  0 <= from ->
  pop_slot e s s2 ->
  len (Array s') = len (Array s2) ->
  len (Blocks s') = len (Blocks s2) ->
  (forall b', Num (blk s' b') = Num (blk s2 b') /\
              Ehead (blk s' b') = Ehead (blk s2 b')) ->
  Check (nod s' e) = from ->
  (forall j, j <> e -> Check (nod s' j) = Check (nod s2 j)) ->
  (forall j, j <> e -> Check (nod s j) < 0 ->
             Value (nod s' j) = Value (nod s2 j)) ->
  free_rings s' (fun b' => if b' =? Int.shr8 e then without e (F b')
                           else F b').
Proof.
  intros HF HL Hin Hfrom Hps HLa HLb Hblk Hce Hck Hvl.
  apply pop_slot_nodes in Hps. set (b := Int.shr8 e) in *.
  destruct Hps as (Hve & Hvb & La & Lb & Bo & Nb & Hps).
  pose proof (HF b Hvb) as Hb.
  pose proof (free_ring_length _ _ _ Hb) as Hlen.
  destruct Hb as (Hc & Hm & Hf & Hn & Hh).
  assert (Hn1 : Int.sub (Num (blk s b)) 1 = Num (blk s b) - 1).
  { assert (0 <= Num (blk s b) <= 257)
      by (rewrite Hn; destruct (b =? 0); lia).
    unfold Int.sub. apply wrap_small. lia. }
  rewrite Hn1 in *.
  assert (Hvn' : forall j, vn s' j <-> vn s j).
  { intros j. unfold vn. rewrite HLa, La. tauto. }
  assert (Hprv : prvS s e ∈ F b) by (apply (cyc_prv_in _ _ _ _ Hc Hin)).
  assert (Hnxt : nxtS s e ∈ F b) by (apply (cyc_nxt_in _ _ _ _ Hc Hin)).
  (* the slots of the other blocks keep their links *)
  assert (Hfar : forall j, Int.shr8 j <> b ->
            Check (nod s2 j) = Check (nod s j) /\
            Value (nod s2 j) = Value (nod s j)).
  { intros j Hj. destruct Hps as [[_ H]|(_ & H1 & H2 & _)].
    - rewrite H. auto.
    - rewrite H1, H2.
      destruct (Z.eqb_spec j (prvS s e)) as [E|_].
      { exfalso. apply Hj. rewrite E. apply (Hm _ Hprv). }
      destruct (Z.eqb_spec j (nxtS s e)) as [E|_].
      { exfalso. apply Hj. rewrite E. apply (Hm _ Hnxt). }
      auto. }
  intros b' Hvb'.
  assert (Hvb0 : vb s b') by (unfold vb in *; rewrite <- Lb, <- HLb; exact Hvb').
  destruct (Z.eqb_spec b' b) as [->|Hne].
  2:{ apply (free_ring_ext s s' b' (F b')).
      - apply HF. exact Hvb0.
      - rewrite HLa, La. reflexivity.
      - intros j Hbj.
        assert (Hjb : Int.shr8 j <> b) by congruence.
        assert (Hje : j <> e) by (intros E; apply Hjb; rewrite E; reflexivity).
        destruct (Hfar j Hjb) as [H1 H2]. split.
        + rewrite (Hck j Hje). exact H1.
        + intros Hfree. rewrite (Hvl j Hje Hfree). exact H2.
      - destruct (Hblk b') as [-> _]. rewrite (Bo b' Hne). reflexivity.
      - destruct (Hblk b') as [_ ->]. rewrite (Bo b' Hne). reflexivity. }
  (* the block of the slot *)
  destruct (cyc_at _ _ _ _ Hc Hin) as (l1 & l2 & El & Hnd & Hs).
  assert (Hnd0 : NoDup (F b)) by (apply Hc).
  assert (Ew : without e (F b) = l1 ++ l2).
  { rewrite El. apply without_split. rewrite <- El. exact Hnd0. }
  rewrite Ew.
  assert (Hin' : forall j, j ∈ l1 ++ l2 <-> j ∈ F b /\ j <> e).
  { intros j. rewrite <- Ew. apply elem_of_without. }
  assert (HlenE : length (F b) = S (length (l1 ++ l2))).
  { rewrite El, !length_app. simpl. lia. }
  assert (Hmem : forall x, x ∈ l1 ++ l2 -> vn s' x /\ 0 < x /\ Int.shr8 x = b).
  { intros x Hx. apply Hin' in Hx. destruct Hx as [Hx _].
    destruct (Hm x Hx) as (Hv & H0 & Hxb).
    split; [apply (proj2 (Hvn' _)); exact Hv|auto]. }
  destruct (Hblk b) as [HN HE].
  destruct (l1 ++ l2) as [|y m] eqn:Em.
  - (* the slot was the only free one *)
    assert (Er : F b = [e]).
    { apply app_eq_nil in Em. destruct Em as [-> ->]. exact El. }
    rewrite Er in Hc. destruct (cyc_self _ _ _ Hc) as [Hsn Hsp].
    assert (Hsame : forall j, j <> e -> Check (nod s2 j) = Check (nod s j)).
    { intros j Hj. destruct Hps as [[_ H]|(_ & H1 & _)].
      - rewrite H. reflexivity.
      - rewrite H1, Hsp.
        destruct (Z.eqb_spec j e); [contradiction|reflexivity]. }
    split; [|split; [|split; [|split]]].
    + split; [apply NoDup_nil_2|exact I].
    + intros x Hx. inversion Hx.
    + intros j Hvj Hbj. apply (proj1 (Hvn' _)) in Hvj.
      destruct (Z.eqb_spec j e) as [->|Hje].
      * rewrite Hce. split; [lia|intros H; inversion H].
      * rewrite (Hck j Hje), (Hsame j Hje), (Hf j Hvj Hbj), Er.
        rewrite list_elem_of_singleton. split; [contradiction|].
        intros H; inversion H.
    + rewrite HN, Nb, Hn, Er. simpl. lia.
    + intros H. contradiction.
  - (* other free slots remain *)
    rewrite <- Em in *.
    assert (Hne : l1 ++ l2 <> []) by (rewrite Em; discriminate).
    assert (Hnum : Num (blk s b) - 1 <> 0).
    { rewrite Hn, HlenE, Em. simpl. destruct (b =? 0); lia. }
    destruct Hps as [[E0 _]|(_ & H1 & H2 & H3 & Hvp & Hvn)]; [contradiction|].
    rewrite El in Hc.
    pose proof (cyc_nxt_ne _ _ _ _ _ Hc Hne) as Hnn.
    pose proof (cyc_prv_ne _ _ _ _ _ Hc Hne) as Hpn.
    assert (Hfree : forall j, j ∈ l1 ++ l2 -> Check (nod s j) < 0).
    { intros j Hj. apply Hin' in Hj. destruct Hj as [Hj _].
      destruct (Hm j Hj) as (Hv & _ & Hjb). apply (Hf j Hv Hjb). exact Hj. }
    assert (Hefree : Check (nod s e) < 0).
    { apply (Hf e Hve eq_refl). exact Hin. }
    split; [|split; [|split; [|split]]].
    + apply (cyc_unlink (nxtS s) (prvS s) (nxtS s') (prvS s') l1 e l2 Hc Hne).
      * unfold nxtS at 1. rewrite (Hck _ Hpn), H1, Z.eqb_refl. reflexivity.
      * unfold prvS at 1. rewrite (Hvl _ Hnn), H2, Z.eqb_refl; [reflexivity|].
        apply Hfree. apply Hin'. split; [rewrite El in Hnxt; rewrite El|exact Hnn].
        exact Hnxt.
      * intros y0 Hy Hyp. pose proof (proj1 (Hin' y0) Hy) as [_ Hye].
        unfold nxtS at 1. rewrite (Hck _ Hye), H1.
        destruct (Z.eqb_spec y0 (prvS s e)); [contradiction|reflexivity].
      * intros y0 Hy Hyn. pose proof (proj1 (Hin' y0) Hy) as [_ Hye].
        unfold prvS at 1. rewrite (Hvl _ Hye (Hfree _ Hy)), H2.
        destruct (Z.eqb_spec y0 (nxtS s e)); [contradiction|reflexivity].
    + exact Hmem.
    + intros j Hvj Hbj. apply (proj1 (Hvn' _)) in Hvj. rewrite Hin'.
      destruct (Z.eqb_spec j e) as [->|Hje].
      * rewrite Hce. split; [lia|]. intros [_ H]. contradiction.
      * rewrite (Hck j Hje), H1.
        destruct (Z.eqb_spec j (prvS s e)) as [->|Hjp].
        -- split; [|intros _; exact Hefree]. intros _. split; [|exact Hpn].
           rewrite El in Hprv. rewrite El. exact Hprv.
        -- rewrite (Hf j Hvj Hbj). tauto.
    + rewrite HN, Nb, Hn, HlenE. lia.
    + intros _. rewrite HE, H3. apply Hin'.
      destruct (Z.eqb_spec e (Ehead (blk s b))) as [Eh|Eh].
      * split; [|exact Hnn]. rewrite El in Hnxt. rewrite El. exact Hnxt.
      * split; [|congruence]. apply Hh. rewrite El.
        destruct l1; discriminate.
Qed.

Lemma pop_tail_nodes base from label e s3 s' :
  pop_tail base from label e s3 s' ->
  len (Array s') = len (Array s3) /\ Blocks s' = Blocks s3 /\
  Check (nod s' e) = from /\
  (forall j, j <> e -> Check (nod s' j) = Check (nod s3 j)) /\
  (forall j, j <> e -> ((base <? 0) = true -> j <> from) ->
             Value (nod s' j) = Value (nod s3 j)).
Proof.
  unfold pop_tail. intros (Hve & H).
  set (s4 := sCheck e from (sValue e ValueLimit s3)) in *.
  assert (N4 : forall j, nod s4 j
               = if j =? e then mkNode ValueLimit from else nod s3 j).
  { intros j. unfold s4. rewrite nod_sCheck
      by (apply (proj2 (vn_sValue _ _ _ _)); exact Hve).
    rewrite !nod_sValue by exact Hve. rewrite Z.eqb_refl.
    destruct (j =? e); reflexivity. }
  assert (L4 : len (Array s4) = len (Array s3)).
  { unfold s4. rewrite len_Array_sCheck, len_Array_sValue. reflexivity. }
  destruct H as [(Hb & Hvf & ->)|(Hb & ->)].
  - assert (Hvf4 : vn s4 from).
    { unfold vn. rewrite L4. exact Hvf. }
    split; [rewrite len_Array_sValue; exact L4|]. split; [reflexivity|].
    split.
    { rewrite nod_sValue by exact Hvf4.
      destruct (Z.eqb_spec e from) as [E|E]; cbn [Check]; rewrite N4.
      - rewrite <- E, Z.eqb_refl. reflexivity.
      - rewrite Z.eqb_refl. reflexivity. }
    split.
    + intros j Hj. rewrite nod_sValue by exact Hvf4.
      destruct (Z.eqb_spec j from) as [E|E]; cbn [Check]; rewrite N4.
      * rewrite <- E. destruct (Z.eqb_spec j e); [contradiction|reflexivity].
      * destruct (Z.eqb_spec j e); [contradiction|reflexivity].
    + intros j Hj Hjf. rewrite nod_sValue by exact Hvf4.
      destruct (Z.eqb_spec j from) as [E|E]; [destruct (Hjf Hb E)|].
      rewrite N4. destruct (Z.eqb_spec j e); [contradiction|reflexivity].
  - split; [exact L4|]. split; [reflexivity|]. split.
    { rewrite N4, Z.eqb_refl. reflexivity. }
    split; intros j Hj; [|intros _]; rewrite N4;
      destruct (Z.eqb_spec j e); try contradiction; reflexivity.
Qed.

(** [popEnode] on a chosen free slot [e]: the slot leaves the free ring of
    its block and becomes a child of [from]. *)
Lemma popEnode_at_free_rings base from label e s r s' F :
  free_rings s F ->
  len (Array s) < 2 ^ 62 ->
  e ∈ F (Int.shr8 e) ->
  0 <= from ->
  ((base <? 0) = true -> 0 <= Check (nod s from)) ->
  popEnode_at base from label e s = Ok r s' ->
  r = e /\
  free_rings s' (fun b => if b =? Int.shr8 e then without e (F b) else F b) /\
  Check (nod s' e) = from.
Proof.
  intros HF HL Hin Hfrom Hocc Hrun.
  apply popEnode_at_inv in Hrun.
  destruct Hrun as (-> & s2 & s3 & H2 & Hlo & H3).
  apply pop_tail_nodes in H3. destruct H3 as (L3 & B3 & C3 & K3 & V3).
  split; [reflexivity|]. split; [|exact C3].
  apply (pop_slot_free_rings e from s s2 s' F HF HL Hin Hfrom H2).
  - rewrite L3. unfold len. rewrite (lo_array _ _ Hlo). reflexivity.
  - rewrite B3. apply (lo_len _ _ Hlo).
  - intros b'. unfold blk at 1 3. rewrite B3. fold (blk s3 b').
    split; [apply (lo_num _ _ Hlo)|apply (lo_ehead _ _ Hlo)].
  - exact C3.
  - intros j Hj. rewrite (K3 j Hj). unfold nod. rewrite (lo_array _ _ Hlo).
    reflexivity.
  - intros j Hj Hfree. rewrite (V3 j Hj).
    + unfold nod. rewrite (lo_array _ _ Hlo). reflexivity.
    + intros Hb E. subst j. specialize (Hocc Hb). lia.
Qed.

(** * A new block *)

(** The sizes fit together: [Size] and [Capacity] are multiples of 256, the
    slices have the lengths that [New] and [addBlock] give them. *)
Definition alloc_shape (s : Cedar) : Prop :=
  exists nb cb, 0 < nb <= cb /\
    Size s = 256 * nb /\ Capacity s = 256 * cb /\
    len (Array s) = 256 * cb /\ len (Ninfos s) = 256 * cb /\
    len (Blocks s) = cb.

(** The state after the three slices have been doubled, when they were
    full. *)
Definition grown (s : Cedar) : Cedar :=
  if Size s =? Capacity s then
    let s1 := withCapacity (Int.add (Capacity s) (Capacity s)) s in
    let s2 := withArray (grow zeroNode (Capacity s1) (Array s1)) s1 in
    let s3 := withNinfos (grow zeroNinfo (Capacity s2) (Ninfos s2)) s2 in
    withBlocks (grow zeroBlock (Int.shr8 (Capacity s3)) (Blocks s3)) s3
  else s.

(** The node that [addBlock] writes at slot [j] of the block that starts at
    [sz]. *)
Definition fresh_node (sz j : Z) : node :=
  mkNode (- (if j =? sz then sz + 255 else j - 1))
         (- (if j =? sz + 255 then sz else j + 1)).

(** [n] nodes written from slot [i] on. *)
Fixpoint fill (n : nat) (i : Z) (g : Z -> node) (s : Cedar) : Cedar :=
  match n with
  | O => s
  | S n' => fill n' (i + 1) g (sNode i (g i) s)
  end.

Lemma gets_ok {A} (f : Cedar -> A) s : gets f s = Ok (f s) s.
Proof. reflexivity. Qed.
Lemma modify_ok f s : modify f s = Ok tt (f s).
Proof. reflexivity. Qed.

Lemma shr8_mul k : Int.shr8 (256 * k) = k.
Proof. apply shr8_block. lia. Qed.

Lemma length_grow {A} (zero : A) n (old : list A) :
  len old <= n -> len (grow zero n old) = n.
Proof.
  unfold grow, len. intros H. rewrite length_app, length_take, length_drop.
  rewrite length_replicate. lia.
Qed.

Lemma idx_grow {A} (zero : A) n (old : list A) j :
  len old <= n ->
  idx (grow zero n old) j
  = if (0 <=? j) && (j <? n)
    then Some (match idx old j with Some x => x | None => zero end)
    else None.
Proof.
  unfold grow, len, idx. intros H.
  rewrite length_replicate, drop_replicate.
  rewrite take_ge by lia.
  destruct (Z.ltb_spec j 0) as [Hj|Hj].
  - destruct (Z.leb_spec 0 j); [lia|]. reflexivity.
  - destruct (Z.leb_spec 0 j); [|lia]. simpl.
    destruct (Z.ltb_spec j n) as [Hn|Hn].
    + destruct (old !! Z.to_nat j) eqn:E.
      * rewrite lookup_app_l by (apply lookup_lt_Some in E; exact E).
        exact E.
      * apply lookup_ge_None in E. rewrite lookup_app_r by exact E.
        rewrite lookup_replicate_2 by lia. reflexivity.
    + apply lookup_ge_None. rewrite length_app, length_replicate. lia.
Qed.

Lemma nod_fill n : forall i g s j,
  (forall k, i <= k < i + Z.of_nat n -> vn s k) ->
  nod (fill n i g s) j
  = if (i <=? j) && (j <? i + Z.of_nat n) then g j else nod s j.
Proof.
  induction n as [|n IH]; intros i g s j Hv.
  - cbn [fill]. destruct (Z.leb_spec i j), (Z.ltb_spec j (i + Z.of_nat 0));
      try reflexivity. lia.
  - cbn [fill]. rewrite IH.
    2:{ intros k Hk. apply (proj2 (vn_sNode _ _ _ _)). apply Hv. lia. }
    rewrite nod_sNode by (apply Hv; lia).
    destruct (Z.leb_spec (i + 1) j), (Z.ltb_spec j (i + 1 + Z.of_nat n)),
      (Z.leb_spec i j), (Z.ltb_spec j (i + Z.of_nat (S n))),
      (Z.eqb_spec j i); simpl; try reflexivity; try lia.
    subst j. reflexivity.
Qed.

Lemma fill_frame n : forall i g s,
  withArray (Array (fill n i g s)) s = fill n i g s /\
  len (Array (fill n i g s)) = len (Array s).
Proof.
  induction n as [|n IH]; intros i g s.
  - simpl. split; [destruct s; reflexivity|reflexivity].
  - cbn [fill]. destruct (IH (i + 1) g (sNode i (g i) s)) as [H1 H2].
    split.
    + rewrite <- H1 at 2. reflexivity.
    + rewrite H2. apply len_Array_sNode.
Qed.

Lemma forZ_wrNode_ok n : forall i g s,
  (forall k, i <= k < i + Z.of_nat n -> vn s k) ->
  i + Z.of_nat n < 2 ^ 62 -> - 2 ^ 62 < i ->
  forZ n i (fun j => wrNode j (g j)) s = Ok tt (fill n i g s).
Proof.
  induction n as [|n IH]; intros i g s Hv Hi Hl.
  - reflexivity.
  - cbn [forZ fill].
    erewrite bind_eval; [|apply wrNode_ok; apply Hv; lia].
    replace (Int.add i 1) with (i + 1)
      by (symmetry; unfold Int.add; apply wrap_small; lia).
    apply IH; [|lia|lia].
    intros k Hk. apply (proj2 (vn_sNode _ _ _ _)). apply Hv. lia.
Qed.

Lemma nod_withArray_grow s c j :
  len (Array s) <= c ->
  nod (withArray (grow zeroNode c (Array s)) s) j
  = if (0 <=? j) && (j <? c) then nod s j else zeroNode.
Proof.
  intros H. unfold nod at 1. cbn [Array withArray].
  rewrite idx_grow by exact H. unfold nod.
  destruct ((0 <=? j) && (j <? c)); reflexivity.
Qed.

Lemma nod_out s j : ~ vn s j -> nod s j = zeroNode.
Proof.
  intros H. unfold nod, idx. destruct (Z.ltb_spec j 0); [reflexivity|].
  rewrite (proj2 (lookup_ge_None _ _)); [reflexivity|].
  unfold vn, len in H. lia.
Qed.

Lemma blk_out s b : ~ vb s b -> blk s b = zeroBlock.
Proof.
  intros H. unfold blk, idx. destruct (Z.ltb_spec b 0); [reflexivity|].
  rewrite (proj2 (lookup_ge_None _ _)); [reflexivity|].
  unfold vb, len in H. lia.
Qed.

Lemma grown_facts s nb cb :
  0 < nb <= cb -> cb < 2 ^ 50 ->
  Size s = 256 * nb -> Capacity s = 256 * cb ->
  len (Array s) = 256 * cb -> len (Ninfos s) = 256 * cb ->
  len (Blocks s) = cb ->
  exists cb', nb < cb' /\ cb <= cb' /\ cb' < 2 ^ 51 /\
    Size (grown s) = 256 * nb /\ Capacity (grown s) = 256 * cb' /\
    len (Array (grown s)) = 256 * cb' /\
    len (Ninfos (grown s)) = 256 * cb' /\
    len (Blocks (grown s)) = cb' /\
    (forall j, nod (grown s) j = nod s j) /\
    (forall b, blk (grown s) b = blk s b) /\
    (forall h, headOf h (grown s) = headOf h s) /\
    MaxTrial (grown s) = MaxTrial s /\ Reject (grown s) = Reject s /\
    Ordered (grown s) = Ordered s.
Proof.
  intros Hnb Hcb HS HC HA HN HB. unfold grown.
  destruct (Z.eqb_spec (Size s) (Capacity s)) as [E|E].
  - assert (nb = cb) by lia. subst nb.
    assert (Ec : Int.add (Capacity s) (Capacity s) = 256 * (2 * cb)).
    { unfold Int.add. rewrite wrap_small; lia. }
    exists (2 * cb). cbn zeta.
    cbn [Capacity Size Array Ninfos Blocks withCapacity withArray withNinfos
         withBlocks MaxTrial Reject Ordered].
    rewrite Ec. rewrite shr8_mul.
    split; [lia|]. split; [lia|]. split; [lia|]. split; [exact HS|].
    split; [reflexivity|].
    split; [apply length_grow; lia|]. split; [apply length_grow; lia|].
    split; [apply length_grow; lia|].
    split.
    { intros j. unfold nod at 1.
      cbn [Array withBlocks withNinfos withArray withCapacity].
      rewrite idx_grow by lia.
      destruct (Z.leb_spec 0 j), (Z.ltb_spec j (256 * (2 * cb))); simpl;
        try reflexivity; symmetry; apply nod_out; unfold vn; lia. }
    split.
    { intros b. unfold blk at 1.
      cbn [Blocks withBlocks withNinfos withArray withCapacity].
      rewrite idx_grow by lia.
      destruct (Z.leb_spec 0 b), (Z.ltb_spec b (2 * cb)); simpl;
        try reflexivity; symmetry; apply blk_out; unfold vb; lia. }
    split; [intros []; reflexivity|]. auto.
  - exists cb. split; [lia|]. split; [lia|]. split; [lia|].
    repeat (split; [auto; fail|]). auto.
Qed.

Lemma grow_ok s nb cb :
  0 < nb <= cb -> cb < 2 ^ 50 ->
  Size s = 256 * nb -> Capacity s = 256 * cb ->
  (if Size s =? Capacity s then
     modify (fun s => withCapacity (Int.add (Capacity s) (Capacity s)) s) ;;;
     c <- gets Capacity ;;
     makeLen c ;;;
     modify (fun s => withArray (grow zeroNode c (Array s)) s) ;;;
     c <- gets Capacity ;;
     makeLen c ;;;
     modify (fun s => withNinfos (grow zeroNinfo c (Ninfos s)) s) ;;;
     c <- gets Capacity ;;
     makeLen (Int.shr8 c) ;;;
     modify (fun s => withBlocks (grow zeroBlock (Int.shr8 c) (Blocks s)) s)
   else ret tt) s = Ok tt (grown s).
Proof.
  intros Hnb Hcb HS HC. unfold grown.
  destruct (Z.eqb_spec (Size s) (Capacity s)) as [E|E]; [|reflexivity].
  assert (Ec : Int.add (Capacity s) (Capacity s) = 256 * (2 * cb)).
  { unfold Int.add. rewrite wrap_small; lia. }
  assert (M1 : makeLen (256 * (2 * cb)) = ret tt).
  { unfold makeLen. destruct (Z.ltb_spec (256 * (2 * cb)) 0); [lia|].
    reflexivity. }
  assert (M2 : makeLen (2 * cb) = ret tt).
  { unfold makeLen. destruct (Z.ltb_spec (2 * cb) 0); [lia|]. reflexivity. }
  rewrite (bind_eval _ _ _ _ _ (modify_ok _ _)).
  rewrite (bind_eval _ _ _ _ _ (gets_ok _ _)).
  cbn [Capacity withCapacity]. rewrite Ec, M1.
  rewrite (bind_eval _ _ _ _ _ eq_refl).
  rewrite (bind_eval _ _ _ _ _ (modify_ok _ _)).
  rewrite (bind_eval _ _ _ _ _ (gets_ok _ _)).
  cbn [Capacity withCapacity withArray]. rewrite M1.
  rewrite (bind_eval _ _ _ _ _ eq_refl).
  rewrite (bind_eval _ _ _ _ _ (modify_ok _ _)).
  rewrite (bind_eval _ _ _ _ _ (gets_ok _ _)).
  cbn [Capacity withCapacity withArray withNinfos]. rewrite shr8_mul, M2.
  rewrite (bind_eval _ _ _ _ _ eq_refl).
  rewrite modify_ok. cbn zeta.
  cbn [Capacity withCapacity withArray withNinfos].
  rewrite ?Ec, ?shr8_mul. reflexivity.
Qed.

(** The state of [addBlock] just before the new block is pushed on the Open
    ring. *)
Definition block_written (s : Cedar) : Cedar :=
  let sg := grown s in
  let sz := Size s in
  let nb := Int.shr8 sz in
  sNode (sz + 255) (mkNode (Int.neg (Int.add sz 254)) (Int.neg sz))
    (fill 254 (sz + 1)
       (fun i => mkNode (Int.neg (Int.sub i 1)) (Int.neg (Int.add i 1)))
       (sNode sz (mkNode (Int.neg (Int.add sz 255)) (Int.neg (Int.add sz 1)))
          (sEhead nb sz (sBlock nb (init (blk sg nb)) sg)))).

Lemma addBlock_steps_gen s nb cb s4 :
  0 < nb <= cb -> cb < 2 ^ 50 ->
  Size s = 256 * nb -> Capacity s = 256 * cb ->
  len (Array s) = 256 * cb -> len (Ninfos s) = 256 * cb ->
  len (Blocks s) = cb ->
  let sz := Size s in
  let s3 := sNode sz (mkNode (Int.neg (Int.add sz 255))
                             (Int.neg (Int.add sz 1)))
              (sEhead nb sz (sBlock nb (init (blk (grown s) nb)) (grown s))) in
  let g := fun i => mkNode (Int.neg (Int.sub i 1)) (Int.neg (Int.add i 1)) in
  let s5 := sNode (sz + 255) (mkNode (Int.neg (Int.add sz 254)) (Int.neg sz))
              s4 in
  forZ 254 (sz + 1) (fun j => wrNode j (g j)) s3 = Ok tt s4 ->
  withArray (Array s4) s3 = s4 ->
  len (Array s4) = len (Array s3) ->
  (forall j, nod s4 j
             = if (sz + 1 <=? j) && (j <? sz + 1 + Z.of_nat 254)
               then g j else nod s3 j) ->
  addBlock s
  = (pushBlock nb HeadO (BheadO s =? 0) ;;;
     modify (fun s => withSize (Int.add (Size s) 256) s) ;;;
     sz <- gets Size ;;
     ret (Int.sub (Int.shr8 sz) 1)) s5
  /\ (forall j, nod s5 j
                = if (Size s <=? j) && (j <? Size s + 256)
                  then fresh_node (Size s) j else nod s j)
  /\ (forall b, blk s5 b
                = if b =? nb
                  then mkBlock (Prev (blk s nb)) (Next (blk s nb)) 256 257
                         (Trial (blk s nb)) (Size s)
                  else blk s b)
  /\ (exists cb', nb < cb' /\ cb <= cb' /\ cb' < 2 ^ 51 /\
        Capacity s5 = 256 * cb' /\
        len (Array s5) = 256 * cb' /\
        len (Ninfos s5) = 256 * cb' /\
        len (Blocks s5) = cb')
  /\ Size s5 = Size s
  /\ (forall h, headOf h s5 = headOf h s)
  /\ MaxTrial s5 = MaxTrial s
  /\ Reject s5 = Reject s
  /\ Ordered s5 = Ordered s.
Proof.
  intros Hnb Hcb HS HC HA HN HB sz0 s30 g0 s50 Hloop F4 L4 N4.
  subst sz0 s30 g0 s50.
  destruct (grown_facts s nb cb Hnb Hcb HS HC HA HN HB)
    as (cb' & G1 & G1' & G2 & GS & GC & GA & GN & GB & Gn & Gb & Gh & GM & GR & GO).
  rewrite HS in *.
  set (sg := grown s) in *. set (sz := 256 * nb) in *.
  set (s1 := sBlock nb (init (blk sg nb)) sg) in *.
  set (s2 := sEhead nb sz s1) in *.
  set (n0 := mkNode (Int.neg (Int.add sz 255)) (Int.neg (Int.add sz 1))) in *.
  set (s3 := sNode sz n0 s2) in *.
  set (g := fun i => mkNode (Int.neg (Int.sub i 1)) (Int.neg (Int.add i 1)))
    in *.
  set (n5 := mkNode (Int.neg (Int.add sz 254)) (Int.neg sz)).
  set (s5 := sNode (sz + 255) n5 s4).
  assert (Vb : vb sg nb) by (unfold vb; rewrite GB; lia).
  assert (Vb1 : vb s1 nb) by (apply (proj2 (vb_sBlock _ _ _ _)); exact Vb).
  assert (L2 : len (Array s2) = 256 * cb') by exact GA.
  assert (V2 : forall k, sz <= k < sz + 256 -> vn s2 k).
  { intros k Hk. unfold vn. rewrite L2. unfold sz in *. lia. }
  assert (V3 : forall k, sz <= k < sz + 256 -> vn s3 k).
  { intros k Hk. apply (proj2 (vn_sNode _ _ _ _)). apply V2. exact Hk. }
  assert (V4 : forall k, sz <= k < sz + 256 -> vn s4 k).
  { intros k Hk. unfold vn. rewrite L4. apply V3. exact Hk. }
  assert (Esh : Int.shr8 sz = nb) by apply shr8_mul.
  split.
  { unfold addBlock.
    rewrite (bind_eval _ _ _ _ _ (gets_ok _ _)).
    rewrite (bind_eval _ _ _ _ _ (gets_ok _ _)).
    rewrite (bind_eval _ _ _ _ _ (grow_ok s nb cb Hnb Hcb HS HC)).
    fold sg.
    rewrite (bind_eval _ _ _ _ _ (gets_ok _ _)). rewrite GS, Esh.
    rewrite (bind_eval _ _ _ _ _ (rdBlock_ok _ _ Vb)).
    rewrite (bind_eval _ _ _ _ _ (wrBlock_ok _ _ _ Vb)). fold s1.
    rewrite (bind_eval _ _ _ _ _ (gets_ok _ _)).
    change (Size s1) with (Size sg). rewrite GS, Esh. fold sz.
    rewrite (bind_eval _ _ _ _ _ (wrEhead_ok _ _ _ Vb1)). fold s2.
    rewrite (bind_eval _ _ _ _ _ (gets_ok _ _)).
    change (Size s2) with (Size sg). rewrite GS. fold sz.
    rewrite (bind_eval _ _ _ _ _ (wrNode_ok _ _ _ (V2 sz ltac:(lia)))).
    fold n0 s3.
    rewrite (bind_eval _ _ _ _ _ (gets_ok _ _)).
    change (Size s3) with (Size sg). rewrite GS. fold sz.
    replace (Int.add sz 255) with (sz + 255)
      by (symmetry; unfold Int.add; apply wrap_small; unfold sz; lia).
    replace (Int.add sz 1) with (sz + 1)
      by (symmetry; unfold Int.add; apply wrap_small; unfold sz; lia).
    replace (Z.to_nat (sz + 255 - (sz + 1))) with 254%nat by lia.
    rewrite (bind_eval _ _ _ _ _ Hloop).
    rewrite (bind_eval _ _ _ _ _ (gets_ok _ _)).
    assert (E4 : Size s4 = sz).
    { rewrite <- F4. cbn [Size withArray].
      change (Size s3) with (Size sg). rewrite GS. reflexivity. }
    rewrite ?E4.
    replace (Int.add sz 255) with (sz + 255)
      by (symmetry; unfold Int.add; apply wrap_small; unfold sz; lia).
    rewrite (bind_eval _ _ _ _ _ (wrNode_ok _ _ _ (V4 (sz + 255) ltac:(lia)))).
    fold n5 s5.
    rewrite (bind_eval _ _ _ _ _ (gets_ok _ _)).
    rewrite (bind_eval _ _ _ _ _ (gets_ok _ _)).
    change (Size s5) with (Size s4). rewrite ?E4, ?Esh.
    replace (BheadO s5) with (BheadO s); [reflexivity|].
    change (BheadO s5) with (BheadO s4). rewrite <- F4.
    cbn [BheadO withArray]. change (BheadO s3) with (BheadO sg).
    symmetry. apply (Gh HeadO). }
  assert (N5 : forall j, nod s5 j
               = if (sz <=? j) && (j <? sz + 256)
                 then fresh_node sz j else nod s j).
  { intros j. unfold s5. rewrite nod_sNode by (apply V4; lia).
    rewrite N4.
    unfold s3. rewrite nod_sNode by (apply V2; lia).
    change (nod s2 j) with (nod sg j). rewrite Gn.
    unfold fresh_node, n5, n0, g.
    assert (W : forall x, - 2 ^ 62 < x < 2 ^ 62 -> Int.wrap x = x)
      by (intros; apply wrap_small; lia).
    destruct (Z.eqb_spec j (sz + 255)) as [->|E1].
    { destruct (Z.leb_spec sz (sz + 255)), (Z.ltb_spec (sz + 255) (sz + 256));
        try lia. simpl.
      destruct (Z.eqb_spec (sz + 255) sz); [lia|].
      unfold Int.neg, Int.add. repeat match goal with
        | |- context [Int.wrap ?x] =>
            lazymatch x with
            | context [Int.wrap _] => fail
            | _ => rewrite (W x) by (unfold sz; lia)
            end
        end.
      f_equal; lia. }
    destruct (Z.leb_spec (sz + 1) j), (Z.ltb_spec j (sz + 1 + Z.of_nat 254));
      simpl.
    - destruct (Z.leb_spec sz j), (Z.ltb_spec j (sz + 256)); try lia. simpl.
      destruct (Z.eqb_spec j sz); [lia|].
      unfold Int.neg, Int.add, Int.sub. repeat match goal with
        | |- context [Int.wrap ?x] =>
            lazymatch x with
            | context [Int.wrap _] => fail
            | _ => rewrite (W x) by (unfold sz; lia)
            end
        end.
      reflexivity.
    - destruct (Z.eqb_spec j sz); [lia|].
      destruct (Z.leb_spec sz j), (Z.ltb_spec j (sz + 256)); try lia;
        reflexivity.
    - destruct (Z.eqb_spec j sz) as [->|E2].
      + destruct (Z.leb_spec sz sz), (Z.ltb_spec sz (sz + 256)); try lia.
        simpl. unfold Int.neg, Int.add. repeat match goal with
        | |- context [Int.wrap ?x] =>
            lazymatch x with
            | context [Int.wrap _] => fail
            | _ => rewrite (W x) by (unfold sz; lia)
            end
        end.
        reflexivity.
      + destruct (Z.leb_spec sz j), (Z.ltb_spec j (sz + 256)); try lia;
          reflexivity.
    - lia. }
  split; [exact N5|].
  split.
  { intros b. change (blk s5 b) with (blk s4 b).
    rewrite <- F4. change (blk (withArray _ s3) b) with (blk s2 b).
    unfold s2. rewrite blk_sEhead by exact Vb1.
    unfold s1. rewrite !blk_sBlock by exact Vb. rewrite Z.eqb_refl.
    destruct (Z.eqb_spec b nb); [|apply Gb].
    unfold init. cbn [Prev Next Num bReject Trial Ehead]. rewrite Gb.
    reflexivity. }
  split.
  { exists cb'. split; [exact G1|]. split; [exact G1'|]. split; [exact G2|].
    assert (E5 : withArray (Array s5) sg = withBlocks (Blocks s5) (withArray (Array s5) sg) -> True) by auto.
    split.
    { change (Capacity s5) with (Capacity s4). rewrite <- F4.
      exact GC. }
    split.
    { unfold s5. rewrite len_Array_sNode. rewrite L4.
      unfold s3. rewrite len_Array_sNode. exact L2. }
    split.
    { change (Ninfos s5) with (Ninfos s4). rewrite <- F4.
      exact GN. }
    change (Blocks s5) with (Blocks s4). rewrite <- F4.
    cbn [Blocks withArray]. change (Blocks s3) with (Blocks s2).
    unfold s2, sEhead, s1, sBlock. cbn [Blocks withBlocks].
    rewrite !len_upd. exact GB. }
  split.
  { change (Size s5) with (Size s4). rewrite <- F4. exact GS. }
  split.
  { intros h. rewrite <- Gh.
    replace (headOf h s5) with (headOf h s4) by (destruct h; reflexivity).
    rewrite <- F4. destruct h; reflexivity. }
  split.
  { change (MaxTrial s5) with (MaxTrial s4). rewrite <- F4.
    exact GM. }
  split.
  { change (Reject s5) with (Reject s4). rewrite <- F4. exact GR. }
  change (Ordered s5) with (Ordered s4). rewrite <- F4. exact GO.
Qed.

Lemma addBlock_steps s nb cb :
  0 < nb <= cb -> cb < 2 ^ 50 ->
  Size s = 256 * nb -> Capacity s = 256 * cb ->
  len (Array s) = 256 * cb -> len (Ninfos s) = 256 * cb ->
  len (Blocks s) = cb ->
  addBlock s
  = (pushBlock nb HeadO (BheadO s =? 0) ;;;
     modify (fun s => withSize (Int.add (Size s) 256) s) ;;;
     sz <- gets Size ;;
     ret (Int.sub (Int.shr8 sz) 1)) (block_written s)
  /\ (forall j, nod (block_written s) j
                = if (Size s <=? j) && (j <? Size s + 256)
                  then fresh_node (Size s) j else nod s j)
  /\ (forall b, blk (block_written s) b
                = if b =? nb
                  then mkBlock (Prev (blk s nb)) (Next (blk s nb)) 256 257
                         (Trial (blk s nb)) (Size s)
                  else blk s b)
  /\ (exists cb', nb < cb' /\ cb <= cb' /\ cb' < 2 ^ 51 /\
        Capacity (block_written s) = 256 * cb' /\
        len (Array (block_written s)) = 256 * cb' /\
        len (Ninfos (block_written s)) = 256 * cb' /\
        len (Blocks (block_written s)) = cb')
  /\ Size (block_written s) = Size s
  /\ (forall h, headOf h (block_written s) = headOf h s)
  /\ MaxTrial (block_written s) = MaxTrial s
  /\ Reject (block_written s) = Reject s
  /\ Ordered (block_written s) = Ordered s.
Proof.
  intros Hnb Hcb HS HC HA HN HB.
  destruct (grown_facts s nb cb Hnb Hcb HS HC HA HN HB)
    as (cb' & G1 & _ & _ & _ & _ & GA & _).
  unfold block_written. cbn zeta.
  replace (Int.shr8 (Size s)) with nb by (rewrite HS, shr8_mul; reflexivity).
  set (s3 := sNode (Size s) _ _).
  set (g := fun i => mkNode (Int.neg (Int.sub i 1)) (Int.neg (Int.add i 1))).
  assert (V3 : forall k, Size s <= k < Size s + 256 -> vn s3 k).
  { intros k Hk. apply (proj2 (vn_sNode _ _ _ _)).
    unfold vn. change (len (Array (grown s)) ) with (len (Array (grown s))).
    apply (proj2 (vn_sEhead _ _ _ _)), (proj2 (vn_sBlock _ _ _ _)).
    unfold vn. rewrite GA. lia. }
  destruct (fill_frame 254 (Size s + 1) g s3) as [F4 L4].
  apply (addBlock_steps_gen s nb cb (fill 254 (Size s + 1) g s3)
           Hnb Hcb HS HC HA HN HB).
  - apply (forZ_wrNode_ok 254 (Size s + 1) g s3).
    + intros k Hk. apply V3. lia.
    + lia.
    + lia.
  - exact F4.
  - exact L4.
  - intros j. refine (nod_fill 254 (Size s + 1) g s3 j _).
    intros k Hk. apply V3. lia.
Qed.

(** The rings with the block [bi] new at the head of the ring [h]. *)
Definition pushed (bi : Z) (h : headptr) (R : headptr -> list Z)
    : headptr -> list Z :=
  fun h' => if head_eqb h' h then bi :: R h' else R h'.

Lemma pushed_elem bi h R h' x :
  x ∈ pushed bi h R h' <-> (x = bi /\ head_eqb h' h = true) \/ x ∈ R h'.
Proof.
  unfold pushed. destruct (head_eqb h' h).
  - rewrite elem_of_cons. tauto.
  - split; [auto|]. intros [[_ H]|H]; [discriminate|exact H].
Qed.

Lemma NoDup_pushed bi h R :
  bi <> 0 -> bi ∉ members R ->
  NoDup (0 :: members R) -> NoDup (0 :: members (pushed bi h R)).
Proof.
  intros Hb0 Hbi Hnd. apply NoDup_cons in Hnd. destruct Hnd as [H0 Hnd].
  apply NoDup_cons. split.
  - intros H. apply members_in in H. destruct H as [h' H].
    apply pushed_elem in H. destruct H as [[E _]|H]; [congruence|].
    apply H0. eapply in_members. exact H.
  - apply NoDup_members in Hnd. destruct Hnd as [H1 H2].
    apply NoDup_members. split.
    + intros h'. unfold pushed. destruct (head_eqb h' h); [|apply H1].
      apply NoDup_cons. split; [|apply H1].
      intros H. apply Hbi. eapply in_members. exact H.
    + intros h1 h2 x E Hx Hx'.
      apply pushed_elem in Hx. apply pushed_elem in Hx'.
      destruct Hx as [[-> E1]|Hx], Hx' as [[E' E2]|Hx'].
      * apply head_eqb_eq in E1. apply head_eqb_eq in E2. subst.
        destruct h; discriminate.
      * apply Hbi. eapply in_members. exact Hx'.
      * subst x. apply Hbi. eapply in_members. exact Hx.
      * exact (H2 h1 h2 x E Hx Hx').
Qed.

(** [addBlock] returns: the new block is the block after the last one, its
    256 slots are free and linked in a ring, and it is the new head of the
    Open ring. *)
Lemma addBlock_ok s R :
  alloc_shape s ->
  Capacity s < 2 ^ 58 ->
  block_rings s R ->
  (forall b, b ∈ members R -> b < nblocks s) ->
  exists s',
    addBlock s = Ok (nblocks s) s' /\
    alloc_shape s' /\ Size s' = Size s + 256 /\
    block_rings s' (pushed (nblocks s) HeadO R) /\
    (forall j, nod s' j
               = if (Size s <=? j) && (j <? Size s + 256)
                 then fresh_node (Size s) j else nod s j) /\
    (forall b, Num (blk s' b) = (if b =? nblocks s then 256 else Num (blk s b))
            /\ Ehead (blk s' b)
               = (if b =? nblocks s then Size s else Ehead (blk s b))
            /\ bReject (blk s' b)
               = (if b =? nblocks s then 257 else bReject (blk s b))
            /\ Trial (blk s' b) = Trial (blk s b)) /\
    len (Blocks s) <= len (Blocks s') /\
    len (Array s) <= len (Array s') /\
    MaxTrial s' = MaxTrial s /\ Reject s' = Reject s /\
    Ordered s' = Ordered s /\ Capacity s' < 2 ^ 59.
Proof.
  intros (nb & cb & Hnb & HS & HC & HA & HN & HB) Hcap HR Hfresh.
  assert (Hcb : cb < 2 ^ 50) by lia.
  destruct (addBlock_steps s nb cb Hnb Hcb HS HC HA HN HB)
    as (Hrun & N5 & B5 & (cb' & G1 & G1' & G2 & C5 & A5 & I5 & L5)
        & S5 & H5 & M5 & R5 & O5).
  assert (Enb : nblocks s = nb) by (unfold nblocks; rewrite HS; apply shr8_mul).
  rewrite Enb in *.
  set (s5 := block_written s) in *.
  destruct HR as [Hnd Hv Hh Hc].
  assert (Hnbm : nb ∉ members R).
  { intros H. apply Hfresh in H. lia. }
  assert (Hnb0 : nb <> 0) by lia.
  assert (Vnb : vb s5 nb) by (unfold vb; rewrite L5; lia).
  assert (Vold : forall b, vb s b -> vb s5 b).
  { intros b. unfold vb. rewrite L5, HB. lia. }
  assert (Hfar : forall y, y <> nb -> blk s5 y = blk s y).
  { intros y Hy. rewrite B5. destruct (Z.eqb_spec y nb); [contradiction|].
    reflexivity. }
  assert (HcO : cyc (nxtB s5) (prvB s5) (cycleOf HeadO (R HeadO))).
  { apply (cyc_frame s); [|apply Hc].
    intros y Hy. apply Hfar. intros ->. apply Hnbm.
    eapply in_members. exact Hy. }
  destruct (pushBlock_cycle s5 HeadO (R HeadO) nb HcO)
    as (sp & Hpush & Hcp & Hhp & Hhop & Hfrp & Hlop).
  { intros b Hb. apply Vold. apply Hv. right. eapply in_members. exact Hb. }
  { rewrite H5. apply Hh. }
  { exact Vnb. }
  { intros H. apply Hnbm. eapply in_members. exact H. }
  assert (Eflag : (BheadO s =? 0) = emptyFlag HeadO (R HeadO)).
  { pose proof (Hh HeadO) as E. simpl in E. rewrite E.
    destruct (Z.eqb_spec (hd 0 (R HeadO)) 0) as [E0|E0].
    - apply (hd_ring_nonzero R HeadO Hnd) in E0. rewrite E0. reflexivity.
    - destruct (R HeadO); [simpl in E0; congruence|reflexivity]. }
  assert (Esz : Int.add (Size sp) 256 = 256 * (nb + 1)).
  { rewrite (lo_size _ _ Hlop), S5, HS. unfold Int.add.
    rewrite wrap_small; lia. }
  set (s' := withSize (Int.add (Size sp) 256) sp).
  assert (Bs' : forall b, blk s' b = blk sp b) by reflexivity.
  assert (Ns' : forall j, nod s' j = nod sp j) by reflexivity.
  exists s'. split.
  { rewrite Hrun, Eflag.
    rewrite (bind_eval _ _ _ _ _ Hpush).
    rewrite (bind_eval _ _ _ _ _ (modify_ok _ _)). fold s'.
    rewrite (bind_eval _ _ _ _ _ (gets_ok _ _)).
    change (Size s') with (Int.add (Size sp) 256). rewrite Esz, shr8_mul.
    unfold ret, Int.sub. rewrite wrap_small by lia. f_equal. lia. }
  split.
  { exists (nb + 1), cb'. split; [lia|].
    split; [exact Esz|].
    split; [change (Capacity s') with (Capacity sp);
            rewrite (lo_capacity _ _ Hlop); exact C5|].
    split; [change (Array s') with (Array sp);
            rewrite (lo_array _ _ Hlop); exact A5|].
    split; [change (Ninfos s') with (Ninfos sp);
            rewrite (lo_ninfos _ _ Hlop); exact I5|].
    change (Blocks s') with (Blocks sp). rewrite (lo_len _ _ Hlop). exact L5. }
  split; [change (Size s') with (Int.add (Size sp) 256); rewrite Esz; lia|].
  split.
  { constructor.
    - apply NoDup_pushed; assumption.
    - intros b Hb. unfold vb. change (Blocks s') with (Blocks sp).
      rewrite (lo_len _ _ Hlop). fold (vb s5 b).
      destruct Hb as [->|Hb]; [apply Vold, Hv; left; reflexivity|].
      apply members_in in Hb. destruct Hb as [h Hb].
      apply pushed_elem in Hb. destruct Hb as [[-> _]|Hb]; [exact Vnb|].
      apply Vold, Hv. right. eapply in_members. exact Hb.
    - intros h. replace (headOf h s') with (headOf h sp)
        by (destruct h; reflexivity).
      unfold pushed. destruct (head_eqb h HeadO) eqn:E.
      + apply head_eqb_eq in E. subst h. exact Hhp.
      + rewrite (Hhop h E), H5. apply Hh.
    - intros h. apply (cyc_frame sp); [intros; apply Bs'|].
      unfold pushed. destruct (head_eqb h HeadO) eqn:E.
      + apply head_eqb_eq in E. subst h. exact Hcp.
      + apply (cyc_frame s).
        * intros y Hy. rewrite Hfrp.
          -- apply Hfar. intros ->.
             apply cycleOf_elem in Hy. destruct Hy as [Hy|[_ Hy]].
             ++ apply Hnbm. eapply in_members. exact Hy.
             ++ contradiction.
          -- apply not_elem_of_cons. split.
             ++ intros ->. apply cycleOf_elem in Hy.
                destruct Hy as [Hy|[_ Hy]]; [|contradiction].
                apply Hnbm. eapply in_members. exact Hy.
             ++ apply (cycles_disjoint R h HeadO y Hnd E Hy).
        * apply Hc. }
  split.
  { intros j. rewrite Ns'. unfold nod. rewrite (lo_array _ _ Hlop).
    apply N5. }
  split.
  { intros b. rewrite Bs'.
    rewrite (lo_num _ _ Hlop), (lo_ehead _ _ Hlop), (lo_breject _ _ Hlop),
      (lo_trial _ _ Hlop), B5.
    destruct (Z.eqb_spec b nb) as [->|]; cbn [Num Ehead bReject Trial]; auto. }
  split.
  { change (Blocks s') with (Blocks sp). rewrite (lo_len _ _ Hlop), L5, HB.
    exact G1'. }
  split.
  { change (Array s') with (Array sp). rewrite (lo_array _ _ Hlop), A5, HA.
    lia. }
  split; [change (MaxTrial s') with (MaxTrial sp);
          rewrite (lo_maxtrial _ _ Hlop); exact M5|].
  split; [change (Reject s') with (Reject sp);
          rewrite (lo_reject _ _ Hlop); exact R5|].
  split; [change (Ordered s') with (Ordered sp);
          rewrite (lo_ordered _ _ Hlop); exact O5|].
  change (Capacity s') with (Capacity sp). rewrite (lo_capacity _ _ Hlop), C5.
  lia.
Qed.

Lemma seg_seqZ nxt prv (n : nat) : forall a z,
  (forall j, a <= j < a + Z.of_nat n -> nxt j = j + 1) ->
  (forall j, a < j <= a + Z.of_nat n -> prv j = j - 1) ->
  nxt (a + Z.of_nat n) = z -> prv z = a + Z.of_nat n ->
  seg nxt prv a (seqZ (a + 1) (Z.of_nat n)) z.
Proof.
  induction n as [|n IH]; intros a z Hn Hp Hz Hpz.
  - simpl. rewrite Z.add_0_r in *. auto.
  - rewrite seqZ_cons by lia. simpl.
    split; [rewrite Hn; lia|]. split; [rewrite Hp; lia|].
    replace (Z.pred (Z.of_nat (S n))) with (Z.of_nat n) by lia.
    replace (Z.succ (a + 1)) with (a + 1 + 1) by lia.
    apply IH.
    + intros j Hj. apply Hn. lia.
    + intros j Hj. apply Hp. lia.
    + rewrite <- Hz. f_equal. lia.
    + rewrite Hpz. lia.
Qed.

(** The free rings after [addBlock]: the new block has all its 256 slots
    free, in the order of their indices; the rings of the other blocks are
    as before, and the blocks that the slice [Blocks] has gained have no
    free slot. *)
Definition added_rings (s : Cedar) (F : Z -> list Z) : Z -> list Z :=
  fun b => if b =? nblocks s then seqZ (Size s) 256
           else if (0 <=? b) && (b <? len (Blocks s)) then F b
           else [].

Lemma addBlock_free_rings s R F :
  alloc_shape s ->
  Capacity s < 2 ^ 58 ->
  block_rings s R ->
  (forall b, b ∈ members R -> b < nblocks s) ->
  free_rings s F ->
  exists s',
    addBlock s = Ok (nblocks s) s' /\
    free_rings s' (added_rings s F) /\
    alloc_shape s' /\ Size s' = Size s + 256 /\
    block_rings s' (pushed (nblocks s) HeadO R) /\
    (forall j, nod s' j
               = if (Size s <=? j) && (j <? Size s + 256)
                 then fresh_node (Size s) j else nod s j) /\
    (forall b, Num (blk s' b) = (if b =? nblocks s then 256 else Num (blk s b))
            /\ Ehead (blk s' b)
               = (if b =? nblocks s then Size s else Ehead (blk s b))
            /\ bReject (blk s' b)
               = (if b =? nblocks s then 257 else bReject (blk s b))
            /\ Trial (blk s' b) = Trial (blk s b)) /\
    len (Blocks s) <= len (Blocks s') /\
    len (Array s) <= len (Array s') /\
    MaxTrial s' = MaxTrial s /\ Reject s' = Reject s /\
    Ordered s' = Ordered s /\ Capacity s' < 2 ^ 59.
Proof.
  intros Hsh Hcap HR Hfresh HF.
  destruct (addBlock_ok s R Hsh Hcap HR Hfresh)
    as (s' & Hrun & Hsh' & HS' & HR' & Hnod & Hblk & HLb & HLa & HM & HRj & HO
        & HCb).
  exists s'. split; [exact Hrun|]. split; [|repeat (split; [assumption|]); assumption].
  destruct Hsh as (nb & cb & Hnb & HS & HC & HA & HN & HB).
  destruct Hsh' as (nb' & cb' & Hnb' & HSn & HCn & HAn & HNn & HBn).
  assert (Enb : nblocks s = nb) by (unfold nblocks; rewrite HS; apply shr8_mul).
  assert (Enb' : nb' = nb + 1) by lia.
  unfold added_rings. rewrite Enb, HS in *. set (sz := 256 * nb) in *.
  intros b Hvb.
  destruct (Z.eqb_spec b nb) as [->|Hne].
  - (* the new block *)
    assert (Hin : forall e, e ∈ seqZ sz 256 <-> sz <= e < sz + 256).
    { intros e. rewrite elem_of_seqZ. lia. }
    assert (Hfr : forall e, sz <= e < sz + 256 ->
                            nod s' e = fresh_node sz e).
    { intros e He. rewrite Hnod.
      destruct (Z.leb_spec sz e), (Z.ltb_spec e (sz + 256)); try lia.
      reflexivity. }
    assert (W : forall x, - 2 ^ 62 < x < 2 ^ 62 -> Int.neg (- x) = x).
    { intros x Hx. unfold Int.neg. rewrite wrap_small; lia. }
    split; [|split; [|split; [|split]]].
    + split; [apply NoDup_seqZ|].
      change 256 with (Z.succ 255). rewrite seqZ_cons by lia.
      replace (Z.pred (Z.succ 255)) with (Z.of_nat 255) by lia.
      replace (Z.succ sz) with (sz + 1) by lia.
      apply seg_seqZ.
      * intros j Hj. unfold nxtS. rewrite Hfr by lia. unfold fresh_node.
        cbn [Check]. destruct (Z.eqb_spec j (sz + 255)); [lia|].
        apply W. unfold sz. lia.
      * intros j Hj. unfold prvS. rewrite Hfr by lia. unfold fresh_node.
        cbn [Value]. destruct (Z.eqb_spec j sz); [lia|].
        apply W. unfold sz. lia.
      * unfold nxtS. rewrite Hfr by lia. unfold fresh_node. cbn [Check].
        replace (sz + Z.of_nat 255) with (sz + 255) by lia.
        rewrite Z.eqb_refl. apply W. unfold sz. lia.
      * unfold prvS. rewrite Hfr by lia. unfold fresh_node. cbn [Value].
        rewrite Z.eqb_refl. rewrite W by (unfold sz; lia). lia.
    + intros e He. apply Hin in He.
      split; [unfold vn; rewrite HAn; unfold sz in *; lia|].
      split; [unfold sz in *; lia|]. apply shr8_block. unfold sz in *. lia.
    + intros e Hv He. apply shr8_block in He. rewrite Hin.
      fold sz in He. split; [intros _; lia|]. intros _.
      rewrite Hfr by lia. unfold fresh_node. cbn [Check].
      destruct (e =? sz + 255); unfold sz in *; lia.
    + destruct (Hblk nb) as (-> & _). rewrite Z.eqb_refl.
      rewrite length_seqZ. destruct (Z.eqb_spec nb 0); lia.
    + intros _. destruct (Hblk nb) as (_ & -> & _). rewrite Z.eqb_refl.
      apply Hin. lia.
  - assert (Hfar : forall e, Int.shr8 e = b -> nod s' e = nod s e).
    { intros e He. rewrite Hnod.
      destruct (Z.leb_spec sz e), (Z.ltb_spec e (sz + 256)); try reflexivity.
      exfalso. apply Hne. rewrite <- He. apply shr8_block. unfold sz in *.
      lia. }
    assert (Hsame : Num (blk s' b) = Num (blk s b) /\
                    Ehead (blk s' b) = Ehead (blk s b)).
    { destruct (Hblk b) as (H1 & H2 & _).
      destruct (Z.eqb_spec b nb); [contradiction|]. auto. }
    destruct (Z.leb_spec 0 b) as [H0|H0]; [|unfold vb in Hvb; lia].
    destruct (Z.ltb_spec b (len (Blocks s))) as [H1|H1]; simpl.
    + apply (free_ring_ext s s' b (F b)).
      * apply HF. unfold vb. lia.
      * exact HLa.
      * intros e He. rewrite (Hfar e He). auto.
      * apply Hsame.
      * apply Hsame.
    + (* a block that the slice has gained *)
      assert (Hz : blk s b = zeroBlock) by (apply blk_out; unfold vb; lia).
      split; [|split; [|split; [|split]]].
      * split; [apply NoDup_nil_2|exact I].
      * intros e He. inversion He.
      * intros e Hv He. rewrite (Hfar e He).
        rewrite nod_out.
        -- simpl. split; [lia|intros H; inversion H].
        -- apply shr8_block in He. unfold vn. rewrite HA. rewrite HB in H1.
           lia.
      * destruct Hsame as [-> _]. rewrite Hz. simpl.
        destruct (Z.eqb_spec b 0); [rewrite HB in H1; lia|reflexivity].
      * intros H. contradiction.
Qed.

(** * Finding a free slot *)

Lemma findPlace_closed s :
  BheadC s <> 0 -> findPlace s = rdEhead (BheadC s) s.
Proof.
  intros H. unfold findPlace. rewrite (bind_eval _ _ _ _ _ (gets_ok _ _)).
  destruct (Z.eqb_spec (BheadC s) 0); [contradiction|]. reflexivity.
Qed.

Lemma findPlace_open s :
  BheadC s = 0 -> BheadO s <> 0 -> findPlace s = rdEhead (BheadO s) s.
Proof.
  intros H1 H2. unfold findPlace.
  rewrite (bind_eval _ _ _ _ _ (gets_ok _ _)). rewrite H1. simpl.
  rewrite (bind_eval _ _ _ _ _ (gets_ok _ _)).
  destruct (Z.eqb_spec (BheadO s) 0); [contradiction|]. reflexivity.
Qed.

Lemma findPlace_new s :
  BheadC s = 0 -> BheadO s = 0 ->
  findPlace s = (bi <- addBlock ;; ret (Int.shl8 bi)) s.
Proof.
  intros H1 H2. unfold findPlace.
  rewrite (bind_eval _ _ _ _ _ (gets_ok _ _)). rewrite H1. simpl.
  rewrite (bind_eval _ _ _ _ _ (gets_ok _ _)). rewrite H2. reflexivity.
Qed.

(** [findPlace] returns a free slot: the [Ehead] of the first block of the
    Closed ring, else of the Open ring, else the first slot of a new
    block. *)
Lemma findPlace_ok s R F :
  alloc_shape s ->
  Capacity s < 2 ^ 58 ->
  block_rings s R ->
  (forall b, b ∈ members R -> b < nblocks s) ->
  free_rings s F ->
  (forall b, b ∈ R HeadC \/ b ∈ R HeadO -> F b <> []) ->
  exists e s0 F0,
    findPlace s = Ok e s0 /\
    free_rings s0 F0 /\ e ∈ F0 (Int.shr8 e) /\
    len (Array s0) < 2 ^ 62 /\
    (forall j, 0 <= j < Size s -> nod s0 j = nod s j) /\
    ((s0 = s /\ F0 = F /\
      (Int.shr8 e ∈ R HeadC \/ (R HeadC = [] /\ Int.shr8 e ∈ R HeadO))) \/
     (R HeadC = [] /\ R HeadO = [] /\
      addBlock s = Ok (nblocks s) s0 /\ F0 = added_rings s F /\
      e = Size s)).
Proof.
  intros Hsh Hcap HR Hfresh HF Hne.
  assert (HLa : len (Array s) < 2 ^ 62).
  { destruct Hsh as (nb & cb & Hnb & HS & HC & HA & _). lia. }
  assert (Hhead : forall h, h <> HeadF -> R h <> [] ->
            let e := Ehead (blk s (headOf h s)) in
            vb s (headOf h s) /\ headOf h s <> 0 /\
            headOf h s ∈ R h /\ Int.shr8 e = headOf h s /\
            e ∈ F (Int.shr8 e)).
  { intros h Hh Hr e.
    assert (Hin : headOf h s ∈ R h).
    { rewrite (br_head _ _ HR h). destruct (R h); [contradiction|left]. }
    assert (Hv : vb s (headOf h s)).
    { apply (br_valid _ _ HR). right. eapply in_members. exact Hin. }
    assert (Hf : F (headOf h s) <> []).
    { apply Hne. destruct h; [contradiction|left|right]; exact Hin. }
    destruct (HF _ Hv) as (_ & Hm & _ & _ & He).
    specialize (He Hf). destruct (Hm _ He) as (_ & _ & Hb).
    split; [exact Hv|]. split.
    { intros E. apply (ring_no_zero R h (br_nodup _ _ HR)). rewrite <- E.
      exact Hin. }
    split; [exact Hin|]. split; [exact Hb|]. unfold e. rewrite Hb. exact He. }
  destruct (R HeadC) as [|c rc] eqn:EC.
  - assert (E0 : BheadC s = 0)
      by (change (headOf HeadC s = 0); rewrite (br_head _ _ HR), EC;
          reflexivity).
    destruct (R HeadO) as [|o ro] eqn:EO.
    + assert (E1 : BheadO s = 0)
        by (change (headOf HeadO s = 0); rewrite (br_head _ _ HR), EO;
            reflexivity).
      destruct (addBlock_free_rings s R F Hsh Hcap HR Hfresh HF)
        as (s' & Hrun & HF' & Hsh' & HS' & HR' & Hnod & Hblk & _ & _ & _ & _
            & _ & HCb).
      destruct Hsh as (nb & cb & Hnb & HS & HC & HA & HN & HB).
      assert (Enb : nblocks s = nb)
        by (unfold nblocks; rewrite HS; apply shr8_mul).
      exists (Size s), s', (added_rings s F).
      split.
      { rewrite (findPlace_new s E0 E1).
        rewrite (bind_eval _ _ _ _ _ Hrun). unfold ret. f_equal.
        rewrite Enb, HS. unfold Int.shl8. rewrite Z.shiftl_mul_pow2 by lia.
        change (2 ^ 8) with 256. rewrite wrap_small; lia. }
      split; [exact HF'|]. split.
      { unfold added_rings. rewrite HS, shr8_mul, Enb, Z.eqb_refl.
        apply elem_of_seqZ. lia. }
      split.
      { destruct Hsh' as (nb' & cb' & Hnb' & HSn & HCn & HAn & _). lia. }
      split.
      { intros j Hj. rewrite Hnod.
        destruct (Z.leb_spec (Size s) j); [lia|]. reflexivity. }
      right. auto.
    + destruct (Hhead HeadO ltac:(discriminate) ltac:(rewrite EO; discriminate))
        as (Hv & H0 & Hin & Hb & He).
      exists (Ehead (blk s (headOf HeadO s))), s, F.
      split; [rewrite (findPlace_open s E0 H0); apply rdEhead_ok; exact Hv|].
      split; [exact HF|].
      split; [exact He|]. split; [exact HLa|]. split; [auto|].
      left. split; [reflexivity|]. split; [reflexivity|]. right.
      split; [reflexivity|]. rewrite Hb, <- EO. exact Hin.
  - destruct (Hhead HeadC ltac:(discriminate) ltac:(rewrite EC; discriminate))
      as (Hv & H0 & Hin & Hb & He).
    exists (Ehead (blk s (headOf HeadC s))), s, F.
    split; [rewrite (findPlace_closed s H0); apply rdEhead_ok; exact Hv|].
    split; [exact HF|].
    split; [exact He|]. split; [exact HLa|]. split; [auto|].
    left. split; [reflexivity|]. split; [reflexivity|]. left.
    rewrite Hb, <- EC. exact Hin.
Qed.

(** [popEnode] when the parent has no base yet: the slot comes from
    [findPlace]. *)
Lemma popEnode_new_free_rings s R F base from label e s' :
  alloc_shape s ->
  Capacity s < 2 ^ 58 ->
  block_rings s R ->
  (forall b, b ∈ members R -> b < nblocks s) ->
  free_rings s F ->
  (forall b, b ∈ R HeadC \/ b ∈ R HeadO -> F b <> []) ->
  base < 0 ->
  0 <= from < Size s -> 0 <= Check (nod s from) ->
  popEnode base from label s = Ok e s' ->
  exists F0, (F0 = F \/ F0 = added_rings s F) /\
    e ∈ F0 (Int.shr8 e) /\
    free_rings s' (fun b => if b =? Int.shr8 e then without e (F0 b)
                            else F0 b) /\
    Check (nod s' e) = from.
Proof.
  intros Hsh Hcap HR Hfresh HF Hne Hb Hfrom Hocc Hrun.
  rewrite popEnode_eq in Hrun.
  destruct (Z.ltb_spec base 0) as [_|]; [|lia].
  bind_inv Hrun e0 s0 H0.
  destruct (findPlace_ok s R F Hsh Hcap HR Hfresh HF Hne)
    as (e1 & s1 & F0 & Hfp & HF0 & Hin & HL0 & Hold & Hcase).
  rewrite Hfp in H0. inversion H0; subst e1 s1. clear H0.
  assert (Hb' : (base <? 0) = true) by (apply Z.ltb_lt; exact Hb).
  destruct (popEnode_at_free_rings base from label e0 s0 e s' F0 HF0 HL0 Hin
              ltac:(lia)) as (-> & HF' & Hck).
  { intros _. rewrite (Hold from Hfrom). exact Hocc. }
  { exact Hrun. }
  exists F0. split.
  { destruct Hcase as [(_ & -> & _)|(_ & _ & _ & -> & _)]; auto. }
  split; [exact Hin|]. split; [exact HF'|exact Hck].
Qed.

(** [popEnode] on the slot [base XOR label] of a parent that has a base. *)
Lemma popEnode_base_free_rings s F base from label e s' :
  free_rings s F ->
  len (Array s) < 2 ^ 62 ->
  0 <= base ->
  Int.xor base (b2z label) ∈ F (Int.shr8 (Int.xor base (b2z label))) ->
  0 <= from ->
  popEnode base from label s = Ok e s' ->
  e = Int.xor base (b2z label) /\
  free_rings s' (fun b => if b =? Int.shr8 e then without e (F b)
                          else F b) /\
  Check (nod s' e) = from.
Proof.
  intros HF HL Hb Hin Hfrom Hrun.
  rewrite popEnode_eq in Hrun.
  destruct (Z.ltb_spec base 0) as [|_]; [lia|].
  bind_inv Hrun e0 s0 H0. apply ret_inv in H0. destruct H0 as [-> ->].
  destruct (popEnode_at_free_rings base from label _ s e s' F HF HL Hin Hfrom)
    as (-> & HF' & Hck).
  { intros E. apply Z.ltb_lt in E. lia. }
  { exact Hrun. }
  auto.
Qed.

(** * Checking a state by computation *)

Fixpoint seg_b (nxt prv : Z -> Z) (a : Z) (l : list Z) (z : Z) : bool :=
  match l with
  | [] => (nxt a =? z) && (prv z =? a)
  | b :: l' => (nxt a =? b) && (prv b =? a) && seg_b nxt prv b l' z
  end.

Definition cyc_b (nxt prv : Z -> Z) (r : list Z) : bool :=
  bool_decide (NoDup r) &&
  match r with [] => true | h :: t => seg_b nxt prv h t h end.

Definition free_ring_b (s : Cedar) (b : Z) (r : list Z) : bool :=
  cyc_b (nxtS s) (prvS s) r &&
  forallb (fun e => (0 <=? e) && (e <? len (Array s)) && (0 <? e)
                    && (Int.shr8 e =? b)) r &&
  forallb (fun e => Bool.eqb (Check (nod s e) <? 0) (bool_decide (e ∈ r)))
          (seqZ (b * 256) 256) &&
  (Num (blk s b) =? Z.of_nat (length r) + (if b =? 0 then 1 else 0)) &&
  match r with [] => true | _ => bool_decide (Ehead (blk s b) ∈ r) end.

Definition free_rings_b (s : Cedar) (F : Z -> list Z) : bool :=
  forallb (fun b => free_ring_b s b (F b)) (seqZ 0 (len (Blocks s))).

(** The free ring of a block, read off the state from [Ehead] on. *)
Fixpoint ring_from (n : nat) (s : Cedar) (start e : Z) : list Z :=
  match n with
  | O => []
  | S n' => e :: (if nxtS s e =? start then [] else ring_from n' s start (nxtS s e))
  end.

Definition ring_of (s : Cedar) (b : Z) : list Z :=
  if Num (blk s b) =? (if b =? 0 then 1 else 0) then []
  else ring_from 256 s (Ehead (blk s b)) (Ehead (blk s b)).

Lemma seg_b_sound nxt prv l : forall a z,
  seg_b nxt prv a l z = true -> seg nxt prv a l z.
Proof.
  induction l as [|b l IH]; intros a z; simpl.
  - rewrite andb_true_iff, !Z.eqb_eq. tauto.
  - rewrite !andb_true_iff, !Z.eqb_eq. intros [[H1 H2] H3]. auto.
Qed.

Lemma cyc_b_sound nxt prv r : cyc_b nxt prv r = true -> cyc nxt prv r.
Proof.
  unfold cyc_b, cyc. rewrite andb_true_iff. intros [H1 H2].
  apply bool_decide_eq_true in H1. split; [exact H1|].
  destruct r; [exact I|]. apply seg_b_sound. exact H2.
Qed.

Lemma free_ring_b_sound s b r : free_ring_b s b r = true -> free_ring s b r.
Proof.
  unfold free_ring_b. rewrite !andb_true_iff.
  intros ((((H1 & H2) & H3) & H4) & H5).
  rewrite forallb_forall in H2, H3.
  split; [apply cyc_b_sound; exact H1|].
  split.
  { intros e He. apply list_elem_of_In in He. specialize (H2 e He).
    rewrite !andb_true_iff in H2. destruct H2 as (((A & B) & C) & D).
    unfold vn. apply Z.leb_le in A. apply Z.ltb_lt in B. apply Z.ltb_lt in C.
    apply Z.eqb_eq in D. auto. }
  split.
  { intros e Hv Hb. apply shr8_block in Hb.
    assert (He : In e (seqZ (b * 256) 256)).
    { apply list_elem_of_In, elem_of_seqZ. lia. }
    specialize (H3 e He). apply Bool.eqb_prop in H3.
    rewrite <- Z.ltb_lt, H3. apply bool_decide_eq_true. }
  split; [apply Z.eqb_eq; exact H4|].
  intros Hr. destruct r; [contradiction|].
  apply bool_decide_eq_true in H5. exact H5.
Qed.

Lemma free_rings_b_sound s F : free_rings_b s F = true -> free_rings s F.
Proof.
  unfold free_rings_b. rewrite forallb_forall. intros H b Hb.
  apply free_ring_b_sound. apply H. apply list_elem_of_In, elem_of_seqZ.
  unfold vb in Hb. lia.
Qed.

Definition alloc_shape_b (s : Cedar) : bool :=
  let nb := Int.shr8 (Size s) in
  let cb := len (Blocks s) in
  (0 <? nb) && (nb <=? cb) && (Size s =? 256 * nb) &&
  (Capacity s =? 256 * cb) && (len (Array s) =? 256 * cb) &&
  (len (Ninfos s) =? 256 * cb).

Lemma alloc_shape_b_sound s : alloc_shape_b s = true -> alloc_shape s.
Proof.
  unfold alloc_shape_b. rewrite !andb_true_iff.
  rewrite Z.ltb_lt, Z.leb_le, !Z.eqb_eq.
  intros (((((H1 & H2) & H3) & H4) & H5) & H6).
  exists (Int.shr8 (Size s)), (len (Blocks s)). auto 10.
Qed.

Lemma block_rings_New : block_rings New (fun _ => []).
Proof.
  constructor.
  - simpl. apply NoDup_singleton.
  - intros b [->|H]; [vm_compute; split; [discriminate|reflexivity]|].
    inversion H.
  - intros []; reflexivity.
  - intros []; simpl; try (split; [apply NoDup_nil_2|exact I]).
    apply cyc_single; reflexivity.
Qed.

(** * Finding room for several children *)

Lemma b2z_range c : 0 <= b2z c < 256.
Proof.
  unfold b2z. pose proof (Byte.to_N_bounded c) as H. lia.
Qed.

(** A slot and the slot XOR a byte are in the same block. *)
Lemma xor_block e c : 0 <= c < 256 -> Int.shr8 (Int.xor e c) = Int.shr8 e.
Proof.
  intros Hc. unfold Int.shr8, Int.xor. rewrite Z.shiftr_lxor.
  replace (Z.shiftr c 8) with 0; [apply Z.lxor_0_r|].
  symmetry. rewrite Z.shiftr_div_pow2 by lia. apply Z.div_small.
  change (2 ^ 8) with 256. lia.
Qed.

(** All the slots [base XOR c], for [c] in [child], are free. *)
Definition fits (s : Cedar) (base : Z) (child : list byte) : bool :=
  forallb (fun c => Check (nod s (Int.xor base (b2z c))) <? 0) child.

Lemma at_ok (l : list byte) i c s : idx l i = Some c -> at_ l i s = Ok c s.
Proof. intros H. unfold at_. rewrite H. reflexivity. Qed.

Lemma listEhead_fits_ok s base rest : forall n pre,
  rest <> [] -> (length rest <= n)%nat ->
  (forall c, c ∈ rest -> vn s (Int.xor base (b2z c))) ->
  listEhead_fits n base (pre ++ rest) (len pre) s
  = Ok (fits s base rest) s.
Proof.
  induction rest as [|c rest IH]; intros n pre Hne Hn Hv; [contradiction|].
  destruct n as [|n]; [simpl in Hn; lia|].
  cbn [listEhead_fits].
  rewrite (bind_eval _ _ _ _ _ (at_ok _ _ c s (idx_app_r pre (c :: rest)))).
  rewrite (bind_eval _ _ _ _ _ (rdCheck_ok _ _ (Hv c ltac:(left)))).
  cbn [fits forallb].
  destruct (Check (nod s (Int.xor base (b2z c))) <? 0); [|reflexivity].
  cbn [andb].
  assert (El : len (pre ++ c :: rest) - 1 = len pre + len rest).
  { unfold len. rewrite length_app. simpl. lia. }
  rewrite El.
  destruct rest as [|c' rest'].
  - replace (len pre + len []) with (len pre) by (unfold len; simpl; lia).
    rewrite Z.eqb_refl. reflexivity.
  - destruct (Z.eqb_spec (len pre) (len pre + len (c' :: rest'))) as [E|_].
    { unfold len in E. simpl in E. lia. }
    replace (pre ++ c :: c' :: rest') with ((pre ++ [c]) ++ c' :: rest')
      by (rewrite <- app_assoc; reflexivity).
    replace (len pre + 1) with (len (pre ++ [c]))
      by (unfold len; rewrite length_app; simpl; lia).
    apply IH.
    + discriminate.
    + simpl in *. lia.
    + intros x Hx. apply Hv. right. exact Hx.
Qed.

(** The first slot of a list from which all the children fit. *)
Definition first_fit (s : Cedar) (child : list byte) (l : list Z)
    : option Z :=
  List.find (fun e => fits s (Int.xor e (b2z (hd x00 child))) child) l.

Lemma listEhead_loop_ok s bi c0 crest : forall post fuel e,
  vb s bi ->
  seg (nxtS s) (prvS s) e post (Ehead (blk s bi)) ->
  Ehead (blk s bi) ∉ post ->
  (forall x c, x ∈ e :: post -> c ∈ c0 :: crest ->
               vn s x /\ vn s (Int.xor (Int.xor x (b2z c0)) (b2z c))) ->
  (length post < fuel)%nat ->
  listEhead_loop fuel bi (c0 :: crest) e s
  = match first_fit s (c0 :: crest) (e :: post) with
    | Some x => Ok x (sEhead bi x s)
    | None => Ok 0 s
    end.
Proof.
  assert (Hstep : forall e fuel,
    vb s bi -> vn s e ->
    (forall c, c ∈ c0 :: crest ->
               vn s (Int.xor (Int.xor e (b2z c0)) (b2z c))) ->
    listEhead_loop (S fuel) bi (c0 :: crest) e s
    = if fits s (Int.xor e (b2z c0)) (c0 :: crest)
      then Ok e (sEhead bi e s)
      else if nxtS s e =? Ehead (blk s bi) then Ok 0 s
           else listEhead_loop fuel bi (c0 :: crest) (nxtS s e) s).
  { intros e fuel Hvb Hve Hv. cbn [listEhead_loop].
    rewrite (bind_eval _ _ _ _ _ (at_ok (c0 :: crest) 0 c0 s eq_refl)).
    rewrite (bind_eval _ _ _ _ _
               (listEhead_fits_ok s (Int.xor e (b2z c0)) (c0 :: crest)
                  (length (c0 :: crest)) []
                  ltac:(discriminate) ltac:(lia) Hv)).
    destruct (fits s (Int.xor e (b2z c0)) (c0 :: crest)).
    - rewrite (bind_eval _ _ _ _ _ (wrEhead_ok _ _ _ Hvb)). reflexivity.
    - rewrite (bind_eval _ _ _ _ _ (rdCheck_ok _ _ Hve)).
      rewrite (bind_eval _ _ _ _ _ (rdEhead_ok _ _ Hvb)).
      fold (nxtS s e). destruct (nxtS s e =? Ehead (blk s bi)); reflexivity. }
  induction post as [|y post IH]; intros fuel e Hvb Hs Hnot Hv Hf;
    (destruct fuel as [|fuel]; [simpl in Hf; lia|]);
    rewrite Hstep;
    try exact Hvb;
    try (apply (Hv e c0); left);
    try (intros c Hc; apply (Hv e c); [left|exact Hc]);
    unfold first_fit; cbn [List.find hd];
    destruct (fits s (Int.xor e (b2z c0)) (c0 :: crest)); try reflexivity.
  - simpl in Hs. destruct Hs as [Hs _]. rewrite Hs, Z.eqb_refl. reflexivity.
  - simpl in Hs. destruct Hs as (Hs1 & Hs2 & Hs3). rewrite Hs1.
    destruct (Z.eqb_spec y (Ehead (blk s bi))) as [E|_].
    { exfalso. apply Hnot. rewrite <- E. left. }
    rewrite (IH fuel y Hvb Hs3).
    + reflexivity.
    + intros H. apply Hnot. right. exact H.
    + intros x c Hx Hc. apply Hv; [right; exact Hx|exact Hc].
    + simpl in Hf. lia.
Qed.

Lemma fits_spec s base child :
  fits s base child = true <->
  forall c, c ∈ child -> Check (nod s (Int.xor base (b2z c))) < 0.
Proof.
  unfold fits. rewrite forallb_forall. split.
  - intros H c Hc. apply Z.ltb_lt. apply H. apply list_elem_of_In. exact Hc.
  - intros H c Hc. apply Z.ltb_lt. apply H. apply list_elem_of_In. exact Hc.
Qed.

Lemma first_fit_Some s child l x :
  first_fit s child l = Some x ->
  x ∈ l /\ fits s (Int.xor x (b2z (hd x00 child))) child = true.
Proof.
  unfold first_fit. intros H. apply List.find_some in H.
  rewrite <- list_elem_of_In in H. exact H.
Qed.

(** What a block's ring says about it: a block of the Full ring has no
    free slot; a block of the Closed ring has one, or has several and has
    been tried [MaxTrial] times; a block of the Open ring has at least two
    and has been tried less. *)
Definition block_class (s : Cedar) (F : Z -> list Z) (h : headptr) (b : Z)
    : Prop :=
  match h with
  | HeadF => F b = []
  | HeadC => F b <> [] /\
             (length (F b) = 1%nat \/ Trial (blk s b) = MaxTrial s)
  | HeadO => (2 <= length (F b))%nat /\ Trial (blk s b) <> MaxTrial s
  end.

(** The allocator's invariant: the sizes fit; the rings of blocks are well
    formed, hold the blocks 1 .. [nblocks - 1] and each block is in the ring
    of its class; the free rings are well formed; the blocks not yet in use
    are untouched; [Reject] has its 257 entries and [MaxTrial] is not 0. *)
Record allocator (s : Cedar) (R : headptr -> list Z) (F : Z -> list Z)
    : Prop := {
  ao_shape : alloc_shape s;
  ao_rings : block_rings s R;
  ao_fresh : forall b, b ∈ members R -> b < nblocks s;
  ao_cover : forall b, 0 < b < nblocks s -> b ∈ members R;
  ao_free : free_rings s F;
  ao_classes : forall h b, b ∈ R h -> block_class s F h b;
  ao_beyond : forall b, nblocks s <= b ->
              Trial (blk s b) = 0 /\ Num (blk s b) = 0;
  ao_reject : len (Reject s) = 257;
  ao_maxtrial : MaxTrial s <> 0 }.

Lemma ao_nonempty s R F :
  allocator s R F -> forall b, b ∈ R HeadC \/ b ∈ R HeadO -> F b <> [].
Proof.
  intros A b [Hb|Hb].
  - apply (ao_classes _ _ _ A HeadC b Hb).
  - destruct (ao_classes _ _ _ A HeadO b Hb) as [H _].
    intros E. rewrite E in H. simpl in H. lia.
Qed.

(** A block is in one ring only. *)
Lemma ring_unique R h h' b :
  NoDup (0 :: members R) -> b ∈ R h -> b ∈ R h' -> h = h'.
Proof.
  intros Hnd H1 H2. apply NoDup_cons in Hnd. destruct Hnd as [_ Hnd].
  apply NoDup_members in Hnd. destruct Hnd as [_ Hd].
  destruct (head_eqb h h') eqn:E; [apply head_eqb_eq; exact E|].
  destruct (Hd h h' b E H1 H2).
Qed.

Lemma block_class_ext s s' F F' h b :
  F' b = F b -> Trial (blk s' b) = Trial (blk s b) ->
  MaxTrial s' = MaxTrial s ->
  block_class s F h b -> block_class s' F' h b.
Proof.
  intros EF ET EM. unfold block_class. rewrite EF, ET, EM. tauto.
Qed.

(** The count of trials is untouched between two states. *)
Definition same_trial (s s' : Cedar) : Prop :=
  forall b, Trial (blk s' b) = Trial (blk s b).

(** The sizes are untouched between two states. *)
Definition same_shape (s s' : Cedar) : Prop :=
  Size s' = Size s /\ Capacity s' = Capacity s /\
  len (Array s') = len (Array s) /\ len (Ninfos s') = len (Ninfos s) /\
  len (Blocks s') = len (Blocks s) /\ len (Reject s') = len (Reject s) /\
  MaxTrial s' = MaxTrial s.

Lemma same_shape_refl s : same_shape s s.
Proof. repeat split; reflexivity. Qed.

Lemma same_shape_trans s1 s2 s3 :
  same_shape s1 s2 -> same_shape s2 s3 -> same_shape s1 s3.
Proof.
  intros (A1 & A2 & A3 & A4 & A5 & A6 & A7) (B1 & B2 & B3 & B4 & B5 & B6 & B7).
  repeat split; congruence.
Qed.

Lemma same_shape_sBlock s i b : same_shape s (sBlock i b s).
Proof.
  unfold sBlock. repeat split; simpl; try reflexivity. apply len_upd.
Qed.
Lemma same_shape_sTrial s i v : same_shape s (sTrial i v s).
Proof. apply same_shape_sBlock. Qed.
Lemma same_shape_sBReject s i v : same_shape s (sBReject i v s).
Proof. apply same_shape_sBlock. Qed.
Lemma same_shape_sEhead s i v : same_shape s (sEhead i v s).
Proof. apply same_shape_sBlock. Qed.
Lemma same_shape_sNum s i v : same_shape s (sNum i v s).
Proof. apply same_shape_sBlock. Qed.
Lemma same_shape_sReject s i v : same_shape s (sReject i v s).
Proof.
  unfold sReject. repeat split; simpl; try reflexivity. apply len_upd.
Qed.
Lemma same_shape_sNode s i n : same_shape s (sNode i n s).
Proof.
  unfold sNode. repeat split; simpl; try reflexivity. apply len_upd.
Qed.
Lemma same_shape_sNinfo s i n : same_shape s (sNinfo i n s).
Proof.
  unfold sNinfo. repeat split; simpl; try reflexivity. apply len_upd.
Qed.
Lemma links_only_same_shape s s' : links_only s s' -> same_shape s s'.
Proof.
  intros H. unfold same_shape.
  rewrite (lo_size _ _ H), (lo_capacity _ _ H), (lo_array _ _ H),
    (lo_ninfos _ _ H), (lo_len _ _ H), (lo_reject _ _ H),
    (lo_maxtrial _ _ H). repeat split; reflexivity.
Qed.

Lemma alloc_shape_frame s s' :
  same_shape s s' -> alloc_shape s -> alloc_shape s'.
Proof.
  intros (A1 & A2 & A3 & A4 & A5 & _) (nb & cb & H).
  exists nb, cb. rewrite A1, A2, A3, A4, A5. exact H.
Qed.

Lemma same_slots_sReject s i v : same_slots s (sReject i v s).
Proof. repeat split; reflexivity. Qed.
Lemma same_slots_sEhead_other s i v b :
  vb s i -> b <> i ->
  Num (blk (sEhead i v s) b) = Num (blk s b) /\
  Ehead (blk (sEhead i v s) b) = Ehead (blk s b).
Proof.
  intros Hv Hb. rewrite blk_sEhead by exact Hv.
  destruct (Z.eqb_spec b i); [contradiction|]. auto.
Qed.

(** Moving [Ehead] to another member of the ring. *)
Lemma free_rings_sEhead s F bi e :
  free_rings s F -> vb s bi -> e ∈ F bi -> free_rings (sEhead bi e s) F.
Proof.
  intros HF Hv He b Hb. apply (proj1 (vb_sEhead _ _ _ _)) in Hb.
  destruct (Z.eqb_spec b bi) as [->|Hne].
  - destruct (HF bi Hv) as (Hc & Hm & Hf & Hn & Hh).
    split; [exact Hc|]. split; [exact Hm|]. split; [exact Hf|].
    rewrite blk_sEhead by exact Hv. rewrite Z.eqb_refl. cbn [Num Ehead].
    split; [exact Hn|]. intros _. exact He.
  - apply (free_ring_ext s _ b (F b) (HF b Hb)).
    + reflexivity.
    + intros x _. auto.
    + apply same_slots_sEhead_other; assumption.
    + apply same_slots_sEhead_other; assumption.
Qed.

Lemma same_trial_sBReject s i v : vb s i -> same_trial s (sBReject i v s).
Proof.
  intros H b. rewrite blk_sBReject by exact H.
  destruct (Z.eqb_spec b i); subst; reflexivity.
Qed.
Lemma same_trial_sEhead s i v : vb s i -> same_trial s (sEhead i v s).
Proof.
  intros H b. rewrite blk_sEhead by exact H.
  destruct (Z.eqb_spec b i); subst; reflexivity.
Qed.
Lemma same_trial_sNum s i v : vb s i -> same_trial s (sNum i v s).
Proof.
  intros H b. rewrite blk_sNum by exact H.
  destruct (Z.eqb_spec b i); subst; reflexivity.
Qed.
Lemma same_trial_sReject s i v : same_trial s (sReject i v s).
Proof. intros b. reflexivity. Qed.
Lemma links_only_same_trial s s' : links_only s s' -> same_trial s s'.
Proof. intros H b. apply (lo_trial _ _ H). Qed.

Lemma allocator_frame s s' R F :
  same_shape s s' -> same_links s s' -> same_slots s s' -> same_trial s s' ->
  allocator s R F -> allocator s' R F.
Proof.
  intros Hsh Hl Hs Ht [A1 A2 A3 A4 A5 A6 A7 A8 A9].
  assert (En : nblocks s' = nblocks s)
    by (unfold nblocks; destruct Hsh as (-> & _); reflexivity).
  assert (EM : MaxTrial s' = MaxTrial s) by apply Hsh.
  constructor.
  - eapply alloc_shape_frame; eassumption.
  - eapply block_rings_frame; eassumption.
  - intros b Hb. rewrite En. apply A3. exact Hb.
  - intros b Hb. rewrite En in Hb. apply A4. exact Hb.
  - eapply free_rings_same_slots; eassumption.
  - intros h b Hb. apply (block_class_ext s s' F F h b eq_refl (Ht b) EM).
    apply A6. exact Hb.
  - intros b Hb. rewrite En in Hb. rewrite (Ht b).
    destruct Hs as (_ & _ & Hs). destruct (Hs b) as [-> _]. apply A7. exact Hb.
  - destruct Hsh as (_ & _ & _ & _ & _ & -> & _). exact A8.
  - rewrite EM. exact A9.
Qed.

Lemma listEhead_ok s r bi c0 crest fuel :
  free_ring s bi r -> vb s bi -> r <> [] ->
  256 * (bi + 1) <= len (Array s) ->
  (256 <= fuel)%nat ->
  (exists e, listEhead fuel bi (c0 :: crest) s = Ok e (sEhead bi e s) /\
             0 < e /\ e ∈ r /\
             fits s (Int.xor e (b2z c0)) (c0 :: crest) = true) \/
  listEhead fuel bi (c0 :: crest) s = Ok 0 s.
Proof.
  intros Hfr Hvb Hne Hblock Hfuel.
  pose proof (free_ring_length _ _ _ Hfr) as Hlen.
  destruct Hfr as (Hc & Hm & Hf & Hn & Hh).
  specialize (Hh Hne).
  destruct (cyc_at _ _ _ _ Hc Hh) as (l1 & l2 & El & Hnd & Hs).
  assert (Hmem : forall x, x ∈ Ehead (blk s bi) :: l2 ++ l1 -> x ∈ r).
  { intros x. rewrite El. rewrite !elem_of_cons, !elem_of_app, elem_of_cons.
    tauto. }
  unfold listEhead. rewrite (bind_eval _ _ _ _ _ (rdEhead_ok _ _ Hvb)).
  rewrite (listEhead_loop_ok s bi c0 crest (l2 ++ l1) fuel _ Hvb Hs).
  - destruct (first_fit s (c0 :: crest) (Ehead (blk s bi) :: l2 ++ l1))
      as [x|] eqn:E; [|right; reflexivity].
    left. exists x. apply first_fit_Some in E. destruct E as [Hx Hfit].
    apply Hmem in Hx. destruct (Hm x Hx) as (_ & H0 & _).
    split; [reflexivity|]. split; [exact H0|]. split; [exact Hx|exact Hfit].
  - apply NoDup_cons in Hnd. apply Hnd.
  - intros x c Hx Hcc. apply Hmem in Hx. destruct (Hm x Hx) as (Hv & H0 & Hb).
    split; [exact Hv|].
    assert (Hb' : Int.shr8 (Int.xor (Int.xor x (b2z c0)) (b2z c)) = bi).
    { rewrite !xor_block by apply b2z_range. exact Hb. }
    apply shr8_block in Hb'. apply shr8_block in Hb. unfold vn. lia.
  - rewrite El in Hlen. rewrite length_app in *. simpl in Hlen. lia.
Qed.

Definition rej (s : Cedar) (i : Z) : Z :=
  match idx (Reject s) i with Some x => x | None => 0 end.

Lemma rdReject_ok s i :
  0 <= i < len (Reject s) -> rdReject i s = Ok (rej s i) s.
Proof.
  intros H. unfold rdReject, rej.
  destruct (idx_lookup (Reject s) i H) as [x ->]. reflexivity.
Qed.

Lemma wrReject_ok s i v :
  0 <= i < len (Reject s) -> wrReject i v s = Ok tt (sReject i v s).
Proof.
  intros H. unfold wrReject.
  rewrite (bind_eval _ _ _ _ _ (rdReject_ok s i H)). reflexivity.
Qed.

Lemma allocator_block s R F b :
  allocator s R F -> b ∈ members R ->
  vb s b /\ b <> 0 /\ 256 * (b + 1) <= len (Array s).
Proof.
  intros A Hb.
  assert (Hv : vb s b) by (apply (br_valid _ _ (ao_rings _ _ _ A)); auto).
  split; [exact Hv|]. split.
  - intros ->. pose proof (br_nodup _ _ (ao_rings _ _ _ A)) as H.
    apply NoDup_cons in H. destruct H as [H _]. contradiction.
  - destruct (ao_shape _ _ _ A) as (nb & cb & _ & _ & _ & HA & _ & HB).
    unfold vb in Hv. lia.
Qed.

Lemma allocator_num s R F b :
  allocator s R F -> b ∈ R HeadC \/ b ∈ R HeadO ->
  0 < Num (blk s b) <= 256.
Proof.
  intros A Hb.
  assert (Hm : b ∈ members R)
    by (destruct Hb; eapply in_members; eassumption).
  destruct (allocator_block s R F b A Hm) as (Hv & H0 & _).
  pose proof (ao_free _ _ _ A b Hv) as Hfr.
  pose proof (free_ring_length _ _ _ Hfr) as Hl.
  pose proof (ao_nonempty _ _ _ A b Hb) as Hne.
  destruct Hfr as (_ & _ & _ & Hn & _).
  destruct (Z.eqb_spec b 0); [contradiction|].
  destruct (F b); [contradiction|]. simpl in *. lia.
Qed.

Lemma allocator_lt s R F b :
  allocator s R F -> b ∈ members R -> 0 < b < nblocks s.
Proof.
  intros A Hb. destruct (allocator_block s R F b A Hb) as (Hv & H0 & _).
  pose proof (ao_fresh _ _ _ A b Hb). unfold vb in Hv. lia.
Qed.

(** The block [bi] is tried again, or changes its ring, and is of the class
    of its ring afterwards. *)
Lemma allocator_retrial s s' R F bi h :
  allocator s R F -> bi ∈ R h ->
  same_shape s s' -> same_links s s' -> same_slots s s' ->
  (forall b, b <> bi -> Trial (blk s' b) = Trial (blk s b)) ->
  block_class s' F h bi ->
  allocator s' R F.
Proof.
  intros A Hbi Hsh Hl Hs Ht Hcl.
  assert (En : nblocks s' = nblocks s)
    by (unfold nblocks; destruct Hsh as (-> & _); reflexivity).
  assert (EM : MaxTrial s' = MaxTrial s) by apply Hsh.
  pose proof (allocator_lt s R F bi A (in_members _ _ _ Hbi)) as Hlt.
  constructor.
  - apply (alloc_shape_frame s); [exact Hsh|apply A].
  - apply (block_rings_frame s); [exact Hl|apply A].
  - intros b Hb. rewrite En. apply (ao_fresh _ _ _ A b Hb).
  - intros b Hb. rewrite En in Hb. apply (ao_cover _ _ _ A b Hb).
  - apply (free_rings_same_slots s); [exact Hs|apply A].
  - intros h' b Hb. destruct (Z.eq_dec b bi) as [->|Hne].
    + rewrite (ring_unique R h' h bi (br_nodup _ _ (ao_rings _ _ _ A)) Hb Hbi).
      exact Hcl.
    + apply (block_class_ext s s' F F h' b eq_refl (Ht b Hne) EM).
      apply (ao_classes _ _ _ A h' b Hb).
  - intros b Hb. rewrite En in Hb.
    rewrite (Ht b ltac:(lia)). destruct Hs as (_ & _ & Hs).
    destruct (Hs b) as [-> _]. apply (ao_beyond _ _ _ A b Hb).
  - destruct Hsh as (_ & _ & _ & _ & _ & -> & _). apply A.
  - rewrite EM. apply A.
Qed.

Lemma allocator_moved s s' R F bi hIn hOut :
  allocator s R F ->
  head_eqb hIn hOut = false -> bi ∈ R hIn ->
  block_rings s' (moved bi hIn hOut R) ->
  same_shape s s' -> same_slots s s' ->
  (forall b, b <> bi -> Trial (blk s' b) = Trial (blk s b)) ->
  block_class s' F hOut bi ->
  allocator s' (moved bi hIn hOut R) F.
Proof.
  intros A E Hbi HR Hsh Hs Ht Hcl.
  assert (En : nblocks s' = nblocks s)
    by (unfold nblocks; destruct Hsh as (-> & _); reflexivity).
  assert (EM : MaxTrial s' = MaxTrial s) by apply Hsh.
  pose proof (allocator_lt s R F bi A (in_members _ _ _ Hbi)) as Hlt.
  constructor.
  - apply (alloc_shape_frame s); [exact Hsh|apply A].
  - exact HR.
  - intros b Hb. apply (members_moved R bi hIn hOut b E Hbi) in Hb.
    rewrite En. apply (ao_fresh _ _ _ A b Hb).
  - intros b Hb. rewrite En in Hb.
    apply (members_moved R bi hIn hOut b E Hbi).
    apply (ao_cover _ _ _ A b Hb).
  - apply (free_rings_same_slots s); [exact Hs|apply A].
  - intros h b Hb. apply (moved_elem R bi hIn hOut h b E) in Hb.
    destruct Hb as [[Hb Hne]|[-> Ho]].
    + assert (Hbne : b <> bi).
      { intros ->. destruct (head_eqb h hIn) eqn:E1; [apply Hne; auto|].
        rewrite (ring_unique R h hIn bi (br_nodup _ _ (ao_rings _ _ _ A))
                   Hb Hbi) in E1.
        rewrite head_eqb_refl in E1. discriminate. }
      apply (block_class_ext s s' F F h b eq_refl (Ht b Hbne) EM).
      apply (ao_classes _ _ _ A h b Hb).
    + apply head_eqb_eq in Ho. subst h. exact Hcl.
  - intros b Hb. rewrite En in Hb.
    rewrite (Ht b ltac:(lia)). destruct Hs as (_ & _ & Hs).
    destruct (Hs b) as [-> _]. apply (ao_beyond _ _ _ A b Hb).
  - destruct Hsh as (_ & _ & _ & _ & _ & -> & _). apply A.
  - rewrite EM. apply A.
Qed.

(** One round of the loop of [listBi] on a block [bi] of the Open ring:
    either a slot of the block fits, or the block is marked and the loop
    goes on. *)
Lemma listBi_loop_step s R F bi bz c0 crest f :
  allocator s R F -> bi ∈ R HeadO -> (256 <= f)%nat ->
  (exists e,
     listBi_loop (S f) bi bz (c0 :: crest) s = Ok e (sEhead bi e s) /\
     0 < e /\ e ∈ F bi /\
     fits s (Int.xor e (b2z c0)) (c0 :: crest) = true) \/
  (exists s'' R'',
     listBi_loop (S f) bi bz (c0 :: crest) s
     = (if bi =? bz then Ok 0 s''
        else listBi_loop f (nxtB s bi) bz (c0 :: crest) s'') /\
     allocator s'' R'' F /\ Array s'' = Array s /\ same_shape s s'' /\
     (R'' = R \/ R'' = moved bi HeadO HeadC R)).
Proof.
  intros A Hbi Hf.
  destruct (allocator_block s R F bi A (in_members _ _ _ Hbi))
    as (Hvb & Hb0 & Hblock).
  pose proof (allocator_num s R F bi A (or_intror Hbi)) as Hnum.
  set (child := c0 :: crest).
  set (nc := len child).
  (* the block is marked and left *)
  assert (Htail : exists s'' R'',
    (wrBReject bi nc ;;;
     r <- rdBReject bi ;; num <- rdNum bi ;; g <- rdReject num ;;
     when (r <? g) (num <- rdNum bi ;; r <- rdBReject bi ;;
                    wrReject num r) ;;;
     biN <- rdNext bi ;;
     tr <- rdTrial bi ;; wrTrial bi (Int.add tr 1) ;;;
     tr <- rdTrial bi ;; mt <- gets MaxTrial ;;
     when (tr =? mt) (transferBlock bi HeadO HeadC) ;;;
     if bi =? bz then ret 0 else listBi_loop f biN bz child) s
    = (if bi =? bz then Ok 0 s''
       else listBi_loop f (nxtB s bi) bz child s'') /\
    allocator s'' R'' F /\ Array s'' = Array s /\ same_shape s s'' /\
    (R'' = R \/ R'' = moved bi HeadO HeadC R)).
  { set (s1 := sBReject bi nc s).
    assert (V1 : vb s1 bi) by (apply (proj2 (vb_sBReject _ _ _ _)); exact Hvb).
    assert (B1 : blk s1 bi
                 = mkBlock (Prev (blk s bi)) (Next (blk s bi))
                     (Num (blk s bi)) nc (Trial (blk s bi))
                     (Ehead (blk s bi))).
    { unfold s1. rewrite blk_sBReject by exact Hvb. rewrite Z.eqb_refl.
      reflexivity. }
    assert (A1 : allocator s1 R F).
    { apply (allocator_frame s); [apply same_shape_sBReject| | | |exact A].
      - apply same_links_sBReject. exact Hvb.
      - apply same_slots_sBReject. exact Hvb.
      - apply same_trial_sBReject. exact Hvb. }
    assert (Hrej : 0 <= Num (blk s bi) < len (Reject s1)).
    { change (Reject s1) with (Reject s). rewrite (ao_reject _ _ _ A). lia. }
    set (s2 := if nc <? rej s1 (Num (blk s bi))
               then sReject (Num (blk s bi)) nc s1 else s1).
    assert (A2 : allocator s2 R F /\ Array s2 = Array s /\
                 blk s2 bi = blk s1 bi /\ MaxTrial s2 = MaxTrial s /\
                 same_shape s s2).
    { unfold s2. destruct (nc <? rej s1 (Num (blk s bi))).
      - split; [|split; [auto|split; [auto|split; [auto|]]]].
        + apply (allocator_frame s1); [apply same_shape_sReject| | | |exact A1].
          * apply same_links_sReject.
          * apply same_slots_sReject.
          * apply same_trial_sReject.
        + eapply same_shape_trans; [apply same_shape_sBReject|].
          apply same_shape_sReject.
      - split; [exact A1|]. split; [auto|]. split; [auto|]. split; [auto|].
        apply same_shape_sBReject. }
    destruct A2 as (A2 & EA2 & B2 & M2 & S2).
    assert (V2 : vb s2 bi).
    { apply (br_valid _ _ (ao_rings _ _ _ A2)). right.
      eapply in_members. exact Hbi. }
    set (s3 := sTrial bi (Int.add (Trial (blk s bi)) 1) s2).
    assert (S3 : same_shape s s3).
    { eapply same_shape_trans; [exact S2|apply same_shape_sTrial]. }
    assert (V3 : vb s3 bi) by (apply (proj2 (vb_sTrial _ _ _ _)); exact V2).
    assert (B3 : blk s3 bi
                 = mkBlock (Prev (blk s bi)) (Next (blk s bi))
                     (Num (blk s bi)) nc (Int.add (Trial (blk s bi)) 1)
                     (Ehead (blk s bi))).
    { unfold s3. rewrite blk_sTrial by exact V2. rewrite Z.eqb_refl.
      rewrite B2, B1. reflexivity. }
    assert (T3 : forall b, b <> bi -> Trial (blk s3 b) = Trial (blk s2 b)).
    { intros b Hb. unfold s3. rewrite blk_sTrial by exact V2.
      destruct (Z.eqb_spec b bi); [contradiction|reflexivity]. }
    destruct (ao_classes _ _ _ A2 HeadO bi Hbi) as [Hlen2 _].
    assert (Hrun : forall k : M Z,
      (wrBReject bi nc ;;;
       r <- rdBReject bi ;; num <- rdNum bi ;; g <- rdReject num ;;
       when (r <? g) (num <- rdNum bi ;; r <- rdBReject bi ;;
                      wrReject num r) ;;;
       biN <- rdNext bi ;;
       tr <- rdTrial bi ;; wrTrial bi (Int.add tr 1) ;;;
       tr <- rdTrial bi ;; mt <- gets MaxTrial ;;
       when (tr =? mt) (transferBlock bi HeadO HeadC) ;;;
       if bi =? bz then ret 0 else listBi_loop f biN bz child) s
      = (when (Int.add (Trial (blk s bi)) 1 =? MaxTrial s)
              (transferBlock bi HeadO HeadC) ;;;
         if bi =? bz then ret 0
         else listBi_loop f (nxtB s bi) bz child) s3).
    { intros _.
      rewrite (bind_eval _ _ _ _ _ (wrBReject_ok _ _ _ Hvb)). fold s1.
      rewrite (bind_eval _ _ _ _ _ (rdBReject_ok _ _ V1)).
      rewrite (bind_eval _ _ _ _ _ (rdNum_ok _ _ V1)).
      rewrite B1. cbn [Num bReject].
      rewrite (bind_eval _ _ _ _ _ (rdReject_ok _ _ Hrej)).
      assert (Hw : when (nc <? rej s1 (Num (blk s bi)))
                     (num <- rdNum bi ;; r <- rdBReject bi ;;
                      wrReject num r) s1 = Ok tt s2).
      { unfold s2. destruct (nc <? rej s1 (Num (blk s bi))); [|reflexivity].
        cbn [when].
        rewrite (bind_eval _ _ _ _ _ (rdNum_ok _ _ V1)).
        rewrite (bind_eval _ _ _ _ _ (rdBReject_ok _ _ V1)).
        rewrite B1. cbn [Num bReject]. apply wrReject_ok. exact Hrej. }
      rewrite (bind_eval _ _ _ _ _ Hw).
      rewrite (bind_eval _ _ _ _ _ (rdNext_ok _ _ V2)).
      rewrite (bind_eval _ _ _ _ _ (rdTrial_ok _ _ V2)).
      rewrite B2, B1. cbn [Trial].
      rewrite (bind_eval _ _ _ _ _ (wrTrial_ok _ _ _ V2)). fold s3.
      rewrite (bind_eval _ _ _ _ _ (rdTrial_ok _ _ V3)).
      rewrite B3. cbn [Trial].
      rewrite (bind_eval _ _ _ _ _ (gets_ok _ _)).
      change (MaxTrial s3) with (MaxTrial s2). rewrite M2.
      unfold nxtB at 1. rewrite B2, B1. cbn [Next]. reflexivity. }
    rewrite (Hrun (ret 0)).
    destruct (Z.eqb_spec (Int.add (Trial (blk s bi)) 1) (MaxTrial s)) as [Et|Et].
    - assert (R3 : block_rings s3 R).
      { apply (block_rings_frame s2); [|apply A2].
        apply same_links_sTrial. exact V2. }
      destruct (transferBlock_rings s3 R HeadO HeadC bi R3 eq_refl Hbi)
        as (s4 & Ht & HR4 & Hlo).
      { rewrite B3. cbn [Num]. split; [lia|discriminate]. }
      exists s4, (moved bi HeadO HeadC R). split.
      { cbn [when]. rewrite (bind_eval _ _ _ _ _ Ht).
        destruct (bi =? bz); reflexivity. }
      split.
      { apply (allocator_moved s2 s4 R F bi HeadO HeadC A2 eq_refl Hbi HR4).
        - eapply same_shape_trans; [apply same_shape_sTrial|].
          apply links_only_same_shape. exact Hlo.
        - eapply same_slots_trans; [apply same_slots_sTrial; exact V2|].
          apply links_only_same_slots. exact Hlo.
        - intros b Hb. rewrite (lo_trial _ _ Hlo). apply T3. exact Hb.
        - split.
          + intros E. rewrite E in Hlen2. simpl in Hlen2. lia.
          + right. rewrite (lo_trial _ _ Hlo), (lo_maxtrial _ _ Hlo), B3.
            cbn [Trial]. change (MaxTrial s3) with (MaxTrial s2).
            rewrite M2. exact Et. }
      split; [rewrite (lo_array _ _ Hlo); exact EA2|].
      split; [|right; reflexivity].
      eapply same_shape_trans; [exact S3|].
      apply links_only_same_shape. exact Hlo.
    - exists s3, R. split.
      { cbn [when]. rewrite (bind_eval _ _ _ _ _ eq_refl).
        destruct (bi =? bz); reflexivity. }
      split.
      { apply (allocator_retrial s2 s3 R F bi HeadO A2 Hbi).
        - apply same_shape_sTrial.
        - apply same_links_sTrial. exact V2.
        - apply same_slots_sTrial. exact V2.
        - exact T3.
        - split; [exact Hlen2|]. rewrite B3. cbn [Trial].
          change (MaxTrial s3) with (MaxTrial s2). rewrite M2. exact Et. }
      split; [exact EA2|]. split; [exact S3|]. left. reflexivity. }
  cbn [listBi_loop]. fold child. fold nc.
  rewrite (bind_eval _ _ _ _ _ (rdBlock_ok _ _ Hvb)).
  destruct ((nc <=? Num (blk s bi)) && (nc <? bReject (blk s bi))).
  - destruct (listEhead_ok s (F bi) bi c0 crest f
                (ao_free _ _ _ A bi Hvb) Hvb
                (ao_nonempty _ _ _ A bi (or_intror Hbi)) Hblock Hf)
      as [(e & Hrun & He0 & Hin & Hfit)|Hrun].
    + left. exists e. fold child in Hrun.
      rewrite (bind_eval _ _ _ _ _ Hrun).
      destruct (Z.ltb_spec 0 e); [|lia]. auto.
    + right. fold child in Hrun. rewrite (bind_eval _ _ _ _ _ Hrun).
      cbn [Z.ltb Z.compare]. exact Htail.
  - right. rewrite (bind_eval _ _ _ _ _ eq_refl).
    cbn [Z.ltb Z.compare]. exact Htail.
Qed.

Lemma seg_prv_last nxt prv l : forall a z,
  seg nxt prv a l z -> last (a :: l) = Some (prv z).
Proof.
  induction l as [|b l IH]; intros a z; simpl.
  - intros [_ ->]. reflexivity.
  - intros (_ & _ & H). apply (IH b z H).
Qed.

Lemma cyc_nxt_at nxt prv pre x y post :
  cyc nxt prv (pre ++ x :: y :: post) -> nxt x = y.
Proof.
  intros H. apply (cyc_rotate _ _ pre (x :: y :: post)) in H.
  destruct H as [_ H]. simpl in H. apply H.
Qed.

Lemma allocator_sEhead s R F bi e :
  allocator s R F -> vb s bi -> e ∈ F bi -> allocator (sEhead bi e s) R F.
Proof.
  intros A Hv He.
  assert (Hb : forall b, Num (blk (sEhead bi e s) b) = Num (blk s b) /\
                         Trial (blk (sEhead bi e s) b) = Trial (blk s b)).
  { intros b. rewrite blk_sEhead by exact Hv.
    destruct (Z.eqb_spec b bi); subst; auto. }
  destruct A as [A1 A2 A3 A4 A5 A6 A7 A8 A9]. constructor.
  - eapply alloc_shape_frame; [apply same_shape_sEhead|exact A1].
  - eapply block_rings_frame; [apply same_links_sEhead; exact Hv|exact A2].
  - exact A3.
  - exact A4.
  - apply free_rings_sEhead; assumption.
  - intros h b Hin.
    apply (block_class_ext s _ F F h b eq_refl (proj2 (Hb b)) eq_refl).
    apply A6. exact Hin.
  - intros b Hin. destruct (Hb b) as [-> ->]. apply A7. exact Hin.
  - exact A8.
  - exact A9.
Qed.

(** The loop of [listBi] from the block [bi] of the Open ring to its last
    block [bz]: it returns, with a slot from which all the children fit or
    with 0, and the slots are as before. *)
Lemma listBi_loop_ok F c0 crest bz : forall post s R pre bi fuel,
  allocator s R F ->
  R HeadO = pre ++ bi :: post ->
  last (bi :: post) = Some bz ->
  (length post + 257 <= fuel)%nat ->
  exists e s' R',
    listBi_loop fuel bi bz (c0 :: crest) s = Ok e s' /\
    allocator s' R' F /\
    (forall b, b ∈ members R' <-> b ∈ members R) /\
    Array s' = Array s /\ same_shape s s' /\
    (e = 0 \/
     (0 < e /\ e ∈ F (Int.shr8 e) /\ Int.shr8 e ∈ members R' /\
      fits s' (Int.xor e (b2z c0)) (c0 :: crest) = true)).
Proof.
  induction post as [|x post IH]; intros s R pre bi fuel A ER Hlast Hfuel;
    (destruct fuel as [|f]; [lia|]);
    assert (Hbi : bi ∈ R HeadO)
      by (rewrite ER; apply elem_of_app; right; left);
    (destruct (listBi_loop_step s R F bi bz c0 crest f A Hbi ltac:(lia))
      as [(e & Hrun & He0 & Hin & Hfit)
         |(s'' & R'' & Hrun & A'' & EA & SS & HR'')]).
  - (* found *)
    destruct (allocator_block s R F bi A (in_members _ _ _ Hbi)) as (Hv & _).
    exists e, (sEhead bi e s), R. split; [exact Hrun|].
    split; [apply allocator_sEhead; assumption|]. split; [tauto|].
    split; [reflexivity|]. split; [apply same_shape_sEhead|]. right.
    split; [exact He0|].
    destruct (ao_free _ _ _ A bi Hv) as (_ & Hm & _).
    destruct (Hm e Hin) as (_ & _ & Hb). rewrite Hb.
    split; [exact Hin|]. split; [eapply in_members; exact Hbi|exact Hfit].
  - (* the last block *)
    simpl in Hlast. inversion Hlast; subst bz. rewrite Z.eqb_refl in Hrun.
    exists 0, s'', R''. split; [exact Hrun|]. split; [exact A''|].
    split.
    { intros b. destruct HR'' as [->| ->]; [tauto|].
      apply members_moved; [reflexivity|exact Hbi]. }
    auto.
  - destruct (allocator_block s R F bi A (in_members _ _ _ Hbi)) as (Hv & _).
    exists e, (sEhead bi e s), R. split; [exact Hrun|].
    split; [apply allocator_sEhead; assumption|]. split; [tauto|].
    split; [reflexivity|]. split; [apply same_shape_sEhead|]. right.
    split; [exact He0|].
    destruct (ao_free _ _ _ A bi Hv) as (_ & Hm & _).
    destruct (Hm e Hin) as (_ & _ & Hb). rewrite Hb.
    split; [exact Hin|]. split; [eapply in_members; exact Hbi|exact Hfit].
  - assert (Hmem : forall b, b ∈ members R'' <-> b ∈ members R).
    { intros b. destruct HR'' as [->| ->]; [tauto|].
      apply members_moved; [reflexivity|exact Hbi]. }
    destruct (Z.eqb_spec bi bz) as [E|E].
    { exists 0, s'', R''. split; [exact Hrun|]. auto 10. }
    assert (Hcyc : cyc (nxtB s) (prvB s) (R HeadO)).
    { apply (br_cyc _ _ (ao_rings _ _ _ A) HeadO). }
    assert (Hnx : nxtB s bi = x).
    { rewrite ER in Hcyc. apply (cyc_nxt_at _ _ _ _ _ _ Hcyc). }
    rewrite Hnx in Hrun.
    assert (ER'' : exists pre', R'' HeadO = pre' ++ x :: post).
    { destruct HR'' as [->| ->].
      - exists (pre ++ [bi]). rewrite ER, <- app_assoc. reflexivity.
      - exists pre. unfold moved. simpl. rewrite ER.
        apply (without_split pre bi (x :: post)). rewrite <- ER.
        apply Hcyc. }
    destruct ER'' as [pre' ER''].
    destruct (IH s'' R'' pre' x f A'' ER'' Hlast ltac:(simpl in Hfuel; lia))
      as (e & s' & R' & Hrun' & A' & Hmem' & EA' & SS' & Hres).
    exists e, s', R'. split; [rewrite Hrun; exact Hrun'|].
    split; [exact A'|]. split.
    { intros b. rewrite Hmem'. apply Hmem. }
    split; [congruence|]. split; [|exact Hres].
    eapply same_shape_trans; eassumption.
Qed.

Lemma allocator_added s s' R F :
  allocator s R F ->
  alloc_shape s' -> Size s' = Size s + 256 ->
  block_rings s' (pushed (nblocks s) HeadO R) ->
  free_rings s' (added_rings s F) ->
  (forall b, Num (blk s' b) = (if b =? nblocks s then 256 else Num (blk s b))
          /\ Trial (blk s' b) = Trial (blk s b)) ->
  MaxTrial s' = MaxTrial s ->
  Reject s' = Reject s ->
  allocator s' (pushed (nblocks s) HeadO R) (added_rings s F).
Proof.
  intros A Hsh HS HR HF Hblk HM HRj.
  destruct (ao_shape _ _ _ A) as (nb & cb & Hnb & ES & _).
  assert (Enb : nblocks s = nb) by (unfold nblocks; rewrite ES; apply shr8_mul).
  assert (Enb' : nblocks s' = nb + 1).
  { unfold nblocks. rewrite HS, ES.
    replace (256 * nb + 256) with (256 * (nb + 1)) by lia. apply shr8_mul. }
  assert (Hold : forall b, b ∈ members R -> added_rings s F b = F b).
  { intros b Hb. unfold added_rings.
    pose proof (allocator_lt s R F b A Hb) as Hlt.
    destruct (Z.eqb_spec b (nblocks s)); [lia|].
    assert (Hv : vb s b) by (apply (br_valid _ _ (ao_rings _ _ _ A)); auto).
    unfold vb in Hv.
    destruct (Z.leb_spec 0 b), (Z.ltb_spec b (len (Blocks s))); try lia.
    reflexivity. }
  constructor; try assumption.
  - intros b Hb. rewrite Enb'.
    apply members_in in Hb. destruct Hb as [h Hb].
    apply pushed_elem in Hb. destruct Hb as [[-> _]|Hb]; [lia|].
    pose proof (ao_fresh _ _ _ A b (in_members _ _ _ Hb)). lia.
  - intros b Hb. rewrite Enb' in Hb.
    destruct (Z.eq_dec b nb) as [->|Hne].
    + apply (in_members _ HeadO). apply pushed_elem. left.
      split; [auto|reflexivity].
    + assert (Hm : b ∈ members R) by (apply (ao_cover _ _ _ A); lia).
      apply members_in in Hm. destruct Hm as [h Hm].
      apply (in_members _ h). apply pushed_elem. right. exact Hm.
  - intros h b Hb. apply pushed_elem in Hb.
    destruct Hb as [[-> Hh]|Hb].
    + apply head_eqb_eq in Hh. subst h. split.
      * unfold added_rings. rewrite Z.eqb_refl, length_seqZ. lia.
      * destruct (Hblk (nblocks s)) as [_ ->]. rewrite HM.
        rewrite (proj1 (ao_beyond _ _ _ A (nblocks s) ltac:(lia))).
        intros E. symmetry in E. exact (ao_maxtrial _ _ _ A E).
    + apply (block_class_ext s s' F (added_rings s F) h b).
      * apply Hold. eapply in_members. exact Hb.
      * apply Hblk.
      * exact HM.
      * apply (ao_classes _ _ _ A h b Hb).
  - intros b Hb. rewrite Enb' in Hb. destruct (Hblk b) as [-> ->].
    destruct (Z.eqb_spec b (nblocks s)); [lia|].
    apply (ao_beyond _ _ _ A b). lia.
  - rewrite HRj. apply A.
  - rewrite HM. apply A.
Qed.

(** [addBlock] under the allocator's invariant. *)
Lemma addBlock_allocator s R F :
  allocator s R F -> Capacity s < 2 ^ 58 ->
  exists s',
    addBlock s = Ok (nblocks s) s' /\
    allocator s' (pushed (nblocks s) HeadO R) (added_rings s F) /\
    Size s' = Size s + 256 /\
    (forall j, nod s' j
               = if (Size s <=? j) && (j <? Size s + 256)
                 then fresh_node (Size s) j else nod s j) /\
    len (Array s) <= len (Array s').
Proof.
  intros A Hcap.
  destruct (addBlock_free_rings s R F (ao_shape _ _ _ A) Hcap
              (ao_rings _ _ _ A) (ao_fresh _ _ _ A) (ao_free _ _ _ A))
    as (s' & Hrun & HF' & Hsh' & HS' & HR' & Hnod & Hblk & _ & HLa & HM & HRj
        & _).
  exists s'. split; [exact Hrun|]. split.
  { apply (allocator_added s); try assumption.
    intros b. destruct (Hblk b) as (H1 & _ & _ & H2). auto. }
  auto.
Qed.

(** The slots of a fresh block are free. *)
Lemma fresh_block_fits s s' c0 (child : list byte) :
  alloc_shape s ->
  Size s' = Size s + 256 -> alloc_shape s' ->
  (forall j, nod s' j
             = if (Size s <=? j) && (j <? Size s + 256)
               then fresh_node (Size s) j else nod s j) ->
  forall c, c ∈ child ->
    vn s' (Int.xor (Int.xor (Size s) (b2z c0)) (b2z c)) /\
    Check (nod s' (Int.xor (Int.xor (Size s) (b2z c0)) (b2z c))) < 0.
Proof.
  intros (nb & cb & Hnb & ES & _) HS' (nb' & cb' & Hnb' & ES' & _ & EA' & _)
    Hnod c _.
  set (x := Int.xor (Int.xor (Size s) (b2z c0)) (b2z c)).
  assert (Hb : Int.shr8 x = nb).
  { unfold x. rewrite !xor_block by apply b2z_range. rewrite ES.
    apply shr8_mul. }
  apply shr8_block in Hb.
  split; [unfold vn; lia|].
  rewrite Hnod, ES.
  destruct (Z.leb_spec (256 * nb) x), (Z.ltb_spec x (256 * nb + 256));
    try lia.
  simpl. destruct (x =? 256 * nb + 255); lia.
Qed.

(** [findPlaces] returns a slot [e] such that, with [base = e XOR child[0]],
    every slot [base XOR child[i]] is free. *)
Lemma findPlaces_ok s R F c0 crest fuel :
  allocator s R F -> Capacity s < 2 ^ 58 ->
  (length (R HeadO) + 257 <= fuel)%nat ->
  exists e s' R' F',
    findPlaces fuel (c0 :: crest) s = Ok e s' /\
    allocator s' R' F' /\
    (forall c, c ∈ c0 :: crest ->
       vn s' (Int.xor (Int.xor e (b2z c0)) (b2z c)) /\
       Check (nod s' (Int.xor (Int.xor e (b2z c0)) (b2z c))) < 0).
Proof.
  intros A Hcap Hfuel.
  set (child := c0 :: crest).
  (* the fallback *)
  assert (Hnew : forall s1 R1,
    allocator s1 R1 F -> Capacity s1 < 2 ^ 58 ->
    exists e s' R' F',
      (bi' <- addBlock ;; ret (Int.shl8 bi')) s1 = Ok e s' /\
      allocator s' R' F' /\
      (forall c, c ∈ child ->
         vn s' (Int.xor (Int.xor e (b2z c0)) (b2z c)) /\
         Check (nod s' (Int.xor (Int.xor e (b2z c0)) (b2z c))) < 0)).
  { intros s1 R1 A1 Hcap1.
    destruct (addBlock_allocator s1 R1 F A1 Hcap1)
      as (s' & Hrun & A' & HS' & Hnod & _).
    destruct (ao_shape _ _ _ A1) as (nb & cb & Hnb & ES & _).
    exists (Size s1), s', (pushed (nblocks s1) HeadO R1), (added_rings s1 F).
    split.
    { rewrite (bind_eval _ _ _ _ _ Hrun). unfold ret. f_equal.
      unfold nblocks. rewrite ES, shr8_mul. unfold Int.shl8.
      rewrite Z.shiftl_mul_pow2 by lia. change (2 ^ 8) with 256.
      destruct (ao_shape _ _ _ A1) as (nb1 & cb1 & ? & ? & ? & _).
      rewrite wrap_small; lia. }
    split; [exact A'|].
    apply (fresh_block_fits s1 s' c0 child (ao_shape _ _ _ A1) HS'
             (ao_shape _ _ _ A') Hnod). }
  unfold findPlaces. rewrite (bind_eval _ _ _ _ _ (gets_ok _ _)).
  change (BheadO s) with (headOf HeadO s).
  rewrite (br_head _ _ (ao_rings _ _ _ A) HeadO).
  destruct (R HeadO) as [|h t] eqn:EO.
  - simpl hd. simpl negb. cbv iota.
    rewrite (bind_eval _ _ _ _ _ eq_refl). simpl andb. cbv iota.
    apply (Hnew s R A Hcap).
  - simpl hd.
    assert (Hh : h ∈ R HeadO) by (rewrite EO; left).
    destruct (allocator_block s R F h A (in_members _ _ _ Hh))
      as (Hv & Hh0 & _).
    destruct (Z.eqb_spec h 0) as [|_]; [contradiction|]. simpl negb.
    cbv iota.
    assert (Hlast : last (h :: t) = Some (prvB s h)).
    { pose proof (br_cyc _ _ (ao_rings _ _ _ A) HeadO) as Hc.
      simpl in Hc. rewrite EO in Hc. destruct Hc as [_ Hs].
      apply (seg_prv_last _ _ _ _ _ Hs). }
    destruct (listBi_loop_ok F c0 crest (prvB s h) t s R [] h fuel A EO Hlast
                ltac:(simpl in Hfuel; lia))
      as (e & s' & R' & Hrun & A' & Hmem & EA & SS & Hres).
    assert (Hbi : listBi fuel h child s = Ok e s').
    { unfold listBi. rewrite (bind_eval _ _ _ _ _ (gets_ok _ _)).
      change (BheadO s) with (headOf HeadO s).
      rewrite (br_head _ _ (ao_rings _ _ _ A) HeadO), EO. simpl hd.
      rewrite (bind_eval _ _ _ _ _ (rdPrev_ok _ _ Hv)). exact Hrun. }
    rewrite (bind_eval _ _ _ _ _ Hbi).
    destruct Hres as [->|(He0 & Hin & Hmb & Hfit)].
    + simpl. apply (Hnew s' R' A').
      destruct SS as (_ & -> & _). exact Hcap.
    + destruct (Z.ltb_spec 0 e); [|lia]. simpl.
      exists e, s', R', F. split; [reflexivity|]. split; [exact A'|].
      intros c Hc. rewrite fits_spec in Hfit. split; [|apply Hfit; exact Hc].
      destruct (allocator_block s' R' F _ A' Hmb) as (Hvb & _ & Hblock).
      assert (Hb : Int.shr8 (Int.xor (Int.xor e (b2z c0)) (b2z c))
                   = Int.shr8 e).
      { rewrite !xor_block by apply b2z_range. reflexivity. }
      apply shr8_block in Hb. unfold vb in Hvb. unfold vn. lia.
Qed.

Lemma findPlace_allocator s R F :
  allocator s R F -> Capacity s < 2 ^ 58 ->
  exists e s' R' F',
    findPlace s = Ok e s' /\ allocator s' R' F' /\
    e ∈ F' (Int.shr8 e) /\ vn s' e /\ Check (nod s' e) < 0.
Proof.
  intros A Hcap.
  destruct (findPlace_ok s R F (ao_shape _ _ _ A) Hcap (ao_rings _ _ _ A)
              (ao_fresh _ _ _ A) (ao_free _ _ _ A) (ao_nonempty _ _ _ A))
    as (e & s0 & F0 & Hrun & HF0 & Hin & HL & Hold & Hcase).
  assert (Hfree : forall R', allocator s0 R' F0 -> Int.shr8 e ∈ members R' ->
                             vn s0 e /\ Check (nod s0 e) < 0).
  { intros R' A' Hb. destruct (allocator_block _ _ _ _ A' Hb) as (Hv & _).
    destruct (ao_free _ _ _ A' _ Hv) as (_ & Hm & Hf & _).
    destruct (Hm e Hin) as (Hve & _ & _). split; [exact Hve|].
    apply (Hf e Hve eq_refl). exact Hin. }
  destruct Hcase as [(-> & -> & Hb)|(EC & EO & Hadd & -> & ->)].
  - exists e, s, R, F. split; [exact Hrun|]. split; [exact A|].
    split; [exact Hin|]. apply (Hfree R A).
    destruct Hb as [Hb|[_ Hb]]; eapply in_members; exact Hb.
  - destruct (addBlock_allocator s R F A Hcap) as (s' & Hrun' & A' & _).
    rewrite Hadd in Hrun'. inversion Hrun'; subst s'.
    exists (Size s), s0, (pushed (nblocks s) HeadO R), (added_rings s F).
    split; [exact Hrun|]. split; [exact A'|]. split; [exact Hin|].
    apply (Hfree _ A').
    destruct (ao_shape _ _ _ A) as (nb & cb & _ & ES & _).
    apply (in_members _ HeadO). apply pushed_elem. left.
    split; [|reflexivity]. unfold nblocks. reflexivity.
Qed.

Lemma xor_xor e c : Int.xor (Int.xor e c) c = e.
Proof.
  unfold Int.xor. rewrite Z.lxor_assoc, Z.lxor_nilpotent. apply Z.lxor_0_r.
Qed.

Definition block_rings_b (s : Cedar) (R : headptr -> list Z) : bool :=
  bool_decide (NoDup (0 :: members R)) &&
  forallb (fun b => (0 <=? b) && (b <? len (Blocks s))) (0 :: members R) &&
  forallb (fun h => (headOf h s =? hd 0 (R h)) &&
                    cyc_b (nxtB s) (prvB s) (cycleOf h (R h)))
          [HeadF; HeadC; HeadO].

Lemma block_rings_b_sound s R : block_rings_b s R = true -> block_rings s R.
Proof.
  unfold block_rings_b. rewrite !andb_true_iff. intros [[H1 H2] H3].
  rewrite forallb_forall in H2, H3. constructor.
  - apply bool_decide_eq_true in H1. exact H1.
  - intros b Hb.
    assert (Hin : In b (0 :: members R)).
    { destruct Hb as [->|Hb]; [left; reflexivity|right].
      apply list_elem_of_In. exact Hb. }
    specialize (H2 b Hin). rewrite andb_true_iff in H2.
    unfold vb. lia.
  - intros h. assert (Hin : In h [HeadF; HeadC; HeadO])
      by (destruct h; simpl; auto).
    specialize (H3 h Hin). rewrite andb_true_iff in H3. lia.
  - intros h. assert (Hin : In h [HeadF; HeadC; HeadO])
      by (destruct h; simpl; auto).
    specialize (H3 h Hin). rewrite andb_true_iff in H3.
    apply cyc_b_sound. apply H3.
Qed.

Definition block_class_b (s : Cedar) (F : Z -> list Z) (h : headptr) (b : Z)
    : bool :=
  match h with
  | HeadF => Nat.eqb (length (F b)) 0
  | HeadC => negb (Nat.eqb (length (F b)) 0) &&
             (Nat.eqb (length (F b)) 1 || (Trial (blk s b) =? MaxTrial s))
  | HeadO => Nat.leb 2 (length (F b)) &&
             negb (Trial (blk s b) =? MaxTrial s)
  end.

Lemma block_class_b_sound s F h b :
  block_class_b s F h b = true -> block_class s F h b.
Proof.
  destruct h; unfold block_class_b, block_class.
  - rewrite Nat.eqb_eq. destruct (F b); [reflexivity|discriminate].
  - rewrite andb_true_iff, orb_true_iff, negb_true_iff, Nat.eqb_neq,
      Nat.eqb_eq, Z.eqb_eq.
    intros [H1 H2]. split; [|exact H2]. intros E. rewrite E in H1. auto.
  - rewrite andb_true_iff, negb_true_iff, Nat.leb_le, Z.eqb_neq. auto.
Qed.

Definition allocator_b (s : Cedar) (R : headptr -> list Z) (F : Z -> list Z)
    : bool :=
  alloc_shape_b s && block_rings_b s R &&
  forallb (fun b => b <? nblocks s) (members R) &&
  forallb (fun b => bool_decide (b ∈ members R)) (seqZ 1 (nblocks s - 1)) &&
  free_rings_b s F &&
  forallb (fun h => forallb (block_class_b s F h) (R h))
          [HeadF; HeadC; HeadO] &&
  forallb (fun b => (Trial (blk s b) =? 0) && (Num (blk s b) =? 0))
          (seqZ (nblocks s) (len (Blocks s) - nblocks s)) &&
  (len (Reject s) =? 257) && negb (MaxTrial s =? 0).

Lemma allocator_b_sound s R F : allocator_b s R F = true -> allocator s R F.
Proof.
  unfold allocator_b. rewrite !andb_true_iff.
  intros ((((((((H1 & H2) & H3) & H4) & H5) & H6) & H7) & H8) & H9).
  rewrite forallb_forall in H3, H4, H6, H7.
  pose proof (alloc_shape_b_sound s H1) as Hsh.
  constructor.
  - exact Hsh.
  - apply block_rings_b_sound. exact H2.
  - intros b Hb. apply list_elem_of_In in Hb. specialize (H3 b Hb). lia.
  - intros b Hb.
    assert (Hin : In b (seqZ 1 (nblocks s - 1))).
    { apply list_elem_of_In, elem_of_seqZ. lia. }
    specialize (H4 b Hin). apply bool_decide_eq_true in H4. exact H4.
  - apply free_rings_b_sound. exact H5.
  - intros h b Hb.
    assert (Hin : In h [HeadF; HeadC; HeadO]) by (destruct h; simpl; auto).
    specialize (H6 h Hin). rewrite forallb_forall in H6.
    apply block_class_b_sound. apply H6. apply list_elem_of_In. exact Hb.
  - intros b Hb.
    destruct (Z.ltb_spec b (len (Blocks s))) as [Hlt|Hge].
    + assert (Hin : In b (seqZ (nblocks s) (len (Blocks s) - nblocks s))).
      { apply list_elem_of_In, elem_of_seqZ. lia. }
      specialize (H7 b Hin). rewrite andb_true_iff, !Z.eqb_eq in H7.
      exact H7.
    + rewrite blk_out by (unfold vb; lia). split; reflexivity.
  - lia.
  - apply negb_true_iff, Z.eqb_neq in H9. exact H9.
Qed.

(** The rings of blocks of a state, read off from the heads. *)
Fixpoint bring_from (n : nat) (s : Cedar) (start b : Z) : list Z :=
  match n with
  | O => []
  | S n' => b :: (if nxtB s b =? start then []
                  else bring_from n' s start (nxtB s b))
  end.

Definition rings_of (s : Cedar) (h : headptr) : list Z :=
  if headOf h s =? 0 then []
  else List.filter (fun b => negb (b =? 0))
         (bring_from (Z.to_nat (len (Blocks s))) s (headOf h s) (headOf h s)).

(** X18: under the allocator's invariant, and with fuel for one round per
    block of the Open ring, [findPlaces] returns, and from the slot [e] it
    returns every child fits: with [base = e XOR child[0]], each slot
    [base XOR child[i]] is inside [Array] and free in the state at return.
    That is so when the scan of the Open ring finds the slot and when a new
    block supplies it; when the Open ring is empty the slot is the first one
    of the new block.  [findPlace] returns a free slot as well.  The
    invariant holds again at return. *)
Theorem findPlaces_returns_free_slots :
  (forall s R F c0 crest fuel,
     allocator s R F -> Capacity s < 2 ^ 58 ->
     (length (R HeadO) + 257 <= fuel)%nat ->
     exists e s',
       findPlaces fuel (c0 :: crest) s = Ok e s' /\
       (exists R' F', allocator s' R' F') /\
       (R HeadO = [] -> e = Size s /\ Size s' = Size s + 256) /\
       (forall c, c ∈ c0 :: crest ->
          vn s' (Int.xor (Int.xor e (b2z c0)) (b2z c)) /\
          Check (nod s' (Int.xor (Int.xor e (b2z c0)) (b2z c))) < 0)) /\
  (forall s R F,
     allocator s R F -> Capacity s < 2 ^ 58 ->
     exists e s',
       findPlace s = Ok e s' /\
       (exists R' F', allocator s' R' F') /\
       (forall c, Int.xor (Int.xor e (b2z c)) (b2z c) = e) /\
       vn s' e /\ Check (nod s' e) < 0).
Proof.
  split.
  - intros s R F c0 crest fuel A Hcap Hfuel.
    destruct (findPlaces_ok s R F c0 crest fuel A Hcap Hfuel)
      as (e & s' & R' & F' & Hrun & A' & Hfit).
    exists e, s'. split; [exact Hrun|]. split; [eauto|].
    split; [|exact Hfit].
    intros EO.
    destruct (addBlock_allocator s R F A Hcap) as (s1 & Hadd & _ & HS & _).
    assert (Hrun' : findPlaces fuel (c0 :: crest) s = Ok (Size s) s1).
    { unfold findPlaces. rewrite (bind_eval _ _ _ _ _ (gets_ok _ _)).
      change (BheadO s) with (headOf HeadO s).
      rewrite (br_head _ _ (ao_rings _ _ _ A) HeadO), EO. simpl hd.
      simpl negb. cbv iota. rewrite (bind_eval _ _ _ _ _ eq_refl).
      cbn [andb]. rewrite (bind_eval _ _ _ _ _ Hadd).
      unfold ret. f_equal.
      destruct (ao_shape _ _ _ A) as (nb & cb & Hnb & ES & EC & _).
      unfold nblocks. rewrite ES, shr8_mul. unfold Int.shl8.
      rewrite Z.shiftl_mul_pow2 by lia. change (2 ^ 8) with 256.
      rewrite wrap_small; lia. }
    rewrite Hrun in Hrun'. inversion Hrun'; subst. auto.
  - intros s R F A Hcap.
    destruct (findPlace_allocator s R F A Hcap)
      as (e & s' & R' & F' & Hrun & A' & _ & Hv & Hc).
    exists e, s'. split; [exact Hrun|]. split; [eauto|].
    split; [intros c; apply xor_xor|]. auto.
Qed.

(** X18, witness: in the state with "ab" block 1 is in the Open ring, and
    the scan finds slot 257 for the children a, b; in [state_closed] the
    Open ring is empty and [findPlace] takes the one free slot of block 1,
    which is in the Closed ring. *)
Lemma findPlaces_returns_free_slots_witness :
  (exists e s',
     findPlaces 300 ["a"; "b"]%byte state_ab = Ok e s' /\
     (exists R' F', allocator s' R' F') /\
     (rings_of state_ab HeadO = [] ->
      e = Size state_ab /\ Size s' = Size state_ab + 256) /\
     (forall c, c ∈ ["a"; "b"]%byte ->
        vn s' (Int.xor (Int.xor e (b2z "a")) (b2z c)) /\
        Check (nod s' (Int.xor (Int.xor e (b2z "a")) (b2z c))) < 0)) /\
  (exists e s',
     findPlace state_closed = Ok e s' /\
     (exists R' F', allocator s' R' F') /\
     (forall c, Int.xor (Int.xor e (b2z c)) (b2z c) = e) /\
     vn s' e /\ Check (nod s' e) < 0).
Proof.
  split.
  - apply (proj1 findPlaces_returns_free_slots state_ab (rings_of state_ab)
             (ring_of state_ab) "a"%byte ["b"%byte] 300%nat).
    + apply allocator_b_sound. vm_compute. reflexivity.
    + vm_compute. reflexivity.
    + vm_compute. lia.
  - apply (proj2 findPlaces_returns_free_slots state_closed
             (rings_of state_closed) (ring_of state_closed)).
    + apply allocator_b_sound. vm_compute. reflexivity.
    + vm_compute. reflexivity.
Defined.

(** * Further properties of the code *)

(** * Values stored at the terminal of a key *)

(** A key whose path and terminal are present is found without a change. *)
Lemma getV_terminal s key to fuel :
  len key < 2 ^ 62 -> terminal s key = Some to ->
  getV fuel key 0 0 s = Ok to s.
Proof.
  intros Hlen Hpath. unfold terminal in Hpath.
  destruct (walk s key 0) as [from|] eqn:Hw; [|discriminate].
  destruct (idx (Array s) from) as [n|] eqn:En; [|discriminate].
  unfold getV. rewrite Z.sub_0_r. unfold len. rewrite Nat2Z.id.
  rewrite (bind_eval _ _ s from s).
  2:{ apply (getV_loop_walk s fuel key [] 0 from); assumption. }
  rewrite (bind_eval _ _ s (Value n) s) by (rewrite rdValue_eval, En; auto).
  destruct (Value n <? 0).
  - apply follow_edge. exact Hpath.
  - inversion Hpath. reflexivity.
Qed.

Lemma terminal_vn s key to : terminal s key = Some to -> vn s to.
Proof.
  unfold terminal. destruct (walk s key 0) as [from|]; [|discriminate].
  destruct (idx (Array s) from) as [n|] eqn:En; [|discriminate].
  destruct (Value n <? 0).
  - unfold edge. rewrite En.
    destruct ((Value n <? 0) && (0 <=? base n)); [|discriminate].
    destruct (idx (Array s) (Int.xor (base n) (b2z x00))) as [t|] eqn:Et;
      [|discriminate].
    destruct (Check t =? 0); [|destruct (Check t =? from); [|discriminate]].
    + destruct (Check t =? from); [|discriminate].
      intros H. inversion H. subst. apply idx_vn in Et. apply Et.
    + intros H. inversion H. subst. apply idx_vn in Et. apply Et.
  - intros H. inversion H. subst. apply idx_vn in En. apply En.
Qed.

Lemma idx_nod_out s j : idx (Array s) j = None -> ~ vn s j.
Proof.
  intros E Hv. apply idx_nod in Hv. congruence.
Qed.

(** A value that is not negative, written over one that was not negative,
    leaves every edge as it was. *)
Lemma edge_sValue s to v from label :
  vn s to -> 0 <= Value (nod s to) -> 0 <= v ->
  edge (sValue to v s) from label = edge s from label.
Proof.
  intros Hv Hold Hnew.
  assert (Hidx : forall j, idx (Array (sValue to v s)) j
                 = match idx (Array s) j with
                   | Some n => Some (nod (sValue to v s) j)
                   | None => None
                   end).
  { intros j. destruct (idx (Array s) j) as [n|] eqn:E.
    - apply idx_nod. unfold vn. rewrite len_Array_sValue.
      apply idx_vn in E. apply E.
    - destruct (idx (Array (sValue to v s)) j) as [n'|] eqn:E'; [|reflexivity].
      apply idx_vn in E'. destruct E' as [E' _].
      unfold vn in E'. rewrite len_Array_sValue in E'.
      apply idx_nod in E'. congruence. }
  unfold edge. rewrite (Hidx from).
  destruct (idx (Array s) from) as [n|] eqn:En; [|reflexivity].
  apply idx_vn in En. destruct En as [Hvf <-].
  rewrite (nod_sValue s to v from Hv).
  destruct (Z.eqb_spec from to) as [->|Hne].
  - cbn [Value]. destruct (Z.ltb_spec v 0); [lia|].
    destruct (Z.ltb_spec (Value (nod s to)) 0); [lia|]. reflexivity.
  - destruct ((Value (nod s from) <? 0) && (0 <=? base (nod s from)));
      [|reflexivity].
    set (t := Int.xor (base (nod s from)) (b2z label)).
    rewrite (Hidx t).
    destruct (idx (Array s) t) as [nt|] eqn:Et; [|reflexivity].
    apply idx_vn in Et. destruct Et as [_ <-].
    rewrite (nod_sValue s to v t Hv).
    destruct (t =? to) eqn:E; [|reflexivity].
    apply Z.eqb_eq in E. rewrite E. reflexivity.
Qed.

Lemma walk_sValue s to v key : forall from,
  vn s to -> 0 <= Value (nod s to) -> 0 <= v ->
  walk (sValue to v s) key from = walk s key from.
Proof.
  induction key as [|k r IH]; intros from Hv Hold Hnew; simpl.
  - reflexivity.
  - rewrite edge_sValue by assumption.
    destruct (edge s from k); [apply IH; assumption|reflexivity].
Qed.

Lemma terminal_sValue s to v key :
  vn s to -> 0 <= Value (nod s to) -> 0 <= v ->
  terminal (sValue to v s) key = terminal s key.
Proof.
  intros Hv Hold Hnew. unfold terminal. rewrite walk_sValue by assumption.
  destruct (walk s key 0) as [from|]; [|reflexivity].
  destruct (idx (Array s) from) as [n|] eqn:En.
  - apply idx_vn in En. destruct En as [Hvf <-].
    assert (Hvf' : vn (sValue to v s) from)
      by (unfold vn; rewrite len_Array_sValue; exact Hvf).
    rewrite (idx_nod _ _ Hvf'), (nod_sValue s to v from Hv).
    rewrite edge_sValue by assumption.
    destruct (Z.eqb_spec from to) as [->|_]; [|reflexivity].
    cbn [Value]. destruct (Z.ltb_spec v 0); [lia|].
    destruct (Z.ltb_spec (Value (nod s to)) 0); [lia|]. reflexivity.
  - destruct (idx (Array (sValue to v s)) from) as [n'|] eqn:E';
      [|reflexivity].
    apply idx_vn in E'. destruct E' as [E' _].
    unfold vn in E'. rewrite len_Array_sValue in E'.
    apply idx_nod in E'. congruence.
Qed.

(** X1: update and lookup.  When the path of [key] and its terminal slot
    [to] are present and the slot holds a value that is not negative, the
    assignment [*da.get(key, 0, 0) = v] with [0 <= v] writes [v] into
    [Array[to].Value] and nothing else; afterwards [getV(key, 0, 0)] returns
    [to] again without a change, and the terminal of every key, this one and
    all others, is where it was. *)
Theorem store_then_lookup s key to v fuel :
  len key < 2 ^ 62 ->
  terminal s key = Some to ->
  0 <= Value (nod s to) -> 0 <= v ->
  let s' := sValue to v s in
  (p <- get fuel key 0 0 ;; storeAt p v) s = Ok tt s' /\
  nod s' to = mkNode v (Check (nod s to)) /\
  (forall j, j <> to -> nod s' j = nod s j) /\
  Ninfos s' = Ninfos s /\ Blocks s' = Blocks s /\
  (forall fuel', getV fuel' key 0 0 s' = Ok to s') /\
  (forall key', terminal s' key' = terminal s key').
Proof.
  intros Hlen Hpath Hold Hnew s'.
  pose proof (terminal_vn s key to Hpath) as Hv.
  assert (Hterm : forall key', terminal s' key' = terminal s key').
  { intros key'. apply terminal_sValue; assumption. }
  split.
  { unfold get.
    rewrite (bind_eval _ _ s to s).
    2:{ rewrite (bind_eval _ _ s to s)
          by (apply getV_terminal; assumption).
        rewrite (bind_eval _ _ s _ s (rdNode_ok s to Hv)). reflexivity. }
    unfold storeAt. apply wrValue_ok. exact Hv. }
  split.
  { unfold s'. rewrite nod_sValue by exact Hv. rewrite Z.eqb_refl.
    reflexivity. }
  split.
  { intros j Hj. unfold s'. rewrite nod_sValue by exact Hv.
    destruct (Z.eqb_spec j to); [contradiction|reflexivity]. }
  split; [reflexivity|]. split; [reflexivity|]. split; [|exact Hterm].
  intros fuel'. apply getV_terminal; [exact Hlen|].
  rewrite Hterm. exact Hpath.
Qed.

(** X1, witness: in the state with "ab" := 10 the terminal of "ab" is slot
    256; 7 is written there. *)
Lemma store_then_lookup_witness :
  let s' := sValue 256 7 state_ab in
  (p <- get 8 key_ab 0 0 ;; storeAt p 7) state_ab = Ok tt s' /\
  nod s' 256 = mkNode 7 (Check (nod state_ab 256)) /\
  (forall j, j <> 256 -> nod s' j = nod state_ab j) /\
  Ninfos s' = Ninfos state_ab /\ Blocks s' = Blocks state_ab /\
  (forall fuel', getV fuel' key_ab 0 0 s' = Ok 256 s') /\
  (forall key', terminal s' key' = terminal state_ab key').
Proof.
  apply (store_then_lookup state_ab key_ab 256 7 8).
  - vm_compute. reflexivity.
  - vm_compute. reflexivity.
  - vm_compute. discriminate.
  - lia.
Defined.

(** * Arguments out of range *)

Lemma rdNode_out s i : ~ vn s i -> rdNode i s = Panic IndexOutOfRange.
Proof.
  intros H. unfold rdNode. destruct (idx (Array s) i) eqn:E; [|reflexivity].
  apply idx_vn in E. tauto.
Qed.

Lemma bind_panic {A B} (m : M A) (k : A -> M B) s p :
  m s = Panic p -> bind m k s = Panic p.
Proof. intros H. unfold bind. rewrite H. reflexivity. Qed.

Lemma at_neg key pos s : pos < 0 -> at_ key pos s = Panic IndexOutOfRange.
Proof.
  intros H. unfold at_, idx. destruct (Z.ltb_spec pos 0); [reflexivity|lia].
Qed.

(** X2: indices out of range.  [follow], [getV] and [get] panic with an
    index error when [from] is not an index of [Array], whatever the key;
    and [getV] from a negative [pos] never returns a slot, since the loop
    reads [key[pos]]. *)
Theorem getV_out_of_range s fuel key from pos :
  (~ vn s from ->
   (forall label, follow fuel from label s = Panic IndexOutOfRange) /\
   getV fuel key from pos s = Panic IndexOutOfRange /\
   get fuel key from pos s = Panic IndexOutOfRange) /\
  (pos < 0 -> forall to s', getV fuel key from pos s <> Ok to s').
Proof.
  split.
  - intros Hout.
    assert (Hrd : rdValue from s = Panic IndexOutOfRange).
    { unfold rdValue. apply bind_panic. apply rdNode_out. exact Hout. }
    assert (G : getV fuel key from pos s = Panic IndexOutOfRange).
    { unfold getV. destruct (Z.to_nat (len key - pos)) as [|n].
      - simpl. unfold bind at 1. unfold ret at 1. apply bind_panic.
        exact Hrd.
      - apply bind_panic. simpl. apply bind_panic. exact Hrd. }
    split; [|split; [exact G|]].
    + intros label. unfold follow. apply bind_panic. unfold rdBase.
      apply bind_panic. apply rdNode_out. exact Hout.
    + unfold get. apply bind_panic. exact G.
  - intros Hpos to s' H. unfold getV in H.
    assert (Hn : exists n, Z.to_nat (len key - pos) = S n).
    { unfold len. destruct (Z.to_nat (Z.of_nat (length key) - pos)) eqn:E;
        [lia|eauto]. }
    destruct Hn as [n Hn]. rewrite Hn in H.
    bind_inv H fr s1 H1. cbn [getV_loop] in H1.
    bind_inv H1 val s2 H2. bind_inv H1 u s3 H3. bind_inv H1 kb s4 H4.
    rewrite at_neg in H4 by exact Hpos. discriminate.
Qed.

(** X2, witness: slot 256 is outside the 256 slots of [New]. *)
Lemma getV_out_of_range_witness :
  ((forall label, follow 8 256 label New = Panic IndexOutOfRange) /\
   getV 8 key_ab 256 0 New = Panic IndexOutOfRange /\
   get 8 key_ab 256 0 New = Panic IndexOutOfRange) /\
  (forall to s', getV 8 key_ab 0 (-1) New <> Ok to s').
Proof.
  split.
  - apply (proj1 (getV_out_of_range New 8 key_ab 256 0)).
    intros [_ H]. vm_compute in H. discriminate.
  - apply (proj2 (getV_out_of_range New 8 key_ab 0 (-1))). lia.
Defined.

(** * [vKey]

    [vals map[int]nvalue] is a field of [Cedar] that no function of the file
    writes; [vKey] reads it, and the model takes it as an argument.  The
    remainder [%] of Go truncates, and panics on a zero divisor. *)

Definition withVkey (k : Z) (s : Cedar) : Cedar :=
  mkCedar (Array s) (Ninfos s) (Blocks s) (Reject s) k (BheadF s) (BheadC s)
    (BheadO s) (Capacity s) (Size s) (Ordered s) (MaxTrial s).

Inductive vkey_result :=
| VKey (k : Z) (s : Cedar)
| VDivideByZero
| VOutOfFuel.

Fixpoint vKey_loop {V} (fuel : nat) (vals : gmap.gmap Z V) (k : Z) (s : Cedar)
    : vkey_result :=
  match fuel with
  | O => VOutOfFuel
  | S f =>
    if Capacity s =? 0 then VDivideByZero
    else
      let k' := Z.rem (Int.add k 1) (Capacity s) in
      match vals !! k' with
      | Some _ => vKey_loop f vals k' s
      | None => VKey k' (withVkey k' s)
      end
  end.

Definition vKey {V} (fuel : nat) (vals : gmap.gmap Z V) (s : Cedar) : vkey_result :=
  vKey_loop fuel vals (vkey s) s.

Lemma vKey_next k cap :
  0 <= k < 2 ^ 63 - 1 -> 0 < cap ->
  Z.rem (Int.add k 1) cap = (k + 1) mod cap.
Proof.
  intros Hk Hc. unfold Int.add. rewrite wrap_small by lia.
  apply Z.rem_mod_nonneg; lia.
Qed.

Lemma vKey_loop_spec {V} (vals : gmap.gmap Z V) s : forall n fuel k,
  0 < Capacity s < 2 ^ 63 -> 0 <= k < 2 ^ 63 - 1 ->
  (exists d, 1 <= d <= Z.of_nat n /\
             vals !! ((k + d) mod Capacity s) = None) ->
  (n <= fuel)%nat ->
  exists d, 1 <= d <= Z.of_nat n /\
    vKey_loop fuel vals k s
    = VKey ((k + d) mod Capacity s) (withVkey ((k + d) mod Capacity s) s) /\
    vals !! ((k + d) mod Capacity s) = None /\
    (forall i, 1 <= i < d -> is_Some (vals !! ((k + i) mod Capacity s))).
Proof.
  induction n as [|n IH]; intros fuel k Hc Hk (d & Hd & Hnone) Hf.
  - lia.
  - destruct fuel as [|f]; [lia|]. cbn [vKey_loop].
    destruct (Z.eqb_spec (Capacity s) 0) as [|_]; [lia|].
    rewrite vKey_next by lia.
    destruct (vals !! ((k + 1) mod Capacity s)) as [x|] eqn:E.
    + assert (Hd1 : d <> 1) by (intros ->; congruence).
      assert (Hk' : 0 <= (k + 1) mod Capacity s < Capacity s)
        by (apply Z.mod_pos_bound; lia).
      assert (Hshift : forall i, ((k + 1) mod Capacity s + i) mod Capacity s
                                 = (k + (i + 1)) mod Capacity s).
      { intros i. rewrite Zplus_mod_idemp_l. f_equal. lia. }
      destruct (IH f ((k + 1) mod Capacity s) Hc ltac:(lia)) as
        (d' & Hd' & Hrun & Hn' & Hsome).
      { exists (d - 1). split; [lia|]. rewrite Hshift.
        replace (d - 1 + 1) with d by lia. exact Hnone. }
      { lia. }
      exists (d' + 1). rewrite Hshift in Hrun, Hn'.
      split; [lia|]. split; [exact Hrun|]. split; [exact Hn'|].
      intros i Hi. destruct (Z.eq_dec i 1) as [->|Hne].
      * rewrite E. eauto.
      * specialize (Hsome (i - 1) ltac:(lia)). rewrite Hshift in Hsome.
        replace (i - 1 + 1) with i in Hsome by lia. exact Hsome.
    + exists 1. split; [lia|]. split; [reflexivity|]. split; [exact E|].
      intros i Hi. lia.
Qed.

(** X3: [vKey] returns the first key after [vkey], counting cyclically below
    [Capacity], that is not in [vals], and stores it in [vkey]: when some
    key below [Capacity] is free and the fuel covers one round per key, the
    result is [(vkey + d) mod Capacity] for the least [d >= 1] whose key is
    free. *)
Theorem vKey_first_free_key {V} (vals : gmap.gmap Z V) s fuel j :
  0 < Capacity s < 2 ^ 63 -> 0 <= vkey s < 2 ^ 63 - 1 ->
  0 <= j < Capacity s -> vals !! j = None ->
  (Z.to_nat (Capacity s) <= fuel)%nat ->
  exists d k,
    1 <= d <= Capacity s /\ k = (vkey s + d) mod Capacity s /\
    vKey fuel vals s = VKey k (withVkey k s) /\
    0 <= k < Capacity s /\ vals !! k = None /\
    (forall i, 1 <= i < d ->
       is_Some (vals !! ((vkey s + i) mod Capacity s))).
Proof.
  intros Hc Hk Hj Hnone Hf.
  destruct (vKey_loop_spec vals s (Z.to_nat (Capacity s)) fuel (vkey s) Hc Hk)
    as (d & Hd & Hrun & Hn & Hsome).
  { set (d0 := (j - vkey s) mod Capacity s).
    assert (H0 : 0 <= d0 < Capacity s) by (apply Z.mod_pos_bound; lia).
    assert (Hj' : forall d, d mod Capacity s = d0 ->
                            (vkey s + d) mod Capacity s = j).
    { intros d E. rewrite <- Zplus_mod_idemp_r, E. unfold d0.
      rewrite Zplus_mod_idemp_r.
      replace (vkey s + (j - vkey s)) with j by lia.
      apply Z.mod_small. lia. }
    destruct (Z.eq_dec d0 0) as [E0|E0].
    - exists (Capacity s). split; [lia|]. rewrite Hj'; [exact Hnone|].
      rewrite Z_mod_same_full. auto.
    - exists d0. split; [lia|]. rewrite Hj'; [exact Hnone|].
      apply Z.mod_small. lia. }
  { exact Hf. }
  exists d, ((vkey s + d) mod Capacity s).
  split; [lia|]. split; [reflexivity|]. split; [exact Hrun|].
  split; [apply Z.mod_pos_bound; lia|]. auto.
Qed.

(** X3, witness: [New] has [vkey = 1]; with the keys 2 and 3 taken the next
    key is 4. *)
Lemma vKey_first_free_key_witness :
  exists d k,
    1 <= d <= Capacity New /\ k = (vkey New + d) mod Capacity New /\
    vKey 256 ({[2 := tt; 3 := tt]} : gmap.gmap Z unit) New
    = VKey k (withVkey k New) /\
    0 <= k < Capacity New /\
    ({[2 := tt; 3 := tt]} : gmap.gmap Z unit) !! k = None /\
    (forall i, 1 <= i < d ->
       is_Some (({[2 := tt; 3 := tt]} : gmap.gmap Z unit)
                  !! ((vkey New + i) mod Capacity New))).
Proof.
  apply (vKey_first_free_key ({[2 := tt; 3 := tt]} : gmap.gmap Z unit) New 256 0).
  - simpl. lia.
  - simpl. lia.
  - simpl. lia.
  - vm_compute. reflexivity.
  - vm_compute. lia.
Defined.

(** X4: when every key below [Capacity] is in [vals], [vKey] never returns:
    the loop has no other exit, so every amount of fuel runs out.  This is
    for [0 < Capacity < 2^63] and a cursor [0 <= vkey < 2^63 - 1], where
    the increment does not wrap. *)
Theorem vKey_full_never_returns {V} (vals : gmap.gmap Z V) s :
  0 < Capacity s < 2 ^ 63 -> 0 <= vkey s < 2 ^ 63 - 1 ->
  (forall j, 0 <= j < Capacity s -> is_Some (vals !! j)) ->
  forall fuel, vKey fuel vals s = VOutOfFuel.
Proof.
  intros Hc Hk Hfull fuel. unfold vKey.
  revert Hk. generalize (vkey s). induction fuel as [|f IH]; intros k Hk.
  - reflexivity.
  - cbn [vKey_loop]. destruct (Z.eqb_spec (Capacity s) 0) as [|_]; [lia|].
    rewrite vKey_next by lia.
    assert (Hk' : 0 <= (k + 1) mod Capacity s < Capacity s)
      by (apply Z.mod_pos_bound; lia).
    destruct (Hfull _ Hk') as [x Hx]; rewrite Hx. apply IH. lia.
Qed.

(** X4, witness: a trie whose capacity is 2, with both keys taken. *)
Lemma vKey_full_never_returns_witness :
  vKey 1000 ({[0 := tt; 1 := tt]} : gmap.gmap Z unit) (withCapacity 2 New)
  = VOutOfFuel.
Proof.
  apply (vKey_full_never_returns ({[0 := tt; 1 := tt]} : gmap.gmap Z unit)
           (withCapacity 2 New)).
  - simpl. lia.
  - simpl. lia.
  - intros j Hj. assert (E : j = 0 \/ j = 1) by (simpl in Hj; lia).
    destruct E as [E|E]; rewrite E; vm_compute; eauto.
Defined.

(** * Sibling chains: [pushSibling] and [popSibling] *)

Definition ninf (s : Cedar) (i : Z) : ninfo :=
  match idx (Ninfos s) i with Some x => x | None => zeroNinfo end.

Definition vi (s : Cedar) (i : Z) : Prop := 0 <= i < len (Ninfos s).

Definition sSibling (i : Z) (b : byte) (s : Cedar) : Cedar :=
  sNinfo i (mkNinfo b (Child (ninf s i)) (End_ (ninf s i))) s.
Definition sChild (i : Z) (b : byte) (s : Cedar) : Cedar :=
  sNinfo i (mkNinfo (Sibling (ninf s i)) b (End_ (ninf s i))) s.

(** What a [*byte] points at, and the write through it. *)
Definition pget (s : Cedar) (p : byteptr) : byte :=
  match p with
  | ChildOf i => Child (ninf s i)
  | SiblingOf i => Sibling (ninf s i)
  end.
Definition pvalid (s : Cedar) (p : byteptr) : Prop :=
  match p with ChildOf i | SiblingOf i => vi s i end.
Definition pset (p : byteptr) (b : byte) (s : Cedar) : Cedar :=
  match p with ChildOf i => sChild i b s | SiblingOf i => sSibling i b s end.

(** The chain after [pushSibling] has put [label] in: [insertBefore] is the
    walk of the ordered mode, which stops at the first label that is not
    smaller. *)
Fixpoint insertBefore (label : byte) (l : list byte) : list byte :=
  match l with
  | [] => [label]
  | c :: r =>
    if b2z c <? b2z label then c :: insertBefore label r else label :: l
  end.

Definition pushLabel (ordered : bool) (label : byte) (l : list byte)
    : list byte :=
  match l with
  | [] => [label]
  | c0 :: r =>
    if (if ordered then b2z c0 <? b2z label else b2z c0 =? 0)
    then c0 :: (if ordered then insertBefore label r else label :: r)
    else label :: l
  end.

(** The chain after [popSibling] has taken the first [label] out. *)
Fixpoint dropLabel (label : byte) (l : list byte) : list byte :=
  match l with
  | [] => []
  | c :: r => if Byte.eqb c label then r else c :: dropLabel label r
  end.

Fixpoint ascending (l : list byte) : Prop :=
  match l with
  | [] => True
  | a :: r => match r with [] => True | b :: _ => b2z a < b2z b end
              /\ ascending r
  end.

Lemma idx_ninf s i : vi s i -> idx (Ninfos s) i = Some (ninf s i).
Proof.
  intros H. unfold ninf. destruct (idx_lookup (Ninfos s) i H) as [x ->].
  reflexivity.
Qed.

Lemma idx_vi s i n : idx (Ninfos s) i = Some n -> vi s i /\ ninf s i = n.
Proof.
  intros H. split; [apply (idx_Some_range _ _ _ H)|].
  unfold ninf. rewrite H. reflexivity.
Qed.

Lemma ninf_sNinfo s i n j :
  vi s i -> ninf (sNinfo i n s) j = if j =? i then n else ninf s j.
Proof.
  intros H. unfold ninf, sNinfo. simpl. rewrite idx_upd by exact H.
  destruct (j =? i); reflexivity.
Qed.

Lemma vi_sNinfo s i n j : vi (sNinfo i n s) j <-> vi s j.
Proof. unfold vi, sNinfo. simpl. rewrite len_upd. tauto. Qed.

Lemma vi_pset s p b j : vi (pset p b s) j <-> vi s j.
Proof. destruct p; apply vi_sNinfo. Qed.

Lemma rdNinfo_ok s i : vi s i -> rdNinfo i s = Ok (ninf s i) s.
Proof.
  intros H. unfold rdNinfo. rewrite idx_ninf by exact H. reflexivity.
Qed.
Lemma wrNinfo_ok s i n : vi s i -> wrNinfo i n s = Ok tt (sNinfo i n s).
Proof.
  intros H. unfold wrNinfo.
  rewrite (bind_eval _ _ s _ s (rdNinfo_ok s i H)). reflexivity.
Qed.
Lemma rdSibling_ok s i :
  vi s i -> rdSibling i s = Ok (Sibling (ninf s i)) s.
Proof.
  intros H. unfold rdSibling.
  rewrite (bind_eval _ _ s _ s (rdNinfo_ok s i H)). reflexivity.
Qed.
Lemma rdChild_ok s i : vi s i -> rdChild i s = Ok (Child (ninf s i)) s.
Proof.
  intros H. unfold rdChild.
  rewrite (bind_eval _ _ s _ s (rdNinfo_ok s i H)). reflexivity.
Qed.
Lemma wrSibling_ok s i b :
  vi s i -> wrSibling i b s = Ok tt (sSibling i b s).
Proof.
  intros H. unfold wrSibling.
  rewrite (bind_eval _ _ s _ s (rdNinfo_ok s i H)).
  apply wrNinfo_ok. exact H.
Qed.
Lemma wrChild_ok s i b : vi s i -> wrChild i b s = Ok tt (sChild i b s).
Proof.
  intros H. unfold wrChild.
  rewrite (bind_eval _ _ s _ s (rdNinfo_ok s i H)).
  apply wrNinfo_ok. exact H.
Qed.
Lemma addrChild_ok s i : vi s i -> addrChild i s = Ok (ChildOf i) s.
Proof.
  intros H. unfold addrChild.
  rewrite (bind_eval _ _ s _ s (rdNinfo_ok s i H)). reflexivity.
Qed.
Lemma addrSibling_ok s i : vi s i -> addrSibling i s = Ok (SiblingOf i) s.
Proof.
  intros H. unfold addrSibling.
  rewrite (bind_eval _ _ s _ s (rdNinfo_ok s i H)). reflexivity.
Qed.
Lemma deref_ok s p : pvalid s p -> deref p s = Ok (pget s p) s.
Proof.
  destruct p; simpl; intros H; [apply rdChild_ok|apply rdSibling_ok]; exact H.
Qed.
Lemma store_ok s p b : pvalid s p -> store p b s = Ok tt (pset p b s).
Proof.
  destruct p; simpl; intros H; [apply wrChild_ok|apply wrSibling_ok]; exact H.
Qed.

Lemma ninf_sSibling s i b j :
  vi s i ->
  ninf (sSibling i b s) j
  = if j =? i then mkNinfo b (Child (ninf s i)) (End_ (ninf s i))
    else ninf s j.
Proof. intros H. unfold sSibling. apply ninf_sNinfo. exact H. Qed.
Lemma ninf_sChild s i b j :
  vi s i ->
  ninf (sChild i b s) j
  = if j =? i then mkNinfo (Sibling (ninf s i)) b (End_ (ninf s i))
    else ninf s j.
Proof. intros H. unfold sChild. apply ninf_sNinfo. exact H. Qed.

#[global] Instance byteptr_eq_dec : EqDecision byteptr.
Proof. solve_decision. Defined.

(** Reading a pointer after a write through a pointer. *)
Lemma pget_pset s p b q :
  pvalid s p -> pget (pset p b s) q = if decide (q = p) then b else pget s q.
Proof.
  intros Hv. destruct p as [i|i], q as [j|j]; simpl in *;
    rewrite ?ninf_sChild, ?ninf_sSibling by exact Hv;
    destruct (Z.eqb_spec j i) as [->|Hne]; simpl;
    repeat match goal with
           | |- context [decide (?a = ?b)] => destruct (decide (a = b))
           end; try reflexivity; try congruence.
Qed.

Lemma pvalid_pset s p b q : pvalid (pset p b s) q <-> pvalid s q.
Proof. destruct q; simpl; apply vi_pset. Qed.

Lemma b2z_inj a b : b2z a = b2z b -> a = b.
Proof.
  unfold b2z. intros H. apply N2Z.inj in H.
  assert (E : Byte.of_N (Byte.to_N a) = Byte.of_N (Byte.to_N b))
    by (rewrite H; reflexivity).
  rewrite !Byte.of_to_N in E. congruence.
Qed.

Lemma xor_inj b x y : Int.xor b x = Int.xor b y -> x = y.
Proof.
  unfold Int.xor. intros H.
  assert (E : Z.lxor b (Z.lxor b x) = Z.lxor b (Z.lxor b y))
    by (rewrite H; reflexivity).
  rewrite <- !Z.lxor_assoc, Z.lxor_nilpotent, !Z.lxor_0_l in E. exact E.
Qed.

Lemma slot_inj b x y : Int.xor b (b2z x) = Int.xor b (b2z y) -> x = y.
Proof. intros H. apply b2z_inj, (xor_inj b). exact H. Qed.

(** ** Chains *)

Lemma rest_from_cons' s base c l :
  b2z c <> 0 -> vi s (Int.xor base (b2z c)) ->
  rest_from s base (Sibling (ninf s (Int.xor base (b2z c)))) l ->
  rest_from s base c (c :: l).
Proof.
  intros Hc Hv Hr. eapply rest_cons; [exact Hc|apply idx_ninf; exact Hv|].
  exact Hr.
Qed.

Lemma rest_from_inv s base c a l :
  rest_from s base c (a :: l) ->
  a = c /\ b2z c <> 0 /\ vi s (Int.xor base (b2z c)) /\
  rest_from s base (Sibling (ninf s (Int.xor base (b2z c)))) l.
Proof.
  intros H. inversion H as [|c' n l' Hc Hn Hr]; subst.
  apply idx_vi in Hn. destruct Hn as [Hv <-]. auto.
Qed.

Lemma rest_from_nonzero s base c l :
  rest_from s base c l -> forall x, x ∈ l -> b2z x <> 0.
Proof.
  induction 1 as [|c n l Hc Hn Hr IH]; intros x Hx.
  - inversion Hx.
  - apply elem_of_cons in Hx. destruct Hx as [->|Hx]; auto.
Qed.

Lemma rest_from_valid s base c l :
  rest_from s base c l -> forall x, x ∈ l -> vi s (Int.xor base (b2z x)).
Proof.
  induction 1 as [|c n l Hc Hn Hr IH]; intros x Hx.
  - inversion Hx.
  - apply elem_of_cons in Hx. destruct Hx as [->|Hx]; auto.
    apply idx_vi in Hn. apply Hn.
Qed.

Lemma rest_from_det s base c l1 :
  rest_from s base c l1 -> forall l2, rest_from s base c l2 -> l1 = l2.
Proof.
  induction 1 as [c Hc|c n l Hc Hn Hr IH]; intros l2 H2.
  - inversion H2; subst; [reflexivity|contradiction].
  - inversion H2 as [|c' n' l' Hc' Hn' Hr']; subst; [contradiction|].
    rewrite Hn in Hn'. inversion Hn'; subst. f_equal. apply IH. exact Hr'.
Qed.

Lemma rest_from_suffix s base c l :
  rest_from s base c l -> forall x, x ∈ l ->
  exists pre suf, l = pre ++ x :: suf /\ rest_from s base x (x :: suf).
Proof.
  induction 1 as [c Hc|c n l Hc Hn Hr IH]; intros x Hx.
  - inversion Hx.
  - apply elem_of_cons in Hx. destruct Hx as [->|Hx].
    + exists [], l. split; [reflexivity|]. eapply rest_cons; eauto.
    + destruct (IH x Hx) as (pre & suf & -> & Hs).
      exists (c :: pre), suf. split; [reflexivity|exact Hs].
Qed.

(** A chain that ends has no label twice. *)
Lemma rest_from_NoDup s base c l : rest_from s base c l -> NoDup l.
Proof.
  induction 1 as [c Hc|c n l Hc Hn Hr IH].
  - constructor.
  - constructor; [|exact IH]. intros Hin.
    destruct (rest_from_suffix _ _ _ _ Hr c Hin) as (pre & suf & El & Hs).
    assert (H1 : rest_from s base c (c :: l)) by (eapply rest_cons; eauto).
    pose proof (rest_from_det _ _ _ _ Hs _ H1) as E.
    inversion E as [E']. rewrite El in E'.
    apply (f_equal length) in E'. rewrite length_app in E'. simpl in E'. lia.
Qed.

(** A chain is read off the [Sibling] fields of its own slots. *)
Lemma rest_from_frame s s' base c l :
  rest_from s base c l ->
  (forall x, x ∈ l ->
     vi s' (Int.xor base (b2z x)) /\
     Sibling (ninf s' (Int.xor base (b2z x)))
     = Sibling (ninf s (Int.xor base (b2z x)))) ->
  rest_from s' base c l.
Proof.
  induction 1 as [c Hc|c n l Hc Hn Hr IH]; intros Hf.
  - constructor. exact Hc.
  - destruct (Hf c ltac:(left)) as [Hv Hs].
    apply rest_from_cons'; [exact Hc|exact Hv|].
    rewrite Hs. apply idx_vi in Hn. destruct Hn as [_ ->].
    apply IH. intros x Hx. apply Hf. right. exact Hx.
Qed.

(** The state after the two writes that end [pushSibling], [c] being the
    pointer that the walk has reached. *)
Definition spliced (base : Z) (label : byte) (c : byteptr) (s : Cedar)
    : Cedar :=
  pset c label (sSibling (Int.xor base (b2z label)) (pget s c) s).

Lemma pget_sSibling_other s i b q :
  vi s i -> q <> SiblingOf i -> pget (sSibling i b s) q = pget s q.
Proof.
  intros Hv Hq. change (sSibling i b s) with (pset (SiblingOf i) b s).
  rewrite pget_pset by exact Hv. destruct (decide (q = SiblingOf i));
    [contradiction|reflexivity].
Qed.

Lemma pget_spliced s base label c q :
  vi s (Int.xor base (b2z label)) -> pvalid s c ->
  q <> SiblingOf (Int.xor base (b2z label)) ->
  pget (spliced base label c s) q = if decide (q = c) then label else pget s q.
Proof.
  intros Hv Hc Hq. unfold spliced.
  rewrite pget_pset
    by (apply (proj2 (pvalid_pset s (SiblingOf _) _ c)); exact Hc).
  destruct (decide (q = c)); [reflexivity|].
  apply pget_sSibling_other; assumption.
Qed.

Lemma vi_spliced s base label c j :
  vi (spliced base label c s) j <-> vi s j.
Proof.
  unfold spliced. rewrite vi_pset. apply vi_sNinfo.
Qed.

(** The new slot holds, as its sibling, what the pointer held. *)
Lemma sibling_spliced s base label c :
  vi s (Int.xor base (b2z label)) -> pvalid s c ->
  c <> SiblingOf (Int.xor base (b2z label)) ->
  Sibling (ninf (spliced base label c s) (Int.xor base (b2z label)))
  = pget s c.
Proof.
  intros Hv Hc Hne. unfold spliced.
  change (Sibling (ninf ?t ?i)) with (pget t (SiblingOf i)).
  rewrite pget_pset
    by (apply (proj2 (pvalid_pset s (SiblingOf _) _ c)); exact Hc).
  destruct (decide (SiblingOf (Int.xor base (b2z label)) = c));
    [congruence|].
  simpl. rewrite ninf_sSibling by exact Hv. rewrite Z.eqb_refl. reflexivity.
Qed.

(** The labels of [l] keep their siblings when the splice is elsewhere. *)
Lemma rest_from_spliced s base label c x l :
  vi s (Int.xor base (b2z label)) -> pvalid s c ->
  rest_from s base x l -> label ∉ l ->
  (forall y, y ∈ l -> c <> SiblingOf (Int.xor base (b2z y))) ->
  rest_from (spliced base label c s) base x l.
Proof.
  intros Hv Hc Hr Hl Hne. apply (rest_from_frame s); [exact Hr|].
  intros y Hy. split.
  - apply vi_spliced. eapply rest_from_valid; eauto.
  - change (Sibling (ninf ?t ?i)) with (pget t (SiblingOf i)).
    rewrite pget_spliced; [| exact Hv | exact Hc |].
    + destruct (decide (SiblingOf (Int.xor base (b2z y)) = c)) as [E|_];
        [|reflexivity].
      exfalso. apply (Hne y Hy). symmetry. exact E.
    + intros E. inversion E as [E']. apply slot_inj in E'. subst y.
      contradiction.
Qed.

(** The walk of [pushSibling] from the pointer [q], and the chain after the
    splice. *)
Lemma pushSibling_walk_splice s base label : forall l q fuel,
  pvalid s q -> rest_from s base (pget s q) l ->
  (length l < fuel)%nat ->
  label ∉ l -> b2z label <> 0 -> vi s (Int.xor base (b2z label)) ->
  q <> SiblingOf (Int.xor base (b2z label)) ->
  (forall x, x ∈ l -> q <> SiblingOf (Int.xor base (b2z x))) ->
  exists c,
    pushSibling_walk fuel base label q s = Ok c s /\ pvalid s c /\
    (c = q \/ exists x, x ∈ l /\ c = SiblingOf (Int.xor base (b2z x))) /\
    c <> SiblingOf (Int.xor base (b2z label)) /\
    rest_from (spliced base label c s) base
      (pget (spliced base label c s) q)
      (if Ordered s then insertBefore label l else label :: l).
Proof.
  induction l as [|a r IH]; intros q fuel Hq Hr Hf Hl Hl0 Hv Hne Hfree.
  - inversion Hr as [c' Hc|]; subst.
    destruct fuel as [|f]; [lia|]. cbn [pushSibling_walk].
    rewrite (bind_eval _ _ _ _ _ (gets_ok _ _)).
    rewrite (bind_eval _ _ _ _ _ (deref_ok s q Hq)).
    rewrite Hc. rewrite Z.eqb_refl. rewrite andb_false_r. cbn [andb negb].
    exists q. split; [reflexivity|]. split; [exact Hq|].
    split; [left; reflexivity|]. split; [exact Hne|].
    rewrite pget_spliced by assumption.
    destruct (decide (q = q)); [|contradiction].
    replace (if Ordered s then insertBefore label [] else [label])
      with [label] by (destruct (Ordered s); reflexivity).
    apply rest_from_cons'; [exact Hl0|apply vi_spliced; exact Hv|].
    rewrite sibling_spliced by assumption. constructor. exact Hc.
  - apply rest_from_inv in Hr. destruct Hr as (Ea & Ha0 & Hva & Hr).
    symmetry in Ea. rewrite Ea in Ha0, Hva, Hr.
    pose proof Hl as Hl'. rewrite not_elem_of_cons in Hl'.
    destruct Hl' as [Hla Hlr].
    assert (Hra : rest_from s base a (a :: r))
      by (apply rest_from_cons'; assumption).
    pose proof (rest_from_NoDup _ _ _ _ Hra) as Hnd.
    apply NoDup_cons in Hnd. destruct Hnd as [Har _].
    destruct fuel as [|f]; [simpl in Hf; lia|]. cbn [pushSibling_walk].
    rewrite (bind_eval _ _ _ _ _ (gets_ok _ _)).
    rewrite (bind_eval _ _ _ _ _ (deref_ok s q Hq)).
    rewrite Ea.
    destruct (Z.eqb_spec (b2z a) 0) as [E0|_]; [tauto|].
    cbn [negb]. rewrite andb_true_r.
    destruct (Ordered s && (b2z a <? b2z label)) eqn:Ecnd.
    + apply andb_true_iff in Ecnd. destruct Ecnd as [Eo Elt].
      rewrite (bind_eval _ _ _ _ _ (addrSibling_ok s _ Hva)).
      destruct (IH (SiblingOf (Int.xor base (b2z a))) f Hva Hr
                  ltac:(simpl in Hf; lia) Hlr Hl0 Hv) as
        (c & Hrun & Hc & Hshape & Hcne & Hrest).
      { intros E. inversion E as [E']. apply slot_inj in E'. congruence. }
      { intros x Hx E. inversion E as [E']. apply slot_inj in E'.
        subst x. contradiction. }
      exists c. split; [exact Hrun|]. split; [exact Hc|]. split.
      { right. destruct Hshape as [->|(x & Hx & ->)].
        - exists a. split; [left|reflexivity].
        - exists x. split; [right; exact Hx|reflexivity]. }
      split; [exact Hcne|].
      assert (Hqc : q <> c).
      { destruct Hshape as [->|(x & Hx & ->)].
        - apply Hfree. left.
        - apply Hfree. right. exact Hx. }
      rewrite pget_spliced by assumption.
      destruct (decide (q = c)); [contradiction|].
      rewrite Eo in Hrest |- *. rewrite Ea. cbn [insertBefore]. rewrite Elt.
      apply rest_from_cons'; [exact Ha0| |exact Hrest].
      apply vi_spliced. exact Hva.
    + exists q. split; [reflexivity|]. split; [exact Hq|].
      split; [left; reflexivity|]. split; [exact Hne|].
      rewrite pget_spliced by assumption.
      destruct (decide (q = q)); [|contradiction].
      replace (if Ordered s then insertBefore label (a :: r)
               else label :: a :: r) with (label :: a :: r).
      2:{ destruct (Ordered s); [|reflexivity]. cbn [insertBefore].
          simpl in Ecnd. rewrite Ecnd. reflexivity. }
      apply rest_from_cons'; [exact Hl0|apply vi_spliced; exact Hv|].
      rewrite sibling_spliced by assumption. rewrite Ea.
      apply rest_from_spliced; assumption.
Qed.

Lemma ascending_insertBefore label : forall l c0,
  ascending (c0 :: l) -> b2z c0 < b2z label -> label ∉ l ->
  ascending (c0 :: insertBefore label l).
Proof.
  induction l as [|a r IH]; intros c0 Ha Hc Hl.
  - simpl. auto.
  - rewrite not_elem_of_cons in Hl. destruct Hl as [Hla Hlr].
    destruct Ha as [Hca Har]. cbn [insertBefore].
    destruct (Z.ltb_spec (b2z a) (b2z label)) as [Hlt|Hge].
    + split; [exact Hca|]. apply IH; assumption.
    + assert (b2z a <> b2z label) by (intros E; apply b2z_inj in E; auto).
      split; [exact Hc|]. split; [lia|exact Har].
Qed.

Lemma ascending_pushLabel label l :
  ascending l -> label ∉ l -> ascending (pushLabel true label l).
Proof.
  destruct l as [|c0 r]; intros Ha Hl; [simpl; auto|].
  rewrite not_elem_of_cons in Hl. destruct Hl as [Hlc Hlr].
  cbn [pushLabel].
  destruct (Z.ltb_spec (b2z c0) (b2z label)) as [Hlt|Hge].
  - apply ascending_insertBefore; assumption.
  - assert (b2z c0 <> b2z label) by (intros E; apply b2z_inj in E; auto).
    split; [lia|exact Ha].
Qed.

Lemma spliced_frame s base label c :
  Array (spliced base label c s) = Array s /\
  Blocks (spliced base label c s) = Blocks s /\
  Reject (spliced base label c s) = Reject s /\
  Size (spliced base label c s) = Size s /\
  Capacity (spliced base label c s) = Capacity s /\
  Ordered (spliced base label c s) = Ordered s /\
  MaxTrial (spliced base label c s) = MaxTrial s /\
  (forall h, headOf h (spliced base label c s) = headOf h s) /\
  len (Ninfos (spliced base label c s)) = len (Ninfos s).
Proof.
  unfold spliced. destruct c; simpl; unfold sChild, sSibling, sNinfo; simpl;
    rewrite !len_upd; repeat split; intros []; reflexivity.
Qed.

(** The run of [pushSibling], the walk apart. *)
Lemma pushSibling_run s fuel from base label hasChild c :
  vi s from -> vi s (Int.xor base (b2z label)) -> pvalid s c ->
  (let c0 := Child (ninf s from) in
   if hasChild && (if Ordered s then b2z c0 <? b2z label else b2z c0 =? 0)
   then vi s (Int.xor base (b2z c0)) /\
        pushSibling_walk fuel base label
          (SiblingOf (Int.xor base (b2z c0))) s = Ok c s
   else c = ChildOf from) ->
  pushSibling fuel from base label hasChild s
  = Ok tt (spliced base label c s).
Proof.
  intros Hf Hv Hc Hwalk. unfold pushSibling.
  rewrite (bind_eval _ _ _ _ _ (addrChild_ok s from Hf)).
  rewrite (bind_eval _ _ _ _ _ (deref_ok s (ChildOf from) Hf)).
  rewrite (bind_eval _ _ _ _ _ (gets_ok _ _)).
  cbn [pget]. cbn zeta in Hwalk.
  rewrite (bind_eval _ _ s c s).
  2:{ destruct (hasChild && _).
      - destruct Hwalk as [Hv0 Hw].
        rewrite (bind_eval _ _ _ _ _ (deref_ok s (ChildOf from) Hf)).
        cbn [pget].
        rewrite (bind_eval _ _ _ _ _ (addrSibling_ok s _ Hv0)). exact Hw.
      - rewrite Hwalk. reflexivity. }
  rewrite (bind_eval _ _ _ _ _ (deref_ok s c Hc)).
  rewrite (bind_eval _ _ _ _ _ (wrSibling_ok s _ _ Hv)).
  apply store_ok. apply (proj2 (pvalid_pset s (SiblingOf _) _ c)). exact Hc.
Qed.

(** [pushSibling] with a chain present, and with none. *)
Lemma pushSibling_chain s fuel from base label :
  vi s from -> vi s (Int.xor base (b2z label)) ->
  (forall l,
     chain_from s base (Child (ninf s from)) l ->
     label ∉ l -> (length l < fuel)%nat ->
     exists s',
       pushSibling fuel from base label true s = Ok tt s' /\
       Array s' = Array s /\ Blocks s' = Blocks s /\
       len (Ninfos s') = len (Ninfos s) /\
       chain_from s' base (Child (ninf s' from))
         (pushLabel (Ordered s) label l) /\
       (Ordered s = true -> ascending l ->
        ascending (pushLabel (Ordered s) label l)) /\
       (exists c, s' = spliced base label c s)) /\
  (b2z (Child (ninf s from)) = 0 ->
   exists s',
     pushSibling fuel from base label false s = Ok tt s' /\
     Array s' = Array s /\ Blocks s' = Blocks s /\
     len (Ninfos s') = len (Ninfos s) /\
     chain_from s' base (Child (ninf s' from)) [label]).
Proof.
  intros Hf Hv. split.
  - intros l (n & l' & Hn & Hr & ->) Hl Hfuel.
    apply idx_vi in Hn. destruct Hn as [Hv0 <-].
    set (c0 := Child (ninf s from)) in *.
    rewrite not_elem_of_cons in Hl. destruct Hl as [Hlc Hlr].
    assert (Hc0l : b2z c0 <> b2z label)
      by (intros E; apply b2z_inj in E; auto).
    set (k := if Ordered s then b2z c0 <? b2z label else b2z c0 =? 0).
    assert (Hasc : Ordered s = true -> ascending (c0 :: l') ->
                   ascending (pushLabel (Ordered s) label (c0 :: l'))).
    { intros Eo Ha. rewrite Eo. apply ascending_pushLabel; [exact Ha|].
      rewrite not_elem_of_cons. auto. }
    destruct k eqn:Ek.
    + (* the walk *)
      assert (Hl0 : b2z label <> 0).
      { unfold k in Ek. pose proof (b2z_range c0).
        destruct (Ordered s); lia. }
      assert (Hfree : forall x, x ∈ l' ->
                SiblingOf (Int.xor base (b2z c0))
                <> SiblingOf (Int.xor base (b2z x))).
      { intros x Hx E. inversion E as [E']. apply slot_inj in E'. subst x.
        destruct (Z.eq_dec (b2z c0) 0) as [E0|E0].
        - apply (rest_from_nonzero _ _ _ _ Hr c0 Hx). exact E0.
        - assert (Hc : rest_from s base c0 (c0 :: l'))
            by (apply rest_from_cons'; assumption).
          apply rest_from_NoDup, NoDup_cons in Hc. tauto. }
      destruct (pushSibling_walk_splice s base label l'
                  (SiblingOf (Int.xor base (b2z c0))) fuel Hv0 Hr
                  ltac:(simpl in Hfuel; lia) Hlr Hl0 Hv)
        as (c & Hrun & Hc & Hshape & Hcne & Hrest).
      { intros E. inversion E as [E']. apply slot_inj in E'. congruence. }
      { exact Hfree. }
      exists (spliced base label c s). split.
      { apply pushSibling_run; try assumption. cbn zeta. fold c0. fold k.
        rewrite Ek. cbn [andb]. auto. }
      destruct (spliced_frame s base label c)
        as (EA & EB & _ & _ & _ & _ & _ & _ & EL).
      split; [exact EA|]. split; [exact EB|]. split; [exact EL|].
      split; [|split; [exact Hasc|eexists; reflexivity]].
      assert (Hchild : Child (ninf (spliced base label c s) from) = c0).
      { change (Child (ninf ?t ?i)) with (pget t (ChildOf i)).
        rewrite pget_spliced; [|exact Hv|exact Hc|discriminate].
        destruct (decide (ChildOf from = c)) as [E|_]; [|reflexivity].
        destruct Hshape as [->|(x & _ & ->)]; discriminate. }
      rewrite Hchild. cbn [pushLabel]. fold k. rewrite Ek.
      exists (ninf (spliced base label c s) (Int.xor base (b2z c0))).
      eexists. split; [|split; [exact Hrest|reflexivity]].
      apply idx_ninf. apply vi_spliced. exact Hv0.
    + (* the label becomes the head *)
      assert (H00 : b2z c0 <> 0).
      { unfold k in Ek. pose proof (b2z_range label).
        destruct (Ordered s); lia. }
      exists (spliced base label (ChildOf from) s). split.
      { apply pushSibling_run; try assumption. cbn zeta. fold c0. fold k.
        rewrite Ek. reflexivity. }
      destruct (spliced_frame s base label (ChildOf from))
        as (EA & EB & _ & _ & _ & _ & _ & _ & EL).
      split; [exact EA|]. split; [exact EB|]. split; [exact EL|].
      split; [|split; [exact Hasc|eexists; reflexivity]].
      assert (Hchild : Child (ninf (spliced base label (ChildOf from) s) from)
                       = label).
      { change (Child (ninf ?t ?i)) with (pget t (ChildOf i)).
        rewrite pget_spliced; [|exact Hv|exact Hf|discriminate].
        destruct (decide (ChildOf from = ChildOf from)); [|contradiction].
        reflexivity. }
      rewrite Hchild. cbn [pushLabel]. fold k. rewrite Ek.
      exists (ninf (spliced base label (ChildOf from) s)
                (Int.xor base (b2z label))).
      eexists. split; [apply idx_ninf, vi_spliced; exact Hv|].
      split; [|reflexivity].
      rewrite sibling_spliced; [|exact Hv|exact Hf|discriminate].
      cbn [pget]. fold c0.
      apply rest_from_spliced; [exact Hv|exact Hf| | |discriminate].
      * apply rest_from_cons'; assumption.
      * rewrite not_elem_of_cons. auto.
  - intros Hc0.
    exists (spliced base label (ChildOf from) s). split.
    { apply pushSibling_run; try assumption. reflexivity. }
    destruct (spliced_frame s base label (ChildOf from))
      as (EA & EB & _ & _ & _ & _ & _ & _ & EL).
    split; [exact EA|]. split; [exact EB|]. split; [exact EL|].
    assert (Hchild : Child (ninf (spliced base label (ChildOf from) s) from)
                     = label).
    { change (Child (ninf ?t ?i)) with (pget t (ChildOf i)).
      rewrite pget_spliced; [|exact Hv|exact Hf|discriminate].
      destruct (decide (ChildOf from = ChildOf from)); [|contradiction].
      reflexivity. }
    rewrite Hchild.
    exists (ninf (spliced base label (ChildOf from) s)
              (Int.xor base (b2z label))).
    eexists. split; [apply idx_ninf, vi_spliced; exact Hv|].
    split; [|reflexivity].
    rewrite sibling_spliced; [|exact Hv|exact Hf|discriminate].
    cbn [pget]. constructor. exact Hc0.
Qed.

(** X5: [pushSibling] puts the label into the chain.  For a parent [from]
    whose children under [base] form the chain [l] (head [Child], then the
    [Sibling] links until label 0), a label that is not in the chain and
    whose slot is inside [Ninfos], [pushSibling(from, base, label, true)]
    returns given fuel for the chain, leaves [Array], [Blocks] and the
    length of [Ninfos] as they are, and leaves the chain
    [pushLabel Ordered label l]: in ordered mode the label goes
    before the head when it is smaller, and otherwise before the first
    later label that is not smaller than it; in unordered mode it goes to
    the front, behind a 0 head.  A strictly ascending chain stays strictly
    ascending in ordered mode.  With [hasChild] false and no child recorded
    the label becomes the whole chain. *)
Theorem pushSibling_splices_label s fuel from base label :
  vi s from -> vi s (Int.xor base (b2z label)) ->
  (forall l,
     chain_from s base (Child (ninf s from)) l ->
     label ∉ l -> (length l < fuel)%nat ->
     exists s',
       pushSibling fuel from base label true s = Ok tt s' /\
       Array s' = Array s /\ Blocks s' = Blocks s /\
       len (Ninfos s') = len (Ninfos s) /\
       chain_from s' base (Child (ninf s' from))
         (pushLabel (Ordered s) label l) /\
       (Ordered s = true -> ascending l ->
        ascending (pushLabel (Ordered s) label l))) /\
  (b2z (Child (ninf s from)) = 0 ->
   exists s',
     pushSibling fuel from base label false s = Ok tt s' /\
     Array s' = Array s /\ Blocks s' = Blocks s /\
     len (Ninfos s') = len (Ninfos s) /\
     chain_from s' base (Child (ninf s' from)) [label]).
Proof.
  intros Hf Hv.
  destruct (pushSibling_chain s fuel from base label Hf Hv) as [H1 H2].
  split; [|exact H2]. intros l Hc Hl Hfuel.
  destruct (H1 l Hc Hl Hfuel) as (s' & Hr & EA & EB & EL & Hch & Hasc & _).
  exists s'. auto 10.
Qed.

(** Chains checked by computation. *)
Fixpoint rest_b (s : Cedar) (base : Z) (c : byte) (l : list byte) : bool :=
  match l with
  | [] => b2z c =? 0
  | a :: r =>
    Byte.eqb a c && negb (b2z c =? 0) &&
    match idx (Ninfos s) (Int.xor base (b2z c)) with
    | Some n => rest_b s base (Sibling n) r
    | None => false
    end
  end.

Definition chain_b (s : Cedar) (base : Z) (c : byte) (l : list byte) : bool :=
  match l with
  | [] => false
  | a :: r =>
    Byte.eqb a c &&
    match idx (Ninfos s) (Int.xor base (b2z c)) with
    | Some n => rest_b s base (Sibling n) r
    | None => false
    end
  end.

Lemma rest_b_sound s base l : forall c,
  rest_b s base c l = true -> rest_from s base c l.
Proof.
  induction l as [|a r IH]; intros c; simpl.
  - rewrite Z.eqb_eq. apply rest_nil.
  - rewrite !andb_true_iff, negb_true_iff, Z.eqb_neq.
    intros [[H1 H2] H3]. apply Byte.byte_dec_bl in H1. subst a.
    destruct (idx (Ninfos s) (Int.xor base (b2z c))) as [n|] eqn:E;
      [|discriminate].
    eapply rest_cons; eauto.
Qed.

Lemma chain_b_sound s base c l :
  chain_b s base c l = true -> chain_from s base c l.
Proof.
  destruct l as [|a r]; simpl; [discriminate|].
  rewrite andb_true_iff. intros [H1 H2]. apply Byte.byte_dec_bl in H1.
  subst a.
  destruct (idx (Ninfos s) (Int.xor base (b2z c))) as [n|] eqn:E;
    [|discriminate].
  exists n, r. split; [exact E|]. split; [|reflexivity].
  apply rest_b_sound. exact H2.
Qed.

(** X5, witness: the root of the state with "ab" has the chain [a]; "c" is
    put behind it.  The root of [New] has no child; "a" becomes its chain. *)
Lemma pushSibling_splices_label_witness :
  (exists s',
     pushSibling 8 0 1 "c" true state_ab = Ok tt s' /\
     Array s' = Array state_ab /\ Blocks s' = Blocks state_ab /\
     len (Ninfos s') = len (Ninfos state_ab) /\
     chain_from s' 1 (Child (ninf s' 0))
       (pushLabel (Ordered state_ab) "c" ["a"%byte]) /\
     (Ordered state_ab = true -> ascending ["a"%byte] ->
      ascending (pushLabel (Ordered state_ab) "c" ["a"%byte]))) /\
  (exists s',
     pushSibling 8 0 1 "a" false New = Ok tt s' /\
     Array s' = Array New /\ Blocks s' = Blocks New /\
     len (Ninfos s') = len (Ninfos New) /\
     chain_from s' 1 (Child (ninf s' 0)) ["a"%byte]).
Proof.
  split.
  - apply (proj1 (pushSibling_splices_label state_ab 8 0 1 "c"
                    ltac:(vm_compute; split; [discriminate|reflexivity])
                    ltac:(vm_compute; split; [discriminate|reflexivity]))
             ["a"%byte]).
    + apply chain_b_sound. vm_compute. reflexivity.
    + rewrite list_elem_of_singleton. discriminate.
    + simpl. lia.
  - apply (proj2 (pushSibling_splices_label New 8 0 1 "a"
                    ltac:(vm_compute; split; [discriminate|reflexivity])
                    ltac:(vm_compute; split; [discriminate|reflexivity]))).
    vm_compute. reflexivity.
Defined.

(** ** [popSibling] *)

Lemma pget_pset_other s p b q :
  pvalid s p -> q <> p -> pget (pset p b s) q = pget s q.
Proof.
  intros Hv Hq. rewrite pget_pset by exact Hv.
  destruct (decide (q = p)); [contradiction|reflexivity].
Qed.

Lemma rest_from_pset s base p b x l :
  pvalid s p -> rest_from s base x l ->
  (forall y, y ∈ l -> p <> SiblingOf (Int.xor base (b2z y))) ->
  rest_from (pset p b s) base x l.
Proof.
  intros Hp Hr Hne. apply (rest_from_frame s); [exact Hr|].
  intros y Hy. split.
  - apply vi_pset. eapply rest_from_valid; eauto.
  - change (Sibling (ninf ?t ?i)) with (pget t (SiblingOf i)).
    apply pget_pset_other; [exact Hp|]. intros E. apply (Hne y Hy).
    symmetry. exact E.
Qed.

(** The walk of [popSibling] from the pointer [q] to the pointer that holds
    [label], and the chain after that pointer has been given the sibling of
    [label]. *)
Lemma popSibling_walk_unlink s base label : forall l q fuel,
  pvalid s q -> rest_from s base (pget s q) l -> label ∈ l ->
  (length l <= fuel)%nat ->
  (forall x, x ∈ l -> q <> SiblingOf (Int.xor base (b2z x))) ->
  exists c,
    popSibling_walk fuel base label q s = Ok c s /\ pvalid s c /\
    pget s c = label /\
    (c = q \/ exists x, x ∈ l /\ c = SiblingOf (Int.xor base (b2z x))) /\
    let s' := pset c (Sibling (ninf s (Int.xor base (b2z label)))) s in
    rest_from s' base (pget s' q) (dropLabel label l).
Proof.
  induction l as [|a r IH]; intros q fuel Hq Hr Hl Hf Hfree.
  - inversion Hl.
  - apply rest_from_inv in Hr. destruct Hr as (Ea & Ha0 & Hva & Hr).
    symmetry in Ea. rewrite Ea in Ha0, Hva, Hr.
    assert (Hra : rest_from s base a (a :: r))
      by (apply rest_from_cons'; assumption).
    pose proof (rest_from_NoDup _ _ _ _ Hra) as Hnd.
    apply NoDup_cons in Hnd. destruct Hnd as [Har _].
    destruct fuel as [|f]; [simpl in Hf; lia|]. cbn [popSibling_walk].
    rewrite (bind_eval _ _ _ _ _ (deref_ok s q Hq)). rewrite Ea.
    cbn [dropLabel].
    destruct (Byte.eqb a label) eqn:Eb.
    + apply Byte.byte_dec_bl in Eb. rewrite Eb in Ea, Hr. cbn [negb].
      exists q. split; [reflexivity|]. split; [exact Hq|].
      split; [exact Ea|]. split; [left; reflexivity|]. cbn zeta.
      rewrite pget_pset by exact Hq.
      destruct (decide (q = q)); [|contradiction].
      apply rest_from_pset; [exact Hq|exact Hr|].
      intros y Hy. apply Hfree. right. exact Hy.
    + pose proof (Byte.eqb_false Eb) as Hne. cbn [negb].
      assert (Hlr : label ∈ r).
      { apply elem_of_cons in Hl. destruct Hl as [E|Hl]; [congruence|].
        exact Hl. }
      rewrite (bind_eval _ _ _ _ _ (addrSibling_ok s _ Hva)).
      destruct (IH (SiblingOf (Int.xor base (b2z a))) f Hva Hr Hlr
                  ltac:(simpl in Hf; lia)) as
        (c & Hrun & Hc & Hget & Hshape & Hrest).
      { intros x Hx E. inversion E as [E']. apply slot_inj in E'.
        subst x. contradiction. }
      exists c. split; [exact Hrun|]. split; [exact Hc|].
      split; [exact Hget|]. split.
      { right. destruct Hshape as [->|(x & Hx & ->)].
        - exists a. split; [left|reflexivity].
        - exists x. split; [right; exact Hx|reflexivity]. }
      cbn zeta in Hrest |- *.
      assert (Hqc : q <> c).
      { destruct Hshape as [->|(x & Hx & ->)].
        - apply Hfree. left.
        - apply Hfree. right. exact Hx. }
      rewrite pget_pset_other by assumption. rewrite Ea.
      apply rest_from_cons'; [exact Ha0| |exact Hrest].
      apply vi_pset. exact Hva.
Qed.

Lemma pset_frame s p b :
  Array (pset p b s) = Array s /\ Blocks (pset p b s) = Blocks s /\
  len (Ninfos (pset p b s)) = len (Ninfos s).
Proof.
  destruct p; simpl; unfold sChild, sSibling, sNinfo; simpl;
    rewrite len_upd; auto.
Qed.

(** [popSibling] on a chain that holds the label. *)
Lemma popSibling_chain s fuel from base label l :
  vi s from ->
  chain_from s base (Child (ninf s from)) l ->
  label ∈ l -> (length l <= fuel)%nat ->
  exists s',
    popSibling fuel from base label s = Ok tt s' /\
    Array s' = Array s /\ Blocks s' = Blocks s /\
    len (Ninfos s') = len (Ninfos s) /\
    match dropLabel label l with
    | [] => b2z (Child (ninf s' from)) = 0
    | l2 => chain_from s' base (Child (ninf s' from)) l2
    end.
Proof.
  intros Hf (n & l' & Hn & Hr & ->) Hl Hfuel.
  apply idx_vi in Hn. destruct Hn as [Hv0 <-].
  set (c0 := Child (ninf s from)) in *.
  assert (Hrun : forall c,
    pvalid s c -> pget s c = label -> vi s (Int.xor base (b2z label)) ->
    popSibling_walk fuel base label (ChildOf from) s = Ok c s ->
    popSibling fuel from base label s
    = Ok tt (pset c (Sibling (ninf s (Int.xor base (b2z label)))) s)).
  { intros c Hc Hget Hvl Hw. unfold popSibling.
    rewrite (bind_eval _ _ _ _ _ (addrChild_ok s from Hf)).
    rewrite (bind_eval _ _ _ _ _ Hw).
    rewrite (bind_eval _ _ _ _ _ (deref_ok s c Hc)). rewrite Hget.
    rewrite (bind_eval _ _ _ _ _ (rdSibling_ok s _ Hvl)).
    apply store_ok. exact Hc. }
  destruct fuel as [|f]; [simpl in Hfuel; lia|].
  cbn [dropLabel].
  destruct (Byte.eqb c0 label) eqn:Eb.
  - (* the head is taken out *)
    apply Byte.byte_dec_bl in Eb.
    set (s' := pset (ChildOf from)
                 (Sibling (ninf s (Int.xor base (b2z label)))) s).
    exists s'. split.
    { apply Hrun; [exact Hf|exact Eb|rewrite <- Eb; exact Hv0|].
      cbn [popSibling_walk].
      rewrite (bind_eval _ _ _ _ _ (deref_ok s (ChildOf from) Hf)).
      cbn [pget]. fold c0. rewrite Eb.
      rewrite (Byte.byte_dec_lb eq_refl). reflexivity. }
    destruct (pset_frame s (ChildOf from)
                (Sibling (ninf s (Int.xor base (b2z label)))))
      as (EA & EB & EL).
    split; [exact EA|]. split; [exact EB|]. split; [exact EL|].
    assert (Hchild : Child (ninf s' from)
                     = Sibling (ninf s (Int.xor base (b2z c0)))).
    { change (Child (ninf s' from)) with (pget s' (ChildOf from)).
      unfold s'. rewrite pget_pset by exact Hf.
      destruct (decide (ChildOf from = ChildOf from)); [|contradiction].
      rewrite Eb. reflexivity. }
    assert (Hr' : rest_from s' base
                    (Sibling (ninf s (Int.xor base (b2z c0)))) l').
    { apply rest_from_pset; [exact Hf|exact Hr|discriminate]. }
    rewrite Hchild. destruct l' as [|a r].
    + inversion Hr'. assumption.
    + apply rest_from_inv in Hr'. destruct Hr' as (Ea & Ha0 & Hva & Hr').
      rewrite <- Ea in *.
      exists (ninf s' (Int.xor base (b2z a))), r.
      split; [apply idx_ninf; exact Hva|]. split; [exact Hr'|reflexivity].
  - (* the head stays *)
    pose proof (Byte.eqb_false Eb) as Hne.
    assert (Hlr : label ∈ l').
    { apply elem_of_cons in Hl. destruct Hl as [E|Hl]; [congruence|].
      exact Hl. }
    assert (Hfree : forall x, x ∈ l' ->
              SiblingOf (Int.xor base (b2z c0))
              <> SiblingOf (Int.xor base (b2z x))).
    { intros x Hx E. inversion E as [E']. apply slot_inj in E'. subst x.
      destruct (Z.eq_dec (b2z c0) 0) as [E0|E0].
      - apply (rest_from_nonzero _ _ _ _ Hr c0 Hx). exact E0.
      - assert (Hc : rest_from s base c0 (c0 :: l'))
          by (apply rest_from_cons'; assumption).
        apply rest_from_NoDup, NoDup_cons in Hc. tauto. }
    destruct (popSibling_walk_unlink s base label l'
                (SiblingOf (Int.xor base (b2z c0))) f Hv0 Hr Hlr
                ltac:(simpl in Hfuel; lia) Hfree)
      as (c & Hw & Hc & Hget & Hshape & Hrest).
    set (s' := pset c (Sibling (ninf s (Int.xor base (b2z label)))) s) in *.
    exists s'. split.
    { apply Hrun; [exact Hc|exact Hget| |].
      - eapply rest_from_valid; eauto.
      - cbn [popSibling_walk].
        rewrite (bind_eval _ _ _ _ _ (deref_ok s (ChildOf from) Hf)).
        cbn [pget]. fold c0. rewrite Eb. cbn [negb].
        rewrite (bind_eval _ _ _ _ _ (addrSibling_ok s _ Hv0)). exact Hw. }
    destruct (pset_frame s c (Sibling (ninf s (Int.xor base (b2z label)))))
      as (EA & EB & EL).
    split; [exact EA|]. split; [exact EB|]. split; [exact EL|].
    assert (Hchild : Child (ninf s' from) = c0).
    { change (Child (ninf s' from)) with (pget s' (ChildOf from)).
      unfold s'. apply pget_pset_other; [exact Hc|].
      destruct Hshape as [->|(x & _ & ->)]; discriminate. }
    rewrite Hchild.
    exists (ninf s' (Int.xor base (b2z c0))), (dropLabel label l').
    split; [apply idx_ninf, vi_pset; exact Hv0|].
    split; [exact Hrest|reflexivity].
Qed.

(** X6: [popSibling] takes the label out of the chain.  For a parent
    [from] whose children under [base] form the chain [l] and a label of
    that chain, [popSibling(from, base, label)] returns given one unit of
    fuel per chain member, leaves [Array], [Blocks] and the length of
    [Ninfos] as they are, and leaves the chain without the label: [Child] is label 0 when the chain held nothing else,
    and otherwise the remaining labels follow in their old order. *)
Theorem popSibling_unlinks_label s fuel from base label l :
  vi s from ->
  chain_from s base (Child (ninf s from)) l ->
  label ∈ l -> (length l <= fuel)%nat ->
  exists s',
    popSibling fuel from base label s = Ok tt s' /\
    Array s' = Array s /\ Blocks s' = Blocks s /\
    len (Ninfos s') = len (Ninfos s) /\
    match dropLabel label l with
    | [] => b2z (Child (ninf s' from)) = 0
    | l2 => chain_from s' base (Child (ninf s' from)) l2
    end.
Proof. exact (popSibling_chain s fuel from base label l). Qed.

(** X6, witness: in the state with "ab" the root has the one child "a". *)
Lemma popSibling_unlinks_label_witness :
  exists s',
    popSibling 8 0 1 "a" state_ab = Ok tt s' /\
    Array s' = Array state_ab /\ Blocks s' = Blocks state_ab /\
    len (Ninfos s') = len (Ninfos state_ab) /\
    match dropLabel "a" ["a"%byte] with
    | [] => b2z (Child (ninf s' 0)) = 0
    | l2 => chain_from s' 1 (Child (ninf s' 0)) l2
    end.
Proof.
  apply (popSibling_unlinks_label state_ab 8 0 1 "a" ["a"%byte]).
  - vm_compute. split; [discriminate|reflexivity].
  - apply chain_b_sound. vm_compute. reflexivity.
  - rewrite list_elem_of_singleton. reflexivity.
  - simpl. lia.
Defined.

Lemma dropLabel_insertBefore label : forall l,
  label ∉ l -> dropLabel label (insertBefore label l) = l.
Proof.
  induction l as [|a r IH]; intros Hl; cbn [insertBefore dropLabel].
  - rewrite (Byte.byte_dec_lb eq_refl). reflexivity.
  - rewrite not_elem_of_cons in Hl. destruct Hl as [Hla Hlr].
    destruct (b2z a <? b2z label); cbn [dropLabel].
    + destruct (Byte.eqb a label) eqn:E;
        [apply Byte.byte_dec_bl in E; congruence|].
      rewrite IH by exact Hlr. reflexivity.
    + rewrite (Byte.byte_dec_lb eq_refl). reflexivity.
Qed.

Lemma dropLabel_pushLabel o label l :
  l <> [] -> label ∉ l -> dropLabel label (pushLabel o label l) = l.
Proof.
  destruct l as [|c0 r]; [contradiction|]. intros _ Hl.
  rewrite not_elem_of_cons in Hl. destruct Hl as [Hlc Hlr].
  cbn [pushLabel].
  destruct (if o then b2z c0 <? b2z label else b2z c0 =? 0);
    cbn [dropLabel].
  - destruct (Byte.eqb c0 label) eqn:E;
      [apply Byte.byte_dec_bl in E; congruence|].
    destruct o.
    + rewrite dropLabel_insertBefore by exact Hlr. reflexivity.
    + cbn [dropLabel]. rewrite (Byte.byte_dec_lb eq_refl). reflexivity.
  - rewrite (Byte.byte_dec_lb eq_refl). reflexivity.
Qed.

Lemma elem_of_insertBefore label l : label ∈ insertBefore label l.
Proof.
  induction l as [|a r IH]; cbn [insertBefore]; [left|].
  destruct (b2z a <? b2z label); [right; exact IH|left].
Qed.

Lemma elem_of_pushLabel o label l : label ∈ pushLabel o label l.
Proof.
  destruct l as [|c0 r]; cbn [pushLabel]; [left|].
  destruct (if o then b2z c0 <? b2z label else b2z c0 =? 0); [|left].
  right. destruct o; [apply elem_of_insertBefore|left].
Qed.

Lemma length_insertBefore label l :
  length (insertBefore label l) = S (length l).
Proof.
  induction l as [|a r IH]; cbn [insertBefore]; [reflexivity|].
  destruct (b2z a <? b2z label); simpl; [rewrite IH|]; reflexivity.
Qed.

Lemma length_pushLabel o label l :
  length (pushLabel o label l) = S (length l).
Proof.
  destruct l as [|c0 r]; cbn [pushLabel]; [reflexivity|].
  destruct (if o then b2z c0 <? b2z label else b2z c0 =? 0);
    [|reflexivity].
  destruct o; simpl; [rewrite length_insertBefore|]; reflexivity.
Qed.

(** X7: [popSibling] undoes [pushSibling].  After a label that was not in
    the chain [l] of [from] has been pushed, popping it leaves the chain
    [l] again, whatever the mode; [Array] and [Blocks] are untouched
    throughout. *)
Theorem pushSibling_popSibling_round_trip s fuel from base label l :
  vi s from -> vi s (Int.xor base (b2z label)) ->
  chain_from s base (Child (ninf s from)) l ->
  label ∉ l -> (length l < fuel)%nat ->
  exists s1 s2,
    pushSibling fuel from base label true s = Ok tt s1 /\
    popSibling fuel from base label s1 = Ok tt s2 /\
    chain_from s2 base (Child (ninf s2 from)) l /\
    Array s2 = Array s /\ Blocks s2 = Blocks s /\
    len (Ninfos s2) = len (Ninfos s).
Proof.
  intros Hf Hv Hch Hl Hfuel.
  destruct (proj1 (pushSibling_chain s fuel from base label Hf Hv) l Hch Hl
              Hfuel) as (s1 & Hpush & EA1 & EB1 & EL1 & Hch1 & _).
  assert (Hne : l <> []) by (destruct Hch as (n & l' & _ & _ & ->); discriminate).
  destruct (popSibling_chain s1 fuel from base label
              (pushLabel (Ordered s) label l)) as
    (s2 & Hpop & EA2 & EB2 & EL2 & Hch2).
  - unfold vi. rewrite EL1. exact Hf.
  - exact Hch1.
  - apply elem_of_pushLabel.
  - rewrite length_pushLabel. lia.
  - exists s1, s2. split; [exact Hpush|]. split; [exact Hpop|].
    rewrite dropLabel_pushLabel in Hch2 by assumption.
    split.
    + destruct l; [contradiction|exact Hch2].
    + rewrite EA2, EB2, EL2. auto.
Qed.

(** X7, witness: "c" is pushed behind "a" under the root of the state with
    "ab", and popped again. *)
Lemma pushSibling_popSibling_round_trip_witness :
  exists s1 s2,
    pushSibling 8 0 1 "c" true state_ab = Ok tt s1 /\
    popSibling 8 0 1 "c" s1 = Ok tt s2 /\
    chain_from s2 1 (Child (ninf s2 0)) ["a"%byte] /\
    Array s2 = Array state_ab /\ Blocks s2 = Blocks state_ab /\
    len (Ninfos s2) = len (Ninfos state_ab).
Proof.
  apply (pushSibling_popSibling_round_trip state_ab 8 0 1 "c" ["a"%byte]).
  - vm_compute. split; [discriminate|reflexivity].
  - vm_compute. split; [discriminate|reflexivity].
  - apply chain_b_sound. vm_compute. reflexivity.
  - rewrite list_elem_of_singleton. discriminate.
  - simpl. lia.
Defined.

(** * Taking a free slot: [popEnode] as a whole *)

(** The state after [popEnode] has unlinked the slot [e] from the free ring
    of its block, when the ring does not become empty. *)
Definition unlinked (e : Z) (s : Cedar) : Cedar :=
  let bi := Int.shr8 e in
  let s1 := sNum bi (Int.sub (Num (blk s bi)) 1) s in
  let prev := Int.neg (Value (nod s e)) in
  let sa := sCheck prev (Check (nod s e)) s1 in
  let next := Int.neg (Check (nod sa e)) in
  let sb := sValue next (Value (nod sa e)) sa in
  if e =? Ehead (blk s bi)
  then sEhead bi (Int.neg (Check (nod sb e))) sb else sb.

(** The state after the slot has been given to its parent. *)
Definition taken (base from : Z) (label : byte) (e : Z) (s3 : Cedar)
    : Cedar :=
  let s4 := sCheck e from (sValue e ValueLimit s3) in
  if base <? 0
  then sValue from (Int.sub (Int.neg (Int.xor e (b2z label))) 1) s4
  else s4.

Lemma same_trial_refl s : same_trial s s.
Proof. intros b. reflexivity. Qed.

Lemma same_trial_trans s1 s2 s3 :
  same_trial s1 s2 -> same_trial s2 s3 -> same_trial s1 s3.
Proof. intros H1 H2 b. rewrite H2. apply H1. Qed.

Lemma same_trial_sNode s i n : same_trial s (sNode i n s).
Proof. intros b. reflexivity. Qed.

Lemma same_trial_sNinfo s i n : same_trial s (sNinfo i n s).
Proof. intros b. reflexivity. Qed.

(** The end of [popEnode]. *)
Lemma taken_run s3 base from label e :
  vn s3 e -> ((base <? 0) = true -> vn s3 from) ->
  (wrValue e ValueLimit ;;;
   wrCheck e from ;;;
   when (base <? 0)
        (wrValue from (Int.sub (Int.neg (Int.xor e (b2z label))) 1)) ;;;
   ret e) s3 = Ok e (taken base from label e s3).
Proof.
  intros Hve Hvf.
  rewrite (bind_eval _ _ _ _ _ (wrValue_ok _ _ _ Hve)).
  assert (Hve' : vn (sValue e ValueLimit s3) e)
    by (apply (proj2 (vn_sValue _ _ _ _)); exact Hve).
  rewrite (bind_eval _ _ _ _ _ (wrCheck_ok _ _ _ Hve')).
  unfold taken. destruct (base <? 0); cbn [when].
  - assert (Hvf4 : vn (sCheck e from (sValue e ValueLimit s3)) from).
    { apply (proj2 (vn_sCheck _ _ _ _)), (proj2 (vn_sValue _ _ _ _)).
      apply Hvf. reflexivity. }
    rewrite (bind_eval _ _ _ _ _ (wrValue_ok _ _ _ Hvf4)). reflexivity.
  - reflexivity.
Qed.

Lemma taken_frame s3 base from label e :
  vn s3 e -> ((base <? 0) = true -> vn s3 from) ->
  same_shape s3 (taken base from label e s3) /\
  same_links s3 (taken base from label e s3) /\
  same_trial s3 (taken base from label e s3) /\
  Blocks (taken base from label e s3) = Blocks s3 /\
  Ninfos (taken base from label e s3) = Ninfos s3 /\
  Ordered (taken base from label e s3) = Ordered s3 /\
  (forall j, nod (taken base from label e s3) j
             = if (base <? 0) && (j =? from)
               then mkNode (Int.sub (Int.neg (Int.xor e (b2z label))) 1)
                      (if from =? e then from else Check (nod s3 from))
               else if j =? e then mkNode ValueLimit from
               else nod s3 j).
Proof.
  intros Hve Hvf. unfold taken.
  set (s4 := sCheck e from (sValue e ValueLimit s3)).
  assert (Hve' : vn (sValue e ValueLimit s3) e)
    by (apply (proj2 (vn_sValue _ _ _ _)); exact Hve).
  assert (N4 : forall j, nod s4 j
               = if j =? e then mkNode ValueLimit from else nod s3 j).
  { intros j. unfold s4. rewrite nod_sCheck by exact Hve'.
    rewrite !nod_sValue by exact Hve. rewrite Z.eqb_refl.
    destruct (j =? e); reflexivity. }
  assert (S4 : same_shape s3 s4).
  { unfold s4, sCheck, sValue.
    eapply same_shape_trans; apply same_shape_sNode. }
  assert (L4 : same_links s3 s4).
  { unfold s4. eapply same_links_trans;
      [apply same_links_sValue|apply same_links_sCheck]. }
  destruct (base <? 0) eqn:Eb; cbn [andb].
  - assert (Hvf4 : vn s4 from).
    { apply (proj2 (vn_sCheck _ _ _ _)), (proj2 (vn_sValue _ _ _ _)).
      apply Hvf. reflexivity. }
    split; [eapply same_shape_trans; [exact S4|apply same_shape_sNode]|].
    split; [eapply same_links_trans; [exact L4|apply same_links_sValue]|].
    split; [intros b; reflexivity|].
    split; [reflexivity|]. split; [reflexivity|]. split; [reflexivity|].
    intros j. rewrite nod_sValue by exact Hvf4.
    destruct (Z.eqb_spec j from) as [->|Hne].
    + rewrite N4. destruct (from =? e); reflexivity.
    + apply N4.
  - split; [exact S4|]. split; [exact L4|].
    split; [intros b; reflexivity|].
    split; [reflexivity|]. split; [reflexivity|]. split; [reflexivity|].
    exact N4.
Qed.

(** The unlinking, run. *)
Lemma unlinked_run s e (k : M unit) :
  let bi := Int.shr8 e in
  let s1 := sNum bi (Int.sub (Num (blk s bi)) 1) s in
  vn s e -> vb s bi -> vn s (prvS s e) -> vn s (nxtS s e) ->
  Int.sub (Num (blk s bi)) 1 <> 0 ->
  (v <- rdValue e ;; c <- rdCheck e ;; wrCheck (Int.neg v) c ;;;
   c <- rdCheck e ;; v <- rdValue e ;; wrValue (Int.neg c) v ;;;
   eh <- rdEhead bi ;;
   (if e =? eh then c <- rdCheck e ;; wrEhead bi (Int.neg c)
    else ret tt) ;;;
   k) s1 = k (unlinked e s) /\
  pop_slot e s (unlinked e s).
Proof.
  intros bi s1 Hve Hvb Hvp Hvn E0.
  assert (Hve1 : vn s1 e) by (apply (proj2 (vn_sNum _ _ _ _)); exact Hve).
  assert (Hvb1 : vb s1 bi) by (apply (proj2 (vb_sNum _ _ _ _)); exact Hvb).
  set (prev := Int.neg (Value (nod s e))).
  set (sa := sCheck prev (Check (nod s e)) s1).
  assert (Hvp1 : vn s1 prev)
    by (apply (proj2 (vn_sNum _ _ _ _)); exact Hvp).
  assert (Hvea : vn sa e) by (apply (proj2 (vn_sCheck _ _ _ _)); exact Hve1).
  assert (Cae : Check (nod sa e) = Check (nod s e)).
  { unfold sa. rewrite nod_sCheck by exact Hvp1.
    destruct (Z.eqb_spec e prev) as [E|_]; [|reflexivity].
    cbn [Check]. reflexivity. }
  set (next := Int.neg (Check (nod sa e))).
  assert (Enext : next = nxtS s e) by (unfold next, nxtS; rewrite Cae; auto).
  set (sb := sValue next (Value (nod sa e)) sa).
  assert (Hvna : vn sa next).
  { apply (proj2 (vn_sCheck _ _ _ _)), (proj2 (vn_sNum _ _ _ _)).
    rewrite Enext. exact Hvn. }
  assert (Hveb : vn sb e) by (apply (proj2 (vn_sValue _ _ _ _)); exact Hvea).
  assert (Hvbb : vb sb bi).
  { apply (proj2 (vb_sValue _ _ _ _)), (proj2 (vb_sCheck _ _ _ _)).
    exact Hvb1. }
  assert (Eh : Ehead (blk sb bi) = Ehead (blk s bi)).
  { change (blk sb bi) with (blk s1 bi). unfold s1.
    rewrite blk_sNum by exact Hvb. rewrite Z.eqb_refl. reflexivity. }
  split.
  - rewrite (bind_eval _ _ _ _ _ (rdValue_ok _ _ Hve1)).
    rewrite (bind_eval _ _ _ _ _ (rdCheck_ok _ _ Hve1)).
    change (nod s1 e) with (nod s e).
    rewrite (bind_eval _ _ _ _ _ (wrCheck_ok _ _ _ Hvp1)).
    fold prev. fold sa.
    rewrite (bind_eval _ _ _ _ _ (rdCheck_ok _ _ Hvea)).
    rewrite (bind_eval _ _ _ _ _ (rdValue_ok _ _ Hvea)).
    rewrite (bind_eval _ _ _ _ _ (wrValue_ok _ _ _ Hvna)).
    fold next. fold sb.
    rewrite (bind_eval _ _ _ _ _ (rdEhead_ok _ _ Hvbb)). rewrite Eh.
    unfold unlinked. fold bi. fold s1. fold prev. fold sa. fold next.
    fold sb.
    destruct (e =? Ehead (blk s bi)).
    + rewrite (bind_eval _ _ sb tt (sEhead bi (Int.neg (Check (nod sb e))) sb));
        [reflexivity|].
      rewrite (bind_eval _ _ _ _ _ (rdCheck_ok _ _ Hveb)).
      apply wrEhead_ok. exact Hvbb.
    + rewrite (bind_eval _ _ sb tt sb) by reflexivity. reflexivity.
  - unfold pop_slot. fold bi. cbn zeta. split; [exact Hve|].
    split; [exact Hvb|]. right. split; [exact E0|].
    fold s1. fold prev. fold sa. fold next. fold sb.
    split; [exact Hvp|]. split; [rewrite Enext; exact Hvn|].
    unfold unlinked. fold bi. fold s1. fold prev. fold sa. fold next.
    fold sb. reflexivity.
Qed.

Lemma length_without x r :
  NoDup r -> x ∈ r -> length r = S (length (without x r)).
Proof.
  intros Hnd Hx. apply list_elem_of_split in Hx. destruct Hx as (l1 & l2 & ->).
  rewrite without_split by exact Hnd. rewrite !length_app. simpl. lia.
Qed.

(** The ring of a block that has a free slot. *)
Lemma class_of_block s R F b :
  allocator s R F -> vb s b -> b <> 0 -> F b <> [] ->
  (b ∈ R HeadC /\ (length (F b) = 1%nat \/ Trial (blk s b) = MaxTrial s)) \/
  (b ∈ R HeadO /\ (2 <= length (F b))%nat /\
   Trial (blk s b) <> MaxTrial s).
Proof.
  intros A Hv H0 Hne.
  destruct (ao_free _ _ _ A b Hv) as (_ & _ & _ & Hn & _).
  destruct (Z.eqb_spec b 0); [contradiction|].
  assert (Hlt : b < nblocks s).
  { destruct (Z.lt_ge_cases b (nblocks s)) as [|Hge]; [assumption|].
    destruct (ao_beyond _ _ _ A b Hge) as [_ E]. rewrite E in Hn.
    destruct (F b); [contradiction|simpl in Hn; lia]. }
  assert (Hm : b ∈ members R).
  { apply (ao_cover _ _ _ A). unfold vb in Hv. lia. }
  apply members_in in Hm. destruct Hm as [h Hb].
  pose proof (ao_classes _ _ _ A h b Hb) as Hcl.
  destruct h; simpl in Hcl.
  - contradiction.
  - left. tauto.
  - right. tauto.
Qed.

Lemma unlinked_frame s e :
  vb s (Int.shr8 e) ->
  same_shape s (unlinked e s) /\ same_links s (unlinked e s) /\
  same_trial s (unlinked e s) /\
  Ninfos (unlinked e s) = Ninfos s /\ Ordered (unlinked e s) = Ordered s /\
  Reject (unlinked e s) = Reject s.
Proof.
  intros Hvb. unfold unlinked.
  set (bi := Int.shr8 e) in *.
  set (s1 := sNum bi (Int.sub (Num (blk s bi)) 1) s).
  set (sa := sCheck _ _ s1). set (sb := sValue _ _ sa).
  assert (H1 : same_shape s s1 /\ same_links s s1 /\ same_trial s s1).
  { split; [apply same_shape_sNum|].
    split; [apply same_links_sNum|apply same_trial_sNum]; exact Hvb. }
  assert (Hb : same_shape s sb /\ same_links s sb /\ same_trial s sb).
  { destruct H1 as (A1 & A2 & A3). split; [|split].
    - eapply same_shape_trans; [exact A1|].
      eapply same_shape_trans; apply same_shape_sNode.
    - eapply same_links_trans; [exact A2|].
      eapply same_links_trans; [apply same_links_sCheck|].
      apply same_links_sValue.
    - intros b. apply A3. }
  assert (Hvbb : vb sb bi).
  { apply (proj2 (vb_sValue _ _ _ _)), (proj2 (vb_sCheck _ _ _ _)).
    apply (proj2 (vb_sNum _ _ _ _)). exact Hvb. }
  destruct Hb as (B1 & B2 & B3).
  destruct (e =? Ehead (blk s bi)).
  - split; [eapply same_shape_trans; [exact B1|apply same_shape_sEhead]|].
    split; [eapply same_links_trans;
            [exact B2|apply same_links_sEhead; exact Hvbb]|].
    split; [eapply same_trial_trans;
            [exact B3|apply same_trial_sEhead; exact Hvbb]|].
    repeat split; reflexivity.
  - split; [exact B1|]. split; [exact B2|]. split; [exact B3|].
    repeat split; reflexivity.
Qed.

(** [popEnode], once the free slot [e] is chosen, under the allocator's
    invariant: it returns, the invariant holds again with [e] out of the
    ring of its block, the slot is the child of [from], and no occupied
    slot other than [from] is written. *)
Lemma popEnode_at_allocator s R F base from label e :
  allocator s R F -> Capacity s < 2 ^ 62 ->
  vn s e -> e ∈ F (Int.shr8 e) -> 0 <= from ->
  ((base <? 0) = true -> vn s from /\ 0 <= Check (nod s from)) ->
  exists s' R',
    popEnode_at base from label e s = Ok e s' /\
    allocator s' R'
      (fun b => if b =? Int.shr8 e then without e (F b) else F b) /\
    (forall b, b ∈ members R' <-> b ∈ members R) /\
    same_shape s s' /\ Ninfos s' = Ninfos s /\ Ordered s' = Ordered s /\
    nod s' e = mkNode ValueLimit from /\
    ((base <? 0) = true ->
     nod s' from
     = mkNode (Int.sub (Int.neg (Int.xor e (b2z label))) 1)
         (Check (nod s from))) /\
    (forall j, 0 <= Check (nod s j) ->
               ((base <? 0) = true -> j <> from) -> nod s' j = nod s j).
Proof.
  intros A Hcap Hve Hin Hfrom Hocc.
  set (bi := Int.shr8 e) in *.
  destruct (ao_shape _ _ _ A) as (nb & cb & Hnb & HS & HC & HA & HN & HB).
  assert (HLa : len (Array s) < 2 ^ 62) by lia.
  assert (Hvb : vb s bi).
  { pose proof (proj1 (shr8_block e bi) eq_refl) as Hb.
    unfold vn in Hve. unfold vb. lia. }
  pose proof (ao_free _ _ _ A bi Hvb) as HFR.
  pose proof (free_ring_length _ _ _ HFR) as Hlen.
  destruct HFR as (Hc & Hm & Hf & Hn & Hh).
  assert (Hlen1 : (1 <= length (F bi))%nat).
  { destruct (F bi); [inversion Hin|simpl; lia]. }
  assert (Hnd : NoDup (F bi)) by apply Hc.
  pose proof (length_without e (F bi) Hnd Hin) as Hlw.
  set (n1 := Int.sub (Num (blk s bi)) 1) in *.
  assert (En1 : n1 = Num (blk s bi) - 1).
  { unfold n1, Int.sub. apply wrap_small. destruct (bi =? 0); lia. }
  assert (Hfree : forall x, x ∈ F bi -> vn s x /\ Check (nod s x) < 0).
  { intros x Hx. destruct (Hm x Hx) as (Hvx & _ & Hbx).
    split; [exact Hvx|]. apply (Hf x Hvx Hbx). exact Hx. }
  assert (Hefree : Check (nod s e) < 0) by (apply Hfree; exact Hin).
  assert (Hfe : (base <? 0) = true -> from <> e).
  { intros Eb E. destruct (Hocc Eb) as [_ H]. rewrite E in H. lia. }
  pose proof (cyc_prv_in _ _ _ _ Hc Hin) as Hpin.
  pose proof (cyc_nxt_in _ _ _ _ Hc Hin) as Hnin.
  set (s1 := sNum bi n1 s).
  assert (Hve1 : vn s1 e) by (apply (proj2 (vn_sNum _ _ _ _)); exact Hve).
  assert (Hvb1 : vb s1 bi) by (apply (proj2 (vb_sNum _ _ _ _)); exact Hvb).
  assert (N1 : Num (blk s1 bi) = n1).
  { unfold s1. rewrite blk_sNum by exact Hvb. rewrite Z.eqb_refl.
    reflexivity. }
  assert (HR1 : block_rings s1 R).
  { apply (block_rings_frame s); [apply same_links_sNum; exact Hvb|].
    apply A. }
  (* the run, up to the test on the count *)
  eassert (Hpre : popEnode_at base from label e s = _).
  { unfold popEnode_at. fold bi.
    rewrite (bind_eval _ _ _ _ _ (rdNode_ok _ _ Hve)).
    rewrite (bind_eval _ _ _ _ _ (rdBlock_ok _ _ Hvb)).
    rewrite (bind_eval _ _ _ _ _ (rdNum_ok _ _ Hvb)).
    rewrite (bind_eval _ _ _ _ _ (wrNum_ok _ _ _ Hvb)).
    fold n1. fold s1.
    rewrite (bind_eval _ _ _ _ _ (rdNum_ok _ _ Hvb1)). rewrite N1.
    reflexivity. }
  (* the middle: unlinking and the change of ring *)
  assert (Hmid : exists s3 R',
    popEnode_at base from label e s = Ok e (taken base from label e s3) /\
    block_rings s3 R' /\
    same_shape s s3 /\ same_trial s s3 /\
    Ninfos s3 = Ninfos s /\ Ordered s3 = Ordered s /\
    (forall j, 0 <= Check (nod s j) -> nod s3 j = nod s j) /\
    (forall b, b <> bi -> Num (blk s3 b) = Num (blk s b)) /\
    Num (blk s3 bi) = n1 /\
    ((n1 = 0 /\ bi <> 0 /\ bi ∈ R HeadC /\ R' = moved bi HeadC HeadF R) \/
     (n1 = 1 /\ bi <> 0 /\ bi ∈ R HeadO /\ R' = moved bi HeadO HeadC R) \/
     (R' = R /\ n1 <> 0 /\
      (bi = 0 \/ n1 <> 1 \/ Trial (blk s bi) = MaxTrial s)))).
  { rewrite Hpre. clear Hpre.
    destruct (Z.eqb_spec n1 0) as [E0|E0].
    - (* the last free slot of the block *)
      assert (Hb0 : bi <> 0).
      { intros E. destruct (Z.eqb_spec bi 0) as [_|Hx]; [lia|contradiction]. }
      destruct (Z.eqb_spec bi 0) as [|_]; [contradiction|].
      assert (Hl1 : length (F bi) = 1%nat) by lia.
      assert (Hbi : bi ∈ R HeadC).
      { destruct (class_of_block s R F bi A Hvb Hb0) as [[H _]|[_ [H _]]].
        - intros E. rewrite E in Hin. inversion Hin.
        - exact H.
        - lia. }
      destruct (transferBlock_rings s1 R HeadC HeadF bi HR1 eq_refl Hbi)
        as (s3 & Ht & HR3 & Hlo).
      { rewrite N1. tauto. }
      exists s3, (moved bi HeadC HeadF R). split.
      { cbn [negb when]. rewrite (bind_eval _ _ _ _ _ Ht).
        apply taken_run.
        - unfold vn. rewrite (lo_array _ _ Hlo). exact Hve1.
        - intros Eb. unfold vn. rewrite (lo_array _ _ Hlo).
          apply (proj2 (vn_sNum _ _ _ _)). apply Hocc. exact Eb. }
      split; [exact HR3|].
      split.
      { eapply same_shape_trans; [apply same_shape_sNum|].
        apply links_only_same_shape. exact Hlo. }
      split.
      { eapply same_trial_trans; [apply same_trial_sNum; exact Hvb|].
        apply links_only_same_trial. exact Hlo. }
      split; [rewrite (lo_ninfos _ _ Hlo); reflexivity|].
      split; [rewrite (lo_ordered _ _ Hlo); reflexivity|].
      split.
      { intros j _. unfold nod. rewrite (lo_array _ _ Hlo). reflexivity. }
      split.
      { intros b Hb. rewrite (lo_num _ _ Hlo). unfold s1.
        rewrite blk_sNum by exact Hvb.
        destruct (Z.eqb_spec b bi); [contradiction|reflexivity]. }
      split; [rewrite (lo_num _ _ Hlo); exact N1|].
      left. auto.
    - (* the ring keeps a slot *)
      destruct (unlinked_run s e
                  (num <- rdNum bi ;; tr <- rdTrial bi ;;
                   mt <- gets MaxTrial ;;
                   when (negb (bi =? 0) && (num =? 1) && negb (tr =? mt))
                        (transferBlock bi HeadO HeadC))
                  Hve Hvb (proj1 (Hfree _ Hpin)) (proj1 (Hfree _ Hnin)) E0)
        as [Hun Hps].
      cbn zeta in Hun. fold bi in Hun. fold n1 in Hun. fold s1 in Hun.
      set (s2 := unlinked e s) in *.
      destruct (unlinked_frame s e Hvb) as (S2 & L2 & T2 & I2 & O2 & _).
      fold s2 in S2, L2, T2, I2, O2.
      destruct (pop_slot_nodes e s s2 Hps)
        as (_ & _ & LA2 & LB2 & Bo2 & Nb2 & Hnodes).
      fold bi in Bo2, Nb2, Hnodes. fold n1 in Nb2, Hnodes.
      destruct Hnodes as [[E _]|(_ & Ck2 & Vl2 & _)]; [contradiction|].
      assert (Hvb2 : vb s2 bi) by (unfold vb; rewrite LB2; exact Hvb).
      assert (Hocc2 : forall j, 0 <= Check (nod s j) -> nod s2 j = nod s j).
      { intros j Hj.
        assert (Hjp : j <> prvS s e).
        { intros E. rewrite E in Hj.
          pose proof (proj2 (Hfree _ Hpin)). lia. }
        assert (Hjn : j <> nxtS s e).
        { intros E. rewrite E in Hj.
          pose proof (proj2 (Hfree _ Hnin)). lia. }
        specialize (Ck2 j). specialize (Vl2 j).
        destruct (Z.eqb_spec j (prvS s e)); [contradiction|].
        destruct (Z.eqb_spec j (nxtS s e)); [contradiction|].
        destruct (nod s2 j), (nod s j). simpl in *. congruence. }
      assert (HR2 : block_rings s2 R).
      { apply (block_rings_frame s); [exact L2|apply A]. }
      assert (Hk : forall s3,
        (if negb (bi =? 0) && (n1 =? 1)
            && negb (Trial (blk s bi) =? MaxTrial s)
         then transferBlock bi HeadO HeadC s2 = Ok tt s3
         else s3 = s2) ->
        bind (v <- rdValue e ;; c <- rdCheck e ;; wrCheck (Int.neg v) c ;;;
              c <- rdCheck e ;; v <- rdValue e ;; wrValue (Int.neg c) v ;;;
              eh <- rdEhead bi ;;
              (if e =? eh then c <- rdCheck e ;; wrEhead bi (Int.neg c)
               else ret tt) ;;;
              num <- rdNum bi ;; tr <- rdTrial bi ;;
              mt <- gets MaxTrial ;;
              when (negb (bi =? 0) && (num =? 1) && negb (tr =? mt))
                   (transferBlock bi HeadO HeadC))
             (fun _ =>
                wrValue e ValueLimit ;;;
                wrCheck e from ;;;
                when (base <? 0)
                  (wrValue from
                     (Int.sub (Int.neg (Int.xor e (b2z label))) 1)) ;;;
                ret e) s1
        = (wrValue e ValueLimit ;;;
           wrCheck e from ;;;
           when (base <? 0)
             (wrValue from (Int.sub (Int.neg (Int.xor e (b2z label))) 1)) ;;;
           ret e) s3).
      { intros s3 H3. unfold bind at 1. rewrite Hun.
        rewrite (bind_eval _ _ _ _ _ (rdNum_ok _ _ Hvb2)).
        rewrite (bind_eval _ _ _ _ _ (rdTrial_ok _ _ Hvb2)).
        rewrite (bind_eval _ _ _ _ _ (gets_ok _ _)).
        rewrite Nb2, (T2 bi).
        replace (MaxTrial s2) with (MaxTrial s) by (symmetry; apply S2).
        destruct (negb (bi =? 0) && (n1 =? 1)
                  && negb (Trial (blk s bi) =? MaxTrial s)).
        - cbn [when]. rewrite H3. reflexivity.
        - cbn [when]. unfold ret. rewrite H3. reflexivity. }
      destruct (negb (bi =? 0) && (n1 =? 1)
                && negb (Trial (blk s bi) =? MaxTrial s)) eqn:Ecnd.
      + apply andb_true_iff in Ecnd. destruct Ecnd as [Ecnd Et].
        apply andb_true_iff in Ecnd. destruct Ecnd as [Eb En].
        apply negb_true_iff, Z.eqb_neq in Eb, Et. apply Z.eqb_eq in En.
        assert (Hbi : bi ∈ R HeadO).
        { destruct (class_of_block s R F bi A Hvb Eb) as [[_ H]|[H _]].
          - intros E. rewrite E in Hin. inversion Hin.
          - destruct (Z.eqb_spec bi 0); [contradiction|].
            destruct H as [H|H]; [lia|contradiction].
          - exact H. }
        destruct (transferBlock_rings s2 R HeadO HeadC bi HR2 eq_refl Hbi)
          as (s3 & Ht & HR3 & Hlo).
        { rewrite Nb2. split; [lia|discriminate]. }
        exists s3, (moved bi HeadO HeadC R). split.
        { rewrite (Hk s3 Ht). apply taken_run.
          - unfold vn. rewrite (lo_array _ _ Hlo), LA2. exact Hve.
          - intros E. unfold vn. rewrite (lo_array _ _ Hlo), LA2.
            apply Hocc. exact E. }
        split; [exact HR3|].
        split; [eapply same_shape_trans;
                [exact S2|apply links_only_same_shape; exact Hlo]|].
        split; [eapply same_trial_trans;
                [exact T2|apply links_only_same_trial; exact Hlo]|].
        split; [rewrite (lo_ninfos _ _ Hlo); exact I2|].
        split; [rewrite (lo_ordered _ _ Hlo); exact O2|].
        split.
        { intros j Hj. unfold nod at 1. rewrite (lo_array _ _ Hlo).
          apply Hocc2. exact Hj. }
        split.
        { intros b Hb. rewrite (lo_num _ _ Hlo), (Bo2 b Hb). reflexivity. }
        split; [rewrite (lo_num _ _ Hlo); exact Nb2|].
        right. left. auto.
      + exists s2, R. split.
        { rewrite (Hk s2 eq_refl). apply taken_run.
          - unfold vn. rewrite LA2. exact Hve.
          - intros E. unfold vn. rewrite LA2. apply Hocc. exact E. }
        split; [exact HR2|]. split; [exact S2|]. split; [exact T2|].
        split; [exact I2|]. split; [exact O2|]. split; [exact Hocc2|].
        split; [intros b Hb; rewrite (Bo2 b Hb); reflexivity|].
        split; [exact Nb2|].
        right. right. split; [reflexivity|]. split; [exact E0|].
        apply andb_false_iff in Ecnd. destruct Ecnd as [Ecnd|Et].
        * apply andb_false_iff in Ecnd. destruct Ecnd as [Eb|En].
          -- left. apply negb_false_iff, Z.eqb_eq in Eb. exact Eb.
          -- right. left. apply Z.eqb_neq in En. exact En.
        * right. right. apply negb_false_iff, Z.eqb_eq in Et. exact Et. }
  clear Hpre.
  destruct Hmid as (s3 & R' & Hrun & HR3 & S3 & T3 & I3 & O3 & Hocc3 & Nb3
                    & Nbi3 & Hcase).
  assert (Hve3 : vn s3 e).
  { unfold vn. destruct S3 as (_ & _ & -> & _). exact Hve. }
  assert (Hvf3 : (base <? 0) = true -> vn s3 from).
  { intros E. unfold vn. destruct S3 as (_ & _ & -> & _). apply Hocc.
    exact E. }
  destruct (taken_frame s3 base from label e Hve3 Hvf3)
    as (S' & L' & T' & B' & I' & O' & N').
  set (s' := taken base from label e s3) in *.
  set (F' := fun b => if b =? bi then without e (F b) else F b).
  assert (HF' : free_rings s' F').
  { destruct (popEnode_at_free_rings base from label e s e s' F
                (ao_free _ _ _ A) HLa Hin Hfrom) as (_ & H & _).
    - intros E. apply Hocc. exact E.
    - exact Hrun.
    - exact H. }
  assert (SS : same_shape s s') by (eapply same_shape_trans; eassumption).
  assert (TT : same_trial s s') by (eapply same_trial_trans; eassumption).
  assert (En : nblocks s' = nblocks s).
  { unfold nblocks. destruct SS as (-> & _). reflexivity. }
  assert (EM : MaxTrial s' = MaxTrial s) by apply SS.
  assert (Hmem : forall b, b ∈ members R' <-> b ∈ members R).
  { intros b. destruct Hcase as [(_ & _ & Hbi & ->)|[(_ & _ & Hbi & ->)
                                 |(-> & _)]].
    - apply members_moved; [reflexivity|exact Hbi].
    - apply members_moved; [reflexivity|exact Hbi].
    - tauto. }
  assert (Hnum' : forall b, Num (blk s' b)
                            = if b =? bi then n1 else Num (blk s b)).
  { intros b. unfold blk at 1. rewrite B'. fold (blk s3 b).
    destruct (Z.eqb_spec b bi) as [->|Hne]; [exact Nbi3|].
    apply Nb3. exact Hne. }
  exists s', R'. split; [exact Hrun|]. split.
  { constructor.
    - apply (alloc_shape_frame s); [exact SS|apply A].
    - apply (block_rings_frame s3); [exact L'|exact HR3].
    - intros b Hb. rewrite En. apply (ao_fresh _ _ _ A). apply Hmem.
      exact Hb.
    - intros b Hb. rewrite En in Hb. apply Hmem.
      apply (ao_cover _ _ _ A). exact Hb.
    - exact HF'.
    - intros h b Hb.
      assert (Hold : forall h0, b <> bi -> b ∈ R h0 ->
                                block_class s' F' h0 b).
      { intros h0 Hne Hb0.
        apply (block_class_ext s s' F F' h0 b).
        - unfold F'. destruct (Z.eqb_spec b bi); [contradiction|reflexivity].
        - apply TT.
        - exact EM.
        - apply (ao_classes _ _ _ A h0 b Hb0). }
      assert (EF : F' bi = without e (F bi))
        by (unfold F'; rewrite Z.eqb_refl; reflexivity).
      pose proof (br_nodup _ _ (ao_rings _ _ _ A)) as HndR.
      destruct Hcase as [(E0 & Hb0 & Hbi & ->)|[(E1 & Hb0 & Hbi & ->)
                         |(-> & E0 & Hc3)]].
      + apply (moved_elem R bi HeadC HeadF h b eq_refl) in Hb.
        destruct Hb as [[Hb Hne]|[-> Ho]].
        * apply Hold; [|exact Hb]. intros ->.
          rewrite (ring_unique R h HeadC bi HndR Hb Hbi) in Hne.
          apply Hne; reflexivity.
        * apply head_eqb_eq in Ho. subst h. simpl. rewrite EF.
          destruct (Z.eqb_spec bi 0); [contradiction|].
          destruct (without e (F bi)); [reflexivity|simpl in Hlw; lia].
      + apply (moved_elem R bi HeadO HeadC h b eq_refl) in Hb.
        destruct Hb as [[Hb Hne]|[-> Ho]].
        * apply Hold; [|exact Hb]. intros ->.
          rewrite (ring_unique R h HeadO bi HndR Hb Hbi) in Hne.
          apply Hne; reflexivity.
        * apply head_eqb_eq in Ho. subst h. simpl. rewrite EF.
          destruct (Z.eqb_spec bi 0); [contradiction|].
          split; [|left; lia].
          intros E. rewrite E in Hlw. simpl in Hlw. lia.
      + destruct (Z.eq_dec b bi) as [->|Hne]; [|apply Hold; assumption].
        assert (Hb0 : bi <> 0).
        { intros E. apply NoDup_cons in HndR. destruct HndR as [H0 _].
          apply H0. rewrite <- E. eapply in_members. exact Hb. }
        destruct (Z.eqb_spec bi 0); [contradiction|].
        pose proof (ao_classes _ _ _ A h bi Hb) as Hcl.
        destruct h; simpl in Hcl |- *; rewrite EF, ?(TT bi), ?EM.
        * rewrite Hcl in Hin. inversion Hin.
        * destruct Hcl as [_ Hcl]. split.
          -- intros E. rewrite E in Hlw. simpl in Hlw. lia.
          -- destruct Hcl as [Hcl|Hcl]; [lia|right; exact Hcl].
        * destruct Hcl as [Hl2 Ht]. split; [|exact Ht].
          destruct Hc3 as [?|[?|?]]; [contradiction|lia|contradiction].
    - intros b Hb. rewrite En in Hb. rewrite (TT b), Hnum'.
      destruct (ao_beyond _ _ _ A b Hb) as [Ht Hnm].
      destruct (Z.eqb_spec b bi) as [->|_]; [|auto].
      rewrite Hnm in Hn. destruct (bi =? 0); lia.
    - destruct SS as (_ & _ & _ & _ & _ & -> & _). apply A.
    - rewrite EM. apply A. }
  split; [exact Hmem|]. split; [exact SS|].
  split; [rewrite I'; exact I3|]. split; [rewrite O'; exact O3|].
  split.
  { rewrite N'. destruct (base <? 0) eqn:Eb; cbn [andb].
    - destruct (Z.eqb_spec e from) as [E|_];
        [symmetry in E; destruct (Hfe eq_refl E)|].
      rewrite Z.eqb_refl. reflexivity.
    - rewrite Z.eqb_refl. reflexivity. }
  split.
  { intros Eb. rewrite N', Eb, Z.eqb_refl. cbn [andb].
    destruct (Z.eqb_spec from e) as [E|_]; [destruct (Hfe Eb E)|].
    rewrite (Hocc3 from) by (apply Hocc; exact Eb). reflexivity. }
  intros j Hj Hjf. rewrite N'.
  assert (Hje : j <> e) by (intros ->; lia).
  destruct (Z.eqb_spec j e); [contradiction|].
  destruct (base <? 0) eqn:Eb; cbn [andb].
  - destruct (Z.eqb_spec j from) as [E|_]; [destruct (Hjf eq_refl E)|].
    apply Hocc3. exact Hj.
  - apply Hocc3. exact Hj.
Qed.

(** * A new child: [findPlace], [popEnode] and [follow] *)

Lemma Ninfos_sNode s i n : Ninfos (sNode i n s) = Ninfos s.
Proof. reflexivity. Qed.
Lemma Ninfos_sBlock s i b : Ninfos (sBlock i b s) = Ninfos s.
Proof. reflexivity. Qed.
Lemma Ninfos_fill n : forall i g s, Ninfos (fill n i g s) = Ninfos s.
Proof.
  induction n as [|n IH]; intros i g s; cbn [fill]; [reflexivity|].
  rewrite IH. reflexivity.
Qed.

Lemma ninf_out s j : ~ vi s j -> ninf s j = zeroNinfo.
Proof.
  intros H. unfold ninf. destruct (idx (Ninfos s) j) eqn:E; [|reflexivity].
  apply idx_vi in E. tauto.
Qed.

Lemma ninf_grown s :
  alloc_shape s -> Capacity s < 2 ^ 58 ->
  forall j, ninf (grown s) j = ninf s j.
Proof.
  intros (nb & cb & Hnb & HS & HC & HA & HN & HB) Hcap j. unfold grown.
  destruct (Size s =? Capacity s); [|reflexivity].
  unfold ninf at 1.
  cbn [Ninfos withBlocks withNinfos withArray withCapacity Capacity].
  assert (Ec : Int.add (Capacity s) (Capacity s) = 2 * Capacity s).
  { unfold Int.add. rewrite wrap_small; lia. }
  rewrite Ec. rewrite idx_grow by lia.
  destruct (Z.leb_spec 0 j), (Z.ltb_spec j (2 * Capacity s)); cbn [andb];
    try reflexivity; symmetry; apply ninf_out; unfold vi; lia.
Qed.

(** [addBlock] leaves the node infos as they were; the new ones are
    zero. *)
Lemma addBlock_ninf s b s' :
  alloc_shape s -> Capacity s < 2 ^ 58 ->
  addBlock s = Ok b s' ->
  forall j, ninf s' j = ninf s j.
Proof.
  intros Hsh Hcap H j.
  pose proof (ninf_grown s Hsh Hcap j) as Hg.
  destruct Hsh as (nb & cb & Hnb & HS & HC & HA & HN & HB).
  destruct (addBlock_steps s nb cb Hnb ltac:(lia) HS HC HA HN HB)
    as (Hrun & _).
  rewrite Hrun in H. clear Hrun.
  assert (EI : Ninfos (block_written s) = Ninfos (grown s)).
  { unfold block_written. cbn zeta.
    rewrite Ninfos_sNode, Ninfos_fill, Ninfos_sNode. reflexivity. }
  bind_inv H u s6 Hp. apply pushBlock_links_only in Hp.
  bind_inv H u2 s7 Hm. apply modify_inv in Hm.
  bind_inv H sz s8 Hs. apply gets_inv in Hs. destruct Hs as [_ ->].
  apply ret_inv in H. destruct H as [_ ->].
  rewrite <- Hg. unfold ninf.
  replace (Ninfos s7) with (Ninfos (grown s)); [reflexivity|].
  rewrite <- EI, <- (lo_ninfos _ _ Hp), Hm. reflexivity.
Qed.

Lemma Capacity_fill n : forall i g s, Capacity (fill n i g s) = Capacity s.
Proof.
  induction n as [|n IH]; intros i g s; cbn [fill]; [reflexivity|].
  rewrite IH. reflexivity.
Qed.

(** [addBlock] doubles the capacity when the slots are used up, and only
    then. *)
Lemma addBlock_capacity s b s' :
  alloc_shape s -> Capacity s < 2 ^ 58 ->
  addBlock s = Ok b s' ->
  Capacity s' = if Size s =? Capacity s then 2 * Capacity s else Capacity s.
Proof.
  intros Hsh Hcap H.
  destruct Hsh as (nb & cb & Hnb & HS & HC & HA & HN & HB).
  destruct (addBlock_steps s nb cb Hnb ltac:(lia) HS HC HA HN HB)
    as (Hrun & _).
  rewrite Hrun in H. clear Hrun.
  assert (EC : Capacity (block_written s) = Capacity (grown s)).
  { unfold block_written. cbn zeta.
    change (Capacity (sNode ?i ?n ?x)) with (Capacity x).
    rewrite Capacity_fill. reflexivity. }
  assert (EG : Capacity (grown s)
               = if Size s =? Capacity s then 2 * Capacity s
                 else Capacity s).
  { unfold grown. destruct (Size s =? Capacity s); [|reflexivity].
    cbn [Capacity withBlocks withNinfos withArray withCapacity].
    unfold Int.add. rewrite wrap_small; lia. }
  bind_inv H u s6 Hp. apply pushBlock_links_only in Hp.
  bind_inv H u2 s7 Hm. apply modify_inv in Hm.
  bind_inv H sz s8 Hs. apply gets_inv in Hs. destruct Hs as [_ ->].
  apply ret_inv in H. destruct H as [_ ->].
  rewrite <- EG, <- EC, <- (lo_capacity _ _ Hp), Hm. reflexivity.
Qed.

(** [findPlace] under the allocator's invariant, with what it leaves
    alone: the slot it returns was free, or lies in the block it added. *)
Lemma findPlace_full s R F :
  allocator s R F -> Capacity s < 2 ^ 58 ->
  exists e s0 R0 F0,
    findPlace s = Ok e s0 /\ allocator s0 R0 F0 /\
    e ∈ F0 (Int.shr8 e) /\ vn s0 e /\ Check (nod s0 e) < 0 /\
    ((vn s e /\ Check (nod s e) < 0 /\ e < Size s) \/ Size s <= e) /\
    (forall j, 0 <= j < Size s -> nod s0 j = nod s j) /\
    (forall j, ninf s0 j = ninf s j) /\
    Ordered s0 = Ordered s /\ Capacity s0 < 2 ^ 59 /\
    Size s <= Size s0 /\ len (Array s) <= len (Array s0) /\
    Size s0 <= Size s + 256 /\
    Capacity s <= Capacity s0 <= Z.max (Capacity s) (2 * Size s) /\
    0 < e < Size s0.
Proof.
  intros A Hcap.
  destruct (findPlace_ok s R F (ao_shape _ _ _ A) Hcap (ao_rings _ _ _ A)
              (ao_fresh _ _ _ A) (ao_free _ _ _ A) (ao_nonempty _ _ _ A))
    as (e & s0 & F0 & Hrun & HF0 & Hin & HL & Hold & Hcase).
  destruct Hcase as [(-> & -> & Hb)|(EC & EO & Hadd & -> & ->)].
  - assert (Hbm : Int.shr8 e ∈ members R).
    { destruct Hb as [Hb|[_ Hb]]; eapply in_members; exact Hb. }
    destruct (allocator_block _ _ _ _ A Hbm) as (Hv & _).
    destruct (ao_free _ _ _ A _ Hv) as (_ & Hm & Hf & _).
    destruct (Hm e Hin) as (Hve & _ & _).
    assert (Hfree : Check (nod s e) < 0) by (apply (Hf e Hve eq_refl); auto).
    assert (Hlt : e < Size s).
    { pose proof (ao_fresh _ _ _ A _ Hbm) as Hlt. unfold nblocks in Hlt.
      destruct (ao_shape _ _ _ A) as (nb & cb & _ & HS & _).
      rewrite HS, shr8_mul in Hlt.
      pose proof (proj1 (shr8_block e (Int.shr8 e)) eq_refl). lia. }
    exists e, s, R, F. split; [exact Hrun|]. split; [exact A|].
    split; [exact Hin|]. split; [exact Hve|]. split; [exact Hfree|].
    split; [left; auto|]. split; [auto|]. split; [auto|].
    split; [reflexivity|]. split; [lia|]. split; [lia|]. split; [lia|].
    split; [lia|]. split; [lia|]. destruct (Hm e Hin) as (_ & H0 & _). lia.
  - destruct (addBlock_allocator s R F A Hcap)
      as (s' & Hrun' & A' & HS' & Hnod & HLa).
    rewrite Hadd in Hrun'. inversion Hrun'; subst s'. clear Hrun'.
    destruct (addBlock_ok s R (ao_shape _ _ _ A) Hcap (ao_rings _ _ _ A)
                (ao_fresh _ _ _ A))
      as (s' & Hrun' & _ & _ & _ & _ & _ & _ & _ & _ & _ & HO & HC').
    rewrite Hadd in Hrun'. inversion Hrun'; subst s'. clear Hrun'.
    assert (Hbm : Int.shr8 (Size s)
                  ∈ members (pushed (nblocks s) HeadO R)).
    { apply (in_members _ HeadO). apply pushed_elem. left.
      split; reflexivity. }
    destruct (allocator_block _ _ _ _ A' Hbm) as (Hv & _).
    destruct (ao_free _ _ _ A' _ Hv) as (_ & Hm & Hf & _).
    destruct (Hm _ Hin) as (Hve & _ & _).
    exists (Size s), s0, (pushed (nblocks s) HeadO R), (added_rings s F).
    split; [exact Hrun|]. split; [exact A'|]. split; [exact Hin|].
    split; [exact Hve|].
    split; [apply (Hf _ Hve eq_refl); exact Hin|].
    split; [right; lia|]. split; [exact Hold|].
    split; [apply (addBlock_ninf s _ s0 (ao_shape _ _ _ A) Hcap Hadd)|].
    split; [exact HO|]. split; [exact HC'|]. split; [lia|].
    split; [lia|]. split; [lia|].
    pose proof (addBlock_capacity s _ s0 (ao_shape _ _ _ A) Hcap Hadd) as HCe.
    destruct (ao_shape _ _ _ A) as (nb & cb & Hnb & HSz & HCz & _).
    split; [|lia].
    destruct (Z.eqb_spec (Size s) (Capacity s)); lia.
Qed.

(** A write to [Ninfos] leaves the allocator alone. *)
Lemma allocator_sNinfo s R F i n :
  allocator s R F -> allocator (sNinfo i n s) R F.
Proof.
  apply allocator_frame.
  - apply same_shape_sNinfo.
  - apply same_links_sNinfo.
  - apply same_slots_sNinfo.
  - apply same_trial_sNinfo.
Qed.

Lemma allocator_spliced s R F base label c :
  allocator s R F -> allocator (spliced base label c s) R F.
Proof.
  intros A. unfold spliced, pset, sChild, sSibling.
  destruct c; apply allocator_sNinfo, allocator_sNinfo; exact A.
Qed.

Lemma nod_spliced s base label c j : nod (spliced base label c s) j = nod s j.
Proof.
  unfold nod. rewrite (proj1 (spliced_frame s base label c)). reflexivity.
Qed.

Lemma alloc_vi s j : alloc_shape s -> (vi s j <-> vn s j).
Proof.
  intros (nb & cb & _ & _ & _ & HA & HN & _). unfold vi, vn.
  rewrite HA, HN. tauto.
Qed.

(** The base of a node that has none yet is negative. *)
Lemma base_negative n : 0 <= Value n < 2 ^ 63 -> base n < 0.
Proof.
  intros H. unfold base, Int.add, Int.neg.
  destruct (Z.eq_dec (Value n) (2 ^ 63 - 1)) as [E|E].
  - rewrite E. vm_compute. reflexivity.
  - rewrite (wrap_small (Value n + 1)) by lia. rewrite wrap_small; lia.
Qed.

Lemma base_of_value e c :
  0 <= e < 2 ^ 62 -> base (mkNode (Int.sub (Int.neg e) 1) c) = e.
Proof.
  intros H. unfold base, Int.sub, Int.neg, Int.add. cbn [Value].
  rewrite (wrap_small (- e)) by lia.
  rewrite (wrap_small (- e - 1)) by lia.
  rewrite (wrap_small (- e - 1 + 1)) by lia.
  rewrite wrap_small; lia.
Qed.

(** [popEnode] under the allocator's invariant, in both of its forms: the
    slot comes from [findPlace] when the parent has no base, and is
    [base XOR label] otherwise. *)
Lemma popEnode_allocator s R F base from label :
  allocator s R F -> Capacity s < 2 ^ 58 -> 0 <= from ->
  (base < 0 -> from < Size s /\ 0 <= Check (nod s from)) ->
  (0 <= base -> vn s (Int.xor base (b2z label)) /\
                Check (nod s (Int.xor base (b2z label))) < 0) ->
  exists e s' R' F',
    popEnode base from label s = Ok e s' /\
    allocator s' R' F' /\
    (0 <= base -> e = Int.xor base (b2z label) /\ Size s' = Size s /\
                  Capacity s' = Capacity s) /\
    ((vn s e /\ Check (nod s e) < 0) \/ Size s <= e) /\
    vn s' e /\ nod s' e = mkNode ValueLimit from /\
    (base < 0 ->
     nod s' from
     = mkNode (Int.sub (Int.neg (Int.xor e (b2z label))) 1)
         (Check (nod s from))) /\
    (forall j, 0 <= j < Size s -> 0 <= Check (nod s j) ->
               (base < 0 -> j <> from) -> nod s' j = nod s j) /\
    (forall j, ninf s' j = ninf s j) /\
    Ordered s' = Ordered s /\ Size s <= Size s' /\ Capacity s' < 2 ^ 59 /\
    len (Array s) <= len (Array s') /\
    Size s' <= Size s + 256 /\
    Capacity s <= Capacity s' <= Z.max (Capacity s) (2 * Size s) /\
    0 < e < Size s'.
Proof.
  intros A Hcap Hfrom Hneg Hpos. rewrite popEnode_eq.
  destruct (Z.ltb_spec base 0) as [Hb|Hb].
  - destruct (Hneg Hb) as [Hlt Hocc].
    destruct (findPlace_full s R F A Hcap)
      as (e & s0 & R0 & F0 & Hfp & A0 & Hin & Hve & Hfree & Hwas & Hold
          & Hinf & HO & HC0 & HS0 & HL0 & HS0' & HC0' & He0).
    assert (Hvf : vn s from).
    { destruct (ao_shape _ _ _ A) as (nb & cb & Hnb & HS & _ & HA & _).
      unfold vn. lia. }
    destruct (popEnode_at_allocator s0 R0 F0 base from label e A0
                ltac:(lia) Hve Hin Hfrom)
      as (s' & R' & Hrun & A' & _ & SS & EI & EO & Ne & Nf & Nocc).
    { intros _. rewrite (Hold from) by lia. split; [|exact Hocc].
      unfold vn in *. lia. }
    assert (Eb : (base <? 0) = true) by (apply Z.ltb_lt; exact Hb).
    exists e, s', R'. eexists. split.
    { rewrite (bind_eval _ _ _ _ _ Hfp). exact Hrun. }
    split; [exact A'|]. split; [intros; lia|].
    split; [destruct Hwas as [(H1 & H2 & _)|H]; auto|].
    split; [unfold vn in *; destruct SS as (_ & _ & -> & _); exact Hve|].
    split; [exact Ne|].
    split; [intros _; rewrite (Nf Eb), (Hold from) by lia; reflexivity|].
    split.
    { intros j Hj Hjo Hjf. rewrite <- (Hold j Hj). apply Nocc.
      - rewrite (Hold j Hj). exact Hjo.
      - intros _. apply Hjf. exact Hb. }
    split; [intros j; unfold ninf; rewrite EI; apply Hinf|].
    split; [rewrite EO; exact HO|].
    destruct SS as (-> & -> & -> & _). auto 10.
  - destruct (Hpos Hb) as [Hve Hfree].
    set (e := Int.xor base (b2z label)) in *.
    assert (Hin : e ∈ F (Int.shr8 e) /\ 0 < e < Size s).
    { destruct (ao_shape _ _ _ A) as (nb & cb & Hnb & HS & HC & HA & HN & HB).
      assert (Hvb : vb s (Int.shr8 e)).
      { pose proof (proj1 (shr8_block e (Int.shr8 e)) eq_refl).
        unfold vn in Hve. unfold vb. lia. }
      destruct (ao_free _ _ _ A _ Hvb) as (_ & Hm & Hf & Hn & _).
      assert (Hin : e ∈ F (Int.shr8 e))
        by (apply (Hf e Hve eq_refl); exact Hfree).
      split; [exact Hin|]. destruct (Hm e Hin) as (_ & H0 & _).
      split; [exact H0|].
      destruct (Z.lt_ge_cases (Int.shr8 e) (nblocks s)) as [Hlt|Hge].
      - unfold nblocks in Hlt. rewrite HS, shr8_mul in Hlt.
        pose proof (proj1 (shr8_block e (Int.shr8 e)) eq_refl). lia.
      - destruct (ao_beyond _ _ _ A _ Hge) as [_ E]. rewrite E in Hn.
        destruct (F (Int.shr8 e)); [inversion Hin|].
        simpl in Hn. destruct (Int.shr8 e =? 0); lia. }
    destruct Hin as [Hin Helt].
    assert (Eb : (base <? 0) = false) by (apply Z.ltb_ge; exact Hb).
    destruct (popEnode_at_allocator s R F base from label e A
                ltac:(lia) Hve Hin Hfrom)
      as (s' & R' & Hrun & A' & _ & SS & EI & EO & Ne & Nf & Nocc).
    { rewrite Eb. discriminate. }
    exists e, s', R'. eexists. split.
    { rewrite (bind_eval _ _ s e s) by reflexivity. exact Hrun. }
    split; [exact A'|].
    split; [intros _; split; [reflexivity|split; apply SS]|].
    split; [left; auto|].
    split; [unfold vn in *; destruct SS as (_ & _ & -> & _); exact Hve|].
    split; [exact Ne|]. split; [intros; lia|].
    split.
    { intros j Hj Hjo _. apply Nocc; [exact Hjo|]. rewrite Eb.
      discriminate. }
    split; [intros j; unfold ninf; rewrite EI; reflexivity|].
    split; [exact EO|].
    destruct SS as (-> & -> & -> & _). split; [lia|]. split; [lia|].
    split; [lia|]. split; [lia|]. split; lia.
Qed.

(** [follow] from a node that has no base: a fresh slot becomes its only
    child. *)
Lemma follow_no_base s R F fuel from label :
  allocator s R F -> Capacity s < 2 ^ 58 ->
  0 <= from < Size s -> 0 <= Check (nod s from) ->
  0 <= Value (nod s from) < 2 ^ 63 ->
  exists to s' R' F',
    follow fuel from label s = Ok to s' /\
    allocator s' R' F' /\
    ((vn s to /\ Check (nod s to) < 0) \/ Size s <= to) /\
    vn s' to /\ nod s' to = mkNode ValueLimit from /\
    nod s' from
    = mkNode (Int.sub (Int.neg (Int.xor to (b2z label))) 1)
        (Check (nod s from)) /\
    to = Int.xor (base (nod s' from)) (b2z label) /\
    Child (ninf s' from) = label /\
    Sibling (ninf s' to) = Child (ninf s from) /\
    (forall j, 0 <= j < Size s -> 0 <= Check (nod s j) -> j <> from ->
               nod s' j = nod s j) /\
    (forall j, j <> from -> j <> to -> ninf s' j = ninf s j) /\
    Ordered s' = Ordered s /\ Size s <= Size s' /\ Capacity s' < 2 ^ 59 /\
    len (Array s) <= len (Array s') /\
    Size s' <= Size s + 256 /\
    Capacity s <= Capacity s' <= Z.max (Capacity s) (2 * Size s) /\
    0 < to < Size s'.
Proof.
  intros A Hcap Hfrom Hocc Hval.
  pose proof (base_negative (nod s from) Hval) as Hbase.
  set (b := base (nod s from)) in *.
  destruct (ao_shape _ _ _ A) as (nb & cb & Hnb & HS & HC & HA & HN & HB).
  assert (Hvf : vn s from) by (unfold vn; lia).
  destruct (popEnode_allocator s R F b from label A Hcap ltac:(lia))
    as (e & s1 & R1 & F1 & Hpop & A1 & _ & Hwas & Hve & Ne & Nf & Nocc & Hinf
        & HO & HS1 & HC1 & HL1 & HSb & HCb & Hes).
  { intros _. split; [lia|exact Hocc]. }
  { intros H. lia. }
  specialize (Nf Hbase).
  assert (Hvf1 : vn s1 from) by (unfold vn in *; lia).
  pose proof (ao_shape _ _ _ A1) as Hsh1.
  assert (Hif : vi s1 from) by (apply alloc_vi; assumption).
  assert (Hie : vi s1 (Int.xor (Int.xor e (b2z label)) (b2z label))).
  { rewrite xor_xor. apply alloc_vi; assumption. }
  assert (Hfe : from <> e).
  { intros E. rewrite <- E in Ne. rewrite Ne in Nf. inversion Nf as [[H1 H2]].
    destruct Hwas as [[_ Hw]|Hw]; [rewrite <- E in Hw; lia|lia]. }
  set (s' := spliced (Int.xor e (b2z label)) label (ChildOf from) s1).
  assert (Hrun : follow fuel from label s = Ok e s').
  { unfold follow.
    rewrite (bind_eval _ _ s b s)
      by (rewrite rdBase_eval, (idx_nod _ _ Hvf); reflexivity).
    destruct (Z.ltb_spec b 0) as [_|]; [|lia].
    rewrite (bind_eval _ _ s true s) by reflexivity.
    destruct (Z.leb_spec 0 b) as [|_]; [lia|].
    rewrite (bind_eval _ _ s false s) by reflexivity.
    rewrite (bind_eval _ _ _ _ _ Hpop).
    rewrite (bind_eval _ _ s1 tt s'); [reflexivity|].
    apply pushSibling_run; try assumption. reflexivity. }
  assert (Hne : ChildOf from
                <> SiblingOf (Int.xor (Int.xor e (b2z label)) (b2z label)))
    by discriminate.
  exists e, s', R1, F1. split; [exact Hrun|].
  split; [apply allocator_spliced; exact A1|].
  split; [exact Hwas|].
  split; [unfold vn, s'; rewrite (proj1 (spliced_frame _ _ _ _)); exact Hve|].
  split; [unfold s'; rewrite nod_spliced; exact Ne|].
  split; [unfold s'; rewrite nod_spliced; exact Nf|].
  split.
  { unfold s'. rewrite nod_spliced, Nf.
    assert (He : 0 <= Int.xor e (b2z label) < 2 ^ 62).
    { destruct Hsh1 as (nb1 & cb1 & Hnb1 & _ & HC1' & HA1 & _).
      pose proof (b2z_range label) as Hl.
      pose proof (xor_block e (b2z label) Hl) as Hb.
      apply shr8_block in Hb.
      pose proof (proj1 (shr8_block e (Int.shr8 e)) eq_refl).
      unfold vn in Hve. lia. }
    rewrite (base_of_value _ _ He), xor_xor. reflexivity. }
  split.
  { change (Child (ninf s' from)) with (pget s' (ChildOf from)). unfold s'.
    rewrite pget_spliced; [|exact Hie|exact Hif|exact Hne].
    destruct (decide (ChildOf from = ChildOf from)); [|contradiction].
    reflexivity. }
  split.
  { rewrite <- (Hinf from). rewrite <- (xor_xor e (b2z label)) at 1.
    unfold s'. rewrite sibling_spliced; [reflexivity|exact Hie|exact Hif|].
    exact Hne. }
  split.
  { intros j Hj Hjo Hjf. unfold s'. rewrite nod_spliced.
    apply Nocc; auto. }
  split.
  { intros j Hjf Hje. rewrite <- (Hinf j). unfold s', spliced.
    cbn [pset pget]. rewrite ninf_sChild.
    2:{ apply vi_sNinfo. exact Hif. }
    destruct (Z.eqb_spec j from); [contradiction|].
    rewrite ninf_sSibling by exact Hie. rewrite xor_xor.
    destruct (Z.eqb_spec j e); [contradiction|]. reflexivity. }
  split.
  { unfold s'. destruct (spliced_frame s1 (Int.xor e (b2z label)) label
                           (ChildOf from)) as (_ & _ & _ & _ & _ & -> & _).
    exact HO. }
  unfold s'.
  destruct (spliced_frame s1 (Int.xor e (b2z label)) label (ChildOf from))
    as (-> & _ & _ & -> & -> & _). auto 10.
Qed.

(** A value written into an occupied slot leaves the allocator alone. *)
Lemma allocator_sValue s R F i v :
  allocator s R F -> vn s i -> 0 <= Check (nod s i) ->
  allocator (sValue i v s) R F.
Proof.
  intros [A1 A2 A3 A4 A5 A6 A7 A8 A9] Hv Hocc.
  assert (SS : same_shape s (sValue i v s)) by apply same_shape_sNode.
  constructor.
  - apply (alloc_shape_frame s); assumption.
  - apply (block_rings_frame s); [apply same_links_sValue|exact A2].
  - exact A3.
  - exact A4.
  - intros b Hb. apply (proj1 (vb_sValue _ _ _ _)) in Hb.
    apply (free_ring_ext s _ b (F b) (A5 b Hb)).
    + rewrite len_Array_sValue. lia.
    + intros e _. rewrite nod_sValue by exact Hv.
      destruct (Z.eqb_spec e i) as [->|_]; cbn [Check Value]; [|auto].
      split; [reflexivity|lia].
    + reflexivity.
    + reflexivity.
  - exact A6.
  - exact A7.
  - exact A8.
  - exact A9.
Qed.

(** X8: [popEnode] returns and keeps the allocator's invariant.  Under the
    invariant (sizes that fit, well-formed block rings and free rings, every
    block in the ring of its class) and with [Capacity < 2^58],
    [popEnode(base, from, label)] returns a slot [e] that was free or lies in
    a block just added: the slot [base XOR label] when [base >= 0] and that
    slot is free, and the slot that [findPlace] supplies when [base < 0] and
    [from] is an occupied slot.  Afterwards the invariant holds again,
    [Array[e]] is [{ValueLimit, from}], for [base < 0] the parent's
    [Value] is [-(e XOR label) - 1], no other occupied slot below [Size] and
    no [Ninfos] entry has changed. *)
Theorem popEnode_keeps_allocator s R F base from label :
  allocator s R F -> Capacity s < 2 ^ 58 -> 0 <= from ->
  (base < 0 -> from < Size s /\ 0 <= Check (nod s from)) ->
  (0 <= base -> vn s (Int.xor base (b2z label)) /\
                Check (nod s (Int.xor base (b2z label))) < 0) ->
  exists e s',
    popEnode base from label s = Ok e s' /\
    (exists R' F', allocator s' R' F') /\
    (0 <= base -> e = Int.xor base (b2z label) /\ Size s' = Size s) /\
    ((vn s e /\ Check (nod s e) < 0) \/ Size s <= e) /\
    vn s' e /\ nod s' e = mkNode ValueLimit from /\
    (base < 0 ->
     nod s' from
     = mkNode (Int.sub (Int.neg (Int.xor e (b2z label))) 1)
         (Check (nod s from))) /\
    (forall j, 0 <= j < Size s -> 0 <= Check (nod s j) ->
               (base < 0 -> j <> from) -> nod s' j = nod s j) /\
    (forall j, ninf s' j = ninf s j).
Proof.
  intros A Hcap Hfrom Hneg Hpos.
  destruct (popEnode_allocator s R F base from label A Hcap Hfrom Hneg Hpos)
    as (e & s' & R' & F' & Hrun & A' & H1 & H2 & H3 & H4 & H5 & H6 & H7 & _).
  exists e, s'. split; [exact Hrun|]. split; [eauto|].
  split; [intros Hb; destruct (H1 Hb) as (E1 & E2 & _); auto|]. auto 10.
Qed.

(** X8, witness: in the state with "ab" := 10 the terminal slot 256 has no
    base; [findPlace] supplies the slot. *)
Lemma popEnode_keeps_allocator_witness :
  exists e s',
    popEnode (-11) 256 "c" state_ab = Ok e s' /\
    (exists R' F', allocator s' R' F') /\
    (0 <= -11 -> e = Int.xor (-11) (b2z "c") /\ Size s' = Size state_ab) /\
    ((vn state_ab e /\ Check (nod state_ab e) < 0) \/ Size state_ab <= e) /\
    vn s' e /\ nod s' e = mkNode ValueLimit 256 /\
    (-11 < 0 ->
     nod s' 256
     = mkNode (Int.sub (Int.neg (Int.xor e (b2z "c"))) 1)
         (Check (nod state_ab 256))) /\
    (forall j, 0 <= j < Size state_ab -> 0 <= Check (nod state_ab j) ->
               (-11 < 0 -> j <> 256) -> nod s' j = nod state_ab j) /\
    (forall j, ninf s' j = ninf state_ab j).
Proof.
  apply (popEnode_keeps_allocator state_ab (rings_of state_ab)
           (ring_of state_ab) (-11) 256 "c").
  - apply allocator_b_sound. vm_compute. reflexivity.
  - vm_compute. reflexivity.
  - lia.
  - intros _. vm_compute. split; [reflexivity|discriminate].
  - intros H. lia.
Defined.

(** X9: [follow] from a node that has no base yet.  Under the allocator's
    invariant, for an occupied slot [from] below [Size] whose [Value] is not
    negative (a terminal, or a node just made), [follow(from, label)]
    returns a slot [to] that was free or lies in a block just added; in the
    state at return [Array[to]] is [{ValueLimit, from}], so [to] is occupied
    with [Check == from]; [to == Array[from].base() XOR label]; [label] is
    the only member of the sibling chain of [from] when [from] had no child
    recorded ([Child] of [from] is [label], the [Sibling] of [to] is the
    [Child] that [from] had); no other occupied slot is written, and the
    invariant holds again. *)
Theorem follow_makes_first_child s R F fuel from label :
  allocator s R F -> Capacity s < 2 ^ 58 ->
  0 <= from < Size s -> 0 <= Check (nod s from) ->
  0 <= Value (nod s from) < 2 ^ 63 ->
  exists to s',
    follow fuel from label s = Ok to s' /\
    (exists R' F', allocator s' R' F') /\
    ((vn s to /\ Check (nod s to) < 0) \/ Size s <= to) /\
    vn s' to /\ nod s' to = mkNode ValueLimit from /\
    to = Int.xor (base (nod s' from)) (b2z label) /\
    Check (nod s' from) = Check (nod s from) /\
    Child (ninf s' from) = label /\
    Sibling (ninf s' to) = Child (ninf s from) /\
    (forall j, 0 <= j < Size s -> 0 <= Check (nod s j) -> j <> from ->
               nod s' j = nod s j) /\
    (forall j, j <> from -> j <> to -> ninf s' j = ninf s j).
Proof.
  intros A Hcap Hfrom Hocc Hval.
  destruct (follow_no_base s R F fuel from label A Hcap Hfrom Hocc Hval)
    as (to & s' & R' & F' & Hrun & A' & H1 & H2 & H3 & H4 & H5 & H6 & H7 & H8
        & H9 & _).
  exists to, s'. split; [exact Hrun|]. split; [eauto|].
  split; [exact H1|]. split; [exact H2|]. split; [exact H3|].
  split; [exact H5|]. split; [rewrite H4; reflexivity|]. auto.
Qed.

(** X9, witness: the terminal slot 256 of "ab" gets the child "c". *)
Lemma follow_makes_first_child_witness :
  exists to s',
    follow 8 256 "c" state_ab = Ok to s' /\
    (exists R' F', allocator s' R' F') /\
    ((vn state_ab to /\ Check (nod state_ab to) < 0)
     \/ Size state_ab <= to) /\
    vn s' to /\ nod s' to = mkNode ValueLimit 256 /\
    to = Int.xor (base (nod s' 256)) (b2z "c") /\
    Check (nod s' 256) = Check (nod state_ab 256) /\
    Child (ninf s' 256) = "c"%byte /\
    Sibling (ninf s' to) = Child (ninf state_ab 256) /\
    (forall j, 0 <= j < Size state_ab -> 0 <= Check (nod state_ab j) ->
               j <> 256 -> nod s' j = nod state_ab j) /\
    (forall j, j <> 256 -> j <> to -> ninf s' j = ninf state_ab j).
Proof.
  apply (follow_makes_first_child state_ab (rings_of state_ab)
           (ring_of state_ab) 8 256 "c").
  - apply allocator_b_sound. vm_compute. reflexivity.
  - vm_compute. reflexivity.
  - vm_compute. split; [discriminate|reflexivity].
  - vm_compute. discriminate.
  - vm_compute. split; [discriminate|reflexivity].
Defined.

(** X10: the walk of [getV] moves a terminal value out of the way.  When
    the node [from] of the walk holds a value ([0 <= Value < ValueLimit]),
    one round of the loop of [getV] first calls [follow(from, 0)], which
    under the allocator's invariant returns a new slot [to], and writes the
    value there; the round then goes on from the state [s2] in which
    [Array[to]] is [{value, from}], [from] is a branching node whose base
    is [to] (its 0-labelled edge leads to [to]), no other occupied slot has
    changed and the invariant holds again. *)
Theorem getV_moves_terminal_value s R F fuel from :
  allocator s R F -> Capacity s < 2 ^ 58 ->
  0 <= from < Size s -> 0 <= Check (nod s from) ->
  0 <= Value (nod s from) < ValueLimit ->
  exists to s2,
    (forall n key pos,
       getV_loop (S n) fuel key from pos s
       = (k <- at_ key pos ;;
          from' <- follow fuel from k ;;
          getV_loop n fuel key from' (Int.add pos 1)) s2) /\
    (exists s1, follow fuel from x00 s = Ok to s1 /\
                s2 = sValue to (Value (nod s from)) s1) /\
    ((vn s to /\ Check (nod s to) < 0) \/ Size s <= to) /\
    nod s2 to = mkNode (Value (nod s from)) from /\
    Value (nod s2 from) < 0 /\ base (nod s2 from) = to /\
    edge s2 from x00 = Some to /\
    (forall j, 0 <= j < Size s -> 0 <= Check (nod s j) -> j <> from ->
               nod s2 j = nod s j) /\
    (exists R' F', allocator s2 R' F').
Proof.
  intros A Hcap Hfrom Hocc Hval.
  assert (Hval' : 0 <= Value (nod s from) < 2 ^ 63)
    by (unfold ValueLimit in Hval; lia).
  destruct (follow_no_base s R F fuel from x00 A Hcap Hfrom Hocc Hval')
    as (to & s1 & R' & F' & Hrun & A' & Hwas & Hvt & Nt & Nf & Eto & _ & _
        & Nocc & _ & _ & _ & HC1 & HL1 & _).
  set (v := Value (nod s from)) in *.
  set (s2 := sValue to v s1).
  destruct (ao_shape _ _ _ A) as (nb & cb & Hnb & HS & HC & HA & HN & HB).
  destruct (ao_shape _ _ _ A') as (nb1 & cb1 & Hnb1 & _ & HC1' & HA1 & _).
  assert (Hvf : vn s from) by (unfold vn; lia).
  assert (Hvf1 : vn s1 from) by (unfold vn in *; lia).
  assert (Hb : 0 <= to < 2 ^ 62) by (unfold vn in Hvt; lia).
  assert (Hft : from <> to).
  { intros E. rewrite <- E in Nt. rewrite Nt in Nf.
    inversion Nf as [[H1 H2]].
    destruct Hwas as [[_ Hw]|Hw]; [rewrite <- E in Hw; lia|lia]. }
  assert (N2 : forall j, nod s2 j
               = if j =? to then mkNode v from else nod s1 j).
  { intros j. unfold s2. rewrite nod_sValue by exact Hvt. rewrite Nt.
    reflexivity. }
  assert (Hto : to = base (nod s1 from)).
  { rewrite Eto. change (b2z x00) with 0. unfold Int.xor.
    rewrite Z.lxor_0_r. reflexivity. }
  assert (Hneg : Value (nod s1 from) < 0).
  { rewrite Nf. cbn [Value]. change (b2z x00) with 0. unfold Int.xor.
    rewrite Z.lxor_0_r. unfold Int.sub, Int.neg.
    rewrite (wrap_small (- to)) by lia. rewrite wrap_small by lia. lia. }
  exists to, s2. split.
  { intros n key pos. cbn [getV_loop].
    rewrite (bind_eval _ _ _ _ _ (rdValue_ok _ _ Hvf)). fold v.
    destruct (Z.leb_spec 0 v) as [_|]; [|lia].
    destruct (Z.eqb_spec v ValueLimit) as [|_]; [lia|]. cbn [andb negb].
    rewrite (bind_eval _ _ s tt s2); [reflexivity|].
    rewrite (bind_eval _ _ _ _ _ Hrun). apply wrValue_ok. exact Hvt. }
  split; [exists s1; auto|]. split; [exact Hwas|].
  split; [rewrite N2, Z.eqb_refl; reflexivity|].
  assert (Nf2 : nod s2 from = nod s1 from).
  { rewrite N2. destruct (Z.eqb_spec from to); [contradiction|reflexivity]. }
  split; [rewrite Nf2; exact Hneg|].
  split; [rewrite Nf2; symmetry; exact Hto|].
  split.
  { unfold edge.
    assert (Hvf2 : vn s2 from)
      by (unfold s2; apply (proj2 (vn_sValue _ _ _ _)); exact Hvf1).
    assert (Hvt2 : vn s2 to)
      by (unfold s2; apply (proj2 (vn_sValue _ _ _ _)); exact Hvt).
    rewrite (idx_nod _ _ Hvf2), Nf2.
    destruct (Z.ltb_spec (Value (nod s1 from)) 0) as [_|]; [|lia].
    rewrite <- Hto. unfold vn in Hvt.
    destruct (Z.leb_spec 0 to) as [_|]; [|lia]. cbn [andb].
    change (b2z x00) with 0. unfold Int.xor. rewrite Z.lxor_0_r.
    rewrite (idx_nod _ _ Hvt2), N2, Z.eqb_refl. cbn [Check].
    rewrite Z.eqb_refl. reflexivity. }
  split.
  { intros j Hj Hjo Hjf. rewrite N2.
    destruct (Z.eqb_spec j to) as [->|_]; [|apply Nocc; assumption].
    exfalso. destruct Hwas as [[_ Hw]|Hw]; lia. }
  exists R', F'. apply allocator_sValue; [exact A'|exact Hvt|].
  rewrite Nt. cbn [Check]. lia.
Qed.

(** X10, witness: "ab" holds 10 at slot 256; a walk through that slot moves
    the 10 to a new slot. *)
Lemma getV_moves_terminal_value_witness :
  exists to s2,
    (forall n key pos,
       getV_loop (S n) 8 key 256 pos state_ab
       = (k <- at_ key pos ;;
          from' <- follow 8 256 k ;;
          getV_loop n 8 key from' (Int.add pos 1)) s2) /\
    (exists s1, follow 8 256 x00 state_ab = Ok to s1 /\
                s2 = sValue to (Value (nod state_ab 256)) s1) /\
    ((vn state_ab to /\ Check (nod state_ab to) < 0)
     \/ Size state_ab <= to) /\
    nod s2 to = mkNode (Value (nod state_ab 256)) 256 /\
    Value (nod s2 256) < 0 /\ base (nod s2 256) = to /\
    edge s2 256 x00 = Some to /\
    (forall j, 0 <= j < Size state_ab -> 0 <= Check (nod state_ab j) ->
               j <> 256 -> nod s2 j = nod state_ab j) /\
    (exists R' F', allocator s2 R' F').
Proof.
  apply (getV_moves_terminal_value state_ab (rings_of state_ab)
           (ring_of state_ab) 8 256).
  - apply allocator_b_sound. vm_compute. reflexivity.
  - vm_compute. reflexivity.
  - vm_compute. split; [discriminate|reflexivity].
  - vm_compute. discriminate.
  - vm_compute. split; [discriminate|reflexivity].
Defined.

(** * The scan of a block *)

(** X11: [listEhead] is a first-fit scan in ring order.  For a block whose
    free slots form the ring [r], entered at [Ehead], [listEhead(b, child)]
    visits the free slots in ring order from [Ehead] on and returns the
    first slot [e] from which all children fit (every slot
    [(e XOR child[0]) XOR child[i]] has a negative [Check]), storing it in
    [Ehead] and changing nothing else; when no slot of the ring fits it
    returns 0 after one lap and changes nothing.  On an empty [child] it
    panics with an index error. *)
Theorem listEhead_first_fit s r bi c0 crest fuel :
  free_ring s bi r -> vb s bi -> r <> [] ->
  256 * (bi + 1) <= len (Array s) ->
  (256 <= fuel)%nat ->
  (exists l1 l2,
     r = l1 ++ Ehead (blk s bi) :: l2 /\
     seg (nxtS s) (prvS s) (Ehead (blk s bi)) (l2 ++ l1) (Ehead (blk s bi)) /\
     listEhead fuel bi (c0 :: crest) s
     = match first_fit s (c0 :: crest) (Ehead (blk s bi) :: l2 ++ l1) with
       | Some e => Ok e (sEhead bi e s)
       | None => Ok 0 s
       end) /\
  listEhead fuel bi [] s = Panic IndexOutOfRange.
Proof.
  intros Hfr Hvb Hne Hblock Hfuel.
  pose proof (free_ring_length _ _ _ Hfr) as Hlen.
  destruct Hfr as (Hc & Hm & Hf & Hn & Hh).
  specialize (Hh Hne).
  destruct (cyc_at _ _ _ _ Hc Hh) as (l1 & l2 & El & Hnd & Hs).
  split.
  - exists l1, l2. split; [exact El|]. split; [exact Hs|].
    assert (Hmem : forall x, x ∈ Ehead (blk s bi) :: l2 ++ l1 -> x ∈ r).
    { intros x. rewrite El.
      rewrite !elem_of_cons, !elem_of_app, elem_of_cons. tauto. }
    unfold listEhead. rewrite (bind_eval _ _ _ _ _ (rdEhead_ok _ _ Hvb)).
    apply (listEhead_loop_ok s bi c0 crest (l2 ++ l1) fuel _ Hvb Hs).
    + apply NoDup_cons in Hnd. apply Hnd.
    + intros x c Hx Hcc. apply Hmem in Hx.
      destruct (Hm x Hx) as (Hv & H0 & Hb).
      split; [exact Hv|].
      assert (Hb' : Int.shr8 (Int.xor (Int.xor x (b2z c0)) (b2z c)) = bi).
      { rewrite !xor_block by apply b2z_range. exact Hb. }
      apply shr8_block in Hb'. apply shr8_block in Hb. unfold vn. lia.
    + rewrite El in Hlen. rewrite length_app in *. simpl in Hlen. lia.
  - unfold listEhead. rewrite (bind_eval _ _ _ _ _ (rdEhead_ok _ _ Hvb)).
    destruct fuel as [|f]; [lia|]. reflexivity.
Qed.

(** X11, witness: block 1 of the state with "ab". *)
Lemma listEhead_first_fit_witness :
  (exists l1 l2,
     ring_of state_ab 1 = l1 ++ Ehead (blk state_ab 1) :: l2 /\
     seg (nxtS state_ab) (prvS state_ab) (Ehead (blk state_ab 1)) (l2 ++ l1)
       (Ehead (blk state_ab 1)) /\
     listEhead 300 1 ["a"; "b"]%byte state_ab
     = match first_fit state_ab ["a"; "b"]%byte
               (Ehead (blk state_ab 1) :: l2 ++ l1) with
       | Some e => Ok e (sEhead 1 e state_ab)
       | None => Ok 0 state_ab
       end) /\
  listEhead 300 1 [] state_ab = Panic IndexOutOfRange.
Proof.
  apply (listEhead_first_fit state_ab (ring_of state_ab 1) 1 "a"%byte
           ["b"%byte] 300%nat).
  - apply free_ring_b_sound. vm_compute. reflexivity.
  - vm_compute. split; [discriminate|reflexivity].
  - vm_compute. discriminate.
  - vm_compute. discriminate.
  - lia.
Defined.

(** * One more child: [follow] into a free slot *)

Lemma chain_from_ninf s s' base c l :
  (forall j, ninf s' j = ninf s j) -> (forall j, vi s j -> vi s' j) ->
  chain_from s base c l -> chain_from s' base c l.
Proof.
  intros Hn Hv (n & l' & Hi & Hr & ->).
  apply idx_vi in Hi. destruct Hi as [Hvi <-].
  exists (ninf s' (Int.xor base (b2z c))), l'.
  split; [apply idx_ninf, Hv; exact Hvi|]. split; [|reflexivity].
  rewrite Hn. apply (rest_from_frame s); [exact Hr|].
  intros x Hx. split; [|rewrite Hn; reflexivity].
  apply Hv. eapply rest_from_valid; eauto.
Qed.

(** [follow] when the node has a base and the slot of the label is free:
    the slot is taken, and the label is put into the chain of the node, or
    starts it. *)
Lemma follow_free_slot s R F fuel from label :
  allocator s R F -> Capacity s < 2 ^ 58 ->
  0 <= from < Size s -> 0 <= Check (nod s from) ->
  0 <= base (nod s from) ->
  let b := base (nod s from) in
  let to := Int.xor b (b2z label) in
  let c0 := Child (ninf s from) in
  vn s to -> Check (nod s to) < 0 ->
  vn s (Int.xor b (b2z c0)) ->
  (Check (nod s (Int.xor b (b2z c0))) = from ->
   exists l, chain_from s b c0 l /\ (label ∉ l) /\ (length l < fuel)%nat) ->
  exists s' R' F',
    follow fuel from label s = Ok to s' /\
    allocator s' R' F' /\
    nod s' to = mkNode ValueLimit from /\
    (forall j, 0 <= j < Size s -> 0 <= Check (nod s j) ->
               nod s' j = nod s j) /\
    (forall l, Check (nod s (Int.xor b (b2z c0))) = from ->
               chain_from s b c0 l ->
               chain_from s' b (Child (ninf s' from))
                 (pushLabel (Ordered s) label l)) /\
    (Check (nod s (Int.xor b (b2z c0))) <> from ->
     Child (ninf s' from) = label /\ Sibling (ninf s' to) = c0) /\
    Size s' = Size s /\ Capacity s' = Capacity s /\ Ordered s' = Ordered s /\
    0 < to < Size s /\ len (Array s') = len (Array s).
Proof.
  intros A Hcap Hfrom Hocc Hb b to c0 Hvt Hfree Hvc Hchain.
  destruct (ao_shape _ _ _ A) as (nb & cb & Hnb & HS & HC & HA & HN & HB).
  assert (Hvf : vn s from) by (unfold vn; lia).
  assert (Hif : vi s from) by (unfold vi; lia).
  destruct (popEnode_allocator s R F b from label A Hcap ltac:(lia))
    as (e & s1 & R1 & F1 & Hpop & A1 & He & _ & Hve & Ne & _ & Nocc & Hinf
        & HO & HS1 & HC1 & HL1 & HSb & HCb & Hes).
  { intros H. lia. }
  { intros _. split; [exact Hvt|exact Hfree]. }
  destruct (He Hb) as (Ee & ES1 & EC1). fold to in Ee. subst e.
  pose proof (ao_shape _ _ _ A1) as Hsh1.
  assert (Hvi1 : forall j, vi s j -> vi s1 j).
  { intros j. destruct Hsh1 as (nb1 & cb1 & _ & _ & _ & HA1 & HN1 & _).
    unfold vi. unfold vn in *. lia. }
  assert (Hif1 : vi s1 from) by (apply Hvi1; exact Hif).
  assert (Hit1 : vi s1 (Int.xor b (b2z label))).
  { apply alloc_vi; assumption. }
  assert (Exx : Int.xor to (b2z label) = b) by (unfold to; apply xor_xor).
  assert (Hpre : forall (k : bool -> M Z),
    follow fuel from label s
    = (to' <- popEnode b from label ;;
       pushSibling fuel from (Int.xor to' (b2z label)) label
         (Check (nod s (Int.xor b (b2z c0))) =? from) ;;;
       ret to') s).
  { intros _. unfold follow.
    rewrite (bind_eval _ _ s b s)
      by (rewrite rdBase_eval, (idx_nod _ _ Hvf); reflexivity).
    destruct (Z.ltb_spec b 0) as [|_]; [lia|].
    rewrite (bind_eval _ _ s true s).
    2:{ rewrite (bind_eval _ _ _ _ _ (rdCheck_ok _ _ Hvt)).
        unfold ret. fold to. destruct (Z.ltb_spec (Check (nod s to)) 0);
          [reflexivity|lia]. }
    destruct (Z.leb_spec 0 b) as [_|]; [|lia].
    rewrite (bind_eval _ _ s (Check (nod s (Int.xor b (b2z c0))) =? from) s).
    2:{ rewrite (bind_eval _ _ _ _ _ (rdChild_ok _ _ Hif)). fold c0.
        rewrite (bind_eval _ _ _ _ _ (rdCheck_ok _ _ Hvc)). reflexivity. }
    reflexivity. }
  rewrite (Hpre (fun _ => ret 0)). clear Hpre.
  assert (Hpop' : forall m : Z -> M Z,
            bind (popEnode b from label) m s = m to s1).
  { intros m. apply (bind_eval _ _ _ _ _ Hpop). }
  assert (Hfr : forall s', Array s' = Array s1 ->
    nod s' to = mkNode ValueLimit from /\
    (forall j, 0 <= j < Size s -> 0 <= Check (nod s j) ->
               nod s' j = nod s j)).
  { intros s' EA. unfold nod. rewrite EA. fold (nod s1 to).
    split; [exact Ne|]. intros j Hj Hjo. fold (nod s1 j).
    apply Nocc; [exact Hj|exact Hjo|]. intros H; lia. }
  destruct (Z.eqb_spec (Check (nod s (Int.xor b (b2z c0)))) from)
    as [Ehc|Ehc].
  - destruct (Hchain Ehc) as (l & Hch & Hl & Hfuel).
    assert (Hch1 : chain_from s1 b (Child (ninf s1 from)) l).
    { rewrite Hinf. fold c0. apply (chain_from_ninf s); auto. }
    destruct (proj1 (pushSibling_chain s1 fuel from b label Hif1 Hit1)
                l Hch1 Hl Hfuel)
      as (s' & Hpush & EA & EB & EL & Hch' & _ & (c & Es')).
    exists s', R1, F1. split.
    { rewrite Hpop'. rewrite Exx.
      rewrite (bind_eval _ _ _ _ _ Hpush). reflexivity. }
    split; [rewrite Es'; apply allocator_spliced; exact A1|].
    destruct (Hfr s' EA) as [H1 H2].
    split; [exact H1|]. split; [exact H2|].
    split.
    { intros l0 _ Hl0.
      assert (l0 = l).
      { destruct Hl0 as (n0 & l0' & Hi0 & Hr0 & ->).
        destruct Hch as (n1 & l1' & Hi1 & Hr1 & ->).
        rewrite Hi0 in Hi1. inversion Hi1; subst n1.
        f_equal. eapply rest_from_det; eauto. }
      subst l0. rewrite <- HO. exact Hch'. }
    split; [intros H; contradiction|].
    rewrite Es'.
    destruct (spliced_frame s1 b label c)
      as (EAs & _ & _ & -> & -> & -> & _).
    split; [exact ES1|]. split; [exact EC1|]. split; [exact HO|].
    split; [lia|]. rewrite EAs.
    destruct Hsh1 as (nb1 & cb1 & _ & _ & HC1' & HA1' & _). lia.
  - set (s' := spliced b label (ChildOf from) s1).
    assert (Hne : ChildOf from <> SiblingOf (Int.xor b (b2z label)))
      by discriminate.
    exists s', R1, F1. split.
    { rewrite Hpop'. rewrite Exx.
      rewrite (bind_eval _ _ s1 tt s'); [reflexivity|].
      apply pushSibling_run; try assumption. reflexivity. }
    split; [apply allocator_spliced; exact A1|].
    destruct (Hfr s' (proj1 (spliced_frame _ _ _ _))) as [H1 H2].
    split; [exact H1|]. split; [exact H2|].
    split; [intros l0 H; contradiction|].
    split.
    { intros _. split.
      - change (Child (ninf s' from)) with (pget s' (ChildOf from)).
        unfold s'. rewrite pget_spliced; [|exact Hit1|exact Hif1|exact Hne].
        destruct (decide (ChildOf from = ChildOf from)); [|contradiction].
        reflexivity.
      - unfold s', to. rewrite sibling_spliced;
          [|exact Hit1|exact Hif1|exact Hne].
        cbn [pget]. rewrite Hinf. reflexivity. }
    unfold s'.
    destruct (spliced_frame s1 b label (ChildOf from))
      as (EAs & _ & _ & -> & -> & -> & _).
    split; [exact ES1|]. split; [exact EC1|]. split; [exact HO|].
    split; [lia|]. rewrite EAs.
    destruct Hsh1 as (nb1 & cb1 & _ & _ & HC1' & HA1' & _). lia.
Qed.

Lemma edge_intro s from label :
  vn s from -> Value (nod s from) < 0 -> 0 <= base (nod s from) ->
  vn s (Int.xor (base (nod s from)) (b2z label)) ->
  Check (nod s (Int.xor (base (nod s from)) (b2z label))) = from ->
  edge s from label = Some (Int.xor (base (nod s from)) (b2z label)).
Proof.
  intros Hf Hv Hb Ht Hc. unfold edge.
  rewrite (idx_nod _ _ Hf).
  replace (Value (nod s from) <? 0) with true by lia.
  replace (0 <=? base (nod s from)) with true by lia. simpl.
  rewrite (idx_nod _ _ Ht), Hc, Z.eqb_refl. reflexivity.
Qed.

(** X12: [follow] adds a child to a node that has children.  Under the
    allocator's invariant, for a branching node [from] whose sibling chain
    is [l], and a [label] that is not in [l] and whose slot
    [to = base XOR label] is free, [follow(from, label)] returns [to]; at
    return [Array[to]] is [{ValueLimit, from}], so the edge from [from]
    under [label] leads to [to]; the chain of [from] is [l] with [label]
    put in as [pushSibling] does; no slot that was occupied is changed, and
    the allocator's invariant holds again. *)
Theorem follow_adds_child s R F fuel from label l :
  allocator s R F -> Capacity s < 2 ^ 58 ->
  0 <= from < Size s -> 0 <= Check (nod s from) ->
  Value (nod s from) < 0 -> 0 <= base (nod s from) ->
  let b := base (nod s from) in
  let to := Int.xor b (b2z label) in
  let c0 := Child (ninf s from) in
  vn s to -> Check (nod s to) < 0 ->
  vn s (Int.xor b (b2z c0)) -> Check (nod s (Int.xor b (b2z c0))) = from ->
  chain_from s b c0 l -> (label ∉ l) -> (length l < fuel)%nat ->
  exists s',
    follow fuel from label s = Ok to s' /\
    (exists R' F', allocator s' R' F') /\
    nod s' to = mkNode ValueLimit from /\
    edge s' from label = Some to /\
    chain_from s' b (Child (ninf s' from)) (pushLabel (Ordered s) label l) /\
    (forall j, 0 <= j < Size s -> 0 <= Check (nod s j) ->
               nod s' j = nod s j) /\
    Size s' = Size s /\ Capacity s' = Capacity s.
Proof.
  intros A Hcap Hfrom Hocc Hval Hb b to c0 Hvt Hfree Hvc Hhas Hch Hl Hfuel.
  destruct (follow_free_slot s R F fuel from label A Hcap Hfrom Hocc Hb
              Hvt Hfree Hvc)
    as (s' & R' & F' & Hf & A' & Nt & Nocc & Hch' & _ & HS & HC & _ & Hts
        & HL).
  { intros _. exists l. auto. }
  exists s'. split; [exact Hf|]. split; [exists R', F'; exact A'|].
  split; [exact Nt|].
  assert (Nf : nod s' from = nod s from) by (apply Nocc; assumption).
  assert (Hvf' : vn s' from).
  { destruct (ao_shape _ _ _ A) as (nb & cb & Hnb & HSz & HCz & HA & _).
    unfold vn. rewrite HL. lia. }
  assert (Hvt' : vn s' to) by (unfold vn in *; rewrite HL; exact Hvt).
  split.
  { pose proof (edge_intro s' from label Hvf') as E. rewrite Nf in E.
    apply E; [exact Hval|exact Hb|exact Hvt'|].
    exact (f_equal Check Nt). }
  split; [apply Hch'; assumption|].
  split; [exact Nocc|]. split; assumption.
Qed.

(** X12, witness: the root of the state with "ab" has the chain [a]; the
    slot of "c" is free. *)
Lemma follow_adds_child_witness :
  let b := base (nod state_ab 0) in
  let to := Int.xor b (b2z "c") in
  b = 1 /\ to = 98 /\
  exists s',
    follow 8 0 "c" state_ab = Ok to s' /\
    (exists R' F', allocator s' R' F') /\
    nod s' to = mkNode ValueLimit 0 /\
    edge s' 0 "c" = Some to /\
    chain_from s' b (Child (ninf s' 0))
      (pushLabel (Ordered state_ab) "c" ["a"%byte]) /\
    (forall j, 0 <= j < Size state_ab -> 0 <= Check (nod state_ab j) ->
               nod s' j = nod state_ab j) /\
    Size s' = Size state_ab /\ Capacity s' = Capacity state_ab.
Proof.
  intros b to. split; [reflexivity|]. split; [reflexivity|].
  apply (follow_adds_child state_ab (rings_of state_ab) (ring_of state_ab)
           8 0 "c" ["a"%byte]).
  - apply allocator_b_sound. vm_compute. reflexivity.
  - vm_compute. reflexivity.
  - vm_compute. split; [discriminate|reflexivity].
  - vm_compute. discriminate.
  - vm_compute. reflexivity.
  - vm_compute. discriminate.
  - vm_compute. split; [discriminate|reflexivity].
  - vm_compute. reflexivity.
  - vm_compute. split; [discriminate|reflexivity].
  - vm_compute. reflexivity.
  - apply chain_b_sound. vm_compute. reflexivity.
  - intros H. apply list_elem_of_singleton in H. discriminate.
  - simpl. lia.
Defined.

(** * A key below a node: insertion without relocation *)

Lemma xor_label_range e label :
  0 <= e < 2 ^ 61 -> 0 <= Int.xor e (b2z label) < 2 ^ 62.
Proof.
  intros H. pose proof (b2z_range label) as Hl.
  pose proof (xor_block e (b2z label) Hl) as Hb.
  apply shr8_block in Hb.
  pose proof (proj1 (shr8_block e (Int.shr8 e)) eq_refl). lia.
Qed.

Lemma len_app_one {A} (pre : list A) k :
  len (pre ++ [k]) < 2 ^ 62 -> Int.add (len pre) 1 = len (pre ++ [k]).
Proof.
  unfold Int.add, len. rewrite length_app. simpl. intros H.
  rewrite wrap_small; lia.
Qed.

(** The room left before the sizes of the model leave the range of [int]. *)
Definition headroom (s : Cedar) : Z := Z.max (Capacity s) (2 * Size s).

(** The loop of [getV] from a node just made: every byte of the rest of the
    key takes a slot from the allocator. *)
Lemma getV_loop_fresh fuel r : forall pre s R F from,
  allocator s R F -> headroom s + 512 * len r < 2 ^ 58 ->
  0 <= from < Size s -> 0 <= Check (nod s from) ->
  Value (nod s from) = ValueLimit ->
  len (pre ++ r) < 2 ^ 62 ->
  exists to s' R' F',
    getV_loop (length r) fuel (pre ++ r) from (len pre) s = Ok to s' /\
    allocator s' R' F' /\
    walk s' r from = Some to /\
    Value (nod s' to) = ValueLimit /\
    0 <= to < Size s' /\ 0 <= Check (nod s' to) /\
    Check (nod s' from) = Check (nod s from) /\
    (forall j, 0 <= j < Size s -> 0 <= Check (nod s j) -> j <> from ->
               nod s' j = nod s j) /\
    Size s <= Size s' /\ len (Array s) <= len (Array s') /\
    headroom s' <= headroom s + 512 * len r.
Proof.
  induction r as [|k r IH]; intros pre s R F from A Hh Hfrom Hocc Hval Hlen.
  - exists from, s, R, F. simpl.
    split; [reflexivity|]. split; [exact A|]. split; [reflexivity|].
    split; [exact Hval|]. split; [exact Hfrom|]. split; [exact Hocc|].
    split; [reflexivity|]. split; [auto|]. unfold len. simpl. lia.
  - assert (Hlr : len (k :: r) = len r + 1)
      by (unfold len; simpl length; lia).
    assert (Hr0 : 0 <= len r) by (unfold len; lia).
    rewrite Hlr in Hh.
    assert (Hcap : Capacity s < 2 ^ 58) by (unfold headroom in Hh; lia).
    destruct (ao_shape _ _ _ A) as (nb & cb & Hnb & HSz & HCz & HA & _).
    assert (Hvf : vn s from) by (unfold vn; lia).
    destruct (follow_no_base s R F fuel from k A Hcap Hfrom Hocc)
      as (to1 & s1 & R1 & F1 & Hf & A1 & Hwas & Hv1 & Nt & Nf & Eto & _ & _
          & Nocc & _ & _ & HS1 & _ & HL1 & HSb & HCb & Hts).
    { rewrite Hval. unfold ValueLimit. lia. }
    assert (Hh1 : headroom s1 <= headroom s + 512)
      by (unfold headroom; lia).
    assert (Hlen1 : len ((pre ++ [k]) ++ r) < 2 ^ 62)
      by (rewrite <- app_assoc; exact Hlen).
    destruct (IH (pre ++ [k]) s1 R1 F1 to1 A1 ltac:(lia) ltac:(lia))
      as (to & s' & R' & F' & Hloop & A' & Hw & Hv & Hto & Hcto & Hck1
          & Nocc' & HS' & HL' & Hh'); [rewrite Nt; simpl; lia
                                       |rewrite Nt; reflexivity
                                       |exact Hlen1|].
    assert (Hne : from <> to1).
    { intros E. rewrite <- E in Hwas. destruct Hwas as [[_ H]|H]; lia. }
    assert (Nf' : nod s' from = nod s1 from).
    { apply Nocc'; [lia| |exact Hne]. rewrite Nf. exact Hocc. }
    exists to, s', R', F'.
    split.
    { simpl getV_loop.
      rewrite (bind_eval _ _ s ValueLimit s)
        by (rewrite (rdValue_ok _ _ Hvf), Hval; reflexivity).
      rewrite Z.eqb_refl, andb_false_r.
      unfold bind at 1. unfold ret at 1.
      rewrite (bind_eval _ _ s k s).
      2:{ unfold at_. rewrite idx_app_r. reflexivity. }
      rewrite (bind_eval _ _ _ _ _ Hf).
      rewrite (len_app_one pre k).
      2:{ unfold len in *. rewrite !length_app in *. simpl in *. lia. }
      replace (pre ++ k :: r) with ((pre ++ [k]) ++ r)
        by (rewrite <- app_assoc; reflexivity).
      exact Hloop. }
    split; [exact A'|].
    split.
    { simpl.
      assert (Hx : 0 <= Int.xor to1 (b2z k) < 2 ^ 62).
      { apply xor_label_range.
        destruct (ao_shape _ _ _ A1) as (nb1 & cb1 & Hnb1 & HSz1 & HCz1 & _).
        unfold headroom in Hh1, Hh. lia. }
      assert (Hbase : base (nod s' from) = Int.xor to1 (b2z k)).
      { rewrite Nf', Nf. apply base_of_value. exact Hx. }
      assert (E : edge s' from k = Some to1).
      { pose proof (edge_intro s' from k) as E.
        rewrite Hbase, xor_xor in E. apply E.
        - unfold vn in *. lia.
        - rewrite Nf', Nf. cbn [Value]. unfold Int.sub, Int.neg.
          rewrite (wrap_small (- _)) by lia. rewrite wrap_small; lia.
        - lia.
        - unfold vn in *. lia.
        - rewrite Hck1, Nt. reflexivity. }
      rewrite E. exact Hw. }
    split; [exact Hv|]. split; [exact Hto|]. split; [exact Hcto|].
    split; [rewrite Nf', Nf; reflexivity|].
    split.
    { intros j Hj Hjo Hjf. rewrite <- (Nocc j Hj Hjo Hjf).
      apply Nocc'; [lia|rewrite (Nocc j Hj Hjo Hjf); exact Hjo|].
      intros E. rewrite <- E in Hwas. destruct Hwas as [[_ H]|H]; lia. }
    rewrite Hlr. split; [lia|]. split; lia.
Qed.

(** The first byte of the rest of a key meets no conflict at [from]: the
    node was just made ([Value] is [ValueLimit]: no value and no base yet),
    or it branches, the slot of the
    byte is free, and the byte is not among its children. *)
Definition no_conflict (s : Cedar) (fuel : nat) (from : Z) (k : byte)
    : Prop :=
  Value (nod s from) = ValueLimit \/
  (Value (nod s from) < 0 /\ 0 <= base (nod s from) /\
   let b := base (nod s from) in
   let c0 := Child (ninf s from) in
   vn s (Int.xor b (b2z k)) /\ Check (nod s (Int.xor b (b2z k))) < 0 /\
   vn s (Int.xor b (b2z c0)) /\
   (Check (nod s (Int.xor b (b2z c0))) = from ->
    exists l, chain_from s b c0 l /\ (k ∉ l) /\ (length l < fuel)%nat)).

Lemma getV_loop_below fuel pre k r s R F from :
  allocator s R F -> headroom s + 512 * len (k :: r) < 2 ^ 58 ->
  len (pre ++ k :: r) < 2 ^ 62 ->
  0 <= from < Size s -> 0 <= Check (nod s from) ->
  no_conflict s fuel from k ->
  exists to s' R' F',
    getV_loop (length (k :: r)) fuel (pre ++ k :: r) from (len pre) s
    = Ok to s' /\
    allocator s' R' F' /\
    walk s' (k :: r) from = Some to /\
    Value (nod s' to) = ValueLimit /\
    0 <= to < Size s' /\
    (forall j, 0 <= j < Size s -> 0 <= Check (nod s j) -> j <> from ->
               nod s' j = nod s j).
Proof.
  intros A Hh Hlen Hfrom Hocc [Hval|(Hval & Hb & Hvt & Hfree & Hvc & Hchain)].
  - destruct (getV_loop_fresh fuel (k :: r) pre s R F from A Hh Hfrom Hocc
                Hval Hlen)
      as (to & s' & R' & F' & Hloop & A' & Hw & Hv & Hto & _ & _ & Nocc & _).
    exists to, s', R', F'. auto 10.
  - assert (Hlr : len (k :: r) = len r + 1)
      by (unfold len; simpl length; lia).
    assert (Hr0 : 0 <= len r) by (unfold len; lia).
    rewrite Hlr in Hh.
    assert (Hcap : Capacity s < 2 ^ 58) by (unfold headroom in Hh; lia).
    destruct (ao_shape _ _ _ A) as (nb & cb & Hnb & HSz & HCz & HA & _).
    assert (Hvf : vn s from) by (unfold vn; lia).
    destruct (follow_free_slot s R F fuel from k A Hcap Hfrom Hocc Hb
                Hvt Hfree Hvc Hchain)
      as (s1 & R1 & F1 & Hf & A1 & Nt & Nocc & _ & _ & HS1 & HC1 & _ & Hts
          & HL1).
    set (to1 := Int.xor (base (nod s from)) (b2z k)) in *.
    assert (Hlen1 : len ((pre ++ [k]) ++ r) < 2 ^ 62)
      by (rewrite <- app_assoc; exact Hlen).
    assert (Hh1 : headroom s1 = headroom s)
      by (unfold headroom; rewrite HS1, HC1; reflexivity).
    destruct (getV_loop_fresh fuel r (pre ++ [k]) s1 R1 F1 to1 A1)
      as (to & s' & R' & F' & Hloop & A' & Hw & Hv & Hto & _ & Hck1
          & Nocc' & HS' & HL' & _);
      [rewrite Hh1; lia|lia|rewrite Nt; simpl; lia|rewrite Nt; reflexivity
      |exact Hlen1|].
    assert (Hne : from <> to1) by (intros E; rewrite <- E in Hfree; lia).
    assert (Nf1 : nod s1 from = nod s from) by (apply Nocc; assumption).
    assert (Nf' : nod s' from = nod s from).
    { rewrite <- Nf1. apply Nocc'; [lia|rewrite Nf1; exact Hocc|exact Hne]. }
    exists to, s', R', F'.
    split.
    { simpl getV_loop.
      rewrite (bind_eval _ _ s (Value (nod s from)) s)
        by (apply rdValue_ok; exact Hvf).
      replace (0 <=? Value (nod s from)) with false by lia. simpl.
      unfold bind at 1. unfold ret at 1.
      rewrite (bind_eval _ _ s k s).
      2:{ unfold at_. rewrite idx_app_r. reflexivity. }
      rewrite (bind_eval _ _ _ _ _ Hf).
      rewrite (len_app_one pre k).
      2:{ unfold len in *. rewrite !length_app in *. simpl in *. lia. }
      replace (pre ++ k :: r) with ((pre ++ [k]) ++ r)
        by (rewrite <- app_assoc; reflexivity).
      exact Hloop. }
    split; [exact A'|].
    split.
    { simpl.
      assert (E : edge s' from k = Some to1).
      { pose proof (edge_intro s' from k) as E. rewrite Nf' in E.
        apply E; try assumption.
        - unfold vn in *. lia.
        - unfold vn in *. fold to1. lia.
        - fold to1. rewrite Hck1. exact (f_equal Check Nt). }
      rewrite E. exact Hw. }
    split; [exact Hv|]. split; [exact Hto|].
    intros j Hj Hjo Hjf. rewrite <- (Nocc j Hj Hjo).
    apply Nocc'; [lia|rewrite (Nocc j Hj Hjo); exact Hjo|].
    intros E. rewrite <- E in Hfree. lia.
Qed.

Lemma rest_length {A} (pre r : list A) :
  Z.to_nat (len (pre ++ r) - len pre) = length r.
Proof.
  unfold len. rewrite length_app. lia.
Qed.

(** [getV] below a node that meets no conflict. *)
Lemma getV_without_conflict s R F fuel pre k r from :
  allocator s R F -> Capacity s + 256 * len (k :: r) < 2 ^ 56 ->
  len (pre ++ k :: r) < 2 ^ 62 ->
  0 <= from < Size s -> 0 <= Check (nod s from) ->
  no_conflict s fuel from k ->
  exists to s' R' F',
    getV fuel (pre ++ k :: r) from (len pre) s = Ok to s' /\
    allocator s' R' F' /\
    walk s' (k :: r) from = Some to /\
    Value (nod s' to) = ValueLimit /\
    (forall j, 0 <= j < Size s -> 0 <= Check (nod s j) -> j <> from ->
               nod s' j = nod s j) /\
    forall fuel', getV fuel' (pre ++ k :: r) from (len pre) s' = Ok to s'.
Proof.
  intros A Hcap Hlen Hfrom Hocc Hnc.
  destruct (ao_shape _ _ _ A) as (nb & cb & Hnb & HSz & HCz & _).
  destruct (getV_loop_below fuel pre k r s R F from A)
    as (to & s' & R' & F' & Hloop & A' & Hw & Hv & Hto & Nocc);
    [unfold headroom; lia|assumption..|].
  assert (Hvt : vn s' to).
  { destruct (ao_shape _ _ _ A') as (nb' & cb' & Hnb' & HSz' & _ & HA' & _).
    unfold vn. lia. }
  assert (Hend : forall f s0 (m : M Z),
            m s0 = Ok to s' ->
            bind m (fun from' => v <- rdValue from' ;;
                     if v <? 0 then follow f from' x00 else ret from') s0
            = Ok to s').
  { intros f s0 m Hm. rewrite (bind_eval _ _ _ _ _ Hm).
    rewrite (bind_eval _ _ _ _ _ (rdValue_ok _ _ Hvt)). rewrite Hv.
    reflexivity. }
  exists to, s', R', F'.
  split; [unfold getV; rewrite rest_length; apply Hend; exact Hloop|].
  split; [exact A'|].
  split; [exact Hw|]. split; [exact Hv|]. split; [exact Nocc|].
  intros fuel'. unfold getV. rewrite rest_length. apply Hend.
  apply getV_loop_walk; assumption.
Qed.

(** X13: a key is inserted below a node without relocation, and is then
    found.  Under the allocator's invariant, let [from] be an occupied slot
    below [Size] and [k :: r] the rest of the key from position [len pre],
    where [from] holds [ValueLimit] (a node just made, with no value and no
    base yet), or branches with the slot of [k] free and [k] not among its
    children.  Then
    [getV(key, from, len pre)] returns a slot [to]; in the state at return
    the bytes [k :: r] lead from [from] to [to] edge by edge,
    [Array[to].Value] is [ValueLimit] (no value yet), no other slot that was
    occupied has changed, and the allocator's invariant holds; and calling
    [getV] with the same arguments again, with any fuel, returns [to] and
    changes nothing. *)
Theorem getV_inserts_without_conflict s R F fuel pre k r from :
  allocator s R F -> Capacity s + 256 * len (k :: r) < 2 ^ 56 ->
  len (pre ++ k :: r) < 2 ^ 62 ->
  0 <= from < Size s -> 0 <= Check (nod s from) ->
  no_conflict s fuel from k ->
  exists to s',
    getV fuel (pre ++ k :: r) from (len pre) s = Ok to s' /\
    (exists R' F', allocator s' R' F') /\
    walk s' (k :: r) from = Some to /\
    Value (nod s' to) = ValueLimit /\
    (forall j, 0 <= j < Size s -> 0 <= Check (nod s j) -> j <> from ->
               nod s' j = nod s j) /\
    forall fuel', getV fuel' (pre ++ k :: r) from (len pre) s' = Ok to s'.
Proof.
  intros A Hcap Hlen Hfrom Hocc Hnc.
  destruct (getV_without_conflict s R F fuel pre k r from A Hcap Hlen Hfrom
              Hocc Hnc) as (to & s' & R' & F' & H1 & A' & H2).
  exists to, s'. split; [exact H1|]. split; [exists R', F'; exact A'|].
  exact H2.
Qed.

(** X13, witness: the key "cd" in the state with "ab"; the root has the
    chain [a] and the slot of "c" is free. *)
Lemma getV_inserts_without_conflict_witness :
  exists to s',
    getV 8 ([] ++ ("c" :: ["d"])%byte) 0 (len (@nil byte)) state_ab
    = Ok to s' /\
    (exists R' F', allocator s' R' F') /\
    walk s' ("c" :: ["d"])%byte 0 = Some to /\
    Value (nod s' to) = ValueLimit /\
    (forall j, 0 <= j < Size state_ab -> 0 <= Check (nod state_ab j) ->
               j <> 0 -> nod s' j = nod state_ab j) /\
    forall fuel',
      getV fuel' ([] ++ ("c" :: ["d"])%byte) 0 (len (@nil byte)) s'
      = Ok to s'.
Proof.
  apply (getV_inserts_without_conflict state_ab (rings_of state_ab)
           (ring_of state_ab) 8 [] "c" ["d"%byte] 0).
  - apply allocator_b_sound. vm_compute. reflexivity.
  - vm_compute. reflexivity.
  - vm_compute. reflexivity.
  - vm_compute. split; [discriminate|reflexivity].
  - vm_compute. discriminate.
  - right. split; [vm_compute; reflexivity|].
    split; [vm_compute; discriminate|]. cbv zeta.
    split; [vm_compute; split; [discriminate|reflexivity]|].
    split; [vm_compute; reflexivity|].
    split; [vm_compute; split; [discriminate|reflexivity]|].
    intros _. exists ["a"%byte].
    split; [apply chain_b_sound; vm_compute; reflexivity|].
    split; [|simpl; lia].
    intros H. apply list_elem_of_singleton in H. discriminate.
Defined.

(** * Giving a slot back: [pushEnode] as a whole *)

(** A block with an occupied slot other than the root has room for one more
    free slot. *)
Lemma ring_room s b r e :
  free_ring s b r -> vn s e -> 0 < e -> Int.shr8 e = b ->
  0 <= Check (nod s e) ->
  Z.of_nat (length r) + (if b =? 0 then 1 else 0) < 256.
Proof.
  intros (Hc & Hm & Hf & _) Hve He Hb Hocc.
  assert (Hnotin : e ∉ r).
  { intros H. apply (Hf e Hve Hb) in H. lia. }
  set (l := (if b =? 0 then [0] else []) ++ e :: r).
  assert (Hnd : NoDup l).
  { unfold l. apply NoDup_app. split; [|split].
    - destruct (b =? 0); [apply NoDup_singleton|apply NoDup_nil_2].
    - intros x Hx Hx'. destruct (b =? 0); [|inversion Hx].
      apply list_elem_of_singleton in Hx. subst x.
      apply elem_of_cons in Hx'. destruct Hx' as [E|Hx']; [lia|].
      destruct (Hm 0 Hx') as (_ & H & _). lia.
    - apply NoDup_cons. split; [exact Hnotin|apply Hc]. }
  assert (Hsub : forall x, x ∈ l -> x ∈ seqZ (b * 256) 256).
  { intros x Hx. apply elem_of_seqZ. apply shr8_block.
    unfold l in Hx. apply elem_of_app in Hx. destruct Hx as [Hx|Hx].
    - destruct (Z.eqb_spec b 0) as [E|_]; [|inversion Hx].
      apply list_elem_of_singleton in Hx. subst x. rewrite E. reflexivity.
    - apply elem_of_cons in Hx. destruct Hx as [->|Hx]; [exact Hb|].
      apply (Hm x Hx). }
  pose proof (submseteq_length _ _ (NoDup_submseteq _ _ Hnd Hsub)) as Hlen.
  rewrite length_seqZ in Hlen. unfold l in Hlen.
  rewrite length_app in Hlen. simpl in Hlen.
  destruct (b =? 0); simpl in Hlen; lia.
Qed.

(** The state after [pushEnode] has linked the slot [e] into the free ring
    of its block. *)
Definition linked (e : Z) (s : Cedar) : Cedar :=
  let bi := Int.shr8 e in
  let n1 := Int.add (Num (blk s bi)) 1 in
  let s1 := sNum bi n1 s in
  if n1 =? 1
  then sNode e (mkNode (Int.neg e) (Int.neg e)) (sEhead bi e s1)
  else
    let prev := Ehead (blk s bi) in
    let next := Int.neg (Check (nod s prev)) in
    sValue next (Int.neg e)
      (sCheck prev (Int.neg e)
         (sNode e (mkNode (Int.neg prev) (Int.neg next)) s1)).

Lemma linked_frame s e :
  let bi := Int.shr8 e in
  vb s bi -> vn s e ->
  (Int.add (Num (blk s bi)) 1 <> 1 ->
   vn s (Ehead (blk s bi)) /\
   vn s (Int.neg (Check (nod s (Ehead (blk s bi)))))) ->
  same_shape s (linked e s) /\ same_trial s (linked e s) /\
  Ninfos (linked e s) = Ninfos s /\ Ordered (linked e s) = Ordered s /\
  Reject (linked e s) = Reject s /\
  (forall b, b <> bi -> Num (blk (linked e s) b) = Num (blk s b)) /\
  (forall j, j <> e -> j <> Ehead (blk s bi) ->
             j <> Int.neg (Check (nod s (Ehead (blk s bi)))) ->
             nod (linked e s) j = nod s j) /\
  (Int.add (Num (blk s bi)) 1 = 1 ->
   forall j, j <> e -> nod (linked e s) j = nod s j).
Proof.
  intros bi Hvb Hve Hpv. unfold linked. fold bi.
  set (n1 := Int.add (Num (blk s bi)) 1).
  set (s1 := sNum bi n1 s).
  set (prev := Ehead (blk s bi)) in *.
  set (next := Int.neg (Check (nod s prev))) in *.
  assert (Hvb1 : vb s1 bi) by (apply (proj2 (vb_sNum _ _ _ _)); exact Hvb).
  assert (S1 : same_shape s s1) by apply same_shape_sNum.
  assert (T1 : same_trial s s1) by (apply same_trial_sNum; exact Hvb).
  assert (N1 : forall b, b <> bi -> Num (blk s1 b) = Num (blk s b)).
  { intros b Hb. unfold s1. rewrite blk_sNum by exact Hvb.
    destruct (Z.eqb_spec b bi); [contradiction|reflexivity]. }
  assert (Hve1 : vn s1 e) by (apply (proj2 (vn_sNum _ _ _ _)); exact Hve).
  destruct (n1 =? 1) eqn:E1.
  - set (sa := sEhead bi e s1).
    assert (Hvea : vn sa e) by (apply (proj2 (vn_sEhead _ _ _ _)); exact Hve1).
    assert (Hn : forall j, j <> e ->
              nod (sNode e (mkNode (Int.neg e) (Int.neg e)) sa) j = nod s j).
    { intros j Hj. rewrite nod_sNode by exact Hvea.
      destruct (Z.eqb_spec j e); [contradiction|reflexivity]. }
    split.
    { eapply same_shape_trans; [exact S1|].
      eapply same_shape_trans; [apply same_shape_sEhead|].
      apply same_shape_sNode. }
    split.
    { eapply same_trial_trans; [exact T1|].
      eapply same_trial_trans; [apply same_trial_sEhead; exact Hvb1|].
      apply same_trial_sNode. }
    split; [reflexivity|]. split; [reflexivity|]. split; [reflexivity|].
    split.
    { intros b Hb. rewrite <- (N1 b Hb).
      change (blk (sNode e (mkNode (Int.neg e) (Int.neg e)) sa) b)
        with (blk sa b).
      unfold sa. rewrite blk_sEhead by exact Hvb1.
      destruct (Z.eqb_spec b bi); [contradiction|reflexivity]. }
    split; [intros j Hj _ _; apply Hn; exact Hj|].
    intros _. exact Hn.
  - apply Z.eqb_neq in E1. destruct (Hpv E1) as [Hvp Hvn].
    set (sa := sNode e (mkNode (Int.neg prev) (Int.neg next)) s1).
    set (sb := sCheck prev (Int.neg e) sa).
    assert (Hvpa : vn sa prev).
    { apply (proj2 (vn_sNode _ _ _ _)), (proj2 (vn_sNum _ _ _ _)).
      exact Hvp. }
    assert (Hvnb : vn sb next).
    { apply (proj2 (vn_sCheck _ _ _ _)), (proj2 (vn_sNode _ _ _ _)),
        (proj2 (vn_sNum _ _ _ _)). exact Hvn. }
    split.
    { eapply same_shape_trans; [exact S1|].
      unfold sb, sa, sCheck, sValue.
      eapply same_shape_trans; [apply same_shape_sNode|].
      eapply same_shape_trans; apply same_shape_sNode. }
    split; [intros b; apply T1|].
    split; [reflexivity|]. split; [reflexivity|]. split; [reflexivity|].
    split; [intros b Hb; apply (N1 b Hb)|].
    split.
    { intros j Hje Hjp Hjn. rewrite nod_sValue by exact Hvnb.
      destruct (Z.eqb_spec j next); [contradiction|].
      unfold sb. rewrite nod_sCheck by exact Hvpa.
      destruct (Z.eqb_spec j prev); [contradiction|].
      unfold sa. rewrite nod_sNode by exact Hve1.
      destruct (Z.eqb_spec j e); [contradiction|reflexivity]. }
    intros E. contradiction.
Qed.

(** The state after the end of [pushEnode]: the reject bound of the block
    and the node info of the slot. *)
Definition finished (e : Z) (s3 : Cedar) : Cedar :=
  let bi := Int.shr8 e in
  let g := rej s3 (Num (blk s3 bi)) in
  sNinfo e zeroNinfo
    (if bReject (blk s3 bi) <? g then sBReject bi g s3 else s3).

Lemma finished_run s3 e :
  let bi := Int.shr8 e in
  vb s3 bi -> 0 <= Num (blk s3 bi) < len (Reject s3) -> vi s3 e ->
  (r <- rdBReject bi ;; num <- rdNum bi ;; g <- rdReject num ;;
   when (r <? g) (num <- rdNum bi ;; g <- rdReject num ;; wrBReject bi g) ;;;
   wrNinfo e zeroNinfo) s3 = Ok tt (finished e s3).
Proof.
  intros bi Hvb Hn Hvi.
  rewrite (bind_eval _ _ _ _ _ (rdBReject_ok _ _ Hvb)).
  rewrite (bind_eval _ _ _ _ _ (rdNum_ok _ _ Hvb)).
  rewrite (bind_eval _ _ _ _ _ (rdReject_ok _ _ Hn)).
  unfold finished. fold bi.
  destruct (bReject (blk s3 bi) <? rej s3 (Num (blk s3 bi))); cbn [when].
  - rewrite (bind_eval _ _ s3 tt (sBReject bi (rej s3 (Num (blk s3 bi))) s3)).
    + apply wrNinfo_ok. exact Hvi.
    + rewrite (bind_eval _ _ _ _ _ (rdNum_ok _ _ Hvb)).
      rewrite (bind_eval _ _ _ _ _ (rdReject_ok _ _ Hn)).
      apply wrBReject_ok. exact Hvb.
  - rewrite (bind_eval _ _ s3 tt s3) by reflexivity.
    apply wrNinfo_ok. exact Hvi.
Qed.

Lemma finished_frame s3 e :
  vb s3 (Int.shr8 e) -> vi s3 e ->
  same_shape s3 (finished e s3) /\ same_links s3 (finished e s3) /\
  same_slots s3 (finished e s3) /\ same_trial s3 (finished e s3) /\
  Ordered (finished e s3) = Ordered s3 /\
  ninf (finished e s3) e = zeroNinfo /\
  (forall j, j <> e -> ninf (finished e s3) j = ninf s3 j).
Proof.
  intros Hvb Hvi. unfold finished.
  set (bi := Int.shr8 e) in *. set (g := rej s3 (Num (blk s3 bi))).
  set (s4 := if bReject (blk s3 bi) <? g then sBReject bi g s3 else s3).
  assert (H4 : same_shape s3 s4 /\ same_links s3 s4 /\ same_slots s3 s4 /\
               same_trial s3 s4 /\ Ordered s4 = Ordered s3 /\
               Ninfos s4 = Ninfos s3).
  { unfold s4. destruct (bReject (blk s3 bi) <? g).
    - split; [apply same_shape_sBReject|].
      split; [apply same_links_sBReject; exact Hvb|].
      split; [apply same_slots_sBReject; exact Hvb|].
      split; [apply same_trial_sBReject; exact Hvb|].
      split; reflexivity.
    - split; [apply same_shape_refl|]. split; [apply same_links_refl|].
      split; [apply same_slots_refl|]. split; [apply same_trial_refl|].
      split; reflexivity. }
  destruct H4 as (S4 & L4 & P4 & T4 & O4 & I4).
  assert (Hvi4 : vi s4 e) by (unfold vi; rewrite I4; exact Hvi).
  split; [eapply same_shape_trans; [exact S4|apply same_shape_sNinfo]|].
  split; [eapply same_links_trans; [exact L4|apply same_links_sNinfo]|].
  split; [eapply same_slots_trans; [exact P4|apply same_slots_sNinfo]|].
  split; [eapply same_trial_trans; [exact T4|apply same_trial_sNinfo]|].
  split; [exact O4|].
  split.
  { rewrite ninf_sNinfo by exact Hvi4. rewrite Z.eqb_refl. reflexivity. }
  intros j Hj. rewrite ninf_sNinfo by exact Hvi4.
  destruct (Z.eqb_spec j e); [contradiction|].
  unfold ninf. rewrite I4. reflexivity.
Qed.

(** [pushEnode] under the allocator's invariant: for an occupied slot [e]
    it returns, the invariant holds again with [e] in the ring of its
    block, the node info of [e] is reset, and no other occupied slot is
    written.  Block 0 must have a free slot left: its count is one ahead,
    so the code takes its ring for non-empty. *)
Lemma pushEnode_allocator s R F e :
  allocator s R F -> Capacity s < 2 ^ 62 ->
  0 < e < Size s -> 0 <= Check (nod s e) ->
  (Int.shr8 e = 0 -> F 0 <> []) ->
  exists s' R' r',
    pushEnode e s = Ok tt s' /\
    allocator s' R' (fun b => if b =? Int.shr8 e then r' else F b) /\
    (forall x, x ∈ r' <-> x = e \/ x ∈ F (Int.shr8 e)) /\
    (forall b, b ∈ members R' <-> b ∈ members R) /\
    same_shape s s' /\ Ordered s' = Ordered s /\
    Check (nod s' e) < 0 /\
    ninf s' e = zeroNinfo /\
    (forall j, j <> e -> ninf s' j = ninf s j) /\
    (forall j, 0 <= Check (nod s j) -> j <> e -> nod s' j = nod s j).
Proof.
  intros A Hcap He Hocc H0.
  set (bi := Int.shr8 e) in *.
  destruct (ao_shape _ _ _ A) as (nb & cb & Hnb & HS & HC & HA & HN & HB).
  assert (HLa : len (Array s) < 2 ^ 62) by lia.
  assert (Hve : vn s e) by (unfold vn; lia).
  assert (Hvie : vi s e) by (unfold vi; lia).
  assert (Hbe : bi * 256 <= e < bi * 256 + 256)
    by (apply shr8_block; reflexivity).
  assert (Hvb : vb s bi) by (unfold vb; lia).
  assert (Hlt : bi < nblocks s).
  { unfold nblocks. rewrite HS, shr8_mul. lia. }
  pose proof (ao_free _ _ _ A bi Hvb) as HFR.
  pose proof (ring_room s bi (F bi) e HFR Hve (proj1 He) eq_refl Hocc)
    as Hroom.
  destruct HFR as (Hc & Hm & Hf & Hn & Hh).
  set (n1 := Int.add (Num (blk s bi)) 1).
  assert (En1 : n1 = Num (blk s bi) + 1).
  { unfold n1, Int.add. apply wrap_small. destruct (bi =? 0); lia. }
  assert (Hfree : forall x, x ∈ F bi -> vn s x /\ Check (nod s x) < 0).
  { intros x Hx. destruct (Hm x Hx) as (Hvx & _ & Hbx).
    split; [exact Hvx|]. apply (Hf x Hvx Hbx). exact Hx. }
  set (prev := Ehead (blk s bi)).
  set (next := Int.neg (Check (nod s prev))).
  assert (Hne : n1 <> 1 -> F bi <> []).
  { intros E1 E. destruct (Z.eqb_spec bi 0) as [Eb|Eb].
    - apply (H0 Eb). rewrite <- Eb. exact E.
    - rewrite E in Hn. simpl in Hn. lia. }
  assert (Hpn : n1 <> 1 -> prev ∈ F bi /\ next ∈ F bi).
  { intros E1. pose proof (Hh (Hne E1)) as Hp. split; [exact Hp|].
    apply (cyc_nxt_in _ _ _ _ Hc Hp). }
  assert (Hpv : n1 <> 1 -> vn s prev /\ vn s next).
  { intros E1. destruct (Hpn E1) as [Hp Hx].
    split; apply Hfree; assumption. }
  set (s1 := sNum bi n1 s).
  assert (Hvb1 : vb s1 bi) by (apply (proj2 (vb_sNum _ _ _ _)); exact Hvb).
  assert (Hve1 : vn s1 e) by (apply (proj2 (vn_sNum _ _ _ _)); exact Hve).
  assert (N1 : Num (blk s1 bi) = n1).
  { unfold s1. rewrite blk_sNum by exact Hvb. rewrite Z.eqb_refl.
    reflexivity. }
  assert (Eh1 : Ehead (blk s1 bi) = prev).
  { unfold s1. rewrite blk_sNum by exact Hvb. rewrite Z.eqb_refl.
    reflexivity. }
  set (s2 := linked e s).
  assert (Hps : push_slot e s s2).
  { unfold push_slot. fold bi. cbn zeta. fold n1.
    split; [exact Hvb|]. split; [exact Hve|].
    unfold s2, linked. fold bi. fold n1. fold prev. fold next.
    destruct (Z.eqb_spec n1 1) as [E1|E1].
    - left. split; [exact E1|reflexivity].
    - right. split; [exact E1|]. destruct (Hpv E1) as [Hp Hx].
      split; [exact Hp|]. split; [exact Hx|reflexivity]. }
  destruct (push_slot_frame e s s2 Hps) as (L2 & M2 & Nb2 & Tb2).
  fold bi in Nb2, Tb2. fold n1 in Nb2.
  destruct (linked_frame s e Hvb Hve Hpv)
    as (S2 & T2 & I2 & O2 & J2 & No2 & Nd2 & Nd2').
  fold s2 in S2, T2, I2, O2, J2, No2, Nd2, Nd2'. fold bi in No2.
  assert (HR2 : block_rings s2 R)
    by (apply (block_rings_frame s); [exact L2|apply A]).
  assert (Hvb2 : vb s2 bi).
  { unfold vb. destruct S2 as (_ & _ & _ & _ & -> & _). exact Hvb. }
  (* the run, up to the test on the count *)
  eassert (Hpre : pushEnode e s = _).
  { unfold pushEnode. fold bi.
    rewrite (bind_eval _ _ _ _ _ (rdBlock_ok _ _ Hvb)).
    rewrite (bind_eval _ _ _ _ _ (rdNum_ok _ _ Hvb)).
    rewrite (bind_eval _ _ _ _ _ (wrNum_ok _ _ _ Hvb)).
    fold n1. fold s1.
    rewrite (bind_eval _ _ _ _ _ (rdNum_ok _ _ Hvb1)). rewrite N1.
    reflexivity. }
  (* the middle: linking and the change of ring *)
  assert (Hmid : exists s3 R',
    pushEnode e s = Ok tt (finished e s3) /\
    block_rings s3 R' /\ same_shape s2 s3 /\ same_slots s2 s3 /\
    Ninfos s3 = Ninfos s2 /\ Ordered s3 = Ordered s2 /\
    (forall b, b <> bi -> Trial (blk s3 b) = Trial (blk s2 b)) /\
    (n1 <> 1 -> Trial (blk s3 bi) = 0) /\
    ((n1 = 1 /\ bi <> 0 /\ bi ∈ R HeadF /\ R' = moved bi HeadF HeadC R) \/
     (n1 <> 1 /\ bi <> 0 /\ bi ∈ R HeadC /\
      R' = moved bi HeadC HeadO R) \/
     (n1 <> 1 /\ R' = R /\
      (bi = 0 \/ (n1 <> 2 /\ Trial (blk s bi) <> MaxTrial s))))).
  { rewrite Hpre. clear Hpre.
    assert (Htail : forall s3,
      same_shape s2 s3 -> same_slots s2 s3 -> Ninfos s3 = Ninfos s2 ->
      (r <- rdBReject bi ;; num <- rdNum bi ;; g <- rdReject num ;;
       when (r <? g)
         (num <- rdNum bi ;; g <- rdReject num ;; wrBReject bi g) ;;;
       wrNinfo e zeroNinfo) s3 = Ok tt (finished e s3)).
    { intros s3 S3 P3 I3. apply finished_run.
      - unfold vb. destruct S3 as (_ & _ & _ & _ & -> & _). exact Hvb2.
      - destruct P3 as (_ & _ & P3). fold bi. rewrite (proj1 (P3 bi)), Nb2.
        destruct S3 as (_ & _ & _ & _ & _ & -> & _).
        destruct S2 as (_ & _ & _ & _ & _ & -> & _).
        rewrite (ao_reject _ _ _ A). destruct (bi =? 0); lia.
      - unfold vi. rewrite I3, I2. exact Hvie. }
    destruct (Z.eqb_spec n1 1) as [E1|E1].
    - (* the first free slot of a full block *)
      assert (Hb0 : bi <> 0).
      { intros E. destruct (Z.eqb_spec bi 0) as [_|Hx]; [lia|contradiction]. }
      assert (HF0 : F bi = []).
      { destruct (Z.eqb_spec bi 0); [contradiction|].
        destruct (F bi); [reflexivity|simpl in Hn; lia]. }
      assert (Hbi : bi ∈ R HeadF).
      { assert (Hmb : bi ∈ members R).
        { apply (ao_cover _ _ _ A). unfold vb in Hvb. lia. }
        apply members_in in Hmb. destruct Hmb as [h Hb].
        pose proof (ao_classes _ _ _ A h bi Hb) as Hcl.
        destruct h; simpl in Hcl.
        - exact Hb.
        - destruct Hcl as [Hcl _]. contradiction.
        - destruct Hcl as [Hcl _]. rewrite HF0 in Hcl. simpl in Hcl. lia. }
      destruct (transferBlock_rings s2 R HeadF HeadC bi HR2 eq_refl Hbi)
        as (s3 & Ht & HR3 & Hlo).
      { rewrite Nb2. split; [lia|discriminate]. }
      assert (Es2 : s2 = sNode e (mkNode (Int.neg e) (Int.neg e))
                           (sEhead bi e s1)).
      { unfold s2, linked. fold bi. fold n1.
        destruct (Z.eqb_spec n1 1); [reflexivity|contradiction]. }
      exists s3, (moved bi HeadF HeadC R). split.
      { rewrite (bind_eval _ _ s1 tt s3).
        - apply Htail.
          + apply links_only_same_shape. exact Hlo.
          + apply links_only_same_slots. exact Hlo.
          + apply (lo_ninfos _ _ Hlo).
        - rewrite (bind_eval _ _ _ _ _ (wrEhead_ok _ _ _ Hvb1)).
          rewrite (bind_eval _ _ (sEhead bi e s1) tt s2).
          + destruct (Z.eqb_spec bi 0); [contradiction|]. exact Ht.
          + rewrite Es2. apply wrNode_ok.
            apply (proj2 (vn_sEhead _ _ _ _)). exact Hve1. }
      split; [exact HR3|].
      split; [apply links_only_same_shape; exact Hlo|].
      split; [apply links_only_same_slots; exact Hlo|].
      split; [apply (lo_ninfos _ _ Hlo)|].
      split; [apply (lo_ordered _ _ Hlo)|].
      split; [intros b _; apply (lo_trial _ _ Hlo)|].
      split; [intros H; contradiction|].
      left. auto.
    - (* the ring has a slot already *)
      destruct (Hpv E1) as [Hvp Hvx].
      assert (Es2 : s2 = sValue next (Int.neg e)
                           (sCheck prev (Int.neg e)
                              (sNode e (mkNode (Int.neg prev) (Int.neg next))
                                 s1))).
      { unfold s2, linked. fold bi. fold n1. fold prev. fold next.
        destruct (Z.eqb_spec n1 1); [contradiction|reflexivity]. }
      assert (Hk : forall s3' R',
        (((n1 =? 2) || (Trial (blk s bi) =? MaxTrial s)) && negb (bi =? 0)
         = true -> transferBlock bi HeadC HeadO s2 = Ok tt s3') ->
        (((n1 =? 2) || (Trial (blk s bi) =? MaxTrial s)) && negb (bi =? 0)
         = false -> s3' = s2) ->
        block_rings s3' R' ->
        same_shape s2 s3' -> same_slots s2 s3' -> same_trial s2 s3' ->
        Ninfos s3' = Ninfos s2 -> Ordered s3' = Ordered s2 ->
        exists s3,
          bind (prev <- rdEhead bi ;;
                c <- rdCheck prev ;;
                let next := Int.neg c in
                wrNode e (mkNode (Int.neg prev) (Int.neg next)) ;;;
                wrCheck prev (Int.neg e) ;;;
                wrValue next (Int.neg e) ;;;
                num <- rdNum bi ;; tr <- rdTrial bi ;; mt <- gets MaxTrial ;;
                when ((num =? 2) || (tr =? mt))
                     (when (negb (bi =? 0))
                           (transferBlock bi HeadC HeadO)) ;;;
                wrTrial bi 0)
               (fun _ =>
                  r <- rdBReject bi ;; num <- rdNum bi ;;
                  g <- rdReject num ;;
                  when (r <? g)
                    (num <- rdNum bi ;; g <- rdReject num ;;
                     wrBReject bi g) ;;;
                  wrNinfo e zeroNinfo) s1
          = Ok tt (finished e s3) /\
          block_rings s3 R' /\ same_shape s2 s3 /\ same_slots s2 s3 /\
          Ninfos s3 = Ninfos s2 /\ Ordered s3 = Ordered s2 /\
          (forall b, b <> bi -> Trial (blk s3 b) = Trial (blk s2 b)) /\
          (n1 <> 1 -> Trial (blk s3 bi) = 0)).
      { intros s3' R' H3 H3' HR3 S3 P3 T3 I3 O3.
        assert (Hvb3 : vb s3' bi).
        { unfold vb. destruct S3 as (_ & _ & _ & _ & -> & _). exact Hvb2. }
        exists (sTrial bi 0 s3').
        assert (S3' : same_shape s2 (sTrial bi 0 s3'))
          by (eapply same_shape_trans; [exact S3|apply same_shape_sTrial]).
        assert (P3' : same_slots s2 (sTrial bi 0 s3')).
        { eapply same_slots_trans; [exact P3|].
          apply same_slots_sTrial. exact Hvb3. }
        split.
        { rewrite (bind_eval _ _ s1 tt (sTrial bi 0 s3')).
          - apply Htail; [exact S3'|exact P3'|exact I3].
          - rewrite (bind_eval _ _ _ _ _ (rdEhead_ok _ _ Hvb1)). rewrite Eh1.
            assert (Hvp1 : vn s1 prev)
              by (apply (proj2 (vn_sNum _ _ _ _)); exact Hvp).
            rewrite (bind_eval _ _ _ _ _ (rdCheck_ok _ _ Hvp1)).
            change (nod s1 prev) with (nod s prev). fold next. cbv zeta.
            rewrite (bind_eval _ _ _ _ _ (wrNode_ok _ _ _ Hve1)).
            set (sa := sNode e (mkNode (Int.neg prev) (Int.neg next)) s1)
              in *.
            assert (Hvpa : vn sa prev)
              by (apply (proj2 (vn_sNode _ _ _ _)); exact Hvp1).
            rewrite (bind_eval _ _ _ _ _ (wrCheck_ok _ _ _ Hvpa)).
            set (sb := sCheck prev (Int.neg e) sa) in *.
            assert (Hvxb : vn sb next).
            { apply (proj2 (vn_sCheck _ _ _ _)), (proj2 (vn_sNode _ _ _ _)),
                (proj2 (vn_sNum _ _ _ _)). exact Hvx. }
            rewrite (bind_eval _ _ _ _ _ (wrValue_ok _ _ _ Hvxb)).
            rewrite <- Es2.
            rewrite (bind_eval _ _ _ _ _ (rdNum_ok _ _ Hvb2)).
            rewrite (bind_eval _ _ _ _ _ (rdTrial_ok _ _ Hvb2)).
            rewrite (bind_eval _ _ _ _ _ (gets_ok _ _)).
            rewrite Nb2, Tb2, M2.
            rewrite (bind_eval _ _ s2 tt s3').
            + apply wrTrial_ok. exact Hvb3.
            + destruct ((n1 =? 2) || (Trial (blk s bi) =? MaxTrial s));
                cbn [when].
              * destruct (negb (bi =? 0)); cbn [when];
                  [exact (H3 eq_refl)|rewrite (H3' eq_refl); reflexivity].
              * rewrite (H3' eq_refl). reflexivity. }
        split.
        { apply (block_rings_frame s3'); [|exact HR3].
          apply same_links_sTrial. exact Hvb3. }
        split; [exact S3'|]. split; [exact P3'|].
        split; [exact I3|]. split; [exact O3|].
        split.
        { intros b Hb. rewrite blk_sTrial by exact Hvb3.
          destruct (Z.eqb_spec b bi); [contradiction|]. apply T3. }
        intros _. rewrite blk_sTrial by exact Hvb3. rewrite Z.eqb_refl.
        reflexivity. }
      assert (Hn0 : n1 <> 0) by (destruct (bi =? 0); lia).
      destruct (((n1 =? 2) || (Trial (blk s bi) =? MaxTrial s))
                && negb (bi =? 0)) eqn:Ecnd.
      + apply andb_true_iff in Ecnd. destruct Ecnd as [Ecnd Eb].
        apply negb_true_iff, Z.eqb_neq in Eb.
        apply orb_true_iff in Ecnd. rewrite !Z.eqb_eq in Ecnd.
        assert (Hbi : bi ∈ R HeadC).
        { destruct (class_of_block s R F bi A Hvb Eb (Hne E1))
            as [[H _]|(_ & H2 & Ht)]; [exact H|].
          destruct (Z.eqb_spec bi 0); [contradiction|].
          destruct Ecnd as [E2|Et]; [lia|contradiction]. }
        destruct (transferBlock_rings s2 R HeadC HeadO bi HR2 eq_refl Hbi)
          as (s3' & Ht & HR3 & Hlo).
        { rewrite Nb2. split; [intros H; contradiction|discriminate]. }
        destruct (Hk s3' (moved bi HeadC HeadO R))
          as (s3 & Hrun & K1 & K2 & K3 & K4 & K5 & K6 & K7).
        * intros _. exact Ht.
        * intros H. discriminate.
        * exact HR3.
        * apply links_only_same_shape. exact Hlo.
        * apply links_only_same_slots. exact Hlo.
        * apply links_only_same_trial. exact Hlo.
        * apply (lo_ninfos _ _ Hlo).
        * apply (lo_ordered _ _ Hlo).
        * exists s3, (moved bi HeadC HeadO R).
          split; [exact Hrun|]. split; [exact K1|]. split; [exact K2|].
          split; [exact K3|]. split; [exact K4|]. split; [exact K5|].
          split; [exact K6|]. split; [exact K7|].
          right. left. auto.
      + destruct (Hk s2 R)
          as (s3 & Hrun & K1 & K2 & K3 & K4 & K5 & K6 & K7).
        * intros H. discriminate.
        * intros _. reflexivity.
        * exact HR2.
        * apply same_shape_refl.
        * apply same_slots_refl.
        * apply same_trial_refl.
        * reflexivity.
        * reflexivity.
        * exists s3, R.
          split; [exact Hrun|]. split; [exact K1|]. split; [exact K2|].
          split; [exact K3|]. split; [exact K4|]. split; [exact K5|].
          split; [exact K6|]. split; [exact K7|].
          right. right. split; [exact E1|]. split; [reflexivity|].
          apply andb_false_iff in Ecnd. destruct Ecnd as [Ecnd|Eb].
          -- right. apply orb_false_iff in Ecnd.
             rewrite !Z.eqb_neq in Ecnd. exact Ecnd.
          -- left. apply negb_false_iff, Z.eqb_eq in Eb. exact Eb. }
  clear Hpre.
  destruct Hmid as (s3 & R' & Hrun & HR3 & S3 & P3 & I3 & O3 & T3 & Tb3
                    & Hcase).
  assert (Hvb3 : vb s3 bi).
  { unfold vb. destruct S3 as (_ & _ & _ & _ & -> & _). exact Hvb2. }
  assert (Hvi3 : vi s3 e) by (unfold vi; rewrite I3, I2; exact Hvie).
  destruct (finished_frame s3 e Hvb3 Hvi3)
    as (S' & L' & P' & T' & O' & Ie & Io).
  set (s' := finished e s3) in *.
  destruct (push_slot_free_rings e s s2 F (ao_free _ _ _ A) HLa (proj1 He)
              Hocc H0 Hps) as (r' & HF2 & Hr').
  fold bi in HF2, Hr'.
  set (F' := fun b => if b =? bi then r' else F b) in *.
  assert (HF' : free_rings s' F').
  { apply (free_rings_same_slots s3 s'); [exact P'|].
    apply (free_rings_same_slots s2 s3); [exact P3|exact HF2]. }
  assert (SS : same_shape s s').
  { eapply same_shape_trans; [exact S2|].
    eapply same_shape_trans; [exact S3|exact S']. }
  assert (En : nblocks s' = nblocks s).
  { unfold nblocks. destruct SS as (-> & _). reflexivity. }
  assert (EM : MaxTrial s' = MaxTrial s) by apply SS.
  assert (Hvb' : vb s' bi).
  { unfold vb. destruct SS as (_ & _ & _ & _ & -> & _). exact Hvb. }
  assert (Hve' : vn s' e).
  { unfold vn. destruct SS as (_ & _ & -> & _). exact Hve. }
  assert (Hnum' : forall b, Num (blk s' b)
                            = if b =? bi then n1 else Num (blk s b)).
  { intros b. destruct P' as (_ & _ & P'). destruct P3 as (_ & _ & P3).
    rewrite (proj1 (P' b)), (proj1 (P3 b)).
    destruct (Z.eqb_spec b bi) as [->|Hb]; [exact Nb2|apply No2; exact Hb]. }
  assert (Htr' : forall b, b <> bi -> Trial (blk s' b) = Trial (blk s b)).
  { intros b Hb. rewrite (T' b), (T3 b Hb). apply T2. }
  assert (Htb' : n1 <> 1 -> Trial (blk s' bi) = 0).
  { intros E1. rewrite (T' bi). apply Tb3. exact E1. }
  assert (EF : F' bi = r') by (unfold F'; rewrite Z.eqb_refl; reflexivity).
  assert (Hlen' : length r' = S (length (F bi))).
  { destruct (HF' bi Hvb') as (_ & _ & _ & Hn' & _).
    rewrite EF, Hnum', Z.eqb_refl in Hn'. lia. }
  assert (Hmem : forall b, b ∈ members R' <-> b ∈ members R).
  { intros b. destruct Hcase as [(_ & _ & Hbi & ->)|[(_ & _ & Hbi & ->)
                                 |(_ & -> & _)]].
    - apply members_moved; [reflexivity|exact Hbi].
    - apply members_moved; [reflexivity|exact Hbi].
    - tauto. }
  exists s', R', r'. split; [exact Hrun|]. split.
  { constructor.
    - apply (alloc_shape_frame s); [exact SS|apply A].
    - apply (block_rings_frame s3); [exact L'|exact HR3].
    - intros b Hb. rewrite En. apply (ao_fresh _ _ _ A). apply Hmem.
      exact Hb.
    - intros b Hb. rewrite En in Hb. apply Hmem.
      apply (ao_cover _ _ _ A). exact Hb.
    - exact HF'.
    - intros h b Hb.
      assert (Hold : forall h0, b <> bi -> b ∈ R h0 ->
                                block_class s' F' h0 b).
      { intros h0 Hne' Hb0.
        apply (block_class_ext s s' F F' h0 b).
        - unfold F'. destruct (Z.eqb_spec b bi); [contradiction|reflexivity].
        - apply Htr'. exact Hne'.
        - exact EM.
        - apply (ao_classes _ _ _ A h0 b Hb0). }
      pose proof (br_nodup _ _ (ao_rings _ _ _ A)) as HndR.
      pose proof (ao_maxtrial _ _ _ A) as Hmt.
      destruct Hcase as [(E1 & Hb0 & Hbi & ->)|[(E1 & Hb0 & Hbi & ->)
                         |(E1 & -> & Hc3)]].
      + apply (moved_elem R bi HeadF HeadC h b eq_refl) in Hb.
        destruct Hb as [[Hb Hne']|[-> Ho]].
        * apply Hold; [|exact Hb]. intros ->.
          rewrite (ring_unique R h HeadF bi HndR Hb Hbi) in Hne'.
          apply Hne'; reflexivity.
        * apply head_eqb_eq in Ho. subst h. cbn [block_class].
          rewrite !Z.eqb_refl.
          destruct (Z.eqb_spec bi 0); [contradiction|].
          split; [intros E; rewrite E in Hlen'; discriminate|].
          left. lia.
      + apply (moved_elem R bi HeadC HeadO h b eq_refl) in Hb.
        destruct Hb as [[Hb Hne']|[-> Ho]].
        * apply Hold; [|exact Hb]. intros ->.
          rewrite (ring_unique R h HeadC bi HndR Hb Hbi) in Hne'.
          apply Hne'; reflexivity.
        * apply head_eqb_eq in Ho. subst h. cbn [block_class].
          rewrite !Z.eqb_refl.
          rewrite (Htb' E1), EM.
          split; [|intros E; apply Hmt; symmetry; exact E].
          pose proof (Hne E1) as Hx. rewrite Hlen'.
          destruct (F bi); [contradiction|simpl; lia].
      + destruct (Z.eq_dec b bi) as [->|Hne']; [|apply Hold; assumption].
        assert (Hb0 : bi <> 0).
        { intros E. apply NoDup_cons in HndR. destruct HndR as [H _].
          apply H. rewrite <- E. eapply in_members. exact Hb. }
        destruct Hc3 as [?|[E2 Et]]; [contradiction|].
        destruct (Z.eqb_spec bi 0); [contradiction|].
        pose proof (ao_classes _ _ _ A h bi Hb) as Hcl.
        pose proof (Hne E1) as Hx.
        destruct h; cbn [block_class] in Hcl |- *; rewrite ?Z.eqb_refl.
        * contradiction.
        * destruct Hcl as [_ [Hcl|Hcl]]; [lia|contradiction].
        * rewrite (Htb' E1), EM.
          split; [lia|intros E; apply Hmt; symmetry; exact E].
    - intros b Hb. rewrite En in Hb.
      assert (Hbb : b <> bi) by lia.
      rewrite (Htr' b Hbb), Hnum'.
      destruct (Z.eqb_spec b bi); [contradiction|].
      apply (ao_beyond _ _ _ A b Hb).
    - destruct SS as (_ & _ & _ & _ & _ & -> & _). apply A.
    - rewrite EM. apply A. }
  split; [exact Hr'|]. split; [exact Hmem|]. split; [exact SS|].
  split; [rewrite O', O3; exact O2|].
  split.
  { destruct (HF' bi Hvb') as (_ & _ & Hf' & _).
    apply (Hf' e Hve' eq_refl). rewrite EF. apply Hr'. left. reflexivity. }
  split; [exact Ie|].
  split.
  { intros j Hj. rewrite (Io j Hj). unfold ninf. rewrite I3, I2.
    reflexivity. }
  intros j Hj Hje.
  assert (E3 : nod s' j = nod s2 j).
  { unfold nod. destruct P' as (-> & _). destruct P3 as (-> & _).
    reflexivity. }
  rewrite E3.
  destruct (Z.eq_dec n1 1) as [E1|E1].
  - apply Nd2'; assumption.
  - destruct (Hpn E1) as [Hp Hx].
    apply Nd2; [exact Hje| |].
    + change (j <> prev). intros E. rewrite E in Hj.
      pose proof (proj2 (Hfree _ Hp)). lia.
    + change (j <> next). intros E. rewrite E in Hj.
      pose proof (proj2 (Hfree _ Hx)). lia.
Qed.

Lemma free_slot_below_size s R F e :
  allocator s R F -> vn s e -> e ∈ F (Int.shr8 e) -> 0 < e < Size s.
Proof.
  intros A Hve Hin.
  destruct (ao_shape _ _ _ A) as (nb & cb & Hnb & HS & HC & HA & HN & HB).
  assert (Hvb : vb s (Int.shr8 e)).
  { pose proof (proj1 (shr8_block e (Int.shr8 e)) eq_refl).
    unfold vn in Hve. unfold vb. lia. }
  destruct (ao_free _ _ _ A _ Hvb) as (_ & Hm & Hf & Hn & _).
  destruct (Hm e Hin) as (_ & H0 & _). split; [exact H0|].
  destruct (Z.lt_ge_cases (Int.shr8 e) (nblocks s)) as [Hlt|Hge].
  - unfold nblocks in Hlt. rewrite HS, shr8_mul in Hlt.
    pose proof (proj1 (shr8_block e (Int.shr8 e)) eq_refl). lia.
  - destruct (ao_beyond _ _ _ A _ Hge) as [_ E]. rewrite E in Hn.
    destruct (F (Int.shr8 e)); [inversion Hin|].
    simpl in Hn. destruct (Int.shr8 e =? 0); lia.
Qed.

(** X14: [pushEnode] gives a slot back to the allocator.  Under the
    allocator's invariant, for an occupied slot [e] with [0 < e < Size]
    (and, when [e] lies in block 0, a free slot left in block 0),
    [pushEnode(e)] returns; afterwards the invariant holds again, the free
    slots of the block of [e] are those of before and [e], the free slots
    of every other block are as before, [Array[e].Check] is negative,
    [Ninfos[e]] is reset, the blocks in use are the same, and no other
    occupied slot and no other node info has changed. *)
Theorem pushEnode_frees_slot s R F e :
  allocator s R F -> Capacity s < 2 ^ 62 ->
  0 < e < Size s -> 0 <= Check (nod s e) ->
  (Int.shr8 e = 0 -> F 0 <> []) ->
  exists s',
    pushEnode e s = Ok tt s' /\
    (exists R' F',
       allocator s' R' F' /\
       (forall b, b ∈ members R' <-> b ∈ members R) /\
       (forall x, x ∈ F' (Int.shr8 e) <-> x = e \/ x ∈ F (Int.shr8 e)) /\
       (forall b, b <> Int.shr8 e -> F' b = F b)) /\
    Size s' = Size s /\ Capacity s' = Capacity s /\
    Check (nod s' e) < 0 /\
    ninf s' e = zeroNinfo /\
    (forall j, j <> e -> ninf s' j = ninf s j) /\
    (forall j, 0 <= Check (nod s j) -> j <> e -> nod s' j = nod s j).
Proof.
  intros A Hcap He Hocc H0.
  destruct (pushEnode_allocator s R F e A Hcap He Hocc H0)
    as (s' & R' & r' & Hrun & A' & Hr' & Hmem & SS & _ & Hck & Hi & Hio
        & Hn).
  exists s'. split; [exact Hrun|]. split.
  { exists R', (fun b => if b =? Int.shr8 e then r' else F b).
    split; [exact A'|]. split; [exact Hmem|]. split.
    - rewrite Z.eqb_refl. exact Hr'.
    - intros b Hb. destruct (Z.eqb_spec b (Int.shr8 e)); [contradiction|].
      reflexivity. }
  destruct SS as (ES & EC & _). auto 10.
Qed.

(** X14, witness: the terminal slot 256 of "ab" is given back. *)
Lemma pushEnode_frees_slot_witness :
  exists s',
    pushEnode 256 state_ab = Ok tt s' /\
    (exists R' F',
       allocator s' R' F' /\
       (forall b, b ∈ members R' <-> b ∈ members (rings_of state_ab)) /\
       (forall x, x ∈ F' (Int.shr8 256)
                  <-> x = 256 \/ x ∈ ring_of state_ab (Int.shr8 256)) /\
       (forall b, b <> Int.shr8 256 -> F' b = ring_of state_ab b)) /\
    Size s' = Size state_ab /\ Capacity s' = Capacity state_ab /\
    Check (nod s' 256) < 0 /\
    ninf s' 256 = zeroNinfo /\
    (forall j, j <> 256 -> ninf s' j = ninf state_ab j) /\
    (forall j, 0 <= Check (nod state_ab j) -> j <> 256 ->
               nod s' j = nod state_ab j).
Proof.
  apply (pushEnode_frees_slot state_ab (rings_of state_ab)
           (ring_of state_ab) 256).
  - apply allocator_b_sound. vm_compute. reflexivity.
  - vm_compute. reflexivity.
  - vm_compute. split; reflexivity.
  - vm_compute. discriminate.
  - intros H. vm_compute in H. discriminate.
Defined.

(** X15: a slot taken by [popEnode] and given back by [pushEnode].  Under
    the allocator's invariant, when the slot [e = base XOR label] is free
    ([0 <= base]), [popEnode(base, from, label)] returns [e] and
    [pushEnode(e)] then returns; after the two calls the invariant holds,
    every block has the same free slots as at the start, [e] is free again
    with its node info reset, and no occupied slot and no other node info
    has changed.  When [e] lies in block 0 it must not be the last free
    slot of that block. *)
Theorem popEnode_pushEnode_round_trip s R F base from label :
  allocator s R F -> Capacity s < 2 ^ 62 -> 0 <= base -> 0 <= from ->
  let e := Int.xor base (b2z label) in
  vn s e -> Check (nod s e) < 0 ->
  (Int.shr8 e = 0 -> without e (F 0) <> []) ->
  exists s1 s2,
    popEnode base from label s = Ok e s1 /\
    pushEnode e s1 = Ok tt s2 /\
    (exists R2 F2, allocator s2 R2 F2 /\
                   (forall b, b ∈ members R2 <-> b ∈ members R) /\
                   forall b x, x ∈ F2 b <-> x ∈ F b) /\
    (forall j, 0 <= Check (nod s j) -> nod s2 j = nod s j) /\
    Check (nod s2 e) < 0 /\
    ninf s2 e = zeroNinfo /\
    (forall j, j <> e -> ninf s2 j = ninf s j).
Proof.
  intros A Hcap Hb Hfrom e Hve Hfree H0.
  set (bi := Int.shr8 e) in *.
  destruct (ao_shape _ _ _ A) as (nb & cb & Hnb & HS & HC & HA & HN & HB).
  assert (Hvb : vb s bi).
  { pose proof (proj1 (shr8_block e bi) eq_refl).
    unfold vn in Hve. unfold vb. lia. }
  assert (Hin : e ∈ F bi).
  { destruct (ao_free _ _ _ A bi Hvb) as (_ & _ & Hf & _).
    apply (Hf e Hve eq_refl). exact Hfree. }
  pose proof (free_slot_below_size s R F e A Hve Hin) as He.
  destruct (popEnode_at_allocator s R F base from label e A Hcap Hve Hin
              Hfrom)
    as (s1 & R1 & Hpop & A1 & Hmem1 & S1 & I1 & _ & Ne & _ & Nocc).
  { intros E. lia. }
  fold bi in A1.
  set (F1 := fun b => if b =? bi then without e (F b) else F b) in *.
  destruct (pushEnode_allocator s1 R1 F1 e A1)
    as (s2 & R2 & r' & Hpush & A2 & Hr' & Hmem2 & _ & _ & Hck & Hi & Hio
        & Nocc2).
  { destruct S1 as (_ & -> & _). exact Hcap. }
  { destruct S1 as (-> & _). exact He. }
  { rewrite Ne. exact Hfrom. }
  { fold bi. intros E. pose proof (H0 E) as H. unfold F1. rewrite E.
    rewrite Z.eqb_refl. exact H. }
  fold bi in A2, Hr'.
  exists s1, s2. split.
  { rewrite popEnode_eq. replace (base <? 0) with false by lia.
    rewrite (bind_eval _ _ s e s) by reflexivity. exact Hpop. }
  split; [exact Hpush|]. split.
  { exists R2, (fun b => if b =? bi then r' else F1 b).
    split; [exact A2|]. split.
    - intros b. rewrite Hmem2. apply Hmem1.
    - intros b x. destruct (Z.eqb_spec b bi) as [->|Hne].
      + rewrite Hr'. unfold F1. rewrite Z.eqb_refl, elem_of_without.
        split.
        * intros [->|[H _]]; assumption.
        * intros H. destruct (Z.eq_dec x e); [left|right]; auto.
      + unfold F1. destruct (Z.eqb_spec b bi); [contradiction|tauto]. }
  split.
  { intros j Hj.
    assert (Hje : j <> e) by (intros ->; lia).
    assert (E1 : nod s1 j = nod s j).
    { apply Nocc; [exact Hj|]. intros E. lia. }
    rewrite <- E1. apply Nocc2; [rewrite E1; exact Hj|exact Hje]. }
  split; [exact Hck|]. split; [exact Hi|].
  intros j Hj. rewrite (Hio j Hj). unfold ninf. rewrite I1. reflexivity.
Qed.

(** X15, witness: the free slot of "c" under the root of the state with
    "ab". *)
Lemma popEnode_pushEnode_round_trip_witness :
  let e := Int.xor 1 (b2z "c") in
  exists s1 s2,
    popEnode 1 0 "c" state_ab = Ok e s1 /\
    pushEnode e s1 = Ok tt s2 /\
    (exists R2 F2, allocator s2 R2 F2 /\
                   (forall b, b ∈ members R2
                              <-> b ∈ members (rings_of state_ab)) /\
                   forall b x, x ∈ F2 b <-> x ∈ ring_of state_ab b) /\
    (forall j, 0 <= Check (nod state_ab j) -> nod s2 j = nod state_ab j) /\
    Check (nod s2 e) < 0 /\
    ninf s2 e = zeroNinfo /\
    (forall j, j <> e -> ninf s2 j = ninf state_ab j).
Proof.
  apply (popEnode_pushEnode_round_trip state_ab (rings_of state_ab)
           (ring_of state_ab) 1 0 "c").
  - apply allocator_b_sound. vm_compute. reflexivity.
  - vm_compute. reflexivity.
  - lia.
  - lia.
  - vm_compute. split; [discriminate|reflexivity].
  - vm_compute. reflexivity.
  - intros _. vm_compute. discriminate.
Defined.

(** * [setChild] and [pushSibling] agree *)

Lemma insertLabel_insertBefore label l :
  label ∉ l -> insertLabel label l = insertBefore label l.
Proof.
  induction l as [|c r IH]; intros Hl; simpl; [reflexivity|].
  rewrite not_elem_of_cons in Hl. destruct Hl as [Hc Hr].
  assert (Hne : b2z c <> b2z label)
    by (intros E; apply b2z_inj in E; auto).
  destruct (Z.leb_spec (b2z c) (b2z label)), (Z.ltb_spec (b2z c) (b2z label));
    try lia; [|reflexivity].
  rewrite IH by exact Hr. reflexivity.
Qed.

Lemma withLabel_pushLabel o label l :
  label ∉ l -> withLabel o label l = pushLabel o label l.
Proof.
  destruct l as [|c r]; intros Hl.
  - destruct o; reflexivity.
  - pose proof Hl as Hl'. rewrite not_elem_of_cons in Hl'.
    destruct Hl' as [Hc Hr].
    assert (Hne : b2z c <> b2z label)
      by (intros E; apply b2z_inj in E; auto).
    pose proof (b2z_range label) as Hrl.
    unfold withLabel, pushLabel.
    destruct (Z.eqb_spec (b2z c) 0) as [E0|E0]; simpl.
    + destruct o.
      * destruct (Z.ltb_spec (b2z c) (b2z label)); [|lia].
        rewrite insertLabel_insertBefore by exact Hr. reflexivity.
      * reflexivity.
    + destruct o; [|reflexivity].
      destruct (Z.leb_spec (b2z c) (b2z label)),
        (Z.ltb_spec (b2z c) (b2z label)); try lia; [|reflexivity].
      rewrite insertLabel_insertBefore by exact Hr. reflexivity.
Qed.

(** X16: [setChild] lists the sibling chain, and with its flag set it
    lists the chain that [pushSibling] builds.  For a parent [from] whose
    children under [base] form the chain [l] and a [label] that is not in
    it, [setChild(base, Child, label, false)] returns [l], and
    [setChild(base, Child, label, true)] returns [l] with [label] put in,
    both without changing the state; [pushSibling(from, base, label, true)]
    then returns, and in its state [setChild(.., false)] returns that same
    list. *)
Theorem setChild_predicts_pushSibling s fuel from base label l :
  vi s from -> vi s (Int.xor base (b2z label)) ->
  chain_from s base (Child (ninf s from)) l ->
  (label ∉ l) -> (S (length l) < fuel)%nat ->
  setChild fuel base (Child (ninf s from)) label false s = Ok l s /\
  setChild fuel base (Child (ninf s from)) label true s
  = Ok (pushLabel (Ordered s) label l) s /\
  exists s',
    pushSibling fuel from base label true s = Ok tt s' /\
    setChild fuel base (Child (ninf s' from)) label false s'
    = Ok (pushLabel (Ordered s) label l) s'.
Proof.
  intros Hf Hv Hch Hl Hfuel.
  split; [apply (setChild_spec s fuel base _ label false l Hch); lia|].
  split.
  { rewrite (setChild_spec s fuel base _ label true l Hch) by lia.
    rewrite withLabel_pushLabel by exact Hl. reflexivity. }
  destruct (proj1 (pushSibling_chain s fuel from base label Hf Hv) l Hch Hl)
    as (s' & Hpush & _ & _ & _ & Hch' & _); [lia|].
  exists s'. split; [exact Hpush|].
  apply (setChild_spec s' fuel base _ label false _ Hch').
  rewrite length_pushLabel. lia.
Qed.

(** X16, witness: the root of the state with "ab" has the chain [a];
    "c" is put in. *)
Lemma setChild_predicts_pushSibling_witness :
  setChild 8 1 (Child (ninf state_ab 0)) "c" false state_ab
  = Ok ["a"%byte] state_ab /\
  setChild 8 1 (Child (ninf state_ab 0)) "c" true state_ab
  = Ok (pushLabel (Ordered state_ab) "c" ["a"%byte]) state_ab /\
  exists s',
    pushSibling 8 0 1 "c" true state_ab = Ok tt s' /\
    setChild 8 1 (Child (ninf s' 0)) "c" false s'
    = Ok (pushLabel (Ordered state_ab) "c" ["a"%byte]) s'.
Proof.
  apply (setChild_predicts_pushSibling state_ab 8 0 1 "c" ["a"%byte]).
  - vm_compute. split; [discriminate|reflexivity].
  - vm_compute. split; [discriminate|reflexivity].
  - apply chain_b_sound. vm_compute. reflexivity.
  - intros H. apply list_elem_of_singleton in H. discriminate.
  - simpl. lia.
Defined.

(** * A new block *)

(** X17: [addBlock] appends one block of 256 free slots.  Under the
    allocator's invariant, [addBlock] returns the index [Size >> 8] of the
    new block; [Size] grows by 256 and [Capacity] doubles exactly when the
    slices were full; the invariant holds again with the new block at the
    head of the Open ring and its 256 slots free, in the order of their
    indices, the other blocks keeping their free slots; no slot below the
    old [Size] and no node info is changed, and every slot of the new block
    has a negative [Check]. *)
Theorem addBlock_appends_block s R F :
  allocator s R F -> Capacity s < 2 ^ 58 ->
  exists s',
    addBlock s = Ok (nblocks s) s' /\
    allocator s' (pushed (nblocks s) HeadO R) (added_rings s F) /\
    Size s' = Size s + 256 /\
    Capacity s'
    = (if Size s =? Capacity s then 2 * Capacity s else Capacity s) /\
    (forall j, 0 <= j < Size s -> nod s' j = nod s j) /\
    (forall j, Size s <= j < Size s + 256 -> Check (nod s' j) < 0) /\
    (forall j, ninf s' j = ninf s j).
Proof.
  intros A Hcap.
  destruct (addBlock_allocator s R F A Hcap)
    as (s' & Hrun & A' & HS' & Hnod & _).
  destruct (ao_shape _ _ _ A) as (nb & cb & Hnb & HS & _).
  exists s'. split; [exact Hrun|]. split; [exact A'|].
  split; [exact HS'|].
  split; [apply (addBlock_capacity s _ s' (ao_shape _ _ _ A) Hcap Hrun)|].
  split.
  { intros j Hj. rewrite Hnod.
    destruct (Z.leb_spec (Size s) j); [lia|]. reflexivity. }
  split.
  { intros j Hj. rewrite Hnod.
    destruct (Z.leb_spec (Size s) j); [|lia].
    destruct (Z.ltb_spec j (Size s + 256)); [|lia].
    unfold fresh_node. cbn [andb Check].
    destruct (j =? Size s + 255); lia. }
  apply (addBlock_ninf s _ s' (ao_shape _ _ _ A) Hcap Hrun).
Qed.

(** X17, witness: a third block for the state with "ab". *)
Lemma addBlock_appends_block_witness :
  exists s',
    addBlock state_ab = Ok (nblocks state_ab) s' /\
    allocator s' (pushed (nblocks state_ab) HeadO (rings_of state_ab))
      (added_rings state_ab (ring_of state_ab)) /\
    Size s' = Size state_ab + 256 /\
    Capacity s'
    = (if Size state_ab =? Capacity state_ab then 2 * Capacity state_ab
       else Capacity state_ab) /\
    (forall j, 0 <= j < Size state_ab -> nod s' j = nod state_ab j) /\
    (forall j, Size state_ab <= j < Size state_ab + 256 ->
               Check (nod s' j) < 0) /\
    (forall j, ninf s' j = ninf state_ab j).
Proof.
  apply (addBlock_appends_block state_ab (rings_of state_ab)
           (ring_of state_ab)).
  - apply allocator_b_sound. vm_compute. reflexivity.
  - vm_compute. reflexivity.
Defined.

(** * The rings of blocks, operation by operation *)

(** The rings after block [bi] left ring [h]. *)
Definition removed (bi : Z) (h : headptr) (R : headptr -> list Z)
    : headptr -> list Z :=
  fun h' => if head_eqb h' h then without bi (R h') else R h'.

Lemma removed_elem bi h R h' x :
  x ∈ removed bi h R h' -> x ∈ R h'.
Proof.
  unfold removed. destruct (head_eqb h' h); [|auto].
  intros H. apply elem_of_without in H. tauto.
Qed.

Lemma NoDup_removed bi h R :
  NoDup (0 :: members R) -> NoDup (0 :: members (removed bi h R)).
Proof.
  intros H. apply NoDup_cons in H. destruct H as [H0 H].
  apply NoDup_cons. split.
  - intros Hx. apply members_in in Hx. destruct Hx as [h' Hx].
    apply removed_elem in Hx. apply H0. eapply in_members. exact Hx.
  - apply NoDup_members in H. destruct H as [H1 H2].
    apply NoDup_members. split.
    + intros h'. unfold removed. destruct (head_eqb h' h); [|apply H1].
      apply NoDup_without, H1.
    + intros h1 h2 x E Hx Hx'. apply removed_elem in Hx, Hx'.
      apply (H2 h1 h2 x E Hx Hx').
Qed.

(** [popBlock], called as [transferBlock] calls it, takes a member out of
    its ring and leaves the three rings well formed. *)
Lemma popBlock_rings s R h bi :
  block_rings s R -> bi ∈ R h ->
  exists s', popBlock bi h (bi =? nxtB s bi) s = Ok tt s' /\
             block_rings s' (removed bi h R) /\
             links_only s s'.
Proof.
  intros [Hnd Hv Hh Hc] Hbi.
  assert (Hvc : forall h b, b ∈ cycleOf h (R h) -> vb s b).
  { intros h0 b Hb. apply Hv. apply cycleOf_elem in Hb.
    destruct Hb as [Hb|[_ ->]]; [right; eapply in_members; eauto|left;
      reflexivity]. }
  destruct (popBlock_cycle s h (R h) bi (Hc h) (Hvc h) (Hh h) Hbi
              (ring_no_zero R h Hnd))
    as (s1 & Hpop & Hc1 & Hh1 & Hho1 & Hfr1 & Hlo1).
  exists s1. split; [exact Hpop|]. split; [|exact Hlo1].
  constructor.
  - apply NoDup_removed. exact Hnd.
  - intros b Hb. apply (links_only_vb _ _ _ Hlo1). apply Hv.
    destruct Hb as [->|Hb]; [left; reflexivity|right].
    apply members_in in Hb. destruct Hb as [h' Hb].
    apply removed_elem in Hb. eapply in_members. exact Hb.
  - intros h'. unfold removed. destruct (head_eqb h' h) eqn:E.
    + apply head_eqb_eq in E. subst h'. exact Hh1.
    + rewrite (Hho1 h' E). apply Hh.
  - intros h'. unfold removed. destruct (head_eqb h' h) eqn:E.
    + apply head_eqb_eq in E. subst h'. exact Hc1.
    + apply (cyc_frame s); [|apply Hc].
      intros y Hy. apply Hfr1.
      apply (cycles_disjoint R h' h y Hnd E Hy).
Qed.

(** [pushBlock], with the flag [empty] as its callers compute it (never set
    for the Full ring, and set for the other two exactly when the ring is
    empty), puts a block that is in no ring at the head of a ring and
    leaves the three rings well formed. *)
Lemma pushBlock_rings s R h bi :
  block_rings s R -> vb s bi -> bi <> 0 -> bi ∉ members R ->
  exists s', pushBlock bi h (emptyFlag h (R h)) s = Ok tt s' /\
             block_rings s' (pushed bi h R) /\
             links_only s s'.
Proof.
  intros [Hnd Hv Hh Hc] Hvb Hb0 Hbm.
  assert (Hvc : forall h b, b ∈ cycleOf h (R h) -> vb s b).
  { intros h0 b Hb. apply Hv. apply cycleOf_elem in Hb.
    destruct Hb as [Hb|[_ ->]]; [right; eapply in_members; eauto|left;
      reflexivity]. }
  assert (Hbc : forall h0, bi ∉ cycleOf h0 (R h0)).
  { intros h0 Hb. apply cycleOf_elem in Hb.
    destruct Hb as [Hb|[_ E]]; [|contradiction].
    apply Hbm. eapply in_members. exact Hb. }
  destruct (pushBlock_cycle s h (R h) bi (Hc h) (Hvc h) (Hh h) Hvb (Hbc h))
    as (s1 & Hpush & Hc1 & Hh1 & Hho1 & Hfr1 & Hlo1).
  exists s1. split; [exact Hpush|]. split; [|exact Hlo1].
  constructor.
  - apply NoDup_pushed; assumption.
  - intros b Hb. apply (links_only_vb _ _ _ Hlo1).
    destruct Hb as [->|Hb]; [apply Hv; left; reflexivity|].
    apply members_in in Hb. destruct Hb as [h' Hb].
    apply pushed_elem in Hb. destruct Hb as [[-> _]|Hb]; [exact Hvb|].
    apply Hv. right. eapply in_members. exact Hb.
  - intros h'. unfold pushed. destruct (head_eqb h' h) eqn:E.
    + apply head_eqb_eq in E. subst h'. exact Hh1.
    + rewrite (Hho1 h' E). apply Hh.
  - intros h'. unfold pushed. destruct (head_eqb h' h) eqn:E.
    + apply head_eqb_eq in E. subst h'. exact Hc1.
    + apply (cyc_frame s); [|apply Hc].
      intros y Hy. apply Hfr1. apply not_elem_of_cons. split.
      * intros ->. apply (Hbc h' Hy).
      * apply (cycles_disjoint R h' h y Hnd E Hy).
Qed.

(** ** Block 0 stays where it is

    [popEnode] and [pushEnode] call [transferBlock] under the guard
    [bi != 0]: for a slot of block 0 no link and no head is written. *)

Lemma keeps_same_wrNum i v : keeps same_links (wrNum i v).
Proof.
  intros s u s' H. apply wrNum_inv in H. destruct H as [Hv ->].
  apply same_links_sNum. exact Hv.
Qed.
Lemma keeps_same_wrEhead i v : keeps same_links (wrEhead i v).
Proof.
  intros s u s' H. apply wrEhead_inv in H. destruct H as [Hv ->].
  apply same_links_sEhead. exact Hv.
Qed.
Lemma keeps_same_wrValue i v : keeps same_links (wrValue i v).
Proof.
  intros s u s' H. apply wrValue_inv in H. destruct H as [_ ->].
  apply same_links_sValue.
Qed.
Lemma keeps_same_wrCheck i v : keeps same_links (wrCheck i v).
Proof.
  intros s u s' H. apply wrCheck_inv in H. destruct H as [_ ->].
  apply same_links_sCheck.
Qed.

Ltac keeps_same :=
  repeat first
    [ apply keeps_same_wrNum | apply keeps_same_wrEhead
    | apply keeps_same_wrValue | apply keeps_same_wrCheck
    | apply (keeps_ret same_links same_links_refl)
    | apply (keeps_gets same_links same_links_refl)
    | apply (keeps_rdBlock same_links same_links_refl)
    | apply (keeps_rdNode same_links same_links_refl)
    | apply (keeps_rdNum same_links same_links_refl)
    | apply (keeps_rdValue same_links same_links_refl)
    | apply (keeps_rdCheck same_links same_links_refl)
    | apply (keeps_rdEhead same_links same_links_refl)
    | apply (keeps_rdTrial same_links same_links_refl)
    | apply (keeps_when same_links same_links_refl)
    | apply (keeps_bind same_links same_links_trans); [|intros]
    | match goal with |- keeps _ (if ?c then _ else _) => destruct c end ].

Lemma popEnode_at_block0 base from label e :
  Int.shr8 e = 0 -> keeps same_links (popEnode_at base from label e).
Proof.
  intros E. unfold popEnode_at. rewrite E.
  change (negb (0 =? 0)) with false. cbn [andb when].
  keeps_same.
Qed.

Lemma popEnode_block0 base from label s e s' :
  0 <= base -> Int.shr8 (Int.xor base (b2z label)) = 0 ->
  popEnode base from label s = Ok e s' -> same_links s s'.
Proof.
  intros Hb E H. rewrite popEnode_eq in H.
  replace (base <? 0) with false in H by lia.
  rewrite (bind_eval _ _ s (Int.xor base (b2z label)) s) in H
    by reflexivity.
  apply (popEnode_at_block0 base from label _ E s e s' H).
Qed.

Lemma pushEnode_block0 e s s' :
  Int.shr8 e = 0 -> pushEnode e s = Ok tt s' -> same_links s s'.
Proof.
  intros E H. apply pushEnode_inv in H.
  destruct H as (s2 & s3 & H2 & H3 & H4).
  destruct (push_slot_frame e s s2 H2) as (L2 & _).
  destruct (push_tail_frame e s3 s' H4) as (L4 & _).
  eapply same_links_trans; [exact L2|].
  eapply same_links_trans; [|exact L4].
  unfold push_class in H3. rewrite E in H3. cbn zeta in H3.
  destruct H3 as [(_ & [(Hb & _)|(_ & ->)])
                 |(_ & s3' & [(_ & Hb & _)|(_ & ->)] & Hv & ->)].
  - contradiction.
  - apply same_links_refl.
  - contradiction.
  - apply same_links_sTrial. exact Hv.
Qed.

(** ** The states that the allocator serves *)

(** A write to an occupied slot that leaves it occupied does not touch the
    free rings. *)
Lemma free_ring_occupied s b r j n :
  free_ring s b r -> vn s j -> 0 <= Check (nod s j) -> 0 <= Check n ->
  free_ring (sNode j n s) b r.
Proof.
  intros (Hc & Hm & Hf & Hn & He) Hv Hocc Hn0.
  assert (Hjr : forall e, e ∈ r -> e <> j).
  { intros e He' ->. destruct (Hm j He') as (Hvj & _ & Hb).
    apply (Hf j Hvj Hb) in He'. lia. }
  assert (Hnod : forall e, nod (sNode j n s) e
                           = if e =? j then n else nod s e)
    by (intros e; apply nod_sNode; exact Hv).
  split; [|split; [|split; [|split]]].
  - apply (cyc_ext (nxtS s) (prvS s)); [|exact Hc].
    intros y Hy. unfold nxtS, prvS. rewrite Hnod.
    destruct (Z.eqb_spec y j) as [E|_]; [destruct (Hjr y Hy E)|auto].
  - intros e H. destruct (Hm e H) as (Hve & Hp & Hb).
    split; [apply (proj2 (vn_sNode _ _ _ _)); exact Hve|auto].
  - intros e Hve Hb. apply (proj1 (vn_sNode _ _ _ _)) in Hve.
    rewrite Hnod. destruct (Z.eqb_spec e j) as [->|_].
    + split; [lia|]. intros H. destruct (Hjr j H eq_refl).
    + apply Hf; assumption.
  - exact Hn.
  - exact He.
Qed.

Lemma allocator_occupied s R F j n :
  allocator s R F -> vn s j -> 0 <= Check (nod s j) -> 0 <= Check n ->
  allocator (sNode j n s) R F.
Proof.
  intros [A1 A2 A3 A4 A5 A6 A7 A8 A9] Hv Hocc Hn0.
  assert (SS : same_shape s (sNode j n s)) by apply same_shape_sNode.
  constructor.
  - apply (alloc_shape_frame s); assumption.
  - apply (block_rings_frame s); [apply same_links_sNode|exact A2].
  - exact A3.
  - exact A4.
  - intros b Hb. apply (proj1 (vb_sNode _ _ _ _)) in Hb.
    apply free_ring_occupied; auto.
  - exact A6.
  - exact A7.
  - exact A8.
  - exact A9.
Qed.

(** A ring holds fewer blocks than are in use. *)
Lemma ring_shorter s R F h :
  allocator s R F -> (length (R h) <= Z.to_nat (nblocks s))%nat.
Proof.
  intros A.
  assert (Hnd : NoDup (R h)).
  { pose proof (br_nodup _ _ (ao_rings _ _ _ A)) as H.
    apply NoDup_cons in H. destruct H as [_ H].
    apply NoDup_members in H. apply H. }
  assert (Hsub : forall x, x ∈ R h -> x ∈ seqZ 0 (nblocks s)).
  { intros x Hx. apply elem_of_seqZ.
    assert (Hm : x ∈ members R) by (eapply in_members; exact Hx).
    pose proof (ao_fresh _ _ _ A x Hm).
    destruct (allocator_block _ _ _ _ A Hm) as ([H0 _] & _). lia. }
  pose proof (submseteq_length _ _ (NoDup_submseteq _ _ Hnd Hsub)) as Hlen.
  rewrite length_seqZ in Hlen. exact Hlen.
Qed.

(** The states of the allocator: [New], and what [popEnode], [pushEnode],
    [addBlock] and [findPlaces] make of such a state when they are called
    as [follow] and [resolve] call them (a free slot, or a parent without
    base, for [popEnode]; an occupied slot for [pushEnode], and for block 0,
    whose count is one ahead, a free slot left in it), the writes of the
    trie to occupied slots and to node infos in between, and a whole
    [getV] that meets no conflict. *)
Inductive allocated : Cedar -> Prop :=
| al_New : allocated New
| al_popEnode s base from label e s' :
    allocated s -> Capacity s < 2 ^ 58 -> 0 <= from ->
    (base < 0 -> from < Size s /\ 0 <= Check (nod s from)) ->
    (0 <= base -> vn s (Int.xor base (b2z label)) /\
                  Check (nod s (Int.xor base (b2z label))) < 0) ->
    popEnode base from label s = Ok e s' -> allocated s'
| al_pushEnode s e s' :
    allocated s -> Capacity s < 2 ^ 58 ->
    0 < e < Size s -> 0 <= Check (nod s e) ->
    (Int.shr8 e = 0 -> exists x, 0 < x < 256 /\ Check (nod s x) < 0) ->
    pushEnode e s = Ok tt s' -> allocated s'
| al_addBlock s b s' :
    allocated s -> Capacity s < 2 ^ 58 ->
    addBlock s = Ok b s' -> allocated s'
| al_findPlaces s fuel c0 crest e s' :
    allocated s -> Capacity s < 2 ^ 58 ->
    (Z.to_nat (nblocks s) + 257 <= fuel)%nat ->
    findPlaces fuel (c0 :: crest) s = Ok e s' -> allocated s'
| al_node s j n :
    allocated s -> vn s j -> 0 <= Check (nod s j) -> 0 <= Check n ->
    allocated (sNode j n s)
| al_ninfo s j n : allocated s -> allocated (sNinfo j n s)
| al_getV s fuel pre k r from to s' :
    allocated s -> Capacity s + 256 * len (k :: r) < 2 ^ 56 ->
    len (pre ++ k :: r) < 2 ^ 62 ->
    0 <= from < Size s -> 0 <= Check (nod s from) ->
    no_conflict s fuel from k ->
    getV fuel (pre ++ k :: r) from (len pre) s = Ok to s' -> allocated s'.

Lemma allocator_New : allocator New (rings_of New) (ring_of New).
Proof. apply allocator_b_sound. vm_compute. reflexivity. Qed.

Lemma allocated_allocator s : allocated s -> exists R F, allocator s R F.
Proof.
  induction 1 as [|s base from label e s' _ (R & F & A) Hcap Hfrom Hneg Hpos
                     Hrun
                  |s e s' _ (R & F & A) Hcap He Hocc H0 Hrun
                  |s b s' _ (R & F & A) Hcap Hrun
                  |s fuel c0 crest e s' _ (R & F & A) Hcap Hfuel Hrun
                  |s j n _ (R & F & A) Hv Hocc Hn
                  |s j n _ (R & F & A)
                  |s fuel pre k r from to s' _ (R & F & A) Hcap Hlen Hfrom
                     Hocc Hnc Hrun].
  - exists (rings_of New), (ring_of New). apply allocator_New.
  - destruct (popEnode_allocator s R F base from label A Hcap Hfrom Hneg
                Hpos) as (e1 & s1 & R1 & F1 & Hrun1 & A1 & _).
    rewrite Hrun in Hrun1. inversion Hrun1; subst. eauto.
  - destruct (pushEnode_allocator s R F e A ltac:(lia) He Hocc)
      as (s1 & R1 & r1 & Hrun1 & A1 & _).
    { intros E. destruct (H0 E) as (x & Hx & Hfree).
      destruct (ao_shape _ _ _ A) as (nb & cb & Hnb & HS & HC & HA & _).
      assert (Hvx : vn s x) by (unfold vn; lia).
      assert (Hvb : vb s 0).
      { apply (br_valid _ _ (ao_rings _ _ _ A)). left. reflexivity. }
      destruct (ao_free _ _ _ A 0 Hvb) as (_ & _ & Hf & _).
      assert (Hbx : Int.shr8 x = 0) by (apply shr8_block; lia).
      intros E0. apply (Hf x Hvx Hbx) in Hfree. rewrite E0 in Hfree.
      inversion Hfree. }
    rewrite Hrun in Hrun1. inversion Hrun1; subst. eauto.
  - destruct (addBlock_allocator s R F A Hcap) as (s1 & Hrun1 & A1 & _).
    rewrite Hrun in Hrun1. inversion Hrun1; subst. eauto.
  - destruct (findPlaces_ok s R F c0 crest fuel A Hcap)
      as (e1 & s1 & R1 & F1 & Hrun1 & A1 & _).
    { pose proof (ring_shorter s R F HeadO A). lia. }
    rewrite Hrun in Hrun1. inversion Hrun1; subst. eauto.
  - exists R, F. apply allocator_occupied; assumption.
  - exists R, F. apply allocator_sNinfo. exact A.
  - destruct (getV_without_conflict s R F fuel pre k r from A Hcap Hlen
                Hfrom Hocc Hnc) as (to1 & s1 & R1 & F1 & Hrun1 & A1 & _).
    rewrite Hrun in Hrun1. inversion Hrun1; subst. eauto.
Qed.

(** The state in which [popEnode] calls [transferBlock] when it takes the
    last free slot of block 1 in [state_closed]: the count of the block has
    just become 0. *)
Definition state_closed_taken : Cedar :=
  Eval vm_compute in sNum 1 0 state_closed.


(** C3 (amended): the rings of blocks as the code keeps them.  In [New] and
    in every state of the allocator ([allocated]: reached from [New] by
    [popEnode], [pushEnode], [addBlock] and [findPlaces], called as [follow]
    and [resolve] call them, by writes to occupied slots and node infos,
    and by calls of [getV] that meet no conflict), every block from 1 to
    below [Size >> 8] is in exactly one of the three rings and block 0 in
    none, the blocks of the Full ring have
    [Num = 0], each head is 0 exactly when its ring is empty, and the rings
    are well formed: the Closed and the Open ring cyclic over their
    members, the Full ring cyclic through block 0, its sentinel.
    [popBlock] (takes a member out), [pushBlock] (puts a block that is in
    no ring at the head of a ring, with the flag [empty] as the callers
    compute it) and [transferBlock] (moves a member to the head of another
    ring, with [Num = 0] exactly when the target is the Full ring) return
    and keep the rings well formed in that sense, changing nothing but
    [Prev], [Next] and the heads.  Block 0 is never moved: by their guards
    [bi != 0], [popEnode] and [pushEnode] on a slot of block 0 leave every
    [Prev], [Next] and head as it is, in every state. *)
Theorem block_rings_stay_well_formed :
  block_rings New (fun _ => []) /\
  (forall s, allocated s ->
     exists R, block_rings s R /\
       (forall b, b ∈ members R <-> 1 <= b < nblocks s) /\
       (forall h, headOf h s = 0 <-> R h = []) /\
       (forall b, b ∈ R HeadF -> Num (blk s b) = 0)) /\
  (forall s R h bi,
     block_rings s R -> bi ∈ R h ->
     exists s', popBlock bi h (bi =? nxtB s bi) s = Ok tt s' /\
                block_rings s' (removed bi h R) /\
                links_only s s') /\
  (forall s R h bi,
     block_rings s R -> vb s bi -> bi <> 0 -> bi ∉ members R ->
     exists s', pushBlock bi h (emptyFlag h (R h)) s = Ok tt s' /\
                block_rings s' (pushed bi h R) /\
                links_only s s') /\
  (forall s R hIn hOut bi,
     block_rings s R -> head_eqb hIn hOut = false -> bi ∈ R hIn ->
     (Num (blk s bi) = 0 <-> hOut = HeadF) ->
     exists s', transferBlock bi hIn hOut s = Ok tt s' /\
                block_rings s' (moved bi hIn hOut R) /\
                (forall b, b ∈ members (moved bi hIn hOut R)
                           <-> b ∈ members R) /\
                (forall h, headOf h s' = 0 <-> moved bi hIn hOut R h = []) /\
                links_only s s') /\
  (forall s base from label e s',
     0 <= base -> Int.shr8 (Int.xor base (b2z label)) = 0 ->
     popEnode base from label s = Ok e s' -> same_links s s') /\
  (forall s e s',
     Int.shr8 e = 0 -> pushEnode e s = Ok tt s' -> same_links s s').
Proof.
  split; [apply block_rings_New|].
  split.
  { intros s Hs. destruct (allocated_allocator s Hs) as (R & F & A).
    pose proof (ao_rings _ _ _ A) as HR.
    exists R. split; [exact HR|]. split; [|split].
    - intros b. split.
      + intros Hb. pose proof (ao_fresh _ _ _ A b Hb).
        destruct (allocator_block _ _ _ _ A Hb) as ([H0 _] & Hb0 & _). lia.
      + intros Hb. apply (ao_cover _ _ _ A). lia.
    - intros h. rewrite (br_head _ _ HR h).
      apply hd_ring_nonzero. apply (br_nodup _ _ HR).
    - intros b Hb.
      assert (Hm : b ∈ members R) by (eapply in_members; exact Hb).
      destruct (allocator_block _ _ _ _ A Hm) as (Hv & Hb0 & _).
      destruct (ao_free _ _ _ A b Hv) as (_ & _ & _ & Hn & _).
      pose proof (ao_classes _ _ _ A HeadF b Hb) as Hcl. simpl in Hcl.
      rewrite Hcl in Hn. simpl in Hn.
      destruct (Z.eqb_spec b 0); [contradiction|]. lia. }
  split; [intros s R h bi; apply popBlock_rings|].
  split; [intros s R h bi; apply pushBlock_rings|].
  split.
  { intros s R hIn hOut bi HR E Hbi Hnum.
    destruct (transferBlock_rings s R hIn hOut bi HR E Hbi Hnum)
      as (s' & Ht & HR' & Hlo).
    exists s'. split; [exact Ht|]. split; [exact HR'|].
    split; [intros b; apply members_moved; assumption|].
    split; [|exact Hlo].
    intros h. rewrite (br_head _ _ HR' h).
    apply hd_ring_nonzero. apply (br_nodup _ _ HR'). }
  split.
  - intros s base from label e s'. apply popEnode_block0.
  - intros s e s'. apply pushEnode_block0.
Qed.

(** C3, witness.  In [state_closed] block 1 is the one member of the Closed
    ring and has one free slot; when [popEnode] takes that slot the block
    is transferred to the Full ring, which closes through block 0.  The
    state after [getV "ab"] on [New] is a state of the allocator.  In the
    state with "ab", taking the free slot 98 of block 0 writes no link. *)
Lemma block_rings_stay_well_formed_witness :
  (exists s',
     transferBlock 1 HeadC HeadF state_closed_taken = Ok tt s' /\
     block_rings s' (moved 1 HeadC HeadF (rings_of state_closed_taken)) /\
     (forall b, b ∈ members (moved 1 HeadC HeadF
                               (rings_of state_closed_taken))
                <-> b ∈ members (rings_of state_closed_taken)) /\
     (forall h, headOf h s' = 0
                <-> moved 1 HeadC HeadF (rings_of state_closed_taken) h
                    = []) /\
     links_only state_closed_taken s') /\
  (exists R, block_rings state_ab_bare R /\
     (forall b, b ∈ members R <-> 1 <= b < nblocks state_ab_bare) /\
     (forall h, headOf h state_ab_bare = 0 <-> R h = []) /\
     (forall b, b ∈ R HeadF -> Num (blk state_ab_bare b) = 0)) /\
  same_links state_ab (stateOf (popEnode 1 0 "c" state_ab)).
Proof.
  destruct block_rings_stay_well_formed
    as (_ & Hall & _ & _ & Htransfer & Hpop & _).
  split; [|split].
  - apply (Htransfer state_closed_taken (rings_of state_closed_taken)
             HeadC HeadF 1).
    + apply block_rings_b_sound. vm_compute. reflexivity.
    + reflexivity.
    + vm_compute. left.
    + split; [reflexivity|intros _; reflexivity].
  - apply (Hall state_ab_bare).
    apply (al_getV New 8 [] "a" ["b"%byte] 0 256 state_ab_bare al_New).
    + vm_compute. reflexivity.
    + vm_compute. reflexivity.
    + vm_compute. split; [discriminate|reflexivity].
    + vm_compute. discriminate.
    + right. split; [vm_compute; reflexivity|].
      split; [vm_compute; discriminate|]. cbv zeta.
      split; [vm_compute; split; [discriminate|reflexivity]|].
      split; [vm_compute; reflexivity|].
      split; [vm_compute; split; [discriminate|reflexivity]|].
      intros H. vm_compute in H. discriminate.
    + vm_compute. reflexivity.
  - apply (Hpop state_ab 1 0 "c"%byte 98
             (stateOf (popEnode 1 0 "c" state_ab))).
    + lia.
    + vm_compute. reflexivity.
    + vm_compute. reflexivity.
Defined.

(** * [pushEnode] and the count of trials, as stated *)






(** * [findPlace] after a key with a zero byte inside *)

(** [state_nul], then a key of 95 bytes "x". *)
Definition key_x95 : list byte := replicate 95 "x"%byte.
Definition state_nul_x95 : Cedar :=
  Eval vm_compute in stateOf (getV 8 key_x95 0 0 state_nul).

(** C7, at the failing input.  After [getV] on the seven keys [keys_nul]
    (two of them with a zero byte inside) and on a key of 95 bytes,
    [findPlace] returns slot 355 and changes nothing, and slot 355 is
    occupied: its [Check] is 261, the slot of its parent. *)
Lemma findPlace_returns_occupied_slot :
  reachable state_nul_x95 /\
  findPlace state_nul_x95 = Ok 355 state_nul_x95 /\
  Check (nod state_nul_x95 355) = 261 /\
  occupied state_nul_x95 355.
Proof.
  split.
  { destruct reachable_state_nul as [h Hh].
    eexists. eapply hist_getV with (fuel := 8%nat) (key := key_x95);
      [exact Hh|].
    vm_compute. reflexivity. }
  split; [vm_compute; reflexivity|].
  split; [vm_compute; reflexivity|].
  eexists. split; [vm_compute; reflexivity|]. simpl. lia.
Qed.
